(* ===== verification/_CoqProject ===== *)
-Q . S2P
Prelude.v
Error.v
Float.v
VarInt.v
Text.v
Net.v
Address.v
Hy2Protocol.v
Channels.v
Hy2Packet.v
Hy2Reassembly.v
Hy2Idle.v
Congestion.v
Metrics.v
Transport.v
Streams.v
Socket.v
Http.v
Hy2Masquerade.v
Hy2Server.v
Hy2Client.v
Hy2Handshake.v
Hy2Session.v
Hy2Relay.v
Hy2Endpoint.v
SqWire.v
SqUdp.v
SqWait.v
SqTasks.v
SqShared.v
SqRelay.v
SqServer.v
SqReceiver.v
SqClient.v
SqEnds.v
SqConfig.v
SunnyQuic.v
SqEndpoint.v
H3Coding.v
QpackInt.v
Huffman.v
QpackString.v
QpackBlock.v
Qpack.v
