(* ===== verification/Prelude.v ===== *)
(** * Verification of sing-quic-rs

    This library models the Rust crate [sing-quic] ([src/src/]) and proves
    that its protocols do what they promise.  The crate proxies TCP and UDP
    over QUIC: Hysteria2 (an HTTP/3 authentication exchange, then framed
    streams and fragmented datagrams), ShadowQuic (authenticated in the TLS
    handshake by JLS) and SunnyQUIC (the same streams, authenticated by a
    credential on a stream of its own).

    ** The parts and their models

    - [Prelude]: bytes, machine integers with their wrap-around and
      saturation, big-endian encodings, list lemmas, tactics, hint databases.
    - [Error] ([error.rs]): the error type, [Result], the state-and-error
      monad that stands for [?], and the two halves of a stream.  A receiving
      half is the bytes that will arrive and how the stream ends; a sending
      half may refuse after any number of bytes.
    - [VarInt] ([varint.rs], [decode_varint] of [hysteria2/packet.rs]).
    - [Text], [Net]: what the code uses of the standard library's UTF-8,
      number and socket-address parsing and printing.
    - [Address] ([address.rs]).
    - [Hy2Protocol] ([hysteria2/protocol.rs]): the congestion header, the TCP
      request and response frames.
    - [Channels]: Tokio's bounded channels as a class with laws.
    - [Hy2Packet], [Hy2Reassembly], [Hy2Idle] ([hysteria2/packet.rs]): the
      datagram codec, the defragmenter, sending and receiving of packets, and
      the wait for an idle connection with the clock.
    - [Congestion] ([congestion.rs]): the switchable controller, with the
      shared state as cells of a heap.
    - [Transport], [Socket] ([transport.rs], [hysteria2/transport.rs],
      [shadowquic_transport_config]): transport settings and windows; the
      binding and tuning of sockets.
    - [Float], [Metrics] ([hysteria2/metrics.rs]): what the code uses of
      double-precision numbers, and the reports of the metrics task.
    - [Streams] ([hysteria2/stream.rs], [ShadowQuicStream] of
      [shadowquic/mod.rs]): the streams that the application gets.
    - [Http], [Hy2Masquerade], [Hy2Server], [Hy2Session], [Hy2Endpoint]
      ([hysteria2/server.rs]): the HTTP interface; the masquerade; admission
      of a connection; the event loop of an admitted one; the whole server
      with its accept task, renewals and close.
    - [Hy2Relay]: UDP from a sender's [send] through the event loop to the
      receiver's [recv].
    - [Hy2Client] ([hysteria2/client.rs]) and [Hy2Handshake], client and
      server together.
    - [SqWire], [SqUdp], [SqWait], [SqTasks], [SqShared], [SqServer],
      [SqReceiver], [SqClient], [SqConfig], [SqEndpoint] ([shadowquic/mod.rs]):
      addresses; one UDP association; the wait for a route instruction by
      instruction; the receiving tasks that both ends share; the sends of
      several associations over one connection; the server's authentication
      and the tasks of a connection; the receiver task of the client; the
      client; constructors, TLS settings and updates; the whole server.
    - [SqRelay], [SqEnds]: UDP from [send] on one end of a ShadowQuic
      connection to [recv] on the other: the invariant of the receiving tasks,
      and a client and a server put together in both directions.
    - [SunnyQuic] ([sunnyquic/mod.rs]): the public client and server of
      SunnyQUIC.
    - [H3Coding], [QpackInt], [Huffman], [QpackString], [QpackBlock],
      [Qpack] ([vendor/h3/src/proto/] and [vendor/h3/src/qpack/]): the header
      compression that the requests of the Hysteria2 exchange pass through.

    Functions of the code are definitions of the same name; a function that
    is one long [async fn] is split where the code waits or branches, and the
    parts carry names of their own.  A [select!] loop with the tasks it spawns
    is an inductive step relation over the state they share
    ([Hy2Session.step], [SqServer.task], [SqTasks.turn], [SqReceiver.loop],
    [Hy2Idle.task]): a task takes a step when what it waits for is there.
    Where the order of single instructions matters, they are the steps
    ([SqWait.step]).
    The relations of whole servers ([Hy2Endpoint.step], [SqEndpoint.step])
    are built on those of their connections.

    ** What the theorems show

    - Encodings: variable integers, Hysteria2 frames and ShadowQuic addresses
      read back as what was written and leave the rest of the stream; the
      textual form keeps exactly the canonical addresses; what a hostile peer
      sends is accepted only if it is well formed and bounded.
    - Hysteria2 UDP: datagrams fit the connection; the fragments of a packet
      reassemble to it in any order; the defragmenter cannot panic.  End to
      end, with sends that fail midway, datagrams that are lost or overtake
      each other and any interleaving of the loop and the application, what
      is received was sent, and what arrives completely is received or, when
      the queue is full, dropped.
    - Hysteria2 sessions: in every reachable state sessions are kept apart,
      and everything handed over carries the authenticated user.
    - Admission and handshake: only a correct request is admitted, everything
      else goes to the masquerade, and an admitted client and its server
      agree on the congestion control.
    - Congestion and windows: a switched controller is the one that was asked
      for, with its history; window arithmetic is exact and bounded.
    - ShadowQuic UDP: end to end and in both directions, with the
      associations of a connection sharing its ids and routes, sends that fail
      midway, streams cut off, datagrams lost or reordered and any
      interleaving of the tasks, an association's application gets that
      association's packets with their destinations, each once, in order over
      streams, and all of them when everything has come in; up to 65536
      destinations of a connection.
    - SunnyQUIC: nothing is proxied before a valid credential, under any
      interleaving; a client whose credential the server has is served.
    - Whole servers: everything a server hands to the application belongs to
      an authenticated connection and carries its user, through any
      interleaving of connections, tasks and renewals; a renewal of the
      certificate happens completely or not at all.
    - Liveness: [wait_inactive] returns once the connection is idle and not
      before; no wakeup of a task that waits for a route is lost; the client's
      receiver task delivers what was announced, and
      stalls as long as an announcement is missing.
    - Metrics: every reported rate is a finite number, never negative.
    - Sockets: a refused option or buffer size never fails an endpoint.
    - Streams: reads and writes of a proxied stream do not disturb each
      other, however they alternate.
    - Header compression: a header block decodes to the fields it was made
      from, and decoding is bounded by the limit.

    ** Library code

    QUIC, TLS, HTTP/3, sockets, hashing, random numbers and channels are not
    part of the crate's sources.  They are classes and records:
    [Controllers], [HttpLib], [HeaderValue], [Rng], [Mpsc], [Notify],
    [Digest] with the laws their documentation gives, and records of answers ([DatagramPath],
    [RequestStream], [Attempt], [Link], [Os], [Tls], ...) that quantify over
    whatever the library returns.  Each class with laws has a concrete instance, on which
    the examples evaluate.

    ** Fuel

    Loops over a stream take as fuel one more than the number of pending
    bytes; every round consumes at least one byte ([control_loop_ends]), so
    the fuel is never exhausted.  UTF-8 and digit loops take their input's
    length in the same way.  All other recursion is structural.

    ** What is not modelled

    The text of log messages, the poisoning of locks, and weaker memory
    orders: tasks interleave over one memory.  Of the HTTP/3 library that the
    repository carries, the dynamic table of QPACK (the exchange does not use
    it), frames and connections; the modified QUIC library is behind the
    interfaces above.  Every part of the crate's own sources is modelled; what
    is left of them are re-exports, [Debug] implementations and tests. *)

From Stdlib Require Import ZArith Lia.
From Stdlib Require Import Strings.Byte.
From stdpp Require Import base gmap list strings.

#[local] Open Scope Z_scope.

(** ** Hint databases

    [lens] normalises lengths of concatenations, slices and encodings; [wire]
    holds the facts about bytes and bounded integers that the framing proofs
    discharge side conditions with. *)

Create Rewrite HintDb lens.
Create HintDb wire.

(** ** Bytes *)

Abbreviation byte := Byte.byte.
Abbreviation bytes := (list byte).

(** The value of a byte, [u64::from(b)] and the like. *)
Definition bz (b : byte) : Z := Z.of_N (Byte.to_N b).

(** The cast [z as u8]: truncation to the low eight bits. *)
Definition zb (z : Z) : byte :=
  default Byte.x00 (Byte.of_N (Z.to_N (z mod 256))).

(** ASCII characters the textual formats are built from. *)
Module Ch.
Definition percent : byte := Byte.x25.
Definition plus : byte := Byte.x2b.
Definition dot : byte := Byte.x2e.
Definition zero : byte := Byte.x30.
Definition colon : byte := Byte.x3a.
Definition lbracket : byte := Byte.x5b.
Definition rbracket : byte := Byte.x5d.
End Ch.

(** A string literal as its UTF-8 bytes. *)
Definition str (s : string) : bytes := String.list_byte_of_string s.

(** [Vec::len] and [str::len], as a machine integer. *)
Definition len {A} (l : list A) : Z := Z.of_nat (length l).

#[global] Instance byte_eq_dec : EqDecision byte := Byte.byte_eq_dec.

#[global] Instance byte_countable : Countable byte :=
  inj_countable Byte.to_N Byte.of_N Byte.of_to_N.

Lemma bz_range b : 0 <= bz b < 256.
Proof.
  unfold bz. split; [lia|].
  pose proof (Byte.to_N_bounded b). lia.
Qed.

Lemma bz_zb z : bz (zb z) = z mod 256.
Proof.
  unfold bz, zb. pose proof (Z.mod_pos_bound z 256 ltac:(lia)).
  destruct (Byte.of_N (Z.to_N (z mod 256))) as [b|] eqn:E; simpl.
  - apply Byte.to_of_N in E. rewrite E. lia.
  - apply Byte.of_N_None_iff in E. lia.
Qed.

Lemma bz_inj a b : bz a = bz b -> a = b.
Proof.
  unfold bz. intros H%N2Z.inj.
  pose proof (Byte.of_to_N a). pose proof (Byte.of_to_N b). congruence.
Qed.

Lemma zb_bz b : zb (bz b) = b.
Proof. apply bz_inj. rewrite bz_zb. apply Z.mod_small, bz_range. Qed.

Lemma bz_zb_small z : 0 <= z < 256 -> bz (zb z) = z.
Proof. intros. rewrite bz_zb. by apply Z.mod_small. Qed.

Lemma zb_mod z : zb (z mod 256) = zb z.
Proof. apply bz_inj. rewrite !bz_zb. apply Z.mod_mod. lia. Qed.


(** ** Machine integers

    A [w]-bit unsigned integer is a [Z]; [uint w] is the range invariant of
    its Rust type and the operations write their wrap-around or saturation
    out. *)

Definition uint (w : Z) (z : Z) : Prop := 0 <= z < 2 ^ w.

#[global] Instance uint_dec w z : Decision (uint w z).
Proof. unfold uint. apply _. Defined.

Definition u8_max : Z := 255.
Definition u16_max : Z := 65535.
Definition u32_max : Z := 4294967295.
Definition u64_max : Z := 18446744073709551615.
Definition u128_max : Z := 340282366920938463463374607431768211455.

(** [wrapping_add] and [as uN]. *)
Definition wrap (w : Z) (z : Z) : Z := z mod 2 ^ w.

(** [saturating_mul], [saturating_sub] and [saturating_add] against the
    maximum of the type. *)
Definition sat (max z : Z) : Z := Z.min max (Z.max 0 z).

Lemma wrap_uint w z : 0 <= w -> uint w (wrap w z).
Proof. intros. apply Z.mod_pos_bound. lia. Qed.

Lemma wrap_small w z : uint w z -> wrap w z = z.
Proof. apply Z.mod_small. Qed.

Lemma sat_range max z : 0 <= max -> 0 <= sat max z <= max.
Proof. unfold sat. lia. Qed.

Lemma sat_id max z : 0 <= z <= max -> sat max z = z.
Proof. unfold sat. lia. Qed.

(** ** Big-endian integers: [to_be_bytes] and [from_be_bytes] *)

Fixpoint to_be (n : nat) (z : Z) : bytes :=
  match n with
  | O => []
  | S m => zb (Z.shiftr z (8 * Z.of_nat m)) :: to_be m z
  end.

Definition from_be (l : bytes) : Z := foldl (fun acc b => acc * 256 + bz b) 0 l.

Lemma length_to_be n z : length (to_be n z) = n.
Proof. induction n; simpl; congruence. Qed.

Lemma from_be_acc l acc :
  foldl (fun acc b => acc * 256 + bz b) acc l
  = acc * 256 ^ Z.of_nat (length l) + from_be l.
Proof.
  unfold from_be. revert acc. induction l as [|b l IH]; intros acc.
  { simpl. lia. }
  cbn [foldl length]. rewrite (IH (acc * 256 + bz b)), (IH (0 * 256 + bz b)).
  rewrite Nat2Z.inj_succ, Z.pow_succ_r by lia. lia.
Qed.

Lemma from_be_cons b l :
  from_be (b :: l) = bz b * 256 ^ Z.of_nat (length l) + from_be l.
Proof. unfold from_be at 1. cbn [foldl]. rewrite from_be_acc. lia. Qed.

Lemma from_be_range l : 0 <= from_be l < 256 ^ Z.of_nat (length l).
Proof.
  induction l as [|b l IH]; [simpl; unfold from_be; simpl; lia|].
  rewrite from_be_cons. cbn [length]. rewrite Nat2Z.inj_succ, Z.pow_succ_r by lia.
  pose proof (bz_range b). nia.
Qed.

Lemma from_to_be n z : from_be (to_be n z) = z mod 256 ^ Z.of_nat n.
Proof.
  induction n as [|n IH].
  { simpl. change (256 ^ Z.of_nat 0) with 1. by rewrite Z.mod_1_r. }
  cbn [to_be]. rewrite from_be_cons, length_to_be, IH, bz_zb.
  rewrite Z.shiftr_div_pow2 by lia.
  replace (2 ^ (8 * Z.of_nat n)) with (256 ^ Z.of_nat n)
    by (rewrite Z.pow_mul_r by lia; done).
  rewrite Nat2Z.inj_succ, Z.pow_succ_r by lia.
  rewrite (Z.mul_comm 256), Z.rem_mul_r by lia. lia.
Qed.

Lemma from_to_be_small n z :
  0 <= z < 256 ^ Z.of_nat n -> from_be (to_be n z) = z.
Proof. intros. rewrite from_to_be. by apply Z.mod_small. Qed.

Lemma from_be_inj l1 l2 :
  length l1 = length l2 -> from_be l1 = from_be l2 -> l1 = l2.
Proof.
  revert l2. induction l1 as [|b1 l1 IH]; intros [|b2 l2]; simpl; try done.
  intros [= Hlen]. rewrite !from_be_cons, Hlen. intros H.
  pose proof (from_be_range l1). pose proof (from_be_range l2).
  rewrite Hlen in *. set (p := 256 ^ Z.of_nat (length l2)) in *.
  assert (bz b1 = bz b2) as Hb by nia.
  f_equal; [by apply bz_inj|]. apply IH; [done|nia].
Qed.

Lemma to_from_be n l : length l = n -> to_be n (from_be l) = l.
Proof.
  intros Hl. apply from_be_inj; [by rewrite length_to_be|].
  apply from_to_be_small. rewrite <-Hl. apply from_be_range.
Qed.

(** ** Lists *)

Lemma len_nonneg {A} (l : list A) : 0 <= len l.
Proof. unfold len. lia. Qed.

Lemma len_nil {A} : len (@nil A) = 0.
Proof. done. Qed.

Lemma len_cons {A} (x : A) l : len (x :: l) = 1 + len l.
Proof. unfold len. simpl. lia. Qed.

Lemma len_app {A} (l1 l2 : list A) : len (l1 ++ l2) = len l1 + len l2.
Proof. unfold len. rewrite length_app. lia. Qed.

Lemma len_to_be n z : len (to_be n z) = Z.of_nat n.
Proof. unfold len. by rewrite length_to_be. Qed.

Lemma len_replicate {A} n (x : A) : len (replicate n x) = Z.of_nat n.
Proof. unfold len. by rewrite length_replicate. Qed.

Lemma len_zero {A} (l : list A) : len l = 0 <-> l = [].
Proof. unfold len. destruct l; simpl; split; [done|done|lia|done]. Qed.

Lemma to_nat_len {A} (l : list A) : Z.to_nat (len l) = length l.
Proof. unfold len. lia. Qed.

#[export] Hint Rewrite @len_nil @len_cons @len_app len_to_be @len_replicate : lens.
#[export] Hint Rewrite @length_app @length_cons length_to_be @length_take
  @length_drop @length_replicate : lens.

#[export] Hint Resolve bz_range len_nonneg from_be_range : wire.

(** Closes goals about lengths of wire data. *)
Ltac lens := autorewrite with lens in *; try lia; try done.

(** Case analysis on every [match] of the goal or of a hypothesis, keeping
    the equations and discarding the impossible cases. *)
Ltac split_matches :=
  repeat (case_match; simplify_eq/=; try done).

(** [slice::chunks]: consecutive pieces of [n] elements, the last one
    possibly shorter.  The fuel is the length of the slice: each piece of a
    non-empty slice takes at least one element when [n] is positive. *)
Fixpoint chunks_aux {A} (fuel n : nat) (l : list A) : list (list A) :=
  match fuel with
  | O => []
  | S fuel =>
      match l with
      | [] => []
      | _ => take n l :: chunks_aux fuel n (drop n l)
      end
  end.

Definition chunks {A} (n : nat) (l : list A) : list (list A) :=
  chunks_aux (length l) n l.

Section Chunks.
Context {A : Type} (n : nat) (Hn : (0 < n)%nat).
Implicit Types l : list A.

Lemma concat_chunks_aux fuel l :
  (length l <= fuel)%nat -> concat (chunks_aux fuel n l) = l.
Proof using Hn.
  revert l. induction fuel as [|f IH]; intros [|x l] Hl; simpl in *; try done; try lia.
  destruct n as [|m]; [lia|]. simpl. rewrite IH; [|rewrite length_drop; lia].
  by rewrite take_drop.
Qed.

Lemma concat_chunks l : concat (chunks n l) = l.
Proof using Hn. by apply concat_chunks_aux. Qed.

Lemma chunks_aux_bound fuel l :
  Forall (fun c => (0 < length c <= n)%nat) (chunks_aux fuel n l).
Proof using Hn.
  revert l. induction fuel as [|f IH]; intros [|x l]; simpl; constructor; auto.
  destruct n as [|m]; [lia|]. simpl. rewrite length_take. lia.
Qed.

Lemma chunks_bound l : Forall (fun c => (0 < length c <= n)%nat) (chunks n l).
Proof using Hn. apply chunks_aux_bound. Qed.

Lemma length_chunks_aux fuel l :
  (length l <= fuel)%nat ->
  (length (chunks_aux fuel n l) * n < length l + n)%nat /\
  (length l <= length (chunks_aux fuel n l) * n)%nat.
Proof using Hn.
  revert l. induction fuel as [|f IH]; intros [|x l] Hl; cbn [chunks_aux length] in *;
    try lia.
  specialize (IH (drop n (x :: l))). rewrite length_drop in IH.
  cbn [length] in *. set (c := length (chunks_aux f n _)) in *.
  destruct (decide (n <= S (length l))%nat); [lia|].
  assert (c = 0)%nat by nia. nia.
Qed.

(** The number of chunks is the quotient rounded up, [div_ceil]. *)
Lemma len_chunks l :
  len (chunks n l) = (len l + Z.of_nat n - 1) / Z.of_nat n.
Proof using Hn.
  destruct (length_chunks_aux (length l) l) as [H1 H2]; [done|].
  fold (chunks n l) in *. unfold len.
  apply (Z.div_unique_pos _ _ _ (len l + Z.of_nat n - 1 - Z.of_nat n * len (chunks n l)));
    unfold len; nia.
Qed.
End Chunks.

(** Lookup in a concatenation at the boundary. *)
Lemma take_app_exact {A} (l1 l2 : list A) n : length l1 = n -> take n (l1 ++ l2) = l1.
Proof. intros <-. by rewrite take_app_length. Qed.

Lemma drop_app_exact {A} (l1 l2 : list A) n : length l1 = n -> drop n (l1 ++ l2) = l2.
Proof. intros <-. by rewrite drop_app_length. Qed.
