(* ===== verification/Error.v ===== *)
(** * Errors, results and the two halves of a stream

    [src/error.rs] and the effects the rest of the crate threads through its
    calls: [Result], the [?] operator as the bind of a state-and-error monad
    (the state survives an error, as it does in the code), and the byte
    streams the framing functions read from and write to. *)

From Stdlib Require Import ZArith Lia.
From stdpp Require Import base gmap list strings.
From S2P Require Import Prelude.

#[local] Open Scope Z_scope.

(** ** Error types *)

(** [std::io::Error], by its kind. *)
Inductive IoError :=
| UnexpectedEof
| OtherIo (message : bytes).

(** [quinn::ConnectionError], the reasons a connection ends. *)
Inductive ConnectionError :=
| VersionMismatch
| TransportError (message : bytes)
| ConnectionClosed (error_code : Z) (reason : bytes)
| ApplicationClosed (error_code : Z) (reason : bytes)
| ResetByPeer
| TimedOut
| LocallyClosed
| CidsExhausted.

(** [quinn::ReadExactError]. *)
Inductive ReadExactError :=
| FinishedEarly (read : Z)
| ReadError (message : bytes).

(** The crate's error type.  Errors of libraries that the crate only passes
    on ([ConnectError], [WriteError], [rustls::Error]) are known by their
    rendering. *)
Inductive Error :=
| Io (e : IoError)
| Connection (e : ConnectionError)
| Connect (message : bytes)
| Write (message : bytes)
| Read (e : ReadExactError)
| Tls (message : bytes)
| QuicTls (message : bytes)
| InvalidPrivateKey
| InvalidServerName (name : bytes)
| InvalidAddress
| InvalidVarInt
| AuthenticationFailed (status : Z)
| JlsAuthenticationFailed
| Protocol (message : bytes)
| Http3 (message : bytes)
| CongestionControl
| Closed.

#[global] Instance IoError_eq_dec : EqDecision IoError.
Proof. solve_decision. Defined.
#[global] Instance ConnectionError_eq_dec : EqDecision ConnectionError.
Proof. solve_decision. Defined.
#[global] Instance ReadExactError_eq_dec : EqDecision ReadExactError.
Proof. solve_decision. Defined.
#[global] Instance Error_eq_dec : EqDecision Error.
Proof. solve_decision. Defined.

(** ** Results *)

Inductive Result (A : Type) :=
| Ok (a : A)
| Err (e : Error).
Arguments Ok {A} a.
Arguments Err {A} e.

#[global] Instance Result_eq_dec {A} `{EqDecision A} : EqDecision (Result A).
Proof. solve_decision. Defined.

Definition rbind {A B} (r : Result A) (k : A -> Result B) : Result B :=
  match r with Ok a => k a | Err e => Err e end.

Definition ok_or {A} (o : option A) (e : Error) : Result A :=
  match o with Some a => Ok a | None => Err e end.

Definition is_ok {A} (r : Result A) : bool :=
  match r with Ok _ => true | Err _ => false end.

(** ** Panics

    Code that indexes or unwraps either returns or panics; the outcome is
    explicit where a theorem shows that it does not panic. *)

Inductive Outcome (A : Type) :=
| Returns (a : A)
| Panics.
Arguments Returns {A} a.
Arguments Panics {A}.

(** ** Stateful fallible code *)

Definition M (S A : Type) : Type := S -> Result A * S.

Definition mret {S A} (a : A) : M S A := fun s => (Ok a, s).
Definition mfail {S A} (e : Error) : M S A := fun s => (Err e, s).
Definition mlift {S A} (r : Result A) : M S A := fun s => (r, s).
Definition mbind {S A B} (c : M S A) (k : A -> M S B) : M S B :=
  fun s => match c s with
           | (Ok a, s') => k a s'
           | (Err e, s') => (Err e, s')
           end.

Declare Scope rust_scope.
Delimit Scope rust_scope with rust.
Notation "'let?' x ':=' c 'in' k" := (rbind c (fun x => k))
  (at level 10, x pattern, c at level 200, k at level 200)
  : rust_scope.
Notation "'let*' x ':=' c 'in' k" := (mbind c (fun x => k))
  (at level 10, x pattern, c at level 200, k at level 200)
  : rust_scope.
#[local] Open Scope rust_scope.

Lemma mbind_ok {S A B} (c : M S A) (k : A -> M S B) s a s' :
  c s = (Ok a, s') -> mbind c k s = k a s'.
Proof. unfold mbind. by intros ->. Qed.

Lemma mbind_err {S A B} (c : M S A) (k : A -> M S B) s e s' :
  c s = (Err e, s') -> mbind c k s = (Err e, s').
Proof. unfold mbind. by intros ->. Qed.

Lemma mbind_assoc {S A B C} (c : M S A) (k : A -> M S B) (h : B -> M S C) s :
  mbind (mbind c k) h s = mbind c (fun a => mbind (k a) h) s.
Proof. unfold mbind. by destruct (c s) as [[]?]. Qed.

Lemma mbind_ok_inv {S A B} (c : M S A) (k : A -> M S B) s b s' :
  mbind c k s = (Ok b, s') -> exists a s1, c s = (Ok a, s1) /\ k a s1 = (Ok b, s').
Proof. unfold mbind. destruct (c s) as [[a|e] s1]; intros; simplify_eq. eauto. Qed.

(** ** The receiving half of a stream

    [pending] are the bytes the peer will have delivered before the stream
    ends; [ending] says how it ends: [None] is a clean finish, [Some e] a
    failure of the transport.  An operation that has to wait for bytes has
    its result here as soon as the bytes are known. *)

Record RecvHalf := {
  pending : bytes;
  ending : option Error;
}.

(** Fills a buffer of [n] bytes or fails, consuming what was there. *)
Definition fill_exact (short : Z -> Error) (n : nat) : M RecvHalf bytes :=
  fun s =>
    if decide (n <= length (pending s))%nat
    then (Ok (take n (pending s)),
          {| pending := drop n (pending s); ending := ending s |})
    else (Err (default (short (len (pending s))) (ending s)),
          {| pending := []; ending := ending s |}).

(** [AsyncReadExt::read_exact] of Tokio: a short stream is [UnexpectedEof]. *)
Definition read_exact (n : nat) : M RecvHalf bytes :=
  fill_exact (fun _ => Io UnexpectedEof) n.

(** [AsyncReadExt::read_u8]. *)
Definition read_u8 : M RecvHalf byte :=
  let* l := read_exact 1 in
  match l with
  | [b] => mret b
  | _ => mfail (Io UnexpectedEof)
  end.

(** [quinn::RecvStream::read_exact]: a short stream is [FinishedEarly]. *)
Definition quic_read_exact (n : nat) : M RecvHalf bytes :=
  fill_exact (fun got => Read (FinishedEarly got)) n.

(** ** The sending half of a stream

    [room] bounds how many more bytes the stream takes before it fails with
    [broken] ([None]: it never fails).  A failed write leaves the prefix that
    fitted.  Flushing a QUIC stream does nothing. *)

Record SendHalf := {
  written : bytes;
  room : option nat;
  broken : Error;
}.

Definition write_all (l : bytes) : M SendHalf unit :=
  fun s =>
    match room s with
    | None => (Ok tt, {| written := written s ++ l; room := None; broken := broken s |})
    | Some r =>
        if decide (length l <= r)%nat
        then (Ok tt, {| written := written s ++ l;
                        room := Some (r - length l)%nat; broken := broken s |})
        else (Err (broken s), {| written := written s ++ take r l;
                                 room := Some 0%nat; broken := broken s |})
    end.

Definition write_u8 (b : byte) : M SendHalf unit := write_all [b].
Definition flush : M SendHalf unit := mret tt.

(** ** Reading what was written *)

Lemma fill_exact_app short n l rest e :
  length l = n ->
  fill_exact short n {| pending := l ++ rest; ending := e |}
  = (Ok l, {| pending := rest; ending := e |}).
Proof.
  intros Hl. unfold fill_exact. simpl. rewrite length_app.
  rewrite decide_True by lia. by rewrite take_app_exact, drop_app_exact.
Qed.

Lemma read_exact_app n l rest e :
  length l = n ->
  read_exact n {| pending := l ++ rest; ending := e |}
  = (Ok l, {| pending := rest; ending := e |}).
Proof. apply fill_exact_app. Qed.

Lemma quic_read_exact_app n l rest e :
  length l = n ->
  quic_read_exact n {| pending := l ++ rest; ending := e |}
  = (Ok l, {| pending := rest; ending := e |}).
Proof. apply fill_exact_app. Qed.

Lemma read_u8_cons b rest e :
  read_u8 {| pending := b :: rest; ending := e |}
  = (Ok b, {| pending := rest; ending := e |}).
Proof. done. Qed.

Lemma read_u8_nil e :
  read_u8 {| pending := []; ending := e |}
  = (Err (default (Io UnexpectedEof) e), {| pending := []; ending := e |}).
Proof. done. Qed.

Lemma read_exact_ok n s l s' :
  read_exact n s = (Ok l, s') -> length l = n /\ pending s = l ++ pending s' /\ ending s' = ending s.
Proof.
  unfold read_exact, fill_exact. case_decide; intros [= <- <-]. simpl.
  rewrite length_take, take_drop. split_and!; [lia|done..].
Qed.

(** What a reader that succeeded consumed is a prefix of what was pending. *)
Definition consumes {A} (c : M RecvHalf A) : Prop :=
  forall s r s', c s = (r, s') ->
    ending s' = ending s /\ exists l, pending s = l ++ pending s'.

Lemma fill_exact_consumes short n : consumes (fill_exact short n).
Proof.
  intros s r s'. unfold fill_exact. case_decide; intros; simplify_eq/=; split; try done.
  - exists (take n (pending s)). by rewrite take_drop.
  - exists (pending s). by rewrite app_nil_r.
Qed.

Lemma mret_consumes {A} (a : A) : consumes (mret a).
Proof. intros s r s' [= <- <-]. split; [done|]. by exists []. Qed.

Lemma mfail_consumes {A} e : consumes (@mfail RecvHalf A e).
Proof. intros s r s' [= <- <-]. split; [done|]. by exists []. Qed.

Lemma mlift_consumes {A} (x : Result A) : consumes (mlift x).
Proof. intros s r s' [= <- <-]. split; [done|]. by exists []. Qed.

Lemma mbind_consumes {A B} (c : M RecvHalf A) (k : A -> M RecvHalf B) :
  consumes c -> (forall a, consumes (k a)) -> consumes (mbind c k).
Proof.
  intros Hc Hk s r s'. unfold mbind. destruct (c s) as [[a|e] s1] eqn:E; intros H.
  - apply Hc in E as [He1 [l1 Hl1]]. apply Hk in H as [He2 [l2 Hl2]].
    split; [congruence|]. exists (l1 ++ l2). by rewrite Hl1, Hl2, app_assoc.
  - simplify_eq. by apply Hc in E.
Qed.

Create HintDb consumes.
#[export] Hint Resolve fill_exact_consumes mret_consumes mfail_consumes
  mlift_consumes mbind_consumes : consumes.

(** A reader that succeeds does the same when more follows. *)
Definition stable {A} (c : M RecvHalf A) : Prop :=
  forall l en a l' en' rest, c {| pending := l; ending := en |} = (Ok a, {| pending := l'; ending := en' |}) ->
    c {| pending := l ++ rest; ending := en |} = (Ok a, {| pending := l' ++ rest; ending := en' |}).

Lemma fill_exact_stable short n : stable (fill_exact short n).
Proof.
  intros l en a l' en' rest. unfold fill_exact. simpl. case_decide; [|done]. intros [= <- <- <-].
  rewrite decide_True by (rewrite length_app; lia). by rewrite take_app_le, drop_app_le.
Qed.

Lemma mret_stable {A} (a : A) : stable (mret a).
Proof. by intros l en b l' en' rest [= <- <- <-]. Qed.

Lemma mfail_stable {A} e : stable (@mfail RecvHalf A e).
Proof. by intros l en b l' en' rest [=]. Qed.

Lemma mlift_stable {A} (x : Result A) : stable (mlift x).
Proof. by intros l en b l' en' rest [= -> <- <-]. Qed.

Lemma mbind_stable {A B} (c : M RecvHalf A) (k : A -> M RecvHalf B) :
  stable c -> (forall a, stable (k a)) -> stable (mbind c k).
Proof.
  intros Hc Hk l en b l' en' rest. unfold mbind.
  destruct (c _) as [[a|e] [l1 en1]] eqn:E; [|done]. intros H.
  by rewrite (Hc _ _ _ _ _ rest E), (Hk _ _ _ _ _ _ rest H).
Qed.

#[export] Hint Resolve fill_exact_stable mret_stable mfail_stable mlift_stable mbind_stable : consumes.

(** So it fails on what a frame that it reads is cut off to. *)
Lemma stable_cut {A} (c : M RecvHalf A) l rest a en :
  stable c -> c {| pending := l ++ rest; ending := en |} = (Ok a, {| pending := []; ending := en |}) ->
  rest <> [] -> forall x, (c {| pending := l; ending := en |}).1 <> Ok x.
Proof.
  intros Hc Hfull Hne x Hx. destruct (c {| pending := l; ending := en |}) as [r [l' en']] eqn:E.
  simpl in Hx. subst r. apply (Hc _ _ _ _ _ rest) in E. rewrite Hfull in E.
  injection E as _ E. symmetry in E. by apply app_nil in E as [_ ?].
Qed.

(** A write that fails has written a part and leaves a stream that takes
    nothing. *)
Lemma write_all_err l s e s' :
  write_all l s = (Err e, s') ->
  exists n, room s = Some n /\ (n < length l)%nat /\ written s' = written s ++ take n l /\
    room s' = Some 0%nat.
Proof.
  unfold write_all. destruct (room s) as [r|]; [|done]. case_decide; [done|].
  intros [= _ <-]. exists r. simpl. split_and!; [done|lia|done..].
Qed.

(** ** Writing to an open stream *)

(** A half that takes everything that is written to it. *)
Definition open_send (w : bytes) (e : Error) : SendHalf :=
  {| written := w; room := None; broken := e |}.

Lemma write_all_open l w e :
  write_all l (open_send w e) = (Ok tt, open_send (w ++ l) e).
Proof. done. Qed.

(** Consecutive writes are one write of the concatenation, failures
    included: a framing function that writes its fields one by one is a
    single [write_all] of the frame. *)
Lemma write_all_app l1 l2 s :
  mbind (write_all l1) (fun _ => write_all l2) s = write_all (l1 ++ l2) s.
Proof.
  destruct s as [w [r|] e]; unfold mbind, write_all; simpl; [|by rewrite app_assoc].
  rewrite length_app.
  destruct (decide (length l1 <= r)%nat) as [H1|H1]; simpl.
  - destruct (decide (length l2 <= r - length l1)%nat) as [H2|H2]; simpl.
    + rewrite decide_True by lia. rewrite app_assoc.
      by replace (r - length l1 - length l2)%nat with (r - (length l1 + length l2))%nat by lia.
    + rewrite decide_False by lia. rewrite take_app_ge by lia. by rewrite app_assoc.
  - rewrite decide_False by lia. by rewrite take_app_le by lia.
Qed.

Lemma write_all_nil s : write_all [] s = (Ok tt, s).
Proof.
  destruct s as [w [r|] e]; unfold write_all; simpl; rewrite app_nil_r; [|done].
  by rewrite Nat.sub_0_r.
Qed.

(** ** Framing: what a writer writes and what a reader reads

    [writes c l]: whatever the stream does, [c] behaves as the single write
    of [l].  [reads c l a]: on any stream that starts with [l], [c] returns
    [a] and leaves the rest.  Both compose along the bind. *)

Definition writes (c : M SendHalf unit) (l : bytes) : Prop :=
  forall s, c s = write_all l s.

Definition reads {A} (c : M RecvHalf A) (l : bytes) (a : A) : Prop :=
  forall rest e, c {| pending := l ++ rest; ending := e |}
                 = (Ok a, {| pending := rest; ending := e |}).

Lemma writes_all l : writes (write_all l) l.
Proof. done. Qed.

Lemma writes_u8 b : writes (write_u8 b) [b].
Proof. done. Qed.

Lemma writes_flush : writes flush [].
Proof. intros s. by rewrite write_all_nil. Qed.

Lemma writes_bind c k l1 l2 :
  writes c l1 -> (forall u, writes (k u) l2) -> writes (mbind c k) (l1 ++ l2).
Proof.
  intros Hc Hk s. rewrite <-write_all_app. unfold mbind. rewrite Hc.
  destruct (write_all l1 s) as [[[]|e] s']; [apply Hk|done].
Qed.

Lemma reads_exact n l : length l = n -> reads (read_exact n) l l.
Proof. intros Hl rest e. by apply read_exact_app. Qed.

Lemma reads_quic_exact n l : length l = n -> reads (quic_read_exact n) l l.
Proof. intros Hl rest e. by apply quic_read_exact_app. Qed.

Lemma reads_u8 b : reads read_u8 [b] b.
Proof. done. Qed.

Lemma reads_ret {A} (a : A) : reads (mret a) [] a.
Proof. done. Qed.

Lemma reads_lift {A} (r : Result A) a : r = Ok a -> reads (mlift r) [] a.
Proof. by intros ->. Qed.

Lemma reads_bind {A B} (c : M RecvHalf A) (k : A -> M RecvHalf B) l1 l2 a b :
  reads c l1 a -> reads (k a) l2 b -> reads (mbind c k) (l1 ++ l2) b.
Proof.
  intros Hc Hk rest e. rewrite <-app_assoc. erewrite mbind_ok by apply Hc. apply Hk.
Qed.

Lemma reads_last {A} (c : M RecvHalf A) l a : reads c (l ++ []) a -> reads c l a.
Proof. by rewrite app_nil_r. Qed.

Create HintDb framing.
#[export] Hint Resolve writes_all writes_u8 writes_flush writes_bind : framing.
#[export] Hint Resolve reads_exact reads_quic_exact reads_u8 reads_ret reads_lift : framing.
