(* ===== verification/Float.v ===== *)
(** * Double-precision numbers

    The [f64] arithmetic that the metrics of [src/src/hysteria2/metrics.rs]
    and the statistics reply of [src/src/shadowquic/mod.rs] use: the
    Standard Library's executable specification of IEEE 754 at 53 bits of
    precision, rounding to nearest, ties to even.  The lemmas bound the
    results: a number is [below b] when it is not negative and less than
    [2 ^ b], and [above a] when it is at least [2 ^ a]. *)

From Stdlib Require Import ZArith Lia.
From Stdlib Require Import Floats.SpecFloat.
From stdpp Require Import base list.
From S2P Require Import Prelude.

#[local] Open Scope Z_scope.

Module F64.

Definition prec : Z := 53.
Definition emax : Z := 1024.

Definition f64 : Type := spec_float.

(** [z as f64] for an unsigned integer. *)
Definition of_int (z : Z) : f64 := binary_normalize prec emax z 0 false.

Definition mul : f64 -> f64 -> f64 := SFmul prec emax.
Definition div : f64 -> f64 -> f64 := SFdiv prec emax.
Definition add : f64 -> f64 -> f64 := SFadd prec emax.

(** [f64::max]: the other number when one is NaN. *)
Definition max (x y : f64) : f64 :=
  match SFcompare x y with
  | Some Lt => y
  | Some _ => x
  | None => match x with S754_nan => y | _ => x end
  end.

(** The literal [0.001], which is the number next to one thousandth. *)
Definition thousandth : f64 := div (of_int 1) (of_int 1000).

(** [Duration::as_secs_f64] of a duration in nanoseconds. *)
Definition as_secs_f64 (nanos : Z) : f64 :=
  add (of_int (nanos / 1000000000)) (div (of_int (nanos mod 1000000000)) (of_int 1000000000)).

(** [f64::to_bits]. *)
Definition to_bits (x : f64) : Z :=
  let sign (s : bool) := if s then 2 ^ 63 else 0 in
  match x with
  | S754_zero s => sign s
  | S754_infinity s => sign s + Z.shiftl 2047 52
  | S754_nan => Z.shiftl 4095 51
  | S754_finite s m e =>
      sign s +
      if Zpos (digits2_pos m) =? prec
      then Z.shiftl (e + 1075) 52 + (Zpos m - 2 ^ 52)
      else Zpos m
  end.

Definition to_be_bytes (x : f64) : bytes := to_be 8 (to_bits x).

Example thousandth_bits : to_bits thousandth = 0x3F50624DD2F1A9FC.
Proof. reflexivity. Qed.

Example as_secs_bits : to_bits (as_secs_f64 1500000000) = 0x3FF8000000000000.
Proof. reflexivity. Qed.

(** ** Bounds *)

Lemma digits_log2 p : Zpos (digits2_pos p) = Z.log2 (Zpos p) + 1.
Proof.
  assert (forall p, Z.log2 (Zpos p~0) = Z.log2 (Zpos p) + 1) as H0.
  { intros q. change (Zpos q~0) with (2 * Zpos q). rewrite Z.log2_double; lia. }
  assert (forall p, Z.log2 (Zpos p~1) = Z.log2 (Zpos p) + 1) as H1.
  { intros q. change (Zpos q~1) with (2 * Zpos q + 1). rewrite Z.log2_succ_double; lia. }
  induction p as [p IH|p IH|]; simpl digits2_pos; rewrite ?Pos2Z.inj_succ, ?IH, ?H0, ?H1; done || lia.
Qed.

(** The value [m * 2 ^ e] is less than [2 ^ b]. *)
Definition fits (b m e : Z) : Prop := 0 <= m /\ e <= b /\ m < 2 ^ (b - e).

Definition below (b : Z) (x : f64) : Prop :=
  match x with
  | S754_zero s => s = false
  | S754_finite s m e => s = false /\ fits b (Zpos m) e
  | _ => False
  end.

(** The value is positive and at least [2 ^ a]. *)
Definition above (a : Z) (x : f64) : Prop :=
  match x with
  | S754_finite s m e => s = false /\ a <= Z.log2 (Zpos m) + e
  | _ => False
  end.

(** Neither infinite nor NaN, nor negative. *)
Definition proper (x : f64) : Prop := exists b, below b x.

Lemma fits_log2 b m e : 0 < m -> fits b m e <-> Z.log2 m + e < b.
Proof.
  intros Hm. unfold fits. pose proof (Z.log2_nonneg m). split.
  - intros (_ & He & Hl). apply Z.log2_lt_pow2 in Hl; lia.
  - intros Hl. split; [lia|]. split; [lia|]. apply Z.log2_lt_pow2; lia.
Qed.

Lemma fits_weaken b b' m e : fits b m e -> b <= b' -> fits b' m e.
Proof.
  intros (H0 & He & Hl) Hb. split_and!; [done|lia|].
  eapply Z.lt_le_trans; [exact Hl|]. apply Z.pow_le_mono_r; lia.
Qed.

Lemma below_weaken b b' x : below b x -> b <= b' -> below b' x.
Proof. destruct x; simpl; try done. intros [-> Hf] Hb. split; [done|]. by eapply fits_weaken. Qed.

(** ** Rounding *)

Lemma shr_1_div mrs : 0 <= shr_m mrs -> shr_m (shr_1 mrs) = shr_m mrs / 2.
Proof.
  destruct mrs as [[|[p|p|]|p] r s]; simpl; intros H; try lia; try done.
  - change (Zpos p~1) with (2 * Zpos p + 1).
    by rewrite Z.add_comm, Z.mul_comm, Z.div_add by lia.
  - change (Zpos p~0) with (2 * Zpos p). by rewrite Z.mul_comm, Z.div_mul.
Qed.

Lemma iter_shr_div p mrs :
  0 <= shr_m mrs -> shr_m (SpecFloat.iter_pos shr_1 p mrs) = shr_m mrs / 2 ^ Zpos p.
Proof.
  revert mrs. induction p as [p IH|p IH|]; intros mrs Hm; cbn [SpecFloat.iter_pos].
  - assert (0 <= shr_m (shr_1 mrs)) by (rewrite shr_1_div by done; apply Z.div_pos; lia).
    rewrite !IH, shr_1_div; [|done..|rewrite IH by done; apply Z.div_pos; lia].
    rewrite !Z.div_div by lia. f_equal. rewrite <-Z.pow_add_r by lia.
    replace (Zpos p~1) with (1 + (Zpos p + Zpos p)) by lia. by rewrite (Z.pow_add_r 2 1) by lia.
  - rewrite !IH; [|done|rewrite IH by done; apply Z.div_pos; lia].
    rewrite Z.div_div by lia. f_equal. rewrite <-Z.pow_add_r by lia. f_equal. lia.
  - by apply shr_1_div.
Qed.

(** What the shift to the precision leaves. *)
Lemma shr_fexp_spec m e l :
  0 <= m -> let n := Z.max 0 (fexp prec emax (Zdigits2 m + e) - e) in
  shr_m (shr_fexp prec emax m e l).1 = m / 2 ^ n /\ (shr_fexp prec emax m e l).2 = e + n.
Proof.
  intros Hm n. unfold shr_fexp, shr.
  assert (shr_m (shr_record_of_loc m l) = m) as Hl by (by destruct l as [|[]]).
  destruct (fexp prec emax (Zdigits2 m + e) - e) as [|p|p] eqn:E; unfold n; simpl fst; simpl snd.
  - rewrite Hl, Z.max_id, Z.div_1_r by done. split; [done|lia].
  - rewrite iter_shr_div, Hl by (by rewrite Hl). by rewrite Z.max_r by lia.
  - rewrite Hl, Z.max_l, Z.div_1_r by lia. split; [done|lia].
Qed.

Lemma Zdigits2_log2 m : 0 <= m -> Zdigits2 m = if decide (m = 0) then 0 else Z.log2 m + 1.
Proof. destruct m as [|p|p]; simpl Zdigits2; [done| |lia]. intros _. by rewrite digits_log2. Qed.

Lemma shr_fexp_fits b m e l :
  fits b m e -> -1074 <= b ->
  fits b (shr_m (shr_fexp prec emax m e l).1) (shr_fexp prec emax m e l).2.
Proof.
  intros Hf Hb. pose proof Hf as (Hm & He & Hl).
  destruct (shr_fexp_spec m e l Hm) as [-> ->]. set (n := Z.max 0 _).
  assert (Zdigits2 m + e <= b) as Hd.
  { rewrite Zdigits2_log2 by done. case_decide; [lia|]. apply fits_log2 in Hf; lia. }
  assert (e + n <= b) as Hn.
  { unfold n, fexp, SpecFloat.emin, prec, emax. lia. }
  split_and!; [apply Z.div_pos; lia|done|]. apply Z.div_lt_upper_bound; [apply Z.pow_pos_nonneg; lia|].
  rewrite <-Z.pow_add_r by lia. by replace (n + (b - (e + n))) with (b - e) by lia.
Qed.

Lemma shr_fexp_log2 a m e l :
  0 < m -> a <= Z.log2 m + e -> -1022 <= a ->
  0 < shr_m (shr_fexp prec emax m e l).1 /\
  a <= Z.log2 (shr_m (shr_fexp prec emax m e l).1) + (shr_fexp prec emax m e l).2.
Proof.
  intros Hm Ha Hlow. destruct (shr_fexp_spec m e l ltac:(lia)) as [-> ->]. set (n := Z.max 0 _).
  assert (0 <= n <= Z.log2 m) as Hn.
  { unfold n. rewrite Zdigits2_log2, decide_False by lia. pose proof (Z.log2_nonneg m).
    unfold fexp, SpecFloat.emin, prec, emax. lia. }
  rewrite <-Z.shiftr_div_pow2, Z.log2_shiftr by lia. split; [|lia].
  apply Z.lt_nge. intros Hle. assert (Z.shiftr m n = 0) as E.
  { pose proof (proj2 (Z.shiftr_nonneg m n) ltac:(lia)). lia. }
  apply Z.shiftr_eq_0_iff in E. lia.
Qed.

Lemma round_even_range m l : m <= round_nearest_even m l <= m + 1.
Proof. destruct l as [|[]]; simpl; [lia| |lia..]. destruct (Z.even m); lia. Qed.

Lemma round_aux_below b m e l :
  fits b m e -> -1074 <= b <= 970 -> below (b + 1) (binary_round_aux prec emax false m e l).
Proof.
  intros Hf Hb. unfold binary_round_aux. pose proof (shr_fexp_fits b m e l Hf ltac:(lia)) as H1.
  destruct (shr_fexp prec emax m e l) as [mrs e1]. simpl in H1.
  set (m1 := round_nearest_even _ _). pose proof (round_even_range (shr_m mrs) (loc_of_shr_record mrs)) as Hr.
  fold m1 in Hr. assert (fits (b + 1) m1 e1) as H2.
  { destruct H1 as (Hm & He & Hl). split_and!; [lia|lia|].
    replace (b + 1 - e1) with (1 + (b - e1)) by lia. rewrite Z.pow_add_r by lia. lia. }
  apply (shr_fexp_fits _ _ _ loc_Exact) in H2; [|lia].
  destruct (shr_fexp prec emax m1 e1 loc_Exact) as [mrs2 e2]. simpl in H2.
  destruct (shr_m mrs2) as [|p|p]; [done| |by destruct H2 as (? & _)].
  pose proof H2 as (_ & He2 & _). unfold emax, prec.
  destruct (Z.leb_spec e2 (1024 - 53)); [done|lia].
Qed.

Lemma round_aux_above a b m e l :
  0 < m -> fits b m e -> b <= 970 -> a <= Z.log2 m + e -> -1022 <= a ->
  above a (binary_round_aux prec emax false m e l).
Proof.
  intros Hm Hf Hb Ha Hlow. assert (-1074 <= b) as Hb' by (apply fits_log2 in Hf; lia).
  pose proof (round_aux_below b m e l Hf ltac:(lia)) as Hbelow. revert Hbelow.
  unfold binary_round_aux. destruct (shr_fexp_log2 a m e l Hm Ha Hlow) as [H1 H2].
  destruct (shr_fexp prec emax m e l) as [mrs e1]. simpl in H1, H2.
  set (m1 := round_nearest_even _ _). pose proof (round_even_range (shr_m mrs) (loc_of_shr_record mrs)) as Hr.
  fold m1 in Hr. destruct (shr_fexp_log2 a m1 e1 loc_Exact) as [H3 H4]; [lia| |lia|].
  { pose proof (Z.log2_le_mono (shr_m mrs) m1 ltac:(lia)). lia. }
  destruct (shr_fexp prec emax m1 e1 loc_Exact) as [mrs2 e2]. simpl in H3, H4.
  destruct (shr_m mrs2) as [|p|p]; [lia| |lia]. destruct (Z.leb e2 (emax - prec)); [|done]. done.
Qed.

(** ** Operations *)

Lemma shl_align_value m e e' :
  let '(m', e1) := shl_align m e e' in
  e1 = Z.min e e' /\ Zpos m' = Zpos m * 2 ^ (e - e1).
Proof.
  unfold shl_align. destruct (e' - e) as [|p|p] eqn:E.
  - rewrite Z.sub_diag, Z.mul_1_r. split; lia.
  - rewrite Z.sub_diag, Z.mul_1_r. split; lia.
  - replace (e - e') with (Zpos p) by lia. split; [lia|].
    clear. induction p as [|p IH] using Pos.peano_ind; [simpl; lia|].
    rewrite Pos.iter_succ, Pos2Z.inj_succ, Z.pow_succ_r by lia.
    change (Zpos (Pos.iter xO m p)~0) with (2 * Zpos (Pos.iter xO m p)). rewrite IH. lia.
Qed.

Lemma binary_round_align b m e :
  fits b (Zpos m) e -> exists m' e',
    binary_round prec emax false m e = binary_round_aux prec emax false (Zpos m') e' loc_Exact /\
    fits b (Zpos m') e' /\ Z.log2 (Zpos m') + e' = Z.log2 (Zpos m) + e.
Proof.
  intros Hf. unfold binary_round.
  pose proof (shl_align_value m e (fexp prec emax (Zpos (digits2_pos m) + e))) as Hs.
  destruct (shl_align m e _) as [m' e1]. destruct Hs as [He1 Hm']. exists m', e1. split; [done|].
  assert (Z.log2 (Zpos m') + e1 = Z.log2 (Zpos m) + e) as Hlog.
  { rewrite Hm', Z.log2_mul_pow2; lia. }
  split; [|done]. apply fits_log2 in Hf; [apply fits_log2|]; lia.
Qed.

Lemma normalize_below b m e :
  fits b m e -> -1074 <= b <= 970 -> below (b + 1) (binary_normalize prec emax m e false).
Proof.
  intros Hf Hb. destruct m as [|m|m]; [done| |by destruct Hf as (? & _)]. unfold binary_normalize.
  destruct (binary_round_align b m e Hf) as (m' & e' & -> & Hf' & _). by apply round_aux_below.
Qed.

Lemma of_int_below z : uint 64 z -> below 65 (of_int z).
Proof.
  intros [H0 H1]. apply (normalize_below 64); [|lia]. split_and!; [done|lia|]. by rewrite Z.sub_0_r.
Qed.

Lemma of_int_above z : uint 64 z -> 0 < z -> above (Z.log2 z) (of_int z).
Proof.
  intros [_ H1] Hz. destruct z as [|z|z]; [lia| |lia]. unfold of_int, binary_normalize.
  assert (fits 64 (Zpos z) 0) as Hf by (split_and!; [lia..|by rewrite Z.sub_0_r]).
  destruct (binary_round_align 64 z 0 Hf) as (m' & e' & -> & Hf' & Hl).
  pose proof (Z.log2_nonneg (Zpos z)). eapply round_aux_above; try done; lia.
Qed.

Lemma mul_below b c x y :
  below b x -> below c y -> -1074 <= b + c <= 970 -> below (b + c + 1) (mul x y).
Proof.
  unfold mul, SFmul. destruct x as [| | |? m e], y as [| | |? m' e']; simpl; try done;
    try (by intros; subst); try (by intros [-> _]); try (by intros -> [-> _]); try by intros [-> _] ->.
  intros [-> (Hm & He & Hl)] [-> (Hm' & He' & Hl')] Hb. apply (round_aux_below (b + c)); [|done].
  change (Zpos (m * m')) with (Zpos m * Zpos m'). split_and!; [lia|lia|].
  replace (b + c - (e + e')) with ((b - e) + (c - e')) by lia. rewrite Z.pow_add_r by lia. nia.
Qed.

Lemma add_below b x y : below b x -> below b y -> -1074 <= b <= 969 -> below (b + 2) (add x y).
Proof.
  unfold add, SFadd. destruct x as [| | |? m e], y as [| | |? m' e']; simpl; try done.
  - by intros -> ->.
  - intros -> [-> Hf] Hb. split; [done|]. eapply fits_weaken; [exact Hf|lia].
  - intros [-> Hf] -> Hb. split; [done|]. eapply fits_weaken; [exact Hf|lia].
  - intros [-> (Hm & He & Hl)] [-> (Hm' & He' & Hl')] Hb. cbn [cond_Zopp].
    replace (b + 2) with (b + 1 + 1) by lia. apply normalize_below; [|lia].
    pose proof (shl_align_value m e (Z.min e e')) as H1.
    pose proof (shl_align_value m' e' (Z.min e e')) as H2.
    destruct (shl_align m e _) as [n1 e1], (shl_align m' e' _) as [n2 e2].
    destruct H1 as [E1 V1], H2 as [E2 V2]. cbn [fst].
    replace e1 with (Z.min e e') in V1 by lia. replace e2 with (Z.min e e') in V2 by lia.
    set (ez := Z.min e e') in *.
    assert (forall k n ex, Zpos k = Zpos n * 2 ^ (ex - ez) -> ez <= ex <= b -> Zpos n < 2 ^ (b - ex) ->
              Zpos k < 2 ^ (b - ez)) as Hk.
    { intros k n ex -> Hex Hn. replace (b - ez) with ((b - ex) + (ex - ez)) by lia.
      rewrite Z.pow_add_r by lia. apply Z.mul_lt_mono_pos_r; [apply Z.pow_pos_nonneg|]; lia. }
    pose proof (Hk _ _ _ V1 ltac:(lia) Hl). pose proof (Hk _ _ _ V2 ltac:(lia) Hl').
    split_and!; [lia|lia|]. replace (b + 1 - ez) with (1 + (b - ez)) by lia.
    rewrite Z.pow_add_r by lia. lia.
Qed.

Lemma div_below b a x y :
  below b x -> above a y -> -1074 <= b - a <= 970 -> below (b - a + 1) (div x y).
Proof.
  unfold div, SFdiv. destruct x as [| | |? m e], y as [| | |? m' e']; cbn [below above]; try done.
  { by intros -> [-> _]. }
  intros [-> Hf] [-> Ha] Hb. pose proof Hf as (Hm & He & Hl). apply fits_log2 in Hf; [|lia].
  unfold SFdiv_core_binary. set (ez := Z.min _ _). 
  assert (ez <= e - e' /\ ez <= b - a) as [Hz1 Hz2].
  { unfold ez, fexp, SpecFloat.emin, prec, emax. rewrite !Zdigits2_log2, !decide_False by lia. lia. }
  set (m1 := match _ with Z0 => _ | Zpos _ => _ | Zneg _ => _ end).
  assert (m1 = Zpos m * 2 ^ (e - e' - ez)) as Hm1.
  { unfold m1. destruct (e - e' - ez) eqn:E; [lia| |lia]. by rewrite Z.shiftl_mul_pow2 by lia. }
  pose proof (Z.div_mod m1 (Zpos m') ltac:(lia)) as Hdm. unfold Z.div, Z.modulo in Hdm.
  destruct (Z.div_eucl m1 (Zpos m')) as [q r] eqn:Eq. apply (round_aux_below (b - a)); [|done].
  assert (q = m1 / Zpos m') as -> by (unfold Z.div; by rewrite Eq).
  assert (0 <= m1) by (rewrite Hm1; apply Z.mul_nonneg_nonneg; [lia|apply Z.pow_nonneg; lia]).
  split_and!; [apply Z.div_pos; lia|done|]. apply Z.div_lt_upper_bound; [lia|]. rewrite Hm1.
  pose proof (Z.log2_spec (Zpos m') ltac:(lia)) as [Hlo _]. pose proof (Z.log2_nonneg (Zpos m')).
  apply (Z.lt_le_trans _ (2 ^ (b - e' - ez))).
  - replace (b - e' - ez) with ((b - e) + (e - e' - ez)) by lia. rewrite Z.pow_add_r by lia.
    apply Z.mul_lt_mono_pos_r; [apply Z.pow_pos_nonneg|]; lia.
  - apply (Z.le_trans _ (2 ^ (Z.log2 (Zpos m')) * 2 ^ (b - a - ez))).
    + rewrite <-Z.pow_add_r by lia. apply Z.pow_le_mono_r; lia.
    + apply Z.mul_le_mono_nonneg_r; [apply Z.pow_nonneg; lia|done].
Qed.

(** The larger of a number and one thousandth is at least [2 ^ -62]. *)
Lemma max_thousandth b x : below b x -> -9 <= b -> above (-62) (max x thousandth) /\ below b (max x thousandth).
Proof.
  intros Hx Hb. assert (thousandth = S754_finite false 4611686018427388 (-62)) as Ht by reflexivity.
  assert (above (-62) thousandth /\ below b thousandth) as Hc.
  { rewrite Ht. split; [split; [done|vm_compute; congruence]|]. split; [done|].
    apply fits_log2; [lia|]. change (Z.log2 4611686018427388) with 52. lia. }
  unfold max. destruct x as [s|s| |s m e]; cbn [below] in Hx; [subst s; done|done|done|].
  destruct Hx as [-> Hf]. rewrite Ht in *. cbn [SFcompare].
  destruct (Z.compare_spec e (-62)) as [->|He|He]; [|done|].
  - destruct (Pos.compare_cont Eq m _) eqn:E; [|done|];
      (split; [|by split]); cbn [above]; (split; [done|]); pose proof (Z.log2_nonneg (Zpos m)); lia.
  - split; [|by split]. cbn [above]. split; [done|]. pose proof (Z.log2_nonneg (Zpos m)). lia.
Qed.

Lemma as_secs_below t : 0 <= t < 2 ^ 64 * 1000000000 -> below 67 (as_secs_f64 t).
Proof.
  intros Ht. unfold as_secs_f64. apply (add_below 65); [| |lia].
  - apply of_int_below. split; [apply Z.div_pos; lia|]. apply Z.div_lt_upper_bound; lia.
  - pose proof (Z.mod_pos_bound t 1000000000 ltac:(lia)).
    eapply below_weaken; [apply (div_below 65 29)|]; [apply of_int_below; unfold uint; lia| |lia|lia].
    apply (of_int_above 1000000000); [split; done|lia].
Qed.

End F64.
