(* ===== verification/VarInt.v ===== *)
(** * QUIC variable-length integers

    [src/varint.rs] ([read], [write], [encode]) and the slice decoder
    [decode_varint] of [src/hysteria2/packet.rs].  The two decoders are
    proved to agree, and the encoder to be their right inverse with the
    shortest encoding. *)

From Stdlib Require Import ZArith Lia.
From stdpp Require Import base gmap list strings.
From S2P Require Import Prelude Error.

#[local] Open Scope Z_scope.
#[local] Open Scope rust_scope.

Module VarInt.

(** The largest value with an encoding, [(1u64 << 62) - 1]. *)
Definition MAX : Z := Z.shiftl 1 62 - 1.

(** One turn of the decoding loops, [value = (value << 8) | u64::from(b)]. *)
Definition shift_in (value : Z) (b : byte) : Z :=
  Z.lor (wrap 64 (Z.shiftl value 8)) (bz b).

(** [1usize << (first >> 6)]. *)
Definition length_of (first : byte) : Z := Z.shiftl 1 (Z.shiftr (bz first) 6).

(** [first & 0x3f]. *)
Definition low_bits (first : byte) : Z := Z.land (bz first) 0x3f.

Fixpoint read_more (n : nat) (value : Z) : M RecvHalf Z :=
  match n with
  | O => mret value
  | S n => let* b := read_u8 in read_more n (shift_in value b)
  end.

Definition read : M RecvHalf Z :=
  let* first := read_u8 in
  read_more (Z.to_nat (length_of first) - 1) (low_bits first).

(** Writes the low bytes of [remaining] from the last position backwards. *)
Fixpoint fill_rev (n : nat) (remaining : Z) (output : bytes) : bytes :=
  match n with
  | O => output
  | S n => fill_rev n (Z.shiftr remaining 8) (zb remaining :: output)
  end.

Definition encoded_length (value : Z) : Z :=
  if value <=? 63 then 1
  else if value <=? 16383 then 2
  else if value <=? 1073741823 then 4
  else 8.

Definition length_tag (length : Z) : Z :=
  if length =? 1 then 0x00
  else if length =? 2 then 0x40
  else if length =? 4 then 0x80
  else 0xc0.

(** [output[0] |= tag]. *)
Definition or_first (tag : Z) (output : bytes) : bytes :=
  match output with
  | [] => []
  | b :: rest => zb (Z.lor (bz b) tag) :: rest
  end.

Definition encode (value : Z) : Result bytes :=
  if value >? MAX then Err InvalidVarInt
  else
    let length := encoded_length value in
    Ok (or_first (length_tag length) (fill_rev (Z.to_nat length) value [])).

Definition write (value : Z) : M SendHalf unit :=
  let* l := mlift (encode value) in
  write_all l.

(** [decode_varint]: the value and the number of bytes it takes. *)
Definition decode_varint (data : bytes) : Result (Z * Z) :=
  match data with
  | [] => Err (Protocol (str "missing Hysteria2 UDP address length"))
  | first :: _ =>
      let length := length_of first in
      if len data <? length
      then Err (Protocol (str "truncated Hysteria2 UDP address length"))
      else
        let tail := take (Z.to_nat length - 1) (drop 1 data) in
        Ok (foldl shift_in (low_bits first) tail, length)
  end.

(** ** Arithmetic of one byte *)

Lemma lor_low a b : 0 <= b < 256 -> Z.lor (a * 256) b = a * 256 + b.
Proof.
  intros Hb.
  assert (Z.land (a * 256) b = 0) as H.
  { rewrite <-(Z.mod_small b 256) by lia. change 256 with (2 ^ 8).
    rewrite <-Z.land_ones, Z.land_assoc, (Z.land_comm _ (Z.ones 8)), Z.land_assoc by lia.
    rewrite (Z.land_comm (Z.ones 8)), Z.land_ones, Z.mod_mul by lia. apply Z.land_0_l. }
  rewrite <-Z.lxor_lor, <-Z.add_nocarry_lxor; done.
Qed.

Lemma shift_in_small v b : 0 <= v < 2 ^ 56 -> shift_in v b = v * 256 + bz b.
Proof.
  intros Hv. unfold shift_in. rewrite Z.shiftl_mul_pow2 by lia.
  rewrite wrap_small by (unfold uint; lia).
  apply lor_low, bz_range.
Qed.

(** The tag and the low bits of a first byte determine each other. *)
Lemma first_byte_split b :
  exists k, 0 <= k <= 3 /\ length_of b = 2 ^ k /\ 0 <= low_bits b < 64 /\
            bz b = k * 64 + low_bits b.
Proof. exists (Z.shiftr (bz b) 6). destruct b; vm_compute; intuition congruence. Qed.

Lemma first_byte_join k v :
  0 <= k <= 3 -> 0 <= v < 64 ->
  let b := zb (Z.lor v (k * 64)) in
  length_of b = 2 ^ k /\ low_bits b = v.
Proof.
  intros Hk Hv b.
  assert (Z.lor v (k * 64) = k * 64 + v) as E.
  { assert (Z.land (k * 64) v = 0).
    { rewrite <-(Z.mod_small v 64) by lia. change 64 with (2 ^ 6).
      rewrite <-Z.land_ones, Z.land_assoc, (Z.land_comm _ (Z.ones 6)), Z.land_assoc by lia.
      rewrite (Z.land_comm (Z.ones 6)), Z.land_ones, Z.mod_mul by lia. apply Z.land_0_l. }
    rewrite Z.lor_comm, <-Z.lxor_lor, <-Z.add_nocarry_lxor; done. }
  assert (bz b = k * 64 + v) as Hb.
  { unfold b. rewrite E, bz_zb. apply Z.mod_small. lia. }
  unfold length_of, low_bits. rewrite Hb. split.
  - rewrite Z.shiftr_div_pow2 by lia. change (2 ^ 6) with 64.
    rewrite Z.div_add_l, Z.div_small by lia. rewrite Z.shiftl_1_l. f_equal. lia.
  - change 0x3f with (Z.ones 6). rewrite Z.land_ones by lia. change (2 ^ 6) with 64.
    rewrite Z.add_comm, Z.mod_add by lia. by apply Z.mod_small.
Qed.

(** ** The decoding loop *)

Lemma foldl_shift_in tail v :
  0 <= v < 64 -> (length tail <= 7)%nat ->
  foldl shift_in v tail = v * 256 ^ len tail + from_be tail.
Proof.
  intros Hv Hl.
  assert (forall l m, 0 <= m < 64 * 256 ^ (7 - len l) -> (length l <= 7)%nat ->
    foldl shift_in m l = foldl (fun acc b => acc * 256 + bz b) m l) as H.
  { intros l. induction l as [|b l IH]; [done|]. intros m Hm Hlen.
    cbn [foldl]. unfold len in Hm. cbn [length] in *.
    pose proof (bz_range b).
    assert (0 <= 7 - Z.of_nat (S (length l)) <= 6) by lia.
    assert (256 ^ (7 - Z.of_nat (S (length l))) <= 256 ^ 6) by (apply Z.pow_le_mono_r; lia).
    rewrite shift_in_small by lia. apply IH; [|lia]. unfold len.
    replace (7 - Z.of_nat (length l)) with (Z.succ (7 - Z.of_nat (S (length l)))) by lia.
    rewrite Z.pow_succ_r by lia. nia. }
  rewrite H; [apply from_be_acc| |done].
  assert (1 <= 256 ^ (7 - len tail)) by (apply Z.pow_le_mono_r with (b := 0); unfold len; lia).
  nia.
Qed.

Lemma read_more_spec n v s :
  read_more n v s =
  if decide (n <= length (pending s))%nat
  then (Ok (foldl shift_in v (take n (pending s))),
        {| pending := drop n (pending s); ending := ending s |})
  else (Err (default (Io UnexpectedEof) (ending s)),
        {| pending := []; ending := ending s |}).
Proof.
  revert v s. induction n as [|n IH]; intros v [p e].
  { done. }
  cbn [read_more]. destruct p as [|b p].
  { unfold mbind. by rewrite read_u8_nil. }
  erewrite mbind_ok by apply read_u8_cons. rewrite IH. simpl.
  repeat case_decide; try lia; done.
Qed.

(** The slice decoder is the stream decoder on a stream that holds the
    slice. *)
Lemma read_spec s :
  read s =
  match pending s with
  | [] => (Err (default (Io UnexpectedEof) (ending s)), s)
  | first :: rest =>
      let n := (Z.to_nat (length_of first) - 1)%nat in
      if decide (n <= length rest)%nat
      then (Ok (foldl shift_in (low_bits first) (take n rest)),
            {| pending := drop n rest; ending := ending s |})
      else (Err (default (Io UnexpectedEof) (ending s)),
            {| pending := []; ending := ending s |})
  end.
Proof.
  destruct s as [[|first rest] e]; unfold read; cbn [pending ending].
  - unfold mbind. by rewrite read_u8_nil.
  - erewrite mbind_ok by apply read_u8_cons. by rewrite read_more_spec.
Qed.

Lemma read_consumes : consumes read.
Proof.
  intros s r s'. rewrite read_spec. destruct s as [[|first rest] e]; simpl.
  { intros [= <- <-]. split; [done|]. by exists []. }
  case_decide; intros [= <- <-]; split; try done; simpl.
  - exists (first :: take (Z.to_nat (length_of first) - 1) rest). simpl.
    by rewrite take_drop.
  - exists (first :: rest). by rewrite app_nil_r.
Qed.

Lemma length_of_pos b : 1 <= length_of b <= 8.
Proof. destruct b; vm_compute; intuition congruence. Qed.

(** Encodings start with a tagged byte and continue big-endian. *)
Lemma fill_rev_to_be n v acc : fill_rev n v acc = to_be n v ++ acc.
Proof.
  revert v acc. induction n as [|n IH]; intros v acc; [done|].
  cbn [fill_rev]. rewrite IH.
  rewrite (cons_middle (zb v) (to_be n (Z.shiftr v 8)) acc), app_assoc. f_equal. clear IH acc.
  induction n as [|n IH]; [simpl; by rewrite Z.shiftr_0_r|].
  cbn [to_be] in *. rewrite <-app_comm_cons, IH. f_equal. f_equal.
  rewrite Z.shiftr_shiftr by lia. f_equal. lia.
Qed.

(** The shape of an encoding: [k] is the exponent of its length. *)
Lemma encode_shape v :
  0 <= v <= MAX ->
  exists k, 0 <= k <= 3 /\ encoded_length v = 2 ^ k /\
    v < 64 * 256 ^ (2 ^ k - 1) /\
    encode v = Ok (zb (Z.lor (v / 256 ^ (2 ^ k - 1)) (k * 64))
                   :: to_be (Z.to_nat (2 ^ k) - 1) v).
Proof.
  intros [Hv0 HvM]. unfold MAX in HvM. rewrite Z.shiftl_1_l in HvM.
  assert (forall k, 0 <= k <= 3 -> v < 64 * 256 ^ (2 ^ k - 1) ->
    or_first (k * 64) (fill_rev (Z.to_nat (2 ^ k)) v [])
    = zb (Z.lor (v / 256 ^ (2 ^ k - 1)) (k * 64)) :: to_be (Z.to_nat (2 ^ k) - 1) v) as H.
  { intros k Hk Hlt. rewrite fill_rev_to_be, app_nil_r.
    assert (1 <= 2 ^ k) by (apply Z.pow_le_mono_r with (b := 0); lia).
    assert (0 < 256 ^ (2 ^ k - 1)) by lia.
    destruct (Z.to_nat (2 ^ k)) as [|m] eqn:Em; [lia|]. cbn [to_be or_first].
    replace (S m - 1)%nat with m by lia. do 2 f_equal.
    rewrite bz_zb, Z.shiftr_div_pow2, Z.pow_mul_r by lia. change (2 ^ 8) with 256.
    replace (Z.of_nat m) with (2 ^ k - 1) by lia.
    rewrite Z.mod_small; [done|]. split; [apply Z.div_pos; lia|].
    apply Z.div_lt_upper_bound; lia. }
  unfold encode, MAX. rewrite Z.shiftl_1_l. destruct (v >? 2 ^ 62 - 1) eqn:E; [lia|].
  unfold encoded_length, length_tag.
  destruct (v <=? 63) eqn:E1; [|destruct (v <=? 16383) eqn:E2;
    [|destruct (v <=? 1073741823) eqn:E3]]; simpl Z.eqb; cbn iota.
  - exists 0. split_and!; [lia..|]. f_equal. apply (H 0); lia.
  - exists 1. split_and!; [lia..|]. f_equal. apply (H 1); lia.
  - exists 2. split_and!; [lia..|]. f_equal. apply (H 2); lia.
  - exists 3. split_and!; [lia..|]. f_equal. apply (H 3); lia.
Qed.

Lemma encode_ok_range v l : encode v = Ok l -> v <= MAX.
Proof. unfold encode. destruct (v >? MAX) eqn:E; [done|lia]. Qed.

(** An encoding is a first byte that announces its length and the bytes that
    the decoding loop folds back to the value. *)
Lemma encode_first v l :
  0 <= v -> encode v = Ok l ->
  exists b t, l = b :: t /\ Z.of_nat (S (length t)) = length_of b /\
    foldl shift_in (low_bits b) t = v.
Proof.
  intros Hv Hl. pose proof (encode_ok_range _ _ Hl) as HM.
  destruct (encode_shape v) as (k & Hk & _ & Hlt & Henc); [done|].
  rewrite Henc in Hl. simplify_eq/=.
  set (p := 256 ^ (2 ^ k - 1)) in *.
  assert (1 <= 2 ^ k) by (apply Z.pow_le_mono_r with (b := 0); lia).
  assert (2 ^ k <= 2 ^ 3) by (apply Z.pow_le_mono_r; lia).
  assert (0 < p) by (subst p; lia).
  assert (0 <= v / p < 64).
  { split; [by apply Z.div_pos; lia|]. apply Z.div_lt_upper_bound; lia. }
  destruct (first_byte_join k (v / p)) as [HL HB]; [done..|].
  set (m := (Z.to_nat (2 ^ k) - 1)%nat).
  eexists _, (to_be m v). split; [done|]. rewrite HL, HB, length_to_be. split; [lia|].
  rewrite foldl_shift_in by (done || rewrite length_to_be; lia).
  rewrite len_to_be, from_to_be.
  replace (Z.of_nat m) with (2 ^ k - 1) by lia. fold p.
  rewrite Z.mul_comm. symmetry. apply Z.div_mod. lia.
Qed.

Lemma read_encode v l rest e :
  0 <= v -> encode v = Ok l ->
  read {| pending := l ++ rest; ending := e |} = (Ok v, {| pending := rest; ending := e |}).
Proof.
  intros Hv Hl. destruct (encode_first v l Hv Hl) as (b & t & -> & Hlen & Hf).
  rewrite read_spec. cbn [pending ending app]. cbv zeta.
  rewrite decide_True by (rewrite length_app; lia).
  rewrite take_app_exact, drop_app_exact by lia. by rewrite Hf.
Qed.

Lemma decode_encode v l rest :
  0 <= v -> encode v = Ok l -> decode_varint (l ++ rest) = Ok (v, len l).
Proof.
  intros Hv Hl. destruct (encode_first v l Hv Hl) as (b & t & -> & Hlen & Hf).
  unfold decode_varint. cbn [app]. cbv zeta.
  destruct (Z.ltb_spec (len (b :: t ++ rest)) (length_of b)) as [Hlt|_].
  { unfold len in Hlt. simpl in Hlt. rewrite length_app in Hlt. lia. }
  cbn [drop]. rewrite drop_0, take_app_exact by lia. by rewrite Hf, <-Hlen.
Qed.

Lemma len_encode v l : 0 <= v -> encode v = Ok l -> len l = encoded_length v.
Proof.
  intros Hv Hl. pose proof (encode_ok_range _ _ Hl).
  destruct (encode_shape v) as (k & Hk & -> & _ & Henc); [done|].
  rewrite Henc in Hl. simplify_eq. lens.
Qed.

Lemma encode_total v : 0 <= v <= MAX -> exists l, encode v = Ok l.
Proof. intros (k & _ & _ & _ & ->)%encode_shape. eauto. Qed.

(** The encoding of a value that has one. *)
Definition encoded (v : Z) : bytes :=
  match encode v with Ok l => l | Err _ => [] end.

Lemma encode_encoded v : 0 <= v <= MAX -> encode v = Ok (encoded v).
Proof. intros Hv. unfold encoded. by destruct (encode_total v Hv) as [l ->]. Qed.

Lemma writes_varint v : 0 <= v <= MAX -> writes (write v) (encoded v).
Proof. intros Hv s. unfold write, mbind, mlift. by rewrite encode_encoded. Qed.

Lemma reads_varint v : 0 <= v <= MAX -> reads read (encoded v) v.
Proof. intros Hv rest e. apply read_encode; [lia|]. by apply encode_encoded. Qed.

Lemma decode_read data v n e :
  decode_varint data = Ok (v, n) <->
  read {| pending := data; ending := e |}
    = (Ok v, {| pending := drop (Z.to_nat n) data; ending := e |})
  /\ (exists b t, data = b :: t /\ n = length_of b).
Proof.
  rewrite read_spec. unfold decode_varint. destruct data as [|first rest]; simpl.
  { split; [done|]. intros [_ (?&?&?&?)]; done. }
  pose proof (length_of_pos first). rewrite len_cons. unfold len.
  destruct (Z.ltb_spec (1 + Z.of_nat (length rest)) (length_of first)).
  - rewrite decide_False by lia. split; [done|]. by intros [[=]].
  - rewrite decide_True by lia. rewrite drop_0.
    replace (drop (Z.to_nat n) (first :: rest)) with (drop (Z.to_nat n) (first :: rest)) by done.
    split.
    + intros [= <- <-]. split; [|eauto]. do 2 f_equal.
      destruct (Z.to_nat (length_of first)) as [|m] eqn:E; [lia|]. simpl.
      by rewrite Nat.sub_0_r.
    + intros [[= <- _] (b & t & [= -> ->] & ->)]. done.
Qed.

Lemma read_range s v s' : read s = (Ok v, s') -> 0 <= v <= MAX.
Proof.
  rewrite read_spec. destruct (pending s) as [|first rest]; [done|].
  cbv zeta. case_decide as Hd; [|done]. intros [= <- _].
  destruct (first_byte_split first) as (k & Hk & HL & Hb & _).
  pose proof (length_of_pos first).
  assert (2 ^ k <= 2 ^ 3) by (apply Z.pow_le_mono_r; lia).
  rewrite foldl_shift_in; [|done|rewrite length_take; lia].
  set (t := take _ rest). pose proof (from_be_range t). unfold len.
  assert (256 ^ Z.of_nat (length t) <= 256 ^ 7).
  { apply Z.pow_le_mono_r; [lia|]. unfold t. rewrite length_take. lia. }
  unfold MAX. rewrite Z.shiftl_1_l. nia.
Qed.

Lemma encoded_length_le k v :
  0 <= k <= 3 -> 0 <= v < 64 * 256 ^ (2 ^ k - 1) -> encoded_length v <= 2 ^ k.
Proof.
  intros Hk. assert (k = 0 \/ k = 1 \/ k = 2 \/ k = 3) as [-> | [-> | [-> | ->]]] by lia;
    simpl; unfold encoded_length; repeat case_match; lia.
Qed.

Lemma read_size s v s' :
  read s = (Ok v, s') -> len (pending s) - 8 <= len (pending s') < len (pending s).
Proof.
  rewrite read_spec. destruct (pending s) as [|first rest]; [done|]. cbv zeta.
  case_decide as Hd; [|done]. intros [= _ <-]. simpl. pose proof (length_of_pos first).
  unfold len. cbn [length]. rewrite length_drop. lia.
Qed.

(** ** The statements about the component *)

(** C25: every value up to [MAX] has an encoding, and reading that encoding
    back, whatever follows it on the stream and however the stream ends,
    returns the value and leaves exactly what followed. *)
Theorem varint_roundtrip v (Hv : 0 <= v <= MAX) :
  exists l, encode v = Ok l /\
    forall rest e, read {| pending := l ++ rest; ending := e |}
                   = (Ok v, {| pending := rest; ending := e |}).
Proof.
  destruct (encode_total v Hv) as [l Hl]. exists l. split; [done|].
  intros. apply read_encode; [lia|done].
Qed.

Lemma varint_roundtrip_witness :
  0 <= 1025 <= MAX /\
  exists l, encode 1025 = Ok l /\
    forall rest e, read {| pending := l ++ rest; ending := e |}
                   = (Ok 1025, {| pending := rest; ending := e |}).
Proof.
  split; [vm_compute; intuition congruence|].
  apply (varint_roundtrip 1025). vm_compute; intuition congruence.
Defined.

(** The decoder never returns a value above [MAX], and re-encoding what
    it read is possible and takes no more bytes than were consumed: the
    encoder picks the shortest form. *)
Theorem encode_shortest s v s' (Hr : read s = (Ok v, s')) :
  exists l, encode v = Ok l /\ len l <= len (pending s) - len (pending s').
Proof.
  pose proof (read_range _ _ _ Hr) as Hv.
  destruct (encode_total v Hv) as [l Hl]. exists l. split; [done|].
  rewrite (len_encode v l) by (lia || done).
  rewrite read_spec in Hr. destruct (pending s) as [|first rest]; [done|].
  cbv zeta in Hr. case_decide as Hd; [|done]. simplify_eq/=.
  destruct (first_byte_split first) as (k & Hk & HL & Hb & _).
  set (m := (Z.to_nat (length_of first) - 1)%nat) in *.
  assert (length (take m rest) = m) as Hm by (rewrite length_take; lia).
  pose proof (length_of_pos first).
  assert (2 ^ k <= 2 ^ 3) by (apply Z.pow_le_mono_r; lia).
  rewrite foldl_shift_in in * by (done || lia).
  pose proof (from_be_range (take m rest)) as Hr. unfold len in *. rewrite Hm in *.
  cbn [length]. rewrite length_drop.
  transitivity (2 ^ k); [|lia].
  apply encoded_length_le; [done|].
  replace (2 ^ k - 1) with (Z.of_nat m) by lia. nia.
Qed.

Lemma encode_shortest_witness :
  let s := {| pending := [Byte.x80; Byte.x00; Byte.x00; Byte.x05; Byte.x07]; ending := None |} in
  let s' := {| pending := [Byte.x07]; ending := None |} in
  read s = (Ok 5, s') /\
  exists l, encode 5 = Ok l /\ len l <= len (pending s) - len (pending s').
Proof.
  intros s s'. assert (read s = (Ok 5, s')) as H by reflexivity.
  split; [exact H|]. exact (encode_shortest s 5 s' H).
Defined.

End VarInt.

#[export] Hint Resolve VarInt.writes_varint VarInt.reads_varint : framing.
