(* ===== verification/Text.v ===== *)
(** * Text: UTF-8 and integers in text

    The parts of Rust's standard library the crate's textual formats rest on:
    UTF-8 validation ([str::from_utf8]) and lossy decoding
    ([String::from_utf8_lossy]), integer formatting ([to_string], [{:x}]) and
    integer parsing ([str::parse]).  A [String] is the list of its bytes. *)

From Stdlib Require Import ZArith Lia Wf_nat.
From stdpp Require Import base gmap list strings.
From S2P Require Import Prelude.

#[local] Open Scope Z_scope.

(** ** UTF-8 *)

Module Utf8.

Definition between (lo hi : Z) (b : byte) : bool := (lo <=? bz b) && (bz b <=? hi).

Definition is_ascii (b : byte) : bool := bz b <? 128.

(** A continuation byte, [b & 192 == 128]. *)
Definition is_cont (b : byte) : bool := Z.land (bz b) 192 =? 128.

(** The second byte a three- or four-byte sequence may have. *)
Definition second_ok (first second : byte) : bool :=
  if bz first =? 0xE0 then between 0xA0 0xBF second
  else if bz first =? 0xED then between 0x80 0x9F second
  else if bz first =? 0xF0 then between 0x90 0xBF second
  else if bz first =? 0xF4 then between 0x80 0x8F second
  else between 0x80 0xBF second.

(** Number of continuation bytes the first byte announces; [None] for a byte
    that starts no sequence. *)
Definition width (first : byte) : option nat :=
  if is_ascii first then Some 0%nat
  else if between 0xC2 0xDF first then Some 1%nat
  else if between 0xE0 0xEF first then Some 2%nat
  else if between 0xF0 0xF4 first then Some 3%nat
  else None.

(** How many of the [n] announced continuation bytes are there. *)
Fixpoint conts (n : nat) (l : bytes) : nat :=
  match n, l with
  | S n, b :: l => if is_cont b then S (conts n l) else 0%nat
  | _, _ => 0%nat
  end.

(** The next sequence: whether it is well formed, and how many bytes it (or
    the maximal invalid prefix) takes. *)
Definition step (first : byte) (rest : bytes) : bool * nat :=
  match width first with
  | None => (false, 1%nat)
  | Some 0%nat => (true, 1%nat)
  | Some 1%nat => let k := conts 1 rest in (bool_decide (k = 1%nat), S k)
  | Some n =>
      match rest with
      | second :: rest =>
          if second_ok first second
          then let k := conts (n - 1) rest in (bool_decide (k = (n - 1)%nat), S (S k))
          else (false, 1%nat)
      | [] => (false, 1%nat)
      end
  end.

Fixpoint valid_aux (fuel : nat) (l : bytes) : bool :=
  match fuel, l with
  | _, [] => true
  | O, _ => false
  | S fuel, first :: rest =>
      let '(ok, n) := step first rest in
      ok && valid_aux fuel (drop (n - 1) rest)
  end.

(** [str::from_utf8] accepts the bytes. *)
Definition valid (l : bytes) : bool := valid_aux (length l) l.

(** U+FFFD in UTF-8. *)
Definition replacement : bytes := [Byte.xef; Byte.xbf; Byte.xbd].

Fixpoint lossy_aux (fuel : nat) (l : bytes) : bytes :=
  match fuel, l with
  | _, [] => []
  | O, _ => []
  | S fuel, first :: rest =>
      let '(ok, n) := step first rest in
      (if ok then take n (first :: rest) else replacement)
        ++ lossy_aux fuel (drop (n - 1) rest)
  end.

(** [String::from_utf8_lossy]. *)
Definition lossy (l : bytes) : bytes := lossy_aux (length l) l.

Lemma conts_le n l : (conts n l <= n)%nat /\ (conts n l <= length l)%nat.
Proof. revert l. induction n as [|n IH]; intros [|b l]; simpl; try lia.
  destruct (is_cont b); [specialize (IH l)|]; lia. Qed.

Lemma conts_app n l1 l2 : conts n l1 = n -> conts n (l1 ++ l2) = n.
Proof.
  revert l1. induction n as [|n IH]; intros [|b l1]; simpl; try done.
  destruct (is_cont b); [|done]. intros [= H]. by rewrite IH.
Qed.

Lemma step_pos first rest ok n :
  step first rest = (ok, n) -> (1 <= n)%nat /\ (n - 1 <= length rest)%nat.
Proof.
  unfold step. pose proof (conts_le 1 rest).
  destruct (width first) as [[|[|w]]|]; [intros; simplify_eq/=; lia..| |intros; simplify_eq/=; lia].
  destruct rest as [|s rest]; [intros; simplify_eq/=; lia|].
  pose proof (conts_le (S (S w) - 1) rest).
  destruct (second_ok first s); intros; simplify_eq/=; lia.
Qed.

Lemma step_app first r1 r2 n :
  step first r1 = (true, n) -> step first (r1 ++ r2) = (true, n).
Proof.
  unfold step. destruct (width first) as [[|[|w]]|]; try done.
  - intros [= Hc <-]. apply bool_decide_eq_true in Hc.
    rewrite conts_app, Hc by done. done.
  - destruct r1 as [|s r1]; [done|]. rewrite <-app_comm_cons.
    destruct (second_ok first s); [|done].
    intros [= Hc <-]. apply bool_decide_eq_true in Hc.
    rewrite conts_app, Hc by done. by rewrite bool_decide_eq_true_2.
Qed.

(** The fuel is enough: each sequence takes at least one byte. *)
Lemma valid_aux_fuel f1 f2 l :
  (length l <= f1)%nat -> (length l <= f2)%nat -> valid_aux f1 l = valid_aux f2 l.
Proof.
  revert f2 l. induction f1 as [|f1 IH]; intros [|f2] [|b l] H1 H2; simpl in *; try done; try lia.
  destruct (step b l) as [ok n] eqn:E. f_equal. apply step_pos in E.
  apply IH; rewrite length_drop; lia.
Qed.

Lemma valid_cons b l :
  valid (b :: l) = let '(ok, n) := step b l in ok && valid (drop (n - 1) l).
Proof.
  unfold valid. cbn [valid_aux length]. destruct (step b l) as [ok n] eqn:E. f_equal.
  apply step_pos in E. apply valid_aux_fuel; rewrite length_drop; lia.
Qed.

Lemma valid_app l1 l2 : valid l1 = true -> valid (l1 ++ l2) = valid l2.
Proof.
  induction l1 as [l1 IH] using (induction_ltof1 _ (@length byte)). unfold ltof in IH.
  destruct l1 as [|b l1]; [done|]. rewrite <-app_comm_cons, !valid_cons.
  destruct (step b l1) as [ok n] eqn:E. intros [-> Hv]%andb_true_iff.
  rewrite (step_app _ _ l2 _ E). apply step_pos in E. simpl.
  rewrite drop_app_le by lia. apply IH; [|done]. rewrite length_drop. simpl. lia.
Qed.

Lemma valid_ascii_cons c l : is_ascii c = true -> valid (c :: l) = valid l.
Proof.
  intros Hc. rewrite valid_cons. unfold step, width. rewrite Hc. simpl. by rewrite drop_0.
Qed.

Lemma valid_ascii l : Forall (fun b => is_ascii b = true) l -> valid l = true.
Proof.
  induction 1 as [|b l Hb Hl IH]; [done|]. by rewrite valid_ascii_cons.
Qed.

(** An ASCII byte is a sequence of its own: text around it is valid exactly
    when both sides are. *)
Lemma conts_ascii n l1 c l2 : is_ascii c = true -> conts n (l1 ++ c :: l2) = conts n l1.
Proof.
  intros Hc. revert l1. induction n as [|n IH]; intros [|b l1]; simpl; try done.
  - replace (is_cont c) with false; [done|]. unfold is_ascii, is_cont in *.
    clear -Hc. destruct c; vm_compute in Hc |- *; done.
  - by destruct (is_cont b); rewrite ?IH.
Qed.

Lemma step_ascii b l1 c l2 : is_ascii c = true -> step b (l1 ++ c :: l2) = step b l1.
Proof.
  intros Hc. unfold step. destruct (width b) as [[|[|w]]|]; [done| | |done].
  - by rewrite conts_ascii.
  - destruct l1 as [|s l1]; cbn [app]; [|by rewrite conts_ascii].
    replace (second_ok b c) with false; [done|].
    unfold second_ok, between, is_ascii in *. repeat case_match; lia.
Qed.

Lemma valid_split l1 c l2 :
  is_ascii c = true -> valid (l1 ++ c :: l2) = true -> valid l1 = true /\ valid l2 = true.
Proof.
  intros Hc. induction l1 as [l1 IH] using (induction_ltof1 _ (@length byte)). unfold ltof in IH.
  destruct l1 as [|b l1].
  - change ([] ++ c :: l2) with (c :: l2). by rewrite valid_ascii_cons.
  - rewrite <-app_comm_cons, !valid_cons, step_ascii by done.
    destruct (step b l1) as [ok n] eqn:E. intros [-> Hv]%andb_true_iff.
    apply step_pos in E. rewrite drop_app_le in Hv by lia. simpl.
    apply IH in Hv; [done|]. rewrite length_drop. simpl. lia.
Qed.

(** Lossy decoding leaves valid text alone. *)
Lemma lossy_valid l : valid l = true -> lossy l = l.
Proof.
  unfold valid, lossy. generalize (length l) at 1 2 as fuel. intros fuel. revert l.
  induction fuel as [|f IH]; intros [|b l]; simpl; try done.
  destruct (step b l) as [ok n] eqn:E. intros [-> Hv]%andb_true_iff.
  rewrite IH by done. apply step_pos in E. destruct n as [|n]; [lia|]. simpl.
  rewrite Nat.sub_0_r. by rewrite take_drop.
Qed.

End Utf8.

(** ** Integers in text *)

Module Num.

(** [char::to_digit]: digits, then letters of either case. *)
Definition to_digit (radix : Z) (b : byte) : option Z :=
  let c := bz b in
  let d := if (48 <=? c) && (c <=? 57) then Some (c - 48)
           else if (97 <=? c) && (c <=? 122) then Some (c - 87)
           else if (65 <=? c) && (c <=? 90) then Some (c - 55)
           else None in
  match d with
  | Some v => if v <? radix then Some v else None
  | None => None
  end.

(** The lower-case digit [d] is written with. *)
Definition digit_char (d : Z) : byte := zb (if d <? 10 then 48 + d else 87 + d).

Fixpoint digits_aux (fuel : nat) (radix z : Z) (acc : list Z) : list Z :=
  match fuel with
  | O => acc
  | S fuel =>
      let acc := z mod radix :: acc in
      if z / radix =? 0 then acc else digits_aux fuel radix (z / radix) acc
  end.

(** The digits of [z], most significant first.  One step per digit: the fuel
    is a bound on the number of binary digits. *)
Definition digits (radix z : Z) : list Z :=
  digits_aux (S (Z.to_nat (Z.log2 z))) radix z [].

(** [z.to_string()] and [{:x}]. *)
Definition to_radix (radix z : Z) : bytes := digit_char <$> digits radix z.
Definition to_decimal (z : Z) : bytes := to_radix 10 z.
Definition to_hex (z : Z) : bytes := to_radix 16 z.

(** The accumulation of the integer parsers, with their overflow check. *)
Fixpoint accumulate (radix max acc : Z) (l : bytes) : option Z :=
  match l with
  | [] => Some acc
  | b :: l =>
      match to_digit radix b with
      | None => None
      | Some d =>
          let acc := acc * radix + d in
          if acc <=? max then accumulate radix max acc l else None
      end
  end.

(** [str::parse::<uN>()] in decimal: an optional [+], then at least one
    digit, no overflow. *)
Definition parse_uint (max : Z) (l : bytes) : option Z :=
  match l with
  | [] => None
  | b :: rest =>
      let digits := if decide (b = Ch.plus) then rest else l in
      match digits with
      | [] => None
      | _ => accumulate 10 max 0 digits
      end
  end.

Section Digits.
Context (radix : Z) (Hr : 2 <= radix <= 36).

Definition value (ds : list Z) : Z := foldl (fun acc d => acc * radix + d) 0 ds.

Lemma value_acc acc ds :
  foldl (fun acc d => acc * radix + d) acc ds
  = acc * radix ^ len ds + value ds.
Proof.
  unfold value. revert acc. induction ds as [|d ds IH]; intros acc.
  { rewrite len_nil. simpl. lia. }
  cbn [foldl]. rewrite (IH (acc * radix + d)), (IH (0 * radix + d)), len_cons.
  rewrite Z.pow_add_r, Z.pow_1_r by (lia || apply len_nonneg). lia.
Qed.

Lemma value_cons d ds : value (d :: ds) = d * radix ^ len ds + value ds.
Proof. unfold value at 1. simpl. by rewrite value_acc. Qed.

(** The digits produced for a positive number have its value and no
    leading zero. *)
Lemma digits_aux_spec fuel z acc :
  0 <= z < 2 ^ Z.of_nat fuel ->
  exists ds, digits_aux fuel radix z acc = ds ++ acc /\
    value ds = z /\ Forall (fun d => 0 <= d < radix) ds /\
    (fuel <> O -> ds <> [] /\ (hd 0 ds = 0 -> length ds = 1%nat)).
Proof using Hr.
  revert z acc. induction fuel as [|f IH]; intros z acc Hz.
  { exists []. simpl in *. split_and!; [done| |done|done]. unfold value. simpl. lia. }
  pose proof (Z.mod_pos_bound z radix ltac:(lia)).
  cbn [digits_aux]. destruct (Z.eqb_spec (z / radix) 0) as [E|E].
  { exists [z mod radix]. split_and!; [done| |by apply Forall_singleton|done].
    unfold value. simpl. pose proof (Z.div_mod z radix ltac:(lia)). lia. }
  assert (0 <= z / radix < 2 ^ Z.of_nat f) as Hq.
  { split; [apply Z.div_pos; lia|]. apply Z.div_lt_upper_bound; [lia|].
    rewrite Nat2Z.inj_succ, Z.pow_succ_r in Hz by lia. nia. }
  destruct (IH (z / radix) (z mod radix :: acc) Hq) as (ds & Hds & Hv & HF & Hne).
  exists (ds ++ [z mod radix]). rewrite Hds, <-app_assoc. split_and!; [done| | |].
  - unfold value. rewrite foldl_app. fold (value ds). rewrite Hv. simpl.
    rewrite (Z.div_mod z radix) at 3 by lia. lia.
  - apply Forall_app. split; [done|by apply Forall_singleton].
  - intros _. split; [by destruct ds|].
    destruct f as [|f]; [simpl in Hq; lia|]. destruct Hne as [Hne Hhd]; [done|].
    destruct ds as [|d ds]; [done|]. simpl in *. intros ->.
    specialize (Hhd eq_refl). destruct ds; [|done].
    unfold value in Hv. simpl in Hv. lia.
Qed.

Lemma digits_spec z :
  0 <= z ->
  value (digits radix z) = z /\
  Forall (fun d => 0 <= d < radix) (digits radix z) /\
  digits radix z <> [] /\ (hd 0 (digits radix z) = 0 -> digits radix z = [0]).
Proof using Hr.
  intros Hz. unfold digits.
  destruct (digits_aux_spec (S (Z.to_nat (Z.log2 z))) z []) as (ds & -> & Hv & HF & Hne).
  { split; [done|]. rewrite Nat2Z.inj_succ, Z2Nat.id by apply Z.log2_nonneg.
    destruct (decide (z = 0)) as [->|]; [done|]. apply Z.log2_spec. lia. }
  rewrite app_nil_r. destruct Hne as [Hne Hhd]; [done|]. split_and!; [done..|].
  intros H0. specialize (Hhd H0). destruct ds as [|d [|]]; simplify_eq/=; done.
Qed.

Lemma to_digit_char d : 0 <= d < radix -> to_digit radix (digit_char d) = Some d.
Proof using Hr.
  intros Hd. unfold to_digit, digit_char.
  rewrite bz_zb. destruct (Z.ltb_spec d 10);
    rewrite Z.mod_small by lia; repeat case_match; simplify_eq; try lia; f_equal; lia.
Qed.

Lemma digit_char_range d : 0 <= d < radix -> 48 <= bz (digit_char d) <= 122.
Proof using Hr.
  intros Hd. unfold digit_char. rewrite bz_zb.
  destruct (Z.ltb_spec d 10); rewrite Z.mod_small by lia; lia.
Qed.

Lemma value_range ds :
  Forall (fun d => 0 <= d < radix) ds -> 0 <= value ds < radix ^ len ds.
Proof using Hr.
  induction 1 as [|d ds Hd HF IH]; [unfold value, len; simpl; lia|].
  rewrite len_cons, Z.pow_add_r, Z.pow_1_r, value_cons by (lia || apply len_nonneg). nia.
Qed.

(** Parsing the digits of a number back, with the accumulator in front. *)
Lemma accumulate_digits max acc ds :
  0 <= acc -> Forall (fun d => 0 <= d < radix) ds ->
  acc * radix ^ len ds + value ds <= max ->
  accumulate radix max acc (digit_char <$> ds) = Some (acc * radix ^ len ds + value ds).
Proof using Hr.
  intros Hacc HF. revert acc Hacc. induction HF as [|d ds Hd HF IH]; intros acc Hacc Hm.
  { unfold value, len. simpl. f_equal. lia. }
  pose proof (value_range ds HF) as Hv.
  rewrite len_cons, Z.pow_add_r, Z.pow_1_r in * by (lia || apply len_nonneg).
  rewrite value_cons in *. assert (1 <= radix ^ len ds) by
    (apply (Z.pow_le_mono_r radix 0); [lia|apply len_nonneg]).
  simpl. rewrite to_digit_char by done. destruct (Z.leb_spec (acc * radix + d) max); [|nia].
  rewrite IH; [f_equal; lia|lia|nia].
Qed.

(** Digit lists without a superfluous leading zero are canonical. *)
Definition canonical (ds : list Z) : Prop :=
  Forall (fun d => 0 <= d < radix) ds /\ ds <> [] /\ (hd 0 ds = 0 -> ds = [0]).

Lemma canonical_lower ds :
  canonical ds -> value ds = 0 /\ ds = [0] \/ radix ^ (len ds - 1) <= value ds.
Proof using Hr.
  intros (HF & Hne & Hhd). destruct ds as [|d ds]; [done|].
  destruct (decide (d = 0)) as [->|Hd0].
  { left. specialize (Hhd eq_refl). by simplify_eq. }
  right. apply Forall_cons in HF as [Hd HF]. pose proof (value_range ds HF).
  rewrite value_cons, len_cons. replace (1 + len ds - 1) with (len ds) by lia. nia.
Qed.

Lemma value_inj ds1 ds2 :
  length ds1 = length ds2 ->
  Forall (fun d => 0 <= d < radix) ds1 -> Forall (fun d => 0 <= d < radix) ds2 ->
  value ds1 = value ds2 -> ds1 = ds2.
Proof using Hr.
  revert ds2. induction ds1 as [|d1 ds1 IH]; intros [|d2 ds2]; simpl; try done.
  intros [= Hlen] [H1 HF1]%Forall_cons [H2 HF2]%Forall_cons. rewrite !value_cons.
  pose proof (value_range ds1 HF1). pose proof (value_range ds2 HF2).
  unfold len in *. rewrite Hlen in *. intros Hv.
  assert (d1 = d2) as -> by nia. f_equal. apply IH; [done..|]. lia.
Qed.

Lemma canonical_unique ds1 ds2 :
  canonical ds1 -> canonical ds2 -> value ds1 = value ds2 -> ds1 = ds2.
Proof using Hr.
  intros H1 H2 Hv.
  assert (forall ds, canonical ds -> 0 < len ds) as Hpos.
  { intros [|d ds] (_ & Hne & _); [done|]. rewrite len_cons. pose proof (len_nonneg ds). lia. }
  pose proof (Hpos _ H1). pose proof (Hpos _ H2).
  pose proof (value_range _ (proj1 H1)) as Hu1. pose proof (value_range _ (proj1 H2)) as Hu2.
  destruct (canonical_lower _ H1) as [[E1 ->]|L1], (canonical_lower _ H2) as [[E2 ->]|L2].
  - done.
  - assert (0 < radix ^ (len ds2 - 1)) by (apply Z.pow_pos_nonneg; lia). lia.
  - assert (0 < radix ^ (len ds1 - 1)) by (apply Z.pow_pos_nonneg; lia). lia.
  - apply value_inj; [|apply H1|apply H2|done].
    assert (len ds1 - 1 < len ds2) by (apply (Z.pow_lt_mono_r_iff radix); lia).
    assert (len ds2 - 1 < len ds1) by (apply (Z.pow_lt_mono_r_iff radix); lia).
    unfold len in *. lia.
Qed.

Lemma digits_canonical z : 0 <= z -> canonical (digits radix z).
Proof using Hr. intros Hz. by destruct (digits_spec z Hz) as (_ & ? & ? & ?). Qed.

Lemma digits_value ds : canonical ds -> digits radix (value ds) = ds.
Proof using Hr.
  intros Hc. pose proof (value_range _ (proj1 Hc)).
  apply canonical_unique; [apply digits_canonical; lia|done|]. apply digits_spec. lia.
Qed.

Lemma len_digits z k : 0 <= z < radix ^ k -> 0 < k -> 0 < len (digits radix z) <= k.
Proof using Hr.
  intros Hz Hk. pose proof (digits_canonical z ltac:(lia)) as Hc.
  destruct (digits_spec z ltac:(lia)) as (Hv & _ & Hne & _).
  assert (0 < len (digits radix z)).
  { destruct (digits radix z) as [|d ds]; [done|]. rewrite len_cons.
    pose proof (len_nonneg ds). lia. }
  split; [done|]. destruct (canonical_lower _ Hc) as [[_ ->]|Hl]; [rewrite len_cons, len_nil; lia|].
  rewrite Hv in Hl.
  assert (len (digits radix z) - 1 < k); [|lia].
  apply (Z.pow_lt_mono_r_iff radix); lia.
Qed.

Lemma to_radix_nonempty z : 0 <= z -> to_radix radix z <> [].
Proof using Hr.
  intros Hz. unfold to_radix. destruct (digits_spec z Hz) as (_ & _ & Hne & _).
  by destruct (digits radix z).
Qed.

Lemma to_radix_digits z :
  0 <= z -> Forall (fun b => exists d, 0 <= d < radix /\ b = digit_char d) (to_radix radix z).
Proof using Hr.
  intros Hz. destruct (digits_spec z Hz) as (_ & HF & _).
  unfold to_radix. apply Forall_fmap. eapply Forall_impl; [done|]. simpl. eauto.
Qed.
End Digits.

Lemma parse_to_decimal max z :
  0 <= z <= max -> parse_uint max (to_decimal z) = Some z.
Proof.
  intros [Hz Hm]. unfold to_decimal, parse_uint.
  destruct (digits_spec 10 ltac:(lia) z Hz) as (Hv & HF & Hne & _).
  pose proof (to_radix_nonempty 10 ltac:(lia) z Hz) as Hnn.
  pose proof (to_radix_digits 10 ltac:(lia) z Hz) as HD.
  destruct (to_radix 10 z) as [|b l] eqn:E; [done|].
  apply Forall_cons in HD as [(d & Hd & ->) _].
  rewrite decide_False.
  - rewrite <-E. unfold to_radix. rewrite accumulate_digits; rewrite ?Hv; try done; lia.
  - intros Heq. pose proof (digit_char_range 10 ltac:(lia) d Hd) as Hr.
    rewrite Heq in Hr. vm_compute in Hr. destruct Hr; done.
Qed.

(** A decimal text consists of the characters [0] to [9]. *)
Lemma decimal_bytes z : 0 <= z -> Forall (fun b => 48 <= bz b <= 57) (to_decimal z).
Proof.
  intros Hz. eapply Forall_impl; [by apply (to_radix_digits 10 ltac:(lia))|].
  intros b (d & Hd & ->). unfold digit_char. rewrite bz_zb.
  destruct (Z.ltb_spec d 10); [|lia]. rewrite Z.mod_small; lia.
Qed.

Lemma decimal_not_in z c : 0 <= z -> ~ 48 <= bz c <= 57 -> c ∉ to_decimal z.
Proof.
  intros Hz Hc Hin. pose proof (decimal_bytes z Hz) as HD.
  rewrite Forall_forall in HD. by apply Hc, HD.
Qed.

Lemma to_radix_ascii radix z :
  2 <= radix <= 36 -> 0 <= z ->
  Forall (fun b => Utf8.is_ascii b = true) (to_radix radix z).
Proof.
  intros Hr Hz. eapply Forall_impl; [by apply to_radix_digits|].
  intros b (d & Hd & ->). pose proof (digit_char_range radix Hr d Hd).
  unfold Utf8.is_ascii. lia.
Qed.

(** Parsing succeeds only within the type. *)
Lemma accumulate_range radix max acc l v :
  2 <= radix -> 0 <= acc <= max -> accumulate radix max acc l = Some v -> 0 <= v <= max.
Proof.
  intros Hr. revert acc. induction l as [|b l IH]; intros acc Hacc; simpl; [intros [= <-]; done|].
  destruct (to_digit radix b) as [d|] eqn:Ed; [|done].
  destruct (Z.leb_spec (acc * radix + d) max); [|done]. apply IH. split; [|done].
  assert (0 <= d); [|nia]. unfold to_digit in Ed. repeat case_match; simplify_eq; lia.
Qed.

Lemma parse_uint_range max l v : 0 <= max -> parse_uint max l = Some v -> 0 <= v <= max.
Proof.
  unfold parse_uint. intros Hm.
  repeat case_match; try done; intros Ha; eapply accumulate_range, Ha; lia.
Qed.

End Num.
