(* ===== verification/Net.v ===== *)
(** * Internet addresses as text

    The part of [std::net] that [src/address.rs] and the SQuic address codec
    of [src/shadowquic/mod.rs] call: [IpAddr] and [SocketAddr] with their
    [Display] and [FromStr].  A parser takes the text that is left and
    returns a value with what follows it; on [None] the caller continues from
    the text it had, which is the standard library's [read_atomically]. *)

From Stdlib Require Import ZArith Lia.
From stdpp Require Import base gmap list strings.
From S2P Require Import Prelude Text.

#[local] Open Scope Z_scope.

Module Net.

(** An IPv4 address by its four octets, an IPv6 address by its eight
    sixteen-bit segments. *)
Inductive IpAddr :=
| V4 (octets : list Z)
| V6 (segments : list Z).

#[global] Instance IpAddr_eq_dec : EqDecision IpAddr.
Proof. solve_decision. Defined.

Record SocketAddr := { ip : IpAddr; port : Z; scope_id : Z }.

Definition v4_wf (octets : list Z) : Prop :=
  length octets = 4%nat /\ Forall (fun o => 0 <= o < 256) octets.

Definition v6_wf (segments : list Z) : Prop :=
  length segments = 8%nat /\ Forall (fun s => 0 <= s < 65536) segments.

Definition ip_wf (a : IpAddr) : Prop :=
  match a with V4 o => v4_wf o | V6 s => v6_wf s end.

(** ** Parsing *)

Definition parser (A : Type) : Type := bytes -> option (A * bytes).

Definition read_given_char (c : byte) : parser unit := fun l =>
  match l with
  | b :: l => if decide (b = c) then Some (tt, l) else None
  | [] => None
  end.

(** The digits at the front. *)
Fixpoint span_digits (radix : Z) (l : bytes) : list Z * bytes :=
  match l with
  | [] => ([], [])
  | b :: rest =>
      match Num.to_digit radix b with
      | Some d => let '(ds, rest) := span_digits radix rest in (d :: ds, rest)
      | None => ([], l)
      end
  end.

(** [read_number]: at least one digit, at most [max_digits] when given, no
    superfluous leading zero unless allowed, within the type. *)
Definition read_number (radix : Z) (max_digits : option Z) (allow_zero_prefix : bool)
    (max : Z) : parser Z := fun l =>
  let '(ds, rest) := span_digits radix l in
  if match max_digits with Some m => m <? len ds | None => false end then None
  else if len ds =? 0 then None
  else if negb allow_zero_prefix && (hd 0 ds =? 0) && (1 <? len ds) then None
  else if Num.value radix ds <=? max then Some (Num.value radix ds, rest) else None.

(** [read_separator]: the separator is expected except before the first
    item. *)
Definition read_separator {A} (sep : byte) (first : bool) (inner : parser A) : parser A :=
  fun l => if first then inner l
           else match read_given_char sep l with
                | Some (_, l) => inner l
                | None => None
                end.

Definition read_octet : parser Z := read_number 10 (Some 3) false 255.

Fixpoint read_octets (n : nat) (first : bool) : parser (list Z) := fun l =>
  match n with
  | O => Some ([], l)
  | S n =>
      match read_separator Ch.dot first read_octet l with
      | None => None
      | Some (o, l) =>
          match read_octets n false l with
          | None => None
          | Some (os, l) => Some (o :: os, l)
          end
      end
  end.

Definition read_ipv4 : parser (list Z) := read_octets 4 true.

Definition read_group : parser Z := read_number 16 (Some 4) true 65535.

(** Two segments of an embedded IPv4 address. *)
Definition v4_segments (octets : list Z) : list Z :=
  match octets with
  | [a; b; c; d] => [a * 256 + b; c * 256 + d]
  | _ => []
  end.

(** [read_groups] with room for [n] more groups: the groups, whether the last
    two were an embedded IPv4 address, and what follows. *)
Fixpoint read_groups (n : nat) (first : bool) (l : bytes) : list Z * bool * bytes :=
  match n with
  | O => ([], false, l)
  | S m =>
      match (if (2 <=? Z.of_nat n) then read_separator Ch.colon first read_ipv4 l else None) with
      | Some (octets, l) => (v4_segments octets, true, l)
      | None =>
          match read_separator Ch.colon first read_group l with
          | None => ([], false, l)
          | Some (g, l) =>
              let '(gs, v4, l) := read_groups m false l in (g :: gs, v4, l)
          end
      end
  end.

Definition read_ipv6 : parser (list Z) := fun l =>
  let '(head, head_v4, l) := read_groups 8 true l in
  if len head =? 8 then Some (head, l)
  else if head_v4 then None
  else match read_given_char Ch.colon l with
  | None => None
  | Some (_, l) =>
  match read_given_char Ch.colon l with
  | None => None
  | Some (_, l) =>
      let '(tail, _, l) := read_groups (8 - (length head + 1)) true l in
      Some (head ++ replicate (8 - length head - length tail) 0 ++ tail, l)
  end end.

Definition read_ip : parser IpAddr := fun l =>
  match read_ipv4 l with
  | Some (o, l) => Some (V4 o, l)
  | None => match read_ipv6 l with
            | Some (s, l) => Some (V6 s, l)
            | None => None
            end
  end.

Definition read_port : parser Z := fun l =>
  match read_given_char Ch.colon l with
  | Some (_, l) => read_number 10 None true 65535 l
  | None => None
  end.

Definition read_scope_id : parser Z := fun l =>
  match read_given_char Ch.percent l with
  | Some (_, l) => read_number 10 None true 4294967295 l
  | None => None
  end.

Definition read_socket_addr_v4 : parser SocketAddr := fun l =>
  match read_ipv4 l with
  | None => None
  | Some (o, l) =>
      match read_port l with
      | None => None
      | Some (p, l) => Some ({| ip := V4 o; port := p; scope_id := 0 |}, l)
      end
  end.

Definition read_socket_addr_v6 : parser SocketAddr := fun l =>
  match read_given_char Ch.lbracket l with
  | None => None
  | Some (_, l) =>
  match read_ipv6 l with
  | None => None
  | Some (s, l) =>
      let '(scope, l) := match read_scope_id l with
                         | Some (i, l) => (i, l)
                         | None => (0, l)
                         end in
      match read_given_char Ch.rbracket l with
      | None => None
      | Some (_, l) =>
          match read_port l with
          | None => None
          | Some (p, l) => Some ({| ip := V6 s; port := p; scope_id := scope |}, l)
          end
      end
  end end.

Definition read_socket_addr : parser SocketAddr := fun l =>
  match read_socket_addr_v4 l with
  | Some r => Some r
  | None => read_socket_addr_v6 l
  end.

(** [parse_with]: the whole text has to be consumed. *)
Definition parse_with {A} (p : parser A) (l : bytes) : option A :=
  match p l with
  | Some (a, []) => Some a
  | _ => None
  end.

(** [str::parse::<IpAddr>()] and [str::parse::<SocketAddr>()]. *)
Definition parse_ip (l : bytes) : option IpAddr := parse_with read_ip l.
Definition parse_socket_addr (l : bytes) : option SocketAddr := parse_with read_socket_addr l.

(** ** Display *)

(** Items joined by a separator character. *)
Fixpoint join (sep : byte) (items : list bytes) : bytes :=
  match items with
  | [] => []
  | [i] => i
  | i :: rest => i ++ sep :: join sep rest
  end.

Definition show_v4 (octets : list Z) : bytes := join Ch.dot (Num.to_decimal <$> octets).

Definition show_groups (gs : list Z) : bytes := join Ch.colon (Num.to_hex <$> gs).

(** The longest run of zero segments, the first one on a tie: start and
    length.  [cur] is the run that is open, [best] the longest so far. *)
Fixpoint longest_zeros (i : nat) (segs : list Z) (cur best : nat * nat) : nat * nat :=
  match segs with
  | [] => best
  | s :: segs =>
      if s =? 0 then
        let cur := if decide (cur.2 = 0)%nat then (i, 1)%nat else (cur.1, S cur.2) in
        longest_zeros (S i) segs cur (if decide (best.2 < cur.2)%nat then cur else best)
      else longest_zeros (S i) segs (0, 0)%nat best
  end.

(** [Ipv6Addr::to_ipv4_mapped]. *)
Definition to_ipv4_mapped (segs : list Z) : option (list Z) :=
  match segs with
  | [0; 0; 0; 0; 0; 65535; x; y] => Some [x / 256; x mod 256; y / 256; y mod 256]
  | _ => None
  end.

Definition show_v6 (segs : list Z) : bytes :=
  match to_ipv4_mapped segs with
  | Some o => str "::ffff:" ++ show_v4 o
  | None =>
      let '(start, n) := longest_zeros 0 segs (0, 0)%nat (0, 0)%nat in
      if decide (1 < n)%nat
      then show_groups (take start segs) ++ str "::" ++ show_groups (drop (start + n) segs)
      else show_groups segs
  end.

Definition show_ip (a : IpAddr) : bytes :=
  match a with V4 o => show_v4 o | V6 s => show_v6 s end.

Example show_v6_ex : show_v6 [0x2001; 0xdb8; 0; 0; 0; 0; 0; 1] = str "2001:db8::1".
Proof. reflexivity. Qed.
Example parse_v6_ex : parse_ip (str "2001:DB8::1") = Some (V6 [0x2001; 0xdb8; 0; 0; 0; 0; 0; 1]).
Proof. reflexivity. Qed.
Example parse_v4_octal_ex : parse_ip (str "01.2.3.4") = None.
Proof. reflexivity. Qed.
Example parse_mapped_ex : parse_ip (str "::ffff:1.2.3.4") = Some (V6 [0;0;0;0;0;0xffff;0x102;0x304]).
Proof. reflexivity. Qed.
Example parse_sock_ex : parse_socket_addr (str "[fe80::1%7]:80")
  = Some {| ip := V6 [0xfe80;0;0;0;0;0;0;1]; port := 80; scope_id := 7 |}.
Proof. reflexivity. Qed.

(** ** Printing, then parsing *)

(** The text does not continue the number in front of it. *)
Definition no_digit (radix : Z) (l : bytes) : Prop :=
  match l with [] => True | c :: _ => Num.to_digit radix c = None end.

Lemma to_digit_mono c : Num.to_digit 16 c = None -> Num.to_digit 10 c = None.
Proof. unfold Num.to_digit. repeat case_match; try done; lia. Qed.

Lemma no_digit_mono l : no_digit 16 l -> no_digit 10 l.
Proof. destruct l; [done|]. apply to_digit_mono. Qed.

Lemma read_given_char_eq c l : read_given_char c (c :: l) = Some (tt, l).
Proof. unfold read_given_char. by rewrite decide_True. Qed.

Lemma span_digits_print radix ds rest :
  2 <= radix <= 36 -> Forall (fun d => 0 <= d < radix) ds -> no_digit radix rest ->
  span_digits radix ((Num.digit_char <$> ds) ++ rest) = (ds, rest).
Proof.
  intros Hr HF Hrest. induction HF as [|d ds Hd HF IH]; csimpl.
  - destruct rest as [|c rest]; [done|]. simpl in *. by rewrite Hrest.
  - rewrite Num.to_digit_char by done. by rewrite IH.
Qed.

Lemma read_number_print radix md az max z rest :
  2 <= radix <= 36 -> 0 <= z <= max -> no_digit radix rest ->
  (forall m, md = Some m -> 0 < m /\ z < radix ^ m) ->
  read_number radix md az max (Num.to_radix radix z ++ rest) = Some (z, rest).
Proof.
  intros Hr Hz Hrest Hmd. unfold read_number, Num.to_radix.
  destruct (Num.digits_spec radix Hr z ltac:(lia)) as (Hv & HF & Hne & Hhd).
  rewrite span_digits_print by done.
  assert (0 < len (Num.digits radix z)).
  { destruct (Num.digits radix z); [done|]. lens. pose proof (len_nonneg l). lia. }
  replace (match md with Some m => m <? len (Num.digits radix z) | None => false end)
    with false.
  2: { destruct md as [m|]; [|done]. destruct (Hmd m eq_refl).
       pose proof (Num.len_digits radix Hr z m). lia. }
  destruct (Z.eqb_spec (len (Num.digits radix z)) 0); [lia|].
  assert (negb az && (hd 0 (Num.digits radix z) =? 0) && (1 <? len (Num.digits radix z))
    = false) as ->.
  { destruct az; [done|]. simpl. destruct (Z.eqb_spec (hd 0 (Num.digits radix z)) 0) as [E|];
      [|done]. by rewrite (Hhd E). }
  rewrite Hv. destruct (Z.leb_spec z max); [done|lia].
Qed.

Lemma read_octet_print z rest :
  0 <= z < 256 -> no_digit 10 rest -> read_octet (Num.to_decimal z ++ rest) = Some (z, rest).
Proof.
  intros Hz Hrest. apply read_number_print; [lia|lia|done|].
  intros m [= <-]. split; lia.
Qed.

Lemma read_group_print z rest :
  0 <= z < 65536 -> no_digit 16 rest -> read_group (Num.to_hex z ++ rest) = Some (z, rest).
Proof.
  intros Hz Hrest. apply read_number_print; [lia|lia|done|].
  intros m [= <-]. split; lia.
Qed.

(** Items each preceded by the separator. *)
Fixpoint sep_all (sep : byte) (items : list bytes) : bytes :=
  match items with
  | [] => []
  | i :: rest => sep :: i ++ sep_all sep rest
  end.

Lemma join_cons sep i items : join sep (i :: items) = i ++ sep_all sep items.
Proof.
  revert i. induction items as [|j items IH]; intros i; [by rewrite app_nil_r|].
  change (join sep (i :: j :: items)) with (i ++ sep :: join sep (j :: items)).
  by rewrite IH.
Qed.

Lemma no_digit_sep radix sep items rest :
  Num.to_digit radix sep = None -> no_digit radix rest ->
  no_digit radix (sep_all sep items ++ rest).
Proof. by destruct items. Qed.

Lemma read_octets_S n first l :
  read_octets (S n) first l =
  match read_separator Ch.dot first read_octet l with
  | None => None
  | Some (o, l) =>
      match read_octets n false l with
      | None => None
      | Some (os, l) => Some (o :: os, l)
      end
  end.
Proof. done. Qed.

Lemma read_octets_tail os rest :
  Forall (fun o => 0 <= o < 256) os -> no_digit 10 rest ->
  read_octets (length os) false (sep_all Ch.dot (Num.to_decimal <$> os) ++ rest)
  = Some (os, rest).
Proof.
  intros HF Hrest. induction HF as [|o os Ho HF IH]; [done|].
  cbn [length fmap list_fmap sep_all app]. cbn [read_octets read_separator read_given_char].
  rewrite decide_True by done. rewrite <-app_assoc, read_octet_print.
  - by rewrite IH.
  - done.
  - by apply no_digit_sep.
Qed.

Lemma read_ipv4_print o rest :
  v4_wf o -> no_digit 10 rest -> read_ipv4 (show_v4 o ++ rest) = Some (o, rest).
Proof.
  intros [Hl HF] Hrest. destruct o as [|o os]; [done|].
  apply Forall_cons in HF as [Ho HF]. injection Hl as Hl.
  unfold read_ipv4, show_v4. cbn [fmap list_fmap]. rewrite join_cons, <-app_assoc.
  rewrite read_octets_S. unfold read_separator.
  rewrite read_octet_print; [|done|by apply no_digit_sep].
  rewrite <-Hl. by rewrite read_octets_tail.
Qed.

(** What may follow a printed IPv6 group list: nothing that continues a
    number or an embedded IPv4 address, and no further group. *)
Definition stops (l : bytes) : Prop :=
  no_digit 16 l /\ (forall r, l <> Ch.dot :: r) /\
  (forall r, l = Ch.colon :: r -> no_digit 16 r).

Lemma span_digits_suffix radix l ds rest :
  span_digits radix l = (ds, rest) -> no_digit radix rest /\
    exists front, l = front ++ rest /\
      Forall2 (fun b d => Num.to_digit radix b = Some d) front ds.
Proof.
  revert ds rest. induction l as [|b l IH]; intros ds rest; simpl.
  { intros [= <- <-]. split; [done|]. exists []. by repeat constructor. }
  destruct (Num.to_digit radix b) as [d|] eqn:E.
  - destruct (span_digits radix l) as [ds' rest'] eqn:Es. intros [= <- <-].
    destruct (IH _ _ eq_refl) as (Hn & front & -> & HF). split; [done|].
    exists (b :: front). split; [done|]. by constructor.
  - intros [= <- <-]. split; [done|]. exists []. by repeat constructor.
Qed.

(** A hexadecimal group that is not followed by a dot is not the start of an
    IPv4 address. *)
Lemma read_ipv4_group g rest :
  0 <= g < 65536 -> no_digit 16 rest -> (forall r, rest <> Ch.dot :: r) ->
  read_ipv4 (Num.to_hex g ++ rest) = None.
Proof.
  intros Hg Hrest Hdot. unfold read_ipv4. rewrite read_octets_S. unfold read_separator at 1.
  destruct (read_octet (Num.to_hex g ++ rest)) as [[o l]|] eqn:E; [|done].
  assert (forall r, l <> Ch.dot :: r) as Hl; [|].
  { unfold read_octet, read_number in E.
    destruct (span_digits 10 (Num.to_hex g ++ rest)) as [ds l'] eqn:Es.
    assert (l' = l) as -> by (repeat case_match; by simplify_eq). clear E.
    apply span_digits_suffix in Es as (Hnd & front & Happ & HF).
    intros r ->. assert (Ch.dot ∈ Num.to_hex g) as Hin.
    { assert (length front < length (Num.to_hex g) \/
              length (Num.to_hex g) <= length front)%nat as [Hlt|Hge] by lia.
      - assert ((Num.to_hex g ++ rest) !! length front = Some Ch.dot) as Hlk.
        { rewrite Happ, lookup_app_r, Nat.sub_diag by done. done. }
        rewrite lookup_app_l in Hlk by done. by eapply list_elem_of_lookup_2.
      - exfalso. apply app_eq_inv in Happ as [(k & Hk1 & Hk2)|(k & Hk1 & Hk2)].
        + destruct k as [|c k]; [by eapply Hdot|].
          rewrite Hk1, length_app in Hge. simpl in Hge. lia.
        + destruct k as [|c k]; [by eapply Hdot|]. subst front rest.
          apply Forall2_app_inv_l in HF as (ds1 & ds2 & _ & HF & _).
          inversion HF as [|? d ? ? Hd]; subst. simpl in Hrest.
          apply to_digit_mono in Hrest. congruence. }
    pose proof (Num.to_radix_digits 16 ltac:(lia) g ltac:(lia)) as HD.
    rewrite Forall_forall in HD. apply HD in Hin as (d & Hd & Heq).
    pose proof (Num.digit_char_range 16 ltac:(lia) d Hd) as Hr. rewrite <-Heq in Hr.
    vm_compute in Hr. by destruct Hr. }
  rewrite read_octets_S. unfold read_separator, read_given_char.
  destruct l as [|c l]; [done|]. rewrite decide_False; [done|]. intros ->. by eapply Hl.
Qed.

Lemma read_number_no_digit radix md az max l :
  no_digit radix l -> read_number radix md az max l = None.
Proof.
  unfold read_number. destruct l as [|c l]; simpl; intros H.
  - by destruct md as [m|]; [case_match|].
  - rewrite H. by destruct md as [m|]; [case_match|].
Qed.

Lemma read_ipv4_no_digit l : no_digit 16 l -> read_ipv4 l = None.
Proof.
  intros H. unfold read_ipv4. rewrite read_octets_S. unfold read_separator, read_octet.
  rewrite read_number_no_digit; [done|]. by apply no_digit_mono.
Qed.

Lemma read_groups_S n first l :
  read_groups (S n) first l =
  match (if (2 <=? Z.of_nat (S n)) then read_separator Ch.colon first read_ipv4 l else None) with
  | Some (octets, l) => (v4_segments octets, true, l)
  | None =>
      match read_separator Ch.colon first read_group l with
      | None => ([], false, l)
      | Some (g, l) =>
          let '(gs, v4, l) := read_groups n false l in (g :: gs, v4, l)
      end
  end.
Proof. done. Qed.

(** [read_groups] stops where the groups stop. *)
Lemma read_groups_none n (first : bool) l :
  (if first then no_digit 16 l else stops l) -> read_groups n first l = ([], false, l).
Proof.
  intros H. destruct n as [|n]; [done|]. rewrite read_groups_S. unfold read_separator.
  assert (forall r, no_digit 16 r -> read_ipv4 r = None /\ read_group r = None) as Hn.
  { intros r Hr. split; [by apply read_ipv4_no_digit|by apply read_number_no_digit]. }
  destruct (2 <=? Z.of_nat (S n)), first.
  1, 3: by destruct (Hn l H) as [E1 E2]; rewrite ?E1, E2.
  all: destruct H as (Hd & Hdot & Hc); unfold read_given_char; destruct l as [|c l]; [done|];
    destruct (decide (c = Ch.colon)) as [->|]; [|done];
    by destruct (Hn l (Hc _ eq_refl)) as [E1 E2]; rewrite ?E1, E2.
Qed.

(** One printed group at the front. *)
Lemma read_groups_one n g l :
  0 <= g < 65536 -> no_digit 16 l -> (forall r, l <> Ch.dot :: r) ->
  read_groups (S n) true (Num.to_hex g ++ l) =
  (let '(gs, v4, l) := read_groups n false l in (g :: gs, v4, l)) /\
  read_groups (S n) false (Ch.colon :: Num.to_hex g ++ l) =
  (let '(gs, v4, l) := read_groups n false l in (g :: gs, v4, l)).
Proof.
  intros Hg Hl Hdot.
  rewrite !read_groups_S. unfold read_separator, read_given_char.
  rewrite decide_True by done. rewrite read_ipv4_group, read_group_print by done.
  by destruct (2 <=? Z.of_nat (S n)).
Qed.

Lemma sep_all_follow items rest :
  stops rest -> no_digit 16 (sep_all Ch.colon items ++ rest) /\
  (forall r, sep_all Ch.colon items ++ rest <> Ch.dot :: r).
Proof.
  intros (H1 & H2 & _). destruct items; simpl; [done|]. split; [done|]. intros r [=].
Qed.

Lemma read_groups_tail gs n rest :
  Forall (fun s => 0 <= s < 65536) gs -> (length gs <= n)%nat -> stops rest ->
  read_groups n false (sep_all Ch.colon (Num.to_hex <$> gs) ++ rest) = (gs, false, rest).
Proof.
  intros HF. revert n. induction HF as [|g gs Hg HF IH]; intros n Hn Hs.
  { by apply (read_groups_none n false). }
  destruct n as [|n]; [simpl in Hn; lia|].
  rewrite fmap_cons. cbn [sep_all app]. rewrite <-app_assoc.
  destruct (sep_all_follow (Num.to_hex <$> gs) rest Hs) as [Hd Hdot].
  destruct (read_groups_one n g _ Hg Hd Hdot) as [_ ->].
  rewrite IH; [done| |done]. simpl in Hn. lia.
Qed.

Lemma read_groups_print gs n rest :
  Forall (fun s => 0 <= s < 65536) gs -> (length gs <= n)%nat -> stops rest ->
  read_groups n true (show_groups gs ++ rest) = (gs, false, rest).
Proof.
  intros HF Hn Hs. destruct HF as [|g gs Hg HF].
  { apply (read_groups_none n true). exact (proj1 Hs). }
  destruct n as [|n]; [simpl in Hn; lia|].
  unfold show_groups. rewrite fmap_cons, join_cons, <-app_assoc.
  destruct (sep_all_follow (Num.to_hex <$> gs) rest Hs) as [Hd Hdot].
  destruct (read_groups_one n g _ Hg Hd Hdot) as [-> _].
  rewrite read_groups_tail; [done..| |done]. simpl in Hn. lia.
Qed.

(** ** The run of zero segments *)

Definition zero_run (segs : list Z) (run : nat * nat) : Prop :=
  forall j, (run.1 <= j < run.1 + run.2)%nat -> segs !! j = Some 0.

Lemma longest_zeros_run full segs i cur best :
  drop i full = segs ->
  (cur.2 <> 0 -> cur.1 + cur.2 = i)%nat ->
  zero_run full cur -> zero_run full best ->
  zero_run full (longest_zeros i segs cur best).
Proof.
  revert i cur best. induction segs as [|s segs IH]; intros i cur best Hd Hi Hc Hb; [done|].
  assert (full !! i = Some s) as Hs.
  { rewrite <-(Nat.add_0_r i), <-lookup_drop, Hd. done. }
  assert (drop (S i) full = segs) as Hd'.
  { rewrite <-(Nat.add_1_r i), <-drop_drop, Hd. simpl. by rewrite drop_0. }
  cbn [longest_zeros]. destruct (Z.eqb_spec s 0) as [->|].
  - set (cur' := if decide (cur.2 = 0%nat) then (i, 1%nat) else (cur.1, S cur.2)).
    assert (cur'.1 + cur'.2 = S i /\ zero_run full cur')%nat as [H1 H2].
    { unfold cur'. case_decide as E; simpl; (split; [lia|]).
      - intros j Hj. simpl in Hj. by replace j with i by lia.
      - intros j Hj. simpl in Hj. destruct (decide (j = i)) as [->|]; [done|].
        apply Hc. lia. }
    apply IH; [done|done|done|]. by case_decide.
  - apply IH; [done|done| |done]. intros j Hj. simpl in Hj. lia.
Qed.

Lemma zero_run_split segs start n :
  zero_run segs (start, n) -> (0 < n)%nat ->
  (start + n <= length segs)%nat /\
  segs = take start segs ++ replicate n 0 ++ drop (start + n) segs.
Proof.
  intros Hr Hn.
  assert (start + n <= length segs)%nat as Hl.
  { assert (segs !! (start + n - 1)%nat = Some 0) as H by (apply Hr; simpl; lia).
    apply lookup_lt_Some in H. lia. }
  split; [done|]. rewrite <-(take_drop start segs) at 1. f_equal.
  rewrite <-(take_drop n (drop start segs)), drop_drop. f_equal.
  apply list_eq. intros j. destruct (decide (j < n)%nat).
  - rewrite lookup_take_lt, lookup_drop, lookup_replicate_2 by done. apply Hr. simpl. lia.
  - rewrite !lookup_ge_None_2; [done|rewrite length_replicate; lia|].
    rewrite length_take, length_drop. lia.
Qed.

Lemma to_ipv4_mapped_inv segs o :
  to_ipv4_mapped segs = Some o ->
  exists x y, segs = [0; 0; 0; 0; 0; 65535; x; y] /\
    o = [x / 256; x mod 256; y / 256; y mod 256].
Proof. unfold to_ipv4_mapped. intros H. repeat case_match; simplify_eq; eauto. Qed.

Lemma stops_colon l : no_digit 16 l -> stops (Ch.colon :: l).
Proof. intros. split_and!; [done|done|]. by intros r [= <-]. Qed.

Lemma read_v6_double_colon head l tail rest :
  (length head + length tail <= 7)%nat ->
  Forall (fun s => 0 <= s < 65536) head ->
  read_groups (8 - (length head + 1)) true l = (tail, false, rest) \/
  read_groups (8 - (length head + 1)) true l = (tail, true, rest) ->
  read_ipv6 (show_groups head ++ str "::" ++ l)
  = Some (head ++ replicate (8 - length head - length tail) 0 ++ tail, rest).
Proof.
  intros Hl HF Ht. unfold read_ipv6.
  rewrite read_groups_print; [|done|lia|by apply stops_colon].
  destruct (Z.eqb_spec (len head) 8); [unfold len in *; lia|]. 
  change (str "::" ++ l) with (Ch.colon :: Ch.colon :: l). rewrite !read_given_char_eq.
  by destruct Ht as [-> | ->].
Qed.

Lemma read_ipv6_print segs rest :
  v6_wf segs -> stops rest -> read_ipv6 (show_v6 segs ++ rest) = Some (segs, rest).
Proof.
  intros [Hl HF] Hs. unfold show_v6. destruct (to_ipv4_mapped segs) as [o|] eqn:Em.
  - apply to_ipv4_mapped_inv in Em as (x & y & -> & ->).
    do 6 apply Forall_cons in HF as [_ HF].
    apply Forall_cons in HF as [Hx [Hy _]%Forall_cons].
    pose proof (Z.div_mod x 256 ltac:(lia)). pose proof (Z.div_mod y 256 ltac:(lia)).
    pose proof (Z.mod_pos_bound x 256 ltac:(lia)). pose proof (Z.mod_pos_bound y 256 ltac:(lia)).
    set (o := [x / 256; x mod 256; y / 256; y mod 256]).
    assert (v4_wf o) as Ho.
    { split; [done|]. repeat (apply Forall_cons; split; [lia|]). done. }
    rewrite <-app_assoc.
    change (str "::ffff:" ++ show_v4 o ++ rest)
      with (show_groups [] ++ str "::" ++ Num.to_hex 65535 ++ Ch.colon :: show_v4 o ++ rest).
    rewrite (read_v6_double_colon [] _ [65535; x; y] rest); [done|simpl; lia|done|].
    right. change (8 - (length (@nil Z) + 1))%nat with 7%nat.
    destruct (read_groups_one 6 65535 (Ch.colon :: show_v4 o ++ rest)) as [-> _]; [done..|].
    rewrite read_groups_S. unfold read_separator, read_given_char.
    rewrite decide_True by done. rewrite read_ipv4_print by (done || apply no_digit_mono, (proj1 Hs)).
    cbv iota beta. unfold o, v4_segments. do 3 f_equal; repeat f_equal; lia.
  - destruct (longest_zeros 0 segs (0, 0)%nat (0, 0)%nat) as [start n] eqn:E.
    destruct (decide (1 < n)%nat) as [Hn|Hn].
    + assert (zero_run segs (start, n)) as Hr.
      { rewrite <-E. apply longest_zeros_run; [done|done|..]; intros j Hj; simpl in Hj; lia. }
      destruct (zero_run_split segs start n Hr ltac:(lia)) as [Hle Hsplit].
      rewrite <-!app_assoc.
      rewrite (read_v6_double_colon _ _ (drop (start + n) segs) rest).
      * rewrite length_take, length_drop, Hl. do 2 f_equal. rewrite Hsplit at 3.
        do 3 f_equal. lia.
      * rewrite length_take, length_drop. lia.
      * by apply Forall_take.
      * left. apply read_groups_print; [by apply Forall_drop| |done].
        rewrite length_take, length_drop. lia.
    + unfold read_ipv6. rewrite read_groups_print by (done || lia).
      destruct (Z.eqb_spec (len segs) 8); [done|]. unfold len in *. lia.
Qed.

(** A printed IPv6 address is not mistaken for an IPv4 address. *)
Lemma read_ipv4_v6 segs rest :
  v6_wf segs -> stops rest -> read_ipv4 (show_v6 segs ++ rest) = None.
Proof.
  intros [Hl HF] Hs. unfold show_v6.
  assert (forall gs r, gs <> [] -> Forall (fun s => 0 <= s < 65536) gs -> stops r ->
    read_ipv4 (show_groups gs ++ r) = None) as Hg.
  { intros gs r Hne HFg Hr. destruct HFg as [|g gs Hg HFg]; [done|].
    unfold show_groups. rewrite fmap_cons, join_cons, <-app_assoc.
    destruct (sep_all_follow (Num.to_hex <$> gs) r Hr) as [Hd Hdot].
    by apply read_ipv4_group. }
  destruct (to_ipv4_mapped segs); [rewrite <-app_assoc; by apply read_ipv4_no_digit|].
  destruct (longest_zeros 0 segs (0, 0)%nat (0, 0)%nat) as [start n].
  case_decide; [|apply Hg; [by destruct segs|done|done]].
  rewrite <-!app_assoc. destruct (take start segs) as [|g gs] eqn:E.
  - by apply read_ipv4_no_digit.
  - apply Hg; [done| |by apply stops_colon]. rewrite <-E. by apply Forall_take.
Qed.

Lemma parse_show_ip a : ip_wf a -> parse_ip (show_ip a) = Some a.
Proof.
  unfold parse_ip, parse_with, read_ip. destruct a as [o|s]; simpl; intros Hwf.
  - rewrite <-(app_nil_r (show_v4 o)), read_ipv4_print by done. done.
  - assert (stops []) as Hs by done.
    rewrite <-(app_nil_r (show_v6 s)), read_ipv4_v6, read_ipv6_print by done. done.
Qed.

(** ** Parsing, then printing *)

Lemma to_digit_10_inv b d : Num.to_digit 10 b = Some d -> 0 <= d < 10 /\ b = Num.digit_char d.
Proof.
  unfold Num.to_digit. intros H. pose proof (bz_range b).
  assert (0 <= d < 10 /\ bz b = 48 + d) as [Hd Hb].
  { repeat case_match; simplify_eq; lia. }
  split; [done|]. apply bz_inj. unfold Num.digit_char. rewrite bz_zb, Hb.
  destruct (Z.ltb_spec d 10); [|lia]. rewrite Z.mod_small; lia.
Qed.

Lemma to_digit_range radix b d : Num.to_digit radix b = Some d -> 0 <= d < radix.
Proof. unfold Num.to_digit. intros H. repeat case_match; simplify_eq; lia. Qed.

Lemma read_octet_inv l o rest :
  read_octet l = Some (o, rest) -> 0 <= o < 256 /\ l = Num.to_decimal o ++ rest.
Proof.
  unfold read_octet, read_number.
  destruct (span_digits 10 l) as [ds l'] eqn:Es.
  apply span_digits_suffix in Es as (_ & front & -> & HF).
  destruct (3 <? len ds); [done|]. destruct (Z.eqb_spec (len ds) 0) as [|Hne]; [done|].
  destruct (negb false && (hd 0 ds =? 0) && (1 <? len ds)) eqn:Hz; [done|].
  destruct (Z.leb_spec (Num.value 10 ds) 255); [|done]. intros [= <- <-].
  assert (front = Num.digit_char <$> ds /\ Forall (fun d => 0 <= d < 10) ds) as [-> HD].
  { clear -HF. induction HF as [|b d front ds Hbd HF [IH1 IH2]]; [done|].
    apply to_digit_10_inv in Hbd as [Hd ->]. csimpl.
    split; [by rewrite IH1|by constructor]. }
  pose proof (Num.value_range 10 ltac:(lia) ds HD).
  split; [lia|]. f_equal. unfold Num.to_decimal, Num.to_radix.
  rewrite (Num.digits_value 10 ltac:(lia)); [done|].
  split_and!; [done|by intros ->|]. intros Hhd. simpl in Hz.
  destruct ds as [|d [|d2 ds]]; [done|simpl in Hhd; by subst|]. simpl in Hhd.
  rewrite !len_cons in *. pose proof (len_nonneg ds). subst d. simpl in Hz. lia.
Qed.

Lemma read_octets_inv n first l os rest :
  read_octets n first l = Some (os, rest) ->
  length os = n /\ Forall (fun o => 0 <= o < 256) os /\
  l = (if first then join Ch.dot (Num.to_decimal <$> os)
       else sep_all Ch.dot (Num.to_decimal <$> os)) ++ rest.
Proof.
  revert first l os. induction n as [|n IH]; intros first l os; [|rewrite read_octets_S].
  { intros [= <- <-]. by destruct first. }
  destruct (read_separator Ch.dot first read_octet l) as [[o l1]|] eqn:E; [|done].
  destruct (read_octets n false l1) as [[os' l2]|] eqn:E2; [|done].
  intros [= <- <-]. apply IH in E2 as (Hlen & HF & ->).
  assert (0 <= o < 256 /\ l = (if first then [] else [Ch.dot]) ++ Num.to_decimal o
    ++ sep_all Ch.dot (Num.to_decimal <$> os') ++ l2) as [Ho ->].
  { unfold read_separator, read_given_char in E. destruct first.
    - by apply read_octet_inv in E.
    - destruct l as [|c l]; [done|]. case_decide as Hc; [|done]. subst c.
      apply read_octet_inv in E as [? ->]. done. }
  split_and!; [simpl; congruence|by constructor|].
  rewrite fmap_cons, join_cons. destruct first; cbn [sep_all app]; by rewrite <-!app_assoc.
Qed.

(** The textual form of an IPv4 address is unique. *)
Lemma read_ipv4_inv l o rest :
  read_ipv4 l = Some (o, rest) -> v4_wf o /\ l = show_v4 o ++ rest.
Proof. intros (? & ? & ->)%read_octets_inv. done. Qed.

Lemma read_number_range radix md az max l v rest :
  2 <= radix <= 36 -> read_number radix md az max l = Some (v, rest) -> 0 <= v <= max.
Proof.
  intros Hr. unfold read_number. destruct (span_digits radix l) as [ds l'] eqn:Es.
  apply span_digits_suffix in Es as (_ & front & -> & HF).
  repeat case_match; try done; intros [= <- <-].
  all: assert (Forall (fun d => 0 <= d < radix) ds) as HD
    by (clear -HF; induction HF; constructor; eauto using to_digit_range).
  all: pose proof (Num.value_range radix Hr ds HD); lia.
Qed.

Lemma v4_segments_wf o :
  v4_wf o -> length (v4_segments o) = 2%nat /\
    Forall (fun s => 0 <= s < 65536) (v4_segments o).
Proof.
  intros [Hl HF]. destruct o as [|a [|b [|c [|d [|]]]]]; try done.
  do 4 (apply Forall_cons in HF as [? HF]). split; [done|].
  repeat (apply Forall_cons; split; [lia|]). done.
Qed.

Lemma read_groups_wf n first l gs v4 rest :
  read_groups n first l = (gs, v4, rest) ->
  (length gs <= n)%nat /\ Forall (fun s => 0 <= s < 65536) gs.
Proof.
  revert first l gs v4 rest.
  induction n as [|n IH]; intros first l gs v4 rest; [by intros [= <- <- <-]|].
  rewrite read_groups_S.
  destruct (if 2 <=? Z.of_nat (S n) then read_separator Ch.colon first read_ipv4 l else None)
    as [[o l1]|] eqn:E.
  - intros [= <- <- <-]. destruct (Z.leb_spec 2 (Z.of_nat (S n))); [|done].
    assert (v4_wf o) as Ho.
    { unfold read_separator, read_given_char in E.
      repeat case_match; try done; by eapply read_ipv4_inv. }
    apply v4_segments_wf in Ho as [-> ?]. split; [lia|done].
  - destruct (read_separator Ch.colon first read_group l) as [[g l1]|] eqn:Eg.
    + destruct (read_groups n false l1) as [[gs' v'] l2] eqn:Er. intros [= <- <- <-].
      apply IH in Er as [Hlen HF]. split; [simpl; lia|]. constructor; [|done].
      assert (0 <= g <= 65535); [|lia].
      unfold read_separator, read_given_char in Eg.
      repeat case_match; try done; eapply read_number_range, Eg; lia.
    + intros [= <- <- <-]. split; [simpl; lia|done].
Qed.

Lemma read_ipv6_wf l s rest : read_ipv6 l = Some (s, rest) -> v6_wf s.
Proof.
  unfold read_ipv6. destruct (read_groups 8 true l) as [[head v4] l1] eqn:E.
  apply read_groups_wf in E as [Hh HFh].
  destruct (Z.eqb_spec (len head) 8); [intros [= <- _]; unfold len in *; split; [lia|done]|].
  destruct v4; [done|].
  destruct (read_given_char Ch.colon l1) as [[_ l2]|]; [|done].
  destruct (read_given_char Ch.colon l2) as [[_ l3]|]; [|done].
  destruct (read_groups (8 - (length head + 1)) true l3) as [[tail v4'] l4] eqn:E.
  apply read_groups_wf in E as [Ht HFt]. intros [= <- _]. unfold len in *. split.
  - rewrite !length_app, length_replicate. lia.
  - apply Forall_app; split; [done|]. apply Forall_app; split; [|done].
    apply Forall_replicate. lia.
Qed.

Lemma parse_ip_wf l a : parse_ip l = Some a -> ip_wf a.
Proof.
  unfold parse_ip, parse_with, read_ip.
  destruct (read_ipv4 l) as [[o r]|] eqn:E4.
  - destruct r; [|done]. intros [= <-]. by eapply read_ipv4_inv.
  - destruct (read_ipv6 l) as [[s r]|] eqn:E6; [|done].
    destruct r; [|done]. intros [= <-]. by eapply read_ipv6_wf.
Qed.

Lemma read_port_range l p rest : read_port l = Some (p, rest) -> 0 <= p <= 65535.
Proof.
  unfold read_port. destruct (read_given_char Ch.colon l) as [[_ r]|]; [|done].
  apply read_number_range. lia.
Qed.

Lemma read_socket_addr_wf l a rest :
  read_socket_addr l = Some (a, rest) -> ip_wf (ip a) /\ 0 <= port a <= 65535.
Proof.
  unfold read_socket_addr. destruct (read_socket_addr_v4 l) as [[a' r]|] eqn:E4.
  - intros [= <- <-]. unfold read_socket_addr_v4 in E4.
    destruct (read_ipv4 l) as [[o r1]|] eqn:Eo; [|done].
    destruct (read_port r1) as [[p r2]|] eqn:Ep; [|done]. simplify_eq/=.
    split; [by eapply read_ipv4_inv|by eapply read_port_range].
  - clear E4. unfold read_socket_addr_v6.
    destruct (read_given_char Ch.lbracket l) as [[_ r0]|]; [|done].
    destruct (read_ipv6 r0) as [[s r1]|] eqn:Eo; [|done].
    destruct (match read_scope_id r1 with Some (i, l0) => (i, l0) | None => (0, r1) end)
      as [scope r2].
    destruct (read_given_char Ch.rbracket r2) as [[_ r3]|]; [|done].
    destruct (read_port r3) as [[p r4]|] eqn:Ep; [|done]. intros [= <- <-]. simpl.
    split; [by eapply read_ipv6_wf|by eapply read_port_range].
Qed.

Lemma parse_socket_addr_wf l a :
  parse_socket_addr l = Some a -> ip_wf (ip a) /\ 0 <= port a <= 65535.
Proof.
  unfold parse_socket_addr, parse_with.
  destruct (read_socket_addr l) as [[a' [|]]|] eqn:E; intros; simplify_eq.
  by eapply read_socket_addr_wf.
Qed.

(** ** Socket addresses *)

Lemma read_port_print p :
  0 <= p <= 65535 -> read_port (Ch.colon :: Num.to_decimal p) = Some (p, []).
Proof.
  intros Hp. unfold read_port. rewrite read_given_char_eq.
  rewrite <-(app_nil_r (Num.to_decimal p)). by apply read_number_print.
Qed.

(** A bracketed IPv6 address and a port. *)
Lemma parse_socket_v6_print s p :
  v6_wf s -> 0 <= p <= 65535 ->
  parse_socket_addr (Ch.lbracket :: show_v6 s ++ Ch.rbracket :: Ch.colon :: Num.to_decimal p)
  = Some {| ip := V6 s; port := p; scope_id := 0 |}.
Proof.
  intros Hs Hp. unfold parse_socket_addr, parse_with, read_socket_addr, read_socket_addr_v4.
  rewrite read_ipv4_no_digit by done.
  unfold read_socket_addr_v6. rewrite read_given_char_eq.
  rewrite read_ipv6_print; [|done|].
  - cbn [read_scope_id read_given_char]. unfold read_scope_id, read_given_char at 1.
    rewrite decide_False by done. rewrite read_given_char_eq, read_port_print by done. done.
  - split_and!; done.
Qed.

(** A dotted address and a port is read back as written, and nothing else
    without a bracket is a socket address. *)
Lemma parse_socket_v4_print o p :
  v4_wf o -> 0 <= p <= 65535 ->
  parse_socket_addr (show_v4 o ++ Ch.colon :: Num.to_decimal p)
  = Some {| ip := V4 o; port := p; scope_id := 0 |}.
Proof.
  intros Ho Hp. unfold parse_socket_addr, parse_with, read_socket_addr, read_socket_addr_v4.
  by rewrite read_ipv4_print, read_port_print by done.
Qed.

(** The front of a text that parses as a socket address. *)
Lemma parse_socket_inv l a :
  parse_socket_addr l = Some a ->
  (exists o rest, ip a = V4 o /\ v4_wf o /\ l = show_v4 o ++ Ch.colon :: rest) \/
  (exists rest, l = Ch.lbracket :: rest).
Proof.
  unfold parse_socket_addr, parse_with, read_socket_addr, read_socket_addr_v4. intros H.
  destruct (read_ipv4 l) as [[o r1]|] eqn:Eo.
  - apply read_ipv4_inv in Eo as [Ho ->]. destruct (read_port r1) as [[p r2]|] eqn:Ep.
    + left. destruct r2; [|done]. simplify_eq/=. exists o.
      unfold read_port, read_given_char in Ep. destruct r1 as [|c r1]; [done|].
      case_decide as Hc; [|done]. subst c. eauto.
    + right. unfold read_socket_addr_v6, read_given_char in H.
      destruct (show_v4 o ++ r1) as [|c r]; [done|]. case_decide as Hc; [|done]. subst c. eauto.
  - right. unfold read_socket_addr_v6, read_given_char in H.
    destruct l as [|c r]; [done|]. case_decide as Hc; [|done]. subst c. eauto.
Qed.

(** ** Counting separators *)

Definition colons (l : bytes) : nat := length (filter (fun b => b = Ch.colon) l).

Lemma colons_app l1 l2 : colons (l1 ++ l2) = (colons l1 + colons l2)%nat.
Proof. unfold colons. by rewrite filter_app, length_app. Qed.

Lemma colons_zero l : colons l = 0%nat <-> Ch.colon ∉ l.
Proof.
  unfold colons. split.
  - intros H%nil_length_inv Hin. assert (Ch.colon ∈ filter (fun b => b = Ch.colon) l) as Hf.
    { by apply list_elem_of_filter. }
    rewrite H in Hf. by apply not_elem_of_nil in Hf.
  - intros Hn. induction l as [|b l IH]; [done|].
    apply not_elem_of_cons in Hn as [Hb Hn]. rewrite filter_cons_False by done. by apply IH.
Qed.

Lemma read_number_suffix radix md az max l v rest :
  read_number radix md az max l = Some (v, rest) -> exists front, l = front ++ rest.
Proof.
  unfold read_number. destruct (span_digits radix l) as [ds l'] eqn:Es.
  apply span_digits_suffix in Es as (_ & front & -> & _).
  repeat case_match; try done; intros [= <- <-]; eauto.
Qed.

Lemma read_separator_colons {A} first (inner : parser A) l a rest :
  (forall l a rest, inner l = Some (a, rest) -> exists front, l = front ++ rest) ->
  read_separator Ch.colon first inner l = Some (a, rest) ->
  (colons rest + (if first then 0 else 1) <= colons l)%nat.
Proof.
  intros Hs. unfold read_separator, read_given_char. destruct first.
  - intros (front & ->)%Hs. rewrite colons_app. lia.
  - destruct l as [|c l]; [done|]. case_decide as Hc; [|done]. subst c.
    intros (front & ->)%Hs. change (Ch.colon :: front ++ rest) with ([Ch.colon] ++ front ++ rest).
    rewrite !colons_app. change (colons [Ch.colon]) with 1%nat. lia.
Qed.

(** Each group after the first costs a colon, except that an embedded IPv4
    address gives two groups. *)
Lemma read_groups_colons n first l gs v4 rest :
  read_groups n first l = (gs, v4, rest) ->
  (colons rest + (length gs - (if first then 2 else 1)) <= colons l)%nat.
Proof.
  revert first l gs v4 rest.
  induction n as [|n IH]; intros first l gs v4 rest; [intros [= <- <- <-]; simpl; lia|].
  rewrite read_groups_S.
  destruct (if 2 <=? Z.of_nat (S n) then read_separator Ch.colon first read_ipv4 l else None)
    as [[o l1]|] eqn:E.
  - intros [= <- <- <-]. destruct (Z.leb_spec 2 (Z.of_nat (S n))); [|done].
    apply read_separator_colons in E.
    + assert (length (v4_segments o) <= 2)%nat by (unfold v4_segments; repeat case_match; simpl; lia).
      destruct first; lia.
    + intros ? ? ? (_ & ->)%read_ipv4_inv. eauto.
  - destruct (read_separator Ch.colon first read_group l) as [[g l1]|] eqn:Eg.
    + destruct (read_groups n false l1) as [[gs' v'] l2] eqn:Er. intros [= <- <- <-].
      apply IH in Er. apply read_separator_colons in Eg; [|by apply read_number_suffix].
      destruct first; simpl; lia.
    + intros [= <- <- <-]. simpl. lia.
Qed.

Lemma read_given_colon l l' :
  read_given_char Ch.colon l = Some (tt, l') -> colons l = S (colons l').
Proof.
  unfold read_given_char. destruct l as [|c l]; [done|]. case_decide as Hc; [|done].
  intros [= <-]. subst c. done.
Qed.

Lemma read_ipv6_colons l s rest :
  read_ipv6 l = Some (s, rest) -> (colons rest + 2 <= colons l)%nat.
Proof.
  unfold read_ipv6. destruct (read_groups 8 true l) as [[head v4] l1] eqn:E.
  apply read_groups_colons in E.
  destruct (Z.eqb_spec (len head) 8) as [E8|]; [intros [= <- <-]; unfold len in E8; lia|].
  destruct v4; [done|].
  destruct (read_given_char Ch.colon l1) as [[[] l2]|] eqn:E1; [|done].
  destruct (read_given_char Ch.colon l2) as [[[] l3]|] eqn:E2; [|done].
  destruct (read_groups (8 - (length head + 1)) true l3) as [[tail v4'] l4] eqn:E3.
  apply read_groups_colons in E3. apply read_given_colon in E1, E2.
  intros [= _ <-]. lia.
Qed.

(** A bracketed socket address has at least two colons; a text with a single
    one is a socket address only with a dotted address. *)
Lemma parse_socket_one_colon l a :
  parse_socket_addr l = Some a -> colons l = 1%nat ->
  exists o rest, ip a = V4 o /\ v4_wf o /\ l = show_v4 o ++ Ch.colon :: rest.
Proof.
  unfold parse_socket_addr, parse_with, read_socket_addr.
  destruct (read_socket_addr_v4 l) as [[a4 r4]|] eqn:E4.
  - intros H _. destruct r4; [|done]. simplify_eq. unfold read_socket_addr_v4 in E4.
    destruct (read_ipv4 l) as [[o r1]|] eqn:Eo; [|done].
    apply read_ipv4_inv in Eo as [Ho ->].
    destruct (read_port r1) as [[p r2]|] eqn:Ep; [|done]. simplify_eq/=.
    unfold read_port, read_given_char in Ep. destruct r1 as [|c r1]; [done|].
    case_decide as Hc; [|done]. subst c. eauto.
  - intros H Hc. exfalso. clear E4. unfold read_socket_addr_v6 in H.
    unfold read_given_char at 1 in H. destruct l as [|c l]; [done|].
    case_decide; [|done]. subst c.
    destruct (read_ipv6 l) as [[s r]|] eqn:E6; [|done].
    apply read_ipv6_colons in E6. change (colons (Ch.lbracket :: l)) with (colons l) in Hc. lia.
Qed.

(** ** The characters of printed addresses *)

Lemma show_v4_chars o b :
  v4_wf o -> b <> Ch.dot -> (forall z, 0 <= z -> b ∉ Num.to_decimal z) -> b ∉ show_v4 o.
Proof.
  intros [_ HF] Hdot Hd Hin. unfold show_v4 in Hin.
  destruct HF as [|o os Ho HF]; [by apply not_elem_of_nil in Hin|].
  rewrite fmap_cons, join_cons in Hin. apply elem_of_app in Hin as [Hin|Hin]; [by eapply (Hd o); [lia|]|].
  clear Ho o. induction HF as [|o os Ho HF IH]; [by apply not_elem_of_nil in Hin|].
  rewrite fmap_cons in Hin. cbn [sep_all] in Hin.
  apply elem_of_cons in Hin as [Hin|Hin]; [done|].
  apply elem_of_app in Hin as [Hin|Hin]; [by eapply (Hd o); [lia|]|by apply IH].
Qed.

Lemma show_v4_no_colon o : v4_wf o -> Ch.colon ∉ show_v4 o.
Proof.
  intros Ho. apply show_v4_chars; [done|done|]. intros z Hz. apply Num.decimal_not_in; [done|]. by intros [_ ?].
Qed.

Lemma show_v4_no_bracket o : v4_wf o -> Ch.lbracket ∉ show_v4 o.
Proof.
  intros Ho. apply show_v4_chars; [done|done|]. intros z Hz. apply Num.decimal_not_in; [done|]. by intros [_ ?].
Qed.

Lemma show_v6_colon s : v6_wf s -> Ch.colon ∈ show_v6 s.
Proof.
  intros [Hl _]. unfold show_v6. destruct (to_ipv4_mapped s).
  { apply elem_of_app. left. by apply list_elem_of_here. }
  destruct (longest_zeros 0 s (0, 0)%nat (0, 0)%nat) as [start n]. case_decide.
  { apply elem_of_app. right. by apply list_elem_of_here. }
  destruct s as [|a [|b s]]; [done..|]. unfold show_groups.
  rewrite !fmap_cons, join_cons. cbn [sep_all].
  apply elem_of_app. right. by apply list_elem_of_here.
Qed.

Lemma join_ascii sep items :
  Utf8.is_ascii sep = true ->
  Forall (fun i => Forall (fun b => Utf8.is_ascii b = true) i) items ->
  Forall (fun b => Utf8.is_ascii b = true) (join sep items).
Proof.
  intros Hs HF. destruct HF as [|i items Hi HF]; [done|]. rewrite join_cons.
  apply Forall_app; split; [done|]. clear Hi i.
  induction HF as [|i items Hi HF IH]; [done|]. cbn [sep_all].
  constructor; [done|]. by apply Forall_app.
Qed.

Lemma show_v4_ascii o : v4_wf o -> Forall (fun b => Utf8.is_ascii b = true) (show_v4 o).
Proof.
  intros [_ HF]. apply join_ascii; [done|]. apply Forall_fmap.
  eapply Forall_impl; [done|]. intros z Hz. apply Num.to_radix_ascii; simpl in *; lia.
Qed.

Lemma show_groups_ascii gs :
  Forall (fun s => 0 <= s < 65536) gs ->
  Forall (fun b => Utf8.is_ascii b = true) (show_groups gs).
Proof.
  intros HF. apply join_ascii; [done|]. apply Forall_fmap.
  eapply Forall_impl; [done|]. intros z Hz. apply Num.to_radix_ascii; simpl in *; lia.
Qed.

Lemma show_ip_ascii a : ip_wf a -> Forall (fun b => Utf8.is_ascii b = true) (show_ip a).
Proof.
  destruct a as [o|s]; simpl; [apply show_v4_ascii|]. intros [Hl HF]. unfold show_v6.
  destruct (to_ipv4_mapped s) as [o|] eqn:E.
  - apply to_ipv4_mapped_inv in E as (x & y & -> & ->).
    apply Forall_app; split; [by repeat constructor|]. apply show_v4_ascii.
    do 6 apply Forall_cons in HF as [_ HF]. apply Forall_cons in HF as [Hx [Hy _]%Forall_cons].
    split; [done|].
    pose proof (Z.mod_pos_bound x 256). pose proof (Z.mod_pos_bound y 256).
    pose proof (Z.div_mod x 256). pose proof (Z.div_mod y 256).
    repeat (apply Forall_cons; split; [lia|]). done.
  - destruct (longest_zeros 0 s (0, 0)%nat (0, 0)%nat) as [start n]. case_decide.
    + apply Forall_app; split; [by apply show_groups_ascii, Forall_take|].
      apply Forall_app; split; [by repeat constructor|]. by apply show_groups_ascii, Forall_drop.
    + by apply show_groups_ascii.
Qed.

Lemma show_ip_nonempty a : ip_wf a -> show_ip a <> [].
Proof.
  destruct a as [o|s]; simpl.
  - intros [Hl HF]. destruct HF as [|o os Ho HF]; [done|]. unfold show_v4.
    rewrite fmap_cons, join_cons. pose proof (Num.to_radix_nonempty 10 ltac:(lia) o ltac:(lia)).
    unfold Num.to_decimal. by destruct (Num.to_radix 10 o).
  - intros H%show_v6_colon E. rewrite E in H. by apply not_elem_of_nil in H.
Qed.

End Net.
