(* ===== verification/Address.v ===== *)
(** * Destination addresses

    [src/address.rs]: a host name or textual IP address with a port, its
    [FromStr] and its [Display]. *)

From Stdlib Require Import ZArith Lia.
From stdpp Require Import base gmap list strings.
From S2P Require Import Prelude Error Text Net.

#[local] Open Scope Z_scope.
#[local] Open Scope rust_scope.

Module Address.

Record Address := { host : bytes; port : Z }.

#[global] Instance Address_eq_dec : EqDecision Address.
Proof. solve_decision. Defined.

#[global] Program Instance Address_countable : Countable Address :=
  inj_countable (fun a => (host a, port a))
                (fun p => Some {| host := p.1; port := p.2 |}) _.
Next Obligation. by intros []. Qed.

Definition new (host : bytes) (port : Z) : Result Address :=
  match host with
  | [] => Err InvalidAddress
  | _ => Ok {| host := host; port := port |}
  end.

(** [impl From<SocketAddr> for Address]. *)
Definition from_socket_addr (value : Net.SocketAddr) : Address :=
  {| host := Net.show_ip (Net.ip value); port := Net.port value |}.

(** [str::rsplit_once]: around the last occurrence. *)
Fixpoint rsplit_once (c : byte) (l : bytes) : option (bytes * bytes) :=
  match l with
  | [] => None
  | b :: l =>
      match rsplit_once c l with
      | Some (front, back) => Some (b :: front, back)
      | None => if decide (b = c) then Some ([], l) else None
      end
  end.

Definition strip_prefix (c : byte) (l : bytes) : option bytes :=
  match l with
  | b :: l => if decide (b = c) then Some l else None
  | [] => None
  end.

Definition strip_suffix (c : byte) (l : bytes) : option bytes :=
  match last l with
  | Some b => if decide (b = c) then Some (take (length l - 1) l) else None
  | None => None
  end.

(** The host without one pair of square brackets around it. *)
Definition unbracket (host : bytes) : bytes :=
  match strip_prefix Ch.lbracket host with
  | Some item => default host (strip_suffix Ch.rbracket item)
  | None => host
  end.

Definition from_str (value : bytes) : Result Address :=
  match Net.parse_socket_addr value with
  | Some socket => Ok (from_socket_addr socket)
  | None =>
      let? (host, port) := ok_or (rsplit_once Ch.colon value) InvalidAddress in
      let? port := ok_or (Num.parse_uint u16_max port) InvalidAddress in
      new (unbracket host) port
  end.

(** [impl Display for Address]. *)
Definition to_string (a : Address) : bytes :=
  if decide (Ch.colon ∈ host a)
  then Ch.lbracket :: host a ++ Ch.rbracket :: Ch.colon :: Num.to_decimal (port a)
  else host a ++ Ch.colon :: Num.to_decimal (port a).

(** The invariant of the type: a non-empty [String] and a [u16]. *)
Definition wf (a : Address) : Prop :=
  host a <> [] /\ Utf8.valid (host a) = true /\ 0 <= port a <= u16_max.

(** The hosts that the textual form keeps: anything without a colon that is
    not in brackets, an IPv6 address in its standard form, and a host with a
    colon that does not read as a bracketed IPv6 address. *)
Definition canonical (a : Address) : Prop :=
  ((Ch.colon ∉ host a) /\ unbracket (host a) = host a) \/
  (exists s, Net.v6_wf s /\ host a = Net.show_v6 s) \/
  (Ch.colon ∈ host a /\ Net.parse_socket_addr (to_string a) = None).

Example from_str_ex1 : from_str (str "example.com:443")
  = Ok {| host := str "example.com"; port := 443 |}.
Proof. reflexivity. Qed.
Example from_str_ex2 : from_str (str "[2001:DB8::1]:8443")
  = Ok {| host := str "2001:db8::1"; port := 8443 |}.
Proof. reflexivity. Qed.
Example from_str_ex3 : from_str (str "2001:db8::1:65536") = Err InvalidAddress.
Proof. reflexivity. Qed.
Example to_string_ex : to_string {| host := str "2001:db8::1"; port := 8443 |}
  = str "[2001:db8::1]:8443".
Proof. reflexivity. Qed.

(** ** Splitting *)

Lemma rsplit_once_none c l : rsplit_once c l = None <-> c ∉ l.
Proof.
  induction l as [|b l IH]; [split; [intros _; apply not_elem_of_nil|done]|].
  cbn [rsplit_once]. rewrite not_elem_of_cons. destruct (rsplit_once c l) as [[f k]|].
  - split; [done|]. intros [_ H]. by apply IH in H.
  - case_decide as Hb; subst; [split; [done|]; by intros []|].
    split; [intros _; split; [done|by apply IH]|done].
Qed.

Lemma rsplit_once_app c front back :
  c ∉ back -> rsplit_once c (front ++ c :: back) = Some (front, back).
Proof.
  intros Hn. induction front as [|b front IH]; csimpl.
  - apply rsplit_once_none in Hn. rewrite Hn. by rewrite decide_True.
  - by rewrite IH.
Qed.

Lemma rsplit_once_some c l front back :
  rsplit_once c l = Some (front, back) -> l = front ++ c :: back.
Proof.
  revert front. induction l as [|b l IH]; intros front; [done|]. simpl.
  destruct (rsplit_once c l) as [[f k]|].
  - intros [= <- <-]. by rewrite (IH f eq_refl).
  - case_decide; [|done]. subst b. by intros [= <- <-].
Qed.

Lemma strip_suffix_some c l l' : strip_suffix c l = Some l' -> l = l' ++ [c].
Proof.
  unfold strip_suffix. destruct (last l) as [b|] eqn:E; [|done].
  case_decide; [|done]. subst b. intros [= <-].
  apply last_Some in E as [k ->]. rewrite length_app. simpl.
  by rewrite take_app_le, take_ge by lia.
Qed.

Lemma strip_suffix_app c l : strip_suffix c (l ++ [c]) = Some l.
Proof.
  unfold strip_suffix. rewrite last_snoc, decide_True by done. f_equal.
  rewrite length_app. simpl. by rewrite take_app_le, take_ge by lia.
Qed.

Lemma unbracket_cases h :
  unbracket h = h \/ h = Ch.lbracket :: unbracket h ++ [Ch.rbracket].
Proof.
  unfold unbracket, strip_prefix. destruct h as [|b h]; [by left|].
  case_decide; [|by left]. subst b.
  destruct (strip_suffix Ch.rbracket h) as [h'|] eqn:E; [|by left]. right. simpl.
  by rewrite (strip_suffix_some _ _ _ E).
Qed.

Lemma unbracket_brackets h : unbracket (Ch.lbracket :: h ++ [Ch.rbracket]) = h.
Proof. unfold unbracket. simpl. by rewrite strip_suffix_app. Qed.

Lemma decimal_no_colon z : 0 <= z -> Ch.colon ∉ Num.to_decimal z.
Proof. intros Hz. apply Num.decimal_not_in; [done|]. by intros [_ ?]. Qed.

Lemma new_ok h p : h <> [] -> new h p = Ok {| host := h; port := p |}.
Proof. by destruct h. Qed.

(** The path of [from_str] that does not go through a socket address. *)
Lemma from_str_split h p :
  Net.parse_socket_addr (h ++ Ch.colon :: Num.to_decimal p) = None ->
  0 <= p <= u16_max ->
  from_str (h ++ Ch.colon :: Num.to_decimal p) = new (unbracket h) p.
Proof.
  intros Hs Hp. unfold from_str. rewrite Hs.
  rewrite rsplit_once_app by (apply decimal_no_colon; lia). simpl.
  by rewrite Num.parse_to_decimal.
Qed.

Lemma to_string_colon a :
  Ch.colon ∈ host a ->
  to_string a = (Ch.lbracket :: host a ++ [Ch.rbracket]) ++ Ch.colon :: Num.to_decimal (port a).
Proof. intros H. unfold to_string. rewrite decide_True by done. simpl. by rewrite <-app_assoc. Qed.

Lemma to_string_plain a :
  Ch.colon ∉ host a -> to_string a = host a ++ Ch.colon :: Num.to_decimal (port a).
Proof. intros H. unfold to_string. by rewrite decide_False. Qed.

(** Two texts split at their first colon. *)
Lemma first_colon_inj h1 h2 t1 t2 :
  Ch.colon ∉ h1 -> Ch.colon ∉ h2 ->
  h1 ++ Ch.colon :: t1 = h2 ++ Ch.colon :: t2 -> h1 = h2 /\ t1 = t2.
Proof.
  revert h2. induction h1 as [|b1 h1 IH]; intros [|b2 h2] H1 H2; simpl; intros [=]; subst.
  - done.
  - exfalso. apply H2. left.
  - exfalso. apply H1. left.
  - apply not_elem_of_cons in H1 as [_ H1], H2 as [_ H2].
    destruct (IH h2 H1 H2) as [-> ->]; done.
Qed.

Lemma roundtrip_plain a :
  wf a -> Ch.colon ∉ host a -> unbracket (host a) = host a -> from_str (to_string a) = Ok a.
Proof.
  intros (Hne & Hv & Hp) Hc Hb. rewrite to_string_plain by done.
  destruct (Net.parse_socket_addr (host a ++ Ch.colon :: Num.to_decimal (port a)))
    as [s|] eqn:E.
  - pose proof E as E'. apply Net.parse_socket_one_colon in E' as (o & rest & _ & Ho & Heq).
    + apply first_colon_inj in Heq as [Hh _]; [|done|by apply Net.show_v4_no_colon].
      unfold from_str. rewrite E. rewrite Hh in E.
      rewrite Net.parse_socket_v4_print in E by done. injection E as <-.
      unfold from_socket_addr. simpl. rewrite <-Hh. by destruct a.
    + rewrite Net.colons_app. apply Net.colons_zero in Hc. rewrite Hc.
      pose proof (decimal_no_colon (port a) ltac:(lia)) as Hd. apply Net.colons_zero in Hd.
      change (Ch.colon :: Num.to_decimal (port a)) with ([Ch.colon] ++ Num.to_decimal (port a)).
      by rewrite Net.colons_app, Hd.
  - rewrite from_str_split, Hb by done. rewrite new_ok by done. by destruct a.
Qed.

Lemma from_str_to_string a : wf a -> canonical a -> from_str (to_string a) = Ok a.
Proof.
  intros Hwf Hc.
  destruct Hc as [[Hc Hb]|[(s & Hs & Hh)|[Hc Hn]]]; [by apply roundtrip_plain|..];
    destruct Hwf as (Hne & Hv & Hp).
  - unfold to_string. rewrite decide_True by (rewrite Hh; by apply Net.show_v6_colon).
    unfold from_str. rewrite Hh at 1. rewrite Net.parse_socket_v6_print by done.
    unfold from_socket_addr. simpl. rewrite <-Hh. by destruct a.
  - rewrite to_string_colon in * by done. rewrite from_str_split by done.
    rewrite unbracket_brackets, new_ok by done. by destruct a.
Qed.

(** Only canonical addresses read back. *)
Lemma read_back_canonical a : wf a -> from_str (to_string a) = Ok a -> canonical a.
Proof.
  intros (Hne & Hv & Hp) Hr.
  destruct (Net.parse_socket_addr (to_string a)) as [s|] eqn:E.
  - unfold from_str in Hr. rewrite E in Hr. injection Hr as <-. apply Net.parse_socket_addr_wf in E as [Hip _].
    unfold canonical. simpl. destruct (Net.ip s) as [o|g]; simpl in *; [left|right; left; by exists g].
    split; [by apply Net.show_v4_no_colon|]. destruct (unbracket_cases (Net.show_v4 o)) as [?|Hb]; [done|].
    exfalso. apply (Net.show_v4_no_bracket o Hip). rewrite Hb. by left.
  - destruct (decide (Ch.colon ∈ host a)) as [Hc|Hc]; [by right; right|left]. split; [done|].
    rewrite to_string_plain in * by done. rewrite from_str_split in Hr by done.
    unfold new in Hr. destruct (unbracket (host a)); [done|]. by injection Hr as <-.
Qed.

(** C26: which addresses the textual form keeps.  A well-formed address is
    read back from its textual form exactly when it is canonical: its host is
    a name or a dotted address that is not in brackets, an IPv6 address in
    standard form, or some other text with a colon that is not an IPv6
    address.  Other hosts, which [Address::new] takes too, read back as
    another address: an IPv6 address in upper case as the one in lower case, a
    name in brackets as the name. *)
Theorem authority_roundtrip a (Hwf : wf a) :
  from_str (to_string a) = Ok a <-> canonical a.
Proof. split; [by apply read_back_canonical|by apply from_str_to_string]. Qed.

Lemma authority_roundtrip_witness :
  let a := {| host := str "2001:db8::1"; port := 8443 |} in
  let b := {| host := str "[x]"; port := 1 |} in
  from_str (to_string a) = Ok a /\ canonical a /\ ~ canonical b.
Proof.
  intros a b.
  assert (wf a) as Ha by (split_and!; [done|reflexivity|simpl; unfold u16_max; lia..]).
  assert (wf b) as Hb by (split_and!; [done|reflexivity|simpl; unfold u16_max; lia..]).
  split; [reflexivity|]. split; [by apply (authority_roundtrip a Ha)|].
  intros Hc. apply (authority_roundtrip b Hb) in Hc. vm_compute in Hc. discriminate.
Defined.

Lemma from_str_invariant value a : Utf8.valid value = true -> from_str value = Ok a -> wf a.
Proof.
  intros Hv Hr.
  unfold from_str in Hr. destruct (Net.parse_socket_addr value) as [s|] eqn:E.
  - simplify_eq. apply Net.parse_socket_addr_wf in E as [Hip Hp].
    split_and!; simpl; [by apply Net.show_ip_nonempty| |apply Hp|apply Hp].
    by apply Utf8.valid_ascii, Net.show_ip_ascii.
  - destruct (rsplit_once Ch.colon value) as [[front back]|] eqn:Es; [|done].
    apply rsplit_once_some in Es as ->. simpl in Hr.
    destruct (Num.parse_uint u16_max back) as [p|] eqn:Ep; [|done]. simpl in Hr.
    apply Num.parse_uint_range in Ep; [|done].
    apply Utf8.valid_split in Hv as [Hv _]; [|done].
    destruct (unbracket front) as [|c h] eqn:Eu; [done|]. injection Hr as <-.
    split_and!; simpl; [done| |apply Ep|apply Ep].
    rewrite <-Eu. destruct (unbracket_cases front) as [-> |Hb]; [done|].
    rewrite Hb in Hv. apply (Utf8.valid_split []) in Hv as [_ Hv]; [|done].
    by apply Utf8.valid_split in Hv as [Hv _].
Qed.

(** C38: an address that [from_str] accepts satisfies the invariant of the
    type: the host is non-empty valid UTF-8 and the port a [u16]. *)
Theorem from_str_wf value a (Hv : Utf8.valid value = true) (Hr : from_str value = Ok a) : wf a.
Proof.
  by eapply from_str_invariant.
Qed.

Lemma from_str_wf_witness :
  Utf8.valid (str "[::1]:53") = true /\
  from_str (str "[::1]:53") = Ok {| host := str "::1"; port := 53 |} /\
  wf {| host := str "::1"; port := 53 |}.
Proof.
  split; [reflexivity|]. split; [reflexivity|].
  apply (from_str_wf (str "[::1]:53")); reflexivity.
Defined.

(** The textual form is valid UTF-8 and never empty. *)
Lemma to_string_valid a : wf a -> Utf8.valid (to_string a) = true.
Proof.
  intros (_ & Hv & Hp).
  assert (Utf8.valid (Num.to_decimal (port a)) = true) as Hd.
  { apply Utf8.valid_ascii, Num.to_radix_ascii; lia. }
  unfold to_string. case_decide.
  - rewrite Utf8.valid_ascii_cons, Utf8.valid_app, !Utf8.valid_ascii_cons by done. done.
  - rewrite Utf8.valid_app, Utf8.valid_ascii_cons by done. done.
Qed.

Lemma to_string_len a : 0 <= port a -> len (host a) + 2 <= len (to_string a).
Proof.
  intros Hp. pose proof (Num.to_radix_nonempty 10 ltac:(lia) (port a) Hp) as Hn.
  unfold to_string, Num.to_decimal. destruct (Num.to_radix 10 (port a)) as [|d ds]; [done|].
  case_decide; lens; pose proof (len_nonneg ds); lia.
Qed.

End Address.
