(* ===== verification/Hy2Protocol.v ===== *)
(** * Hysteria2 framing

    [src/hysteria2/protocol.rs]: the congestion header of the authentication
    exchange and the TCP request and response frames.  The [http] crate's
    header values and the random source of the padding are library code; they
    enter as interfaces with the behaviour their documentation promises. *)

From Stdlib Require Import ZArith Lia.
From stdpp Require Import base gmap list strings.
From S2P Require Import Prelude Error VarInt Text Net Address.

#[local] Open Scope Z_scope.
#[local] Open Scope rust_scope.

(** ** Library interfaces *)

(** Visible ASCII, the characters a header value is a string over. *)
Definition visible (b : byte) : Prop := 32 <= bz b < 127.

#[global] Instance visible_dec b : Decision (visible b).
Proof. unfold visible. apply _. Defined.

(** [http::HeaderValue::to_str]: the value as text when it is visible ASCII
    only, never anything but the value. *)
Class HeaderValue := {
  hv_to_str : bytes -> option bytes;
  hv_to_str_visible : forall v, Forall visible v -> hv_to_str v = Some v;
  hv_to_str_same : forall v s, hv_to_str v = Some s -> s = v;
}.

Definition is_alphanumeric (b : byte) : bool :=
  ((48 <=? bz b) && (bz b <=? 57)) || ((65 <=? bz b) && (bz b <=? 90))
  || ((97 <=? bz b) && (bz b <=? 122)).

(** [rand::thread_rng] as one call of [padding] uses it: a length drawn from
    a half-open range and a supply of alphanumeric characters. *)
Record Rng := {
  gen_range : Z -> Z -> Z;
  alphanumeric : nat -> byte;
  gen_range_ok : forall min max, min < max -> min <= gen_range min max < max;
  alphanumeric_ok : forall i, is_alphanumeric (alphanumeric i) = true;
}.

Module Hy2Protocol.

Definition FRAME_TYPE_TCP_REQUEST : Z := 0x401.
Definition URL_AUTHORITY : bytes := str "hysteria".
Definition URL_PATH : bytes := str "/auth".
Definition STATUS_AUTH_OK : Z := 233.
Definition HEADER_AUTH : bytes := str "hysteria-auth".
Definition HEADER_UDP : bytes := str "hysteria-udp".
Definition HEADER_CC_RX : bytes := str "hysteria-cc-rx".
Definition HEADER_PADDING : bytes := str "hysteria-padding".

Definition MAX_ADDRESS_LENGTH : Z := 2048.
Definition MAX_MESSAGE_LENGTH : Z := 2048.
Definition MAX_PADDING_LENGTH : Z := 4096.

Inductive CongestionReceive :=
| Auto
| Rate (bytes_per_second : Z).

#[global] Instance CongestionReceive_eq_dec : EqDecision CongestionReceive.
Proof. solve_decision. Defined.

Definition parse_congestion_receive `{HeaderValue} (value : option bytes) : CongestionReceive :=
  match value ≫= hv_to_str with
  | None => Rate 0
  | Some value =>
      if decide (value = str "auto") then Auto
      else Rate (default 0 (Num.parse_uint u64_max value))
  end.

Definition congestion_receive_value (value : CongestionReceive) : bytes :=
  match value with
  | Auto => str "auto"
  | Rate bytes_per_second => Num.to_decimal bytes_per_second
  end.

Definition padding (rng : Rng) (min max : Z) : bytes :=
  alphanumeric rng <$> seq 0 (Z.to_nat (gen_range rng min max)).

Definition write_tcp_request (rng : Rng) (destination : Address.Address) : M SendHalf unit :=
  let address := Address.to_string destination in
  if (len address =? 0) || (len address >? MAX_ADDRESS_LENGTH) then mfail InvalidAddress
  else
    let padding := padding rng 64 512 in
    let* _ := VarInt.write FRAME_TYPE_TCP_REQUEST in
    let* _ := VarInt.write (len address) in
    let* _ := write_all address in
    let* _ := VarInt.write (len padding) in
    let* _ := write_all padding in
    flush.

Definition read_tcp_request : M RecvHalf Address.Address :=
  let* frame_type := VarInt.read in
  if negb (frame_type =? FRAME_TYPE_TCP_REQUEST)
  then mfail (Protocol (str "unexpected stream frame type 0x" ++ Num.to_hex frame_type))
  else
    let* address_length := VarInt.read in
    if (address_length =? 0) || (address_length >? MAX_ADDRESS_LENGTH) then mfail InvalidAddress
    else
      let* address := read_exact (Z.to_nat address_length) in
      let* padding_length := VarInt.read in
      if padding_length >? MAX_PADDING_LENGTH
      then mfail (Protocol (str "request padding is too large"))
      else
        let* _ := read_exact (Z.to_nat padding_length) in
        mlift (if Utf8.valid address then Address.from_str address else Err InvalidAddress).

(** The message of an error response, cut to [MAX_MESSAGE_LENGTH] bytes. *)
Definition truncated (message : bytes) : bytes :=
  take (Z.to_nat (Z.min (len message) MAX_MESSAGE_LENGTH)) message.

(** [result]: [None] is [Ok(())], [Some message] is [Err(message)]. *)
Definition write_tcp_response (rng : Rng) (result : option bytes) : M SendHalf unit :=
  let (status, message) :=
    match result with
    | None => (0, [])
    | Some message => (1, message)
    end in
  let message := truncated message in
  let padding := padding rng 128 1024 in
  let* _ := write_u8 (zb status) in
  let* _ := VarInt.write (len message) in
  let* _ := write_all message in
  let* _ := VarInt.write (len padding) in
  let* _ := write_all padding in
  flush.

Definition read_tcp_response : M RecvHalf unit :=
  let* status := read_u8 in
  let* message_length := VarInt.read in
  if message_length >? MAX_MESSAGE_LENGTH
  then mfail (Protocol (str "response message is too large"))
  else
    let* message := read_exact (Z.to_nat message_length) in
    let* padding_length := VarInt.read in
    if padding_length >? MAX_PADDING_LENGTH
    then mfail (Protocol (str "response padding is too large"))
    else
      let* _ := read_exact (Z.to_nat padding_length) in
      if bz status =? 0 then mret tt
      else mfail (Protocol (str "remote error: " ++ Utf8.lossy message)).

(** ** The congestion header *)

Lemma decimal_visible z : 0 <= z -> Forall visible (Num.to_decimal z).
Proof.
  intros Hz. eapply Forall_impl; [by apply Num.decimal_bytes|].
  intros b Hb. unfold visible. simpl in Hb. lia.
Qed.

Lemma decimal_not_auto z : 0 <= z -> Num.to_decimal z <> str "auto".
Proof.
  intros Hz E. assert (Byte.x61 ∈ Num.to_decimal z) as Hin by (rewrite E; left).
  revert Hin. apply Num.decimal_not_in; [done|]. by intros [_ ?].
Qed.

(** The receive rates a [CongestionReceive] may hold. *)
Definition rate_wf (v : CongestionReceive) : Prop :=
  match v with Auto => True | Rate r => 0 <= r <= u64_max end.

Lemma congestion_roundtrip `{HeaderValue} v :
  rate_wf v -> parse_congestion_receive (Some (congestion_receive_value v)) = v.
Proof.
  intros Hv. unfold parse_congestion_receive. destruct v as [|r]; simpl in *.
  - rewrite hv_to_str_visible; [by rewrite decide_True|].
    repeat (apply Forall_cons; split; [done|]). done.
  - rewrite hv_to_str_visible by (apply decimal_visible; lia).
    rewrite decide_False by (apply decimal_not_auto; lia).
    by rewrite Num.parse_to_decimal.
Qed.

(** A congestion header reads back as the value it was made from,
    whatever implementation of header values is used. *)
Theorem congestion_receive_roundtrip `{HeaderValue} v (Hv : rate_wf v) :
  parse_congestion_receive (Some (congestion_receive_value v)) = v.
Proof. by apply congestion_roundtrip. Qed.

(** Every header, a missing or malformed one included, gives a rate of the
    type. *)
Lemma parse_congestion_receive_wf `{HeaderValue} v : rate_wf (parse_congestion_receive v).
Proof.
  unfold parse_congestion_receive. destruct (v ≫= hv_to_str) as [s|]; [|simpl; unfold u64_max; lia].
  case_decide; [done|]. simpl. destruct (Num.parse_uint u64_max s) as [r|] eqn:E; simpl.
  - by apply Num.parse_uint_range in E.
  - unfold u64_max; lia.
Qed.

(** ** The frames *)

Lemma len_padding rng min max :
  0 <= min < max -> min <= len (padding rng min max) < max.
Proof.
  intros Hm. unfold padding, len. rewrite length_fmap, length_seq.
  pose proof (gen_range_ok rng min max ltac:(lia)). lia.
Qed.

Definition request_frame (rng : Rng) (address : bytes) : bytes :=
  VarInt.encoded FRAME_TYPE_TCP_REQUEST ++ VarInt.encoded (len address) ++ address
  ++ VarInt.encoded (len (padding rng 64 512)) ++ padding rng 64 512 ++ [].

Definition response_frame (rng : Rng) (status : byte) (message : bytes) : bytes :=
  [status] ++ VarInt.encoded (len message) ++ message
  ++ VarInt.encoded (len (padding rng 128 1024)) ++ padding rng 128 1024 ++ [].

(** Values of the framing fields have encodings. *)
Lemma varint_small v : 0 <= v <= 4096 -> 0 <= v <= VarInt.MAX.
Proof. unfold VarInt.MAX. rewrite Z.shiftl_1_l. lia. Qed.

Lemma request_writes rng a :
  0 < len (Address.to_string a) <= MAX_ADDRESS_LENGTH ->
  writes (write_tcp_request rng a) (request_frame rng (Address.to_string a)).
Proof.
  intros Hl. unfold write_tcp_request, request_frame.
  pose proof (len_padding rng 64 512 ltac:(lia)). unfold MAX_ADDRESS_LENGTH in *.
  destruct (Z.eqb_spec (len (Address.to_string a)) 0); [lia|].
  destruct (Z.gtb_spec (len (Address.to_string a)) 2048); [lia|]. simpl orb. cbv iota.
  repeat (apply writes_bind; [|intros _]); auto with framing; apply VarInt.writes_varint, varint_small.
  - done.
  - lia.
  - lia.
Qed.

Lemma truncated_len m : 0 <= len (truncated m) <= MAX_MESSAGE_LENGTH.
Proof. unfold truncated, len, MAX_MESSAGE_LENGTH. rewrite length_take. lia. Qed.

Definition status_byte (result : option bytes) : byte :=
  match result with None => Byte.x00 | Some _ => Byte.x01 end.

Lemma response_writes rng result :
  writes (write_tcp_response rng result)
    (response_frame rng (status_byte result) (truncated (default [] result))).
Proof.
  pose proof (len_padding rng 128 1024 ltac:(lia)).
  pose proof (truncated_len (default [] result)).
  unfold write_tcp_response, response_frame, MAX_MESSAGE_LENGTH in *.
  destruct result as [m|]; cbv iota beta; cbn [default] in *;
    repeat (apply writes_bind; [|intros _]); auto with framing;
    apply VarInt.writes_varint, varint_small; simpl default in *; lia.
Qed.

Lemma request_reads rng address a :
  0 < len address <= MAX_ADDRESS_LENGTH -> Utf8.valid address = true ->
  Address.from_str address = Ok a ->
  reads read_tcp_request (request_frame rng address) a.
Proof.
  intros Hl Hv Ha. pose proof (len_padding rng 64 512 ltac:(lia)).
  unfold MAX_ADDRESS_LENGTH in *. unfold read_tcp_request, request_frame.
  eapply reads_bind; [by apply VarInt.reads_varint, varint_small|].
  rewrite Z.eqb_refl. cbv iota beta delta [negb].
  eapply reads_bind; [apply VarInt.reads_varint, varint_small; lia|].
  destruct (Z.eqb_spec (len address) 0); [lia|].
  unfold MAX_ADDRESS_LENGTH. destruct (Z.gtb_spec (len address) 2048); [lia|]. cbv iota beta delta [orb].
  eapply reads_bind; [apply reads_exact; by rewrite to_nat_len|].
  eapply reads_bind; [apply VarInt.reads_varint, varint_small; lia|].
  unfold MAX_PADDING_LENGTH. destruct (Z.gtb_spec (len (padding rng 64 512)) 4096); [lia|].
  eapply reads_bind; [apply reads_exact; by rewrite to_nat_len|].
  apply reads_lift. by rewrite Hv.
Qed.

(** Reads a response frame up to its verdict. *)
Lemma response_reads rng status message rest e :
  0 <= len message <= MAX_MESSAGE_LENGTH ->
  read_tcp_response {| pending := response_frame rng status message ++ rest; ending := e |}
  = (if bz status =? 0 then Ok tt
     else Err (Protocol (str "remote error: " ++ Utf8.lossy message)),
     {| pending := rest; ending := e |}).
Proof.
  intros Hl. pose proof (len_padding rng 128 1024 ltac:(lia)).
  unfold MAX_MESSAGE_LENGTH in *. unfold read_tcp_response, response_frame.
  rewrite <-!app_assoc.
  erewrite mbind_ok by apply reads_u8.
  erewrite mbind_ok by (apply VarInt.reads_varint, varint_small; lia).
  unfold MAX_MESSAGE_LENGTH. destruct (Z.gtb_spec (len message) 2048); [lia|].
  erewrite mbind_ok by (apply reads_exact; by rewrite to_nat_len).
  erewrite mbind_ok by (apply VarInt.reads_varint, varint_small; lia).
  unfold MAX_PADDING_LENGTH. destruct (Z.gtb_spec (len (padding rng 128 1024)) 4096); [lia|].
  erewrite mbind_ok by (apply reads_exact; by rewrite to_nat_len).
  by destruct (bz status =? 0).
Qed.

(** A TCP request reads back as the destination it was written for: the
    whole writer is one write of a frame, and the reader takes exactly that
    frame off the stream, application bytes that follow untouched. *)
Theorem tcp_request_roundtrip rng a (Hwf : Address.wf a) (Hc : Address.canonical a)
    (Hl : len (Address.to_string a) <= MAX_ADDRESS_LENGTH) :
  exists frame,
    (forall s, write_tcp_request rng a s = write_all frame s) /\
    (forall rest e, read_tcp_request {| pending := frame ++ rest; ending := e |}
                    = (Ok a, {| pending := rest; ending := e |})).
Proof.
  assert (0 < len (Address.to_string a)) as Hpos.
  { destruct Hwf as (_ & _ & Hp). pose proof (Address.to_string_len a ltac:(lia)).
    pose proof (len_nonneg (Address.host a)). lia. }
  exists (request_frame rng (Address.to_string a)). split.
  - by apply request_writes.
  - apply request_reads; [done|by apply Address.to_string_valid|].
    by apply Address.from_str_to_string.
Qed.

(** A destination whose textual form is longer than the limit is refused
    before anything is written. *)
Lemma tcp_request_too_long rng a s
    (Hl : len (Address.to_string a) > MAX_ADDRESS_LENGTH) :
  write_tcp_request rng a s = (Err InvalidAddress, s).
Proof.
  unfold write_tcp_request. unfold MAX_ADDRESS_LENGTH in *.
  destruct (Z.gtb_spec (len (Address.to_string a)) 2048); [|lia].
  by rewrite orb_true_r.
Qed.

(** The client's reader reports exactly the verdict the server wrote:
    success for [Ok], and for an error the message cut to its limit, decoded
    lossily; in both cases the stream is left at the application bytes. *)
Theorem tcp_response_roundtrip rng result :
  exists frame,
    (forall s, write_tcp_response rng result s = write_all frame s) /\
    (forall rest e, read_tcp_response {| pending := frame ++ rest; ending := e |}
       = (match result with
          | None => Ok tt
          | Some m => Err (Protocol (str "remote error: " ++ Utf8.lossy (truncated m)))
          end, {| pending := rest; ending := e |})).
Proof.
  exists (response_frame rng (status_byte result) (truncated (default [] result))).
  split; [apply response_writes|]. intros rest e.
  rewrite response_reads by apply truncated_len. by destruct result.
Qed.

(** C27: whatever a peer sends, a request that is accepted names a
    well-formed destination and was taken from a bounded number of bytes:
    three variable integers, an address and padding within their limits. *)
Theorem tcp_request_accepts_bounded s a s' (Hr : read_tcp_request s = (Ok a, s')) :
  Address.wf a /\
  len (pending s) - len (pending s') <= 3 * 8 + MAX_ADDRESS_LENGTH + MAX_PADDING_LENGTH.
Proof.
  unfold read_tcp_request in Hr.
  apply mbind_ok_inv in Hr as (ft & s1 & H1 & Hr). apply VarInt.read_size in H1.
  destruct (negb (ft =? FRAME_TYPE_TCP_REQUEST)); [done|].
  apply mbind_ok_inv in Hr as (al & s2 & H2 & Hr). apply VarInt.read_size in H2.
  destruct ((al =? 0) || (al >? MAX_ADDRESS_LENGTH)) eqn:Eal; [done|].
  apply mbind_ok_inv in Hr as (ad & s3 & H3 & Hr). apply read_exact_ok in H3 as (H3l & H3p & _).
  apply mbind_ok_inv in Hr as (pl & s4 & H4 & Hr). apply VarInt.read_size in H4.
  destruct (pl >? MAX_PADDING_LENGTH) eqn:Epl; [done|].
  apply mbind_ok_inv in Hr as (pd & s5 & H5 & Hr). apply read_exact_ok in H5 as (H5l & H5p & _).
  unfold mlift in Hr. injection Hr as Hr <-.
  destruct (Utf8.valid ad) eqn:Ev; [|done].
  split; [by eapply Address.from_str_invariant|].
  rewrite H3p, H5p in *. unfold MAX_ADDRESS_LENGTH, MAX_PADDING_LENGTH in *.
  autorewrite with lens in *. unfold len in *. lia.
Qed.

(** ** Instances of the library interfaces and concrete frames *)

(** A header value that is text exactly when it is visible ASCII. *)
#[global] Program Instance ascii_header : HeaderValue := {|
  hv_to_str v := if decide (Forall visible v) then Some v else None;
|}.
Next Obligation. intros v Hv. simpl. by rewrite decide_True. Qed.
Next Obligation. intros v s. simpl. case_decide; [|done]. by intros [= <-]. Qed.

(** The shortest padding, all of one character. *)
Program Definition short_rng : Rng :=
  {| gen_range := fun min _ => min; alphanumeric := fun _ => Byte.x61 |}.
Next Obligation. simpl. lia. Qed.
Next Obligation. done. Qed.

Lemma congestion_receive_roundtrip_witness :
  rate_wf (Rate 12500000) /\
  parse_congestion_receive (Some (congestion_receive_value (Rate 12500000))) = Rate 12500000.
Proof.
  assert (rate_wf (Rate 12500000)) as H by (simpl; unfold u64_max; lia).
  split; [exact H|]. exact (congestion_receive_roundtrip (Rate 12500000) H).
Defined.

Definition example_address : Address.Address :=
  {| Address.host := str "example.com"; Address.port := 443 |}.

Lemma example_wf : Address.wf example_address.
Proof. split_and!; [done|reflexivity|simpl; unfold u16_max; lia..]. Qed.

Lemma example_canonical : Address.canonical example_address.
Proof.
  left. split; [|reflexivity]. apply Net.colons_zero. reflexivity.
Qed.

Lemma tcp_request_roundtrip_witness :
  let a := example_address in
  Address.wf a /\ Address.canonical a /\ len (Address.to_string a) <= MAX_ADDRESS_LENGTH /\
  exists frame,
    (forall s, write_tcp_request short_rng a s = write_all frame s) /\
    (forall rest e, read_tcp_request {| pending := frame ++ rest; ending := e |}
                    = (Ok a, {| pending := rest; ending := e |})).
Proof.
  intros a. assert (len (Address.to_string a) <= MAX_ADDRESS_LENGTH) as Hl by (vm_compute; congruence).
  split; [exact example_wf|]. split; [exact example_canonical|]. split; [exact Hl|].
  exact (tcp_request_roundtrip short_rng a example_wf example_canonical Hl).
Defined.

Lemma tcp_request_accepts_bounded_witness :
  let s := {| pending := [Byte.x44; Byte.x01; Byte.x03] ++ str "a:1" ++ [Byte.x00; Byte.x2a];
              ending := None |} in
  let a := {| Address.host := str "a"; Address.port := 1 |} in
  let s' := {| pending := [Byte.x2a]; ending := None |} in
  read_tcp_request s = (Ok a, s') /\ Address.wf a /\
  len (pending s) - len (pending s') <= 3 * 8 + MAX_ADDRESS_LENGTH + MAX_PADDING_LENGTH.
Proof.
  intros s a s'. assert (read_tcp_request s = (Ok a, s')) as H by (vm_compute; reflexivity).
  split; [exact H|]. exact (tcp_request_accepts_bounded s a s' H).
Defined.

End Hy2Protocol.
