(* ===== verification/Channels.v ===== *)
(** * Tokio channels as interfaces

    The crate's tasks talk through [tokio::sync::mpsc] and
    [tokio::sync::watch] channels, which are library code.  A channel is what
    its documentation promises: a bounded queue whose sends fail when the
    receiver is gone. *)

From Stdlib Require Import ZArith Lia.
From stdpp Require Import base gmap list strings.
From S2P Require Import Prelude Error.

#[local] Open Scope Z_scope.

(** A bounded [mpsc] channel of [A].  [queued] is what the receiver has not
    taken yet, [alive] says that the receiver still exists. *)
Class Mpsc (Ch A : Type) := {
  channel : nat -> Ch;
  queued : Ch -> list A;
  alive : Ch -> bool;
  capacity : Ch -> nat;
  try_send : A -> Ch -> bool * Ch;
  recv : Ch -> option (A * Ch);

  channel_spec n :
    queued (channel n) = [] /\ alive (channel n) = true /\ capacity (channel n) = n;
  try_send_spec a c :
    let room := alive c && bool_decide (length (queued c) < capacity c)%nat in
    (try_send a c).1 = room /\
    queued (try_send a c).2 = (if room then queued c ++ [a] else queued c) /\
    alive (try_send a c).2 = alive c /\ capacity (try_send a c).2 = capacity c;
  recv_spec c :
    match recv c with
    | None => queued c = []
    | Some (a, c') => queued c = a :: queued c' /\ alive c' = alive c /\ capacity c' = capacity c
    end;
}.

(** [Sender::send] as one attempt: [None] while the channel is full, [false]
    when the receiver is gone. *)
Definition send_wait {Ch A} `{Mpsc Ch A} (a : A) (c : Ch) : option (bool * Ch) :=
  if alive c
  then if bool_decide (length (queued c) < capacity c)%nat then Some (true, (try_send a c).2) else None
  else Some (false, c).

Lemma send_wait_spec {Ch A} `{Mpsc Ch A} (a : A) (c c' : Ch) ok :
  send_wait a c = Some (ok, c') ->
  queued c' = (if ok then queued c ++ [a] else queued c) /\
  alive c' = alive c /\ capacity c' = capacity c /\ ok = alive c.
Proof.
  unfold send_wait. destruct (alive c) eqn:Ea; [|by intros [= <- <-]].
  case_bool_decide as Hr; [|done]. intros [= <- <-].
  pose proof (try_send_spec a c) as (H1 & H2 & H3 & H4).
  rewrite Ea in *. rewrite bool_decide_true in H2 by done. done.
Qed.

(** The plainest such channel. *)
Module ListChannel.

Record Chan (A : Type) := { items : list A; open : bool; cap : nat }.
Arguments items {A} _.
Arguments open {A} _.
Arguments cap {A} _.

#[global] Program Instance list_mpsc {A} : Mpsc (Chan A) A := {|
  channel n := {| items := []; open := true; cap := n |};
  queued := items;
  alive := open;
  capacity := cap;
  try_send a c :=
    if open c && bool_decide (length (items c) < cap c)%nat
    then (true, {| items := items c ++ [a]; open := open c; cap := cap c |})
    else (false, c);
  recv c :=
    match items c with
    | [] => None
    | a :: l => Some (a, {| items := l; open := open c; cap := cap c |})
    end;
|}.
Next Obligation. done. Qed.
Next Obligation.
  intros A a c. simpl. by destruct (open c && bool_decide (length (items c) < cap c)%nat).
Qed.
Next Obligation. intros A c. simpl. by destruct (items c). Qed.

End ListChannel.
