(* ===== verification/Hy2Packet.v ===== *)
(** * Hysteria2 UDP packets

    [src/hysteria2/packet.rs]: the datagram codec, fragmentation on the
    sending side, the defragmenter, and the per-session packet connection.
    The clock ([Instant::now]) is an argument in nanoseconds; the QUIC
    connection and the channels are library code behind interfaces. *)

From Stdlib Require Import ZArith Lia.
From stdpp Require Import base gmap list strings.
From S2P Require Import Prelude Error VarInt Text Net Address Channels.

#[local] Open Scope Z_scope.
#[local] Open Scope rust_scope.

Module Hy2Packet.

Definition UDP_HEADER_SIZE : Z := 8.
Definition MAX_UDP_SIZE : Z := 4096.
Definition MAX_ADDRESS_LENGTH : Z := 2048.
(** [Duration::from_secs(10)]. *)
Definition FRAGMENT_LIFETIME : Z := 10 * 1000000000.
Definition INITIAL_UDP_MTU : Z := 1200 - 3.

(** [Hysteria2Packet]. *)
Record Packet := { p_data : bytes; p_destination : Address.Address }.

Record UdpMessage := {
  session_id : Z;
  packet_id : Z;
  fragment_id : byte;
  fragment_total : byte;
  destination : Address.Address;
  data : bytes;
}.

#[global] Instance Packet_eq_dec : EqDecision Packet.
Proof. solve_decision. Defined.
#[global] Instance UdpMessage_eq_dec : EqDecision UdpMessage.
Proof. solve_decision. Defined.

(** ** The datagram codec *)

Definition encode_message (session_id packet_id : Z) (fragment_id fragment_total : byte)
    (address address_length data : bytes) : bytes :=
  to_be 4 session_id ++ to_be 2 packet_id ++ [fragment_id; fragment_total]
  ++ address_length ++ address ++ data.

Definition decode_message (data : bytes) : Result UdpMessage :=
  if len data <? UDP_HEADER_SIZE
  then Err (Protocol (str "truncated Hysteria2 UDP message"))
  else
    let session_id := from_be (take 4 data) in
    let packet_id := from_be (take 2 (drop 4 data)) in
    let fragment_id := default Byte.x00 (data !! 6%nat) in
    let fragment_total := default Byte.x00 (data !! 7%nat) in
    let? (address_length, encoded_length) :=
      VarInt.decode_varint (drop (Z.to_nat UDP_HEADER_SIZE) data) in
    if (address_length =? 0) || (address_length >? MAX_ADDRESS_LENGTH)
    then Err InvalidAddress
    else
      let address_start := UDP_HEADER_SIZE + encoded_length in
      let address_end := address_start + address_length in
      if address_end >? len data
      then Err (Protocol (str "truncated Hysteria2 UDP address"))
      else
        let address :=
          take (Z.to_nat address_length) (drop (Z.to_nat address_start) data) in
        let? destination :=
          if Utf8.valid address then Address.from_str address else Err InvalidAddress in
        Ok {| session_id := session_id; packet_id := packet_id;
              fragment_id := fragment_id; fragment_total := fragment_total;
              destination := destination; data := drop (Z.to_nat address_end) data |}.

(** The slices and bytes that [decode_message] indexes after its check of the
    length are there: no index panics, and no default is used. *)
Lemma header_indexed (l : bytes) :
  UDP_HEADER_SIZE <= len l ->
  length (take 4 l) = 4%nat /\ length (take 2 (drop 4 l)) = 2%nat /\
  is_Some (l !! 6%nat) /\ is_Some (l !! 7%nat).
Proof.
  unfold UDP_HEADER_SIZE, len. intros H. rewrite !length_take, length_drop.
  split_and!; [lia|lia|apply lookup_lt_is_Some; lia..].
Qed.

(** ** The defragmenter *)

Record FragmentSet := {
  updated_at : Z;
  fs_destination : Address.Address;
  parts : list (option bytes);
  received : Z;
}.

(** [Defragger]: the incomplete packets by packet id. *)
Definition Defragger : Type := gmap Z FragmentSet.

(** The closure that makes an empty set for a message. *)
Definition empty_set (now : Z) (message : UdpMessage) (total : Z) : FragmentSet :=
  {| updated_at := now; fs_destination := destination message;
     parts := replicate (Z.to_nat total) None; received := 0 |}.

(** [now.duration_since(t)], which saturates at zero. *)
Definition duration_since (now t : Z) : Z := Z.max 0 (now - t).

(** The retained entries. *)
Definition fresh (now : Z) (entry : Z * FragmentSet) : Prop :=
  duration_since now (updated_at entry.2) <= FRAGMENT_LIFETIME.

#[global] Instance fresh_dec now entry : Decision (fresh now entry).
Proof. unfold fresh. apply _. Defined.

(** [fragment.parts.iter().map(..).sum()]. *)
Definition total_length (chunks : list bytes) : Z := foldr Z.add 0 (len <$> chunks).

(** [Defragger::feed] for a message that arrives at [now].  [Panics] stands
    for the index and the two [expect]s. *)
Definition feed (now : Z) (message : UdpMessage) (self : Defragger)
    : Outcome (Result (option Packet) * Defragger) :=
  if bz (fragment_total message) <=? 1
  then Returns (Ok (Some {| p_data := data message;
                            p_destination := destination message |}), self)
  else if bz (fragment_id message) >=? bz (fragment_total message)
  then Returns (Ok None, self)
  else
    let fragments := filter (fresh now) self in
    let total := bz (fragment_total message) in
    let index := Z.to_nat (bz (fragment_id message)) in
    let fragment := default (empty_set now message total) (fragments !! packet_id message) in
    let fragment :=
      if negb (len (parts fragment) =? total) then empty_set now message total else fragment in
    match parts fragment !! index with
    | None => Panics
    | Some slot =>
        let fragment :=
          match slot with
          | None => {| updated_at := now; fs_destination := fs_destination fragment;
                       parts := <[index := Some (data message)]> (parts fragment);
                       received := received fragment + 1 |}
          | Some _ => {| updated_at := now; fs_destination := fs_destination fragment;
                         parts := parts fragment; received := received fragment |}
          end in
        if negb (received fragment =? total)
        then Returns (Ok None, <[packet_id message := fragment]> fragments)
        else
          let fragments := delete (packet_id message) fragments in
          match mapM id (parts fragment) with
          | None => Panics
          | Some chunks =>
              if total_length chunks >? MAX_UDP_SIZE
              then Returns (Err (Protocol
                     (str "Hysteria2 reassembled UDP packet exceeds 4096 bytes")), fragments)
              else Returns (Ok (Some {| p_data := concat chunks;
                                        p_destination := fs_destination fragment |}), fragments)
          end
    end.

(** ** The packet connection *)

(** The QUIC connection as datagrams use it: the size limit it reports and
    the reason it gives for a datagram it does not take. *)
Record DatagramPath := {
  max_datagram_size : option Z;
  send_error : bytes -> option bytes;
}.

(** [Hysteria2PacketConnection] with the datagrams that it has handed to the
    QUIC connection.  [Ch] is the type of its incoming channel. *)
Record PacketConnection (Ch : Type) := {
  pc_session_id : Z;
  next_packet_id : Z;
  incoming : Ch;
  defragger : Defragger;
  activity : Z;
  outbox : list bytes;
}.
Arguments pc_session_id {Ch} _.
Arguments next_packet_id {Ch} _.
Arguments incoming {Ch} _.
Arguments defragger {Ch} _.
Arguments activity {Ch} _.
Arguments outbox {Ch} _.

Section Connection.
Context {Ch : Type} `{Mpsc Ch Packet}.
Implicit Types self : PacketConnection Ch.

(** [Hysteria2PacketConnection::new]. *)
Definition new (session_id now : Z) : PacketConnection Ch :=
  {| pc_session_id := session_id; next_packet_id := 0; incoming := channel 64;
     defragger := ∅; activity := now; outbox := [] |}.

Definition with_outbox self (l : list bytes) : PacketConnection Ch :=
  {| pc_session_id := pc_session_id self; next_packet_id := next_packet_id self;
     incoming := incoming self; defragger := defragger self;
     activity := activity self; outbox := l |}.

(** [Hysteria2PacketConnection::input]: a completed packet goes to the
    channel, or is dropped when the channel does not take it. *)
Definition input (now : Z) (message : UdpMessage) self
    : Outcome (Result unit * PacketConnection Ch) :=
  match feed now message (defragger self) with
  | Panics => Panics
  | Returns (r, d) =>
      let self := {| pc_session_id := pc_session_id self;
                     next_packet_id := next_packet_id self;
                     incoming := incoming self; defragger := d;
                     activity := activity self; outbox := outbox self |} in
      match r with
      | Err e => Returns (Err e, self)
      | Ok None => Returns (Ok tt, self)
      | Ok (Some packet) =>
          Returns (Ok tt,
            {| pc_session_id := pc_session_id self; next_packet_id := next_packet_id self;
               incoming := (try_send packet (incoming self)).2; defragger := d;
               activity := activity self; outbox := outbox self |})
      end
  end.

(** One [send_datagram]. *)
Definition send_datagram (path : DatagramPath) (frame : bytes)
    : M (PacketConnection Ch) unit := fun self =>
  match send_error path frame with
  | Some e => (Err (Protocol e), self)
  | None => (Ok tt, with_outbox self (outbox self ++ [frame]))
  end.

(** The loop over the chunks of a packet from chunk [fragment_id] on. *)
Fixpoint send_chunks (path : DatagramPath) (packet_id : Z) (fragment_total : byte)
    (address address_length : bytes) (fragment_id : Z) (chunks : list bytes)
    : M (PacketConnection Ch) unit :=
  match chunks with
  | [] => mret tt
  | data :: chunks =>
      let* _ := fun self =>
        send_datagram path (encode_message (pc_session_id self) packet_id (zb fragment_id)
          fragment_total address address_length data) self in
      send_chunks path packet_id fragment_total address address_length (fragment_id + 1) chunks
  end.

(** [next_packet_id.fetch_add(1)]: the old value. *)
Definition fetch_add : M (PacketConnection Ch) Z := fun self =>
  (Ok (next_packet_id self),
   {| pc_session_id := pc_session_id self;
      next_packet_id := wrap 32 (next_packet_id self + 1);
      incoming := incoming self; defragger := defragger self;
      activity := activity self; outbox := outbox self |}).

(** [activity.send_replace(now)]. *)
Definition touch (now : Z) : M (PacketConnection Ch) unit := fun self =>
  (Ok tt, {| pc_session_id := pc_session_id self; next_packet_id := next_packet_id self;
             incoming := incoming self; defragger := defragger self;
             activity := now; outbox := outbox self |}).

(** The datagram budget: the reported limit less three, at most the
    official initial size. *)
Definition datagram_budget (path : DatagramPath) : Z :=
  Z.min (match max_datagram_size path with
         | Some size => sat u64_max (size - 3)
         | None => INITIAL_UDP_MTU
         end) INITIAL_UDP_MTU.

(** [Hysteria2PacketConnection::send]. *)
Definition send (path : DatagramPath) (now : Z) (packet : Packet)
    : M (PacketConnection Ch) unit :=
  if len (p_data packet) >? MAX_UDP_SIZE
  then mfail (Protocol (str "Hysteria2 UDP packet exceeds 4096 bytes"))
  else
    let* old := fetch_add in
    let packet_id := wrap 16 (wrap 32 (old + 1) mod u16_max) in
    let address := Address.to_string (p_destination packet) in
    if (len address =? 0) || (len address >? MAX_ADDRESS_LENGTH) then mfail InvalidAddress
    else
      let* address_length := mlift (VarInt.encode (len address)) in
      let header_size := UDP_HEADER_SIZE + len address_length + len address in
      let max_datagram_size := datagram_budget path in
      if header_size >=? max_datagram_size
      then mfail (Protocol (str "Hysteria2 UDP address exceeds QUIC datagram size"))
      else
        let fragment_size := max_datagram_size - header_size in
        let fragment_total :=
          Z.max ((len (p_data packet) + fragment_size - 1) / fragment_size) 1 in
        if fragment_total >? u8_max
        then mfail (Protocol (str "too many Hysteria2 UDP fragments"))
        else
          let* _ := send_chunks path packet_id (zb fragment_total) address address_length 0
                      (chunks (Z.to_nat fragment_size) (p_data packet)) in
          let* _ := match p_data packet with
                    | [] => fun self =>
                        send_datagram path (encode_message (pc_session_id self) packet_id
                          (zb 0) (zb 1) address address_length []) self
                    | _ => mret tt
                    end in
          touch now.

(** [Hysteria2PacketConnection::recv] when a packet is queued; [None] is
    the state in which the call waits.  Its other arm, the close of the
    connection, is in [Hy2Idle]. *)
Definition recv_packet (now : Z) self : option (Packet * PacketConnection Ch) :=
  match recv (incoming self) with
  | None => None
  | Some (packet, ch) =>
      Some (packet, {| pc_session_id := pc_session_id self;
                       next_packet_id := next_packet_id self;
                       incoming := ch; defragger := defragger self;
                       activity := now; outbox := outbox self |})
  end.
End Connection.

(** ** Round trip of the codec *)

Lemma message_roundtrip sid pid fid ftot address a l :
  uint 32 sid -> uint 16 pid ->
  0 < len address <= MAX_ADDRESS_LENGTH -> Utf8.valid address = true ->
  Address.from_str address = Ok a ->
  decode_message (encode_message sid pid fid ftot address (VarInt.encoded (len address)) l)
  = Ok {| session_id := sid; packet_id := pid; fragment_id := fid; fragment_total := ftot;
          destination := a; data := l |}.
Proof.
  intros Hs Hp Hl Hv Ha. unfold MAX_ADDRESS_LENGTH in *.
  assert (0 <= len address <= VarInt.MAX) as HM.
  { unfold VarInt.MAX. rewrite Z.shiftl_1_l. lia. }
  pose proof (VarInt.encode_encoded _ HM) as He.
  pose proof (VarInt.len_encode _ _ (proj1 HM) He) as Hel.
  set (al := VarInt.encoded (len address)) in *.
  unfold decode_message, encode_message.
  set (hd := to_be 4 sid ++ to_be 2 pid ++ [fid; ftot]).
  assert (to_be 4 sid ++ to_be 2 pid ++ [fid; ftot] ++ al ++ address ++ l
          = hd ++ al ++ address ++ l) as -> by (unfold hd; by rewrite <-!app_assoc).
  assert (length hd = 8%nat) as Hhd by (unfold hd; lens).
  assert (len hd = 8) by (unfold len; lia).
  pose proof (len_nonneg al). pose proof (len_nonneg l).
  destruct (Z.ltb_spec (len (hd ++ al ++ address ++ l)) UDP_HEADER_SIZE) as [Hlt|_].
  { rewrite !len_app in Hlt. unfold UDP_HEADER_SIZE in Hlt. lia. }
  change (Z.to_nat UDP_HEADER_SIZE) with 8%nat. rewrite (drop_app_exact hd) by done.
  rewrite (VarInt.decode_encode (len address)) by (lia || done). cbn [rbind].
  destruct (Z.eqb_spec (len address) 0); [lia|]. unfold MAX_ADDRESS_LENGTH.
  destruct (Z.gtb_spec (len address) 2048); [lia|]. cbv iota beta delta [orb].
  destruct (Z.gtb_spec (UDP_HEADER_SIZE + len al + len address) (len (hd ++ al ++ address ++ l)))
    as [Hlt|_].
  { rewrite !len_app in Hlt. unfold UDP_HEADER_SIZE in Hlt. lia. }
  unfold UDP_HEADER_SIZE.
  replace (hd ++ al ++ address ++ l) with ((hd ++ al) ++ address ++ l) by by rewrite <-app_assoc.
  rewrite (drop_app_exact (hd ++ al) (address ++ l) (Z.to_nat (8 + len al)))
    by (rewrite length_app; unfold len in *; lia).
  rewrite to_nat_len, take_app_length, Hv, Ha. cbn [rbind]. f_equal.
  rewrite (app_assoc (hd ++ al)).
  rewrite (drop_app_exact ((hd ++ al) ++ address) l (Z.to_nat (8 + len al + len address)))
    by (rewrite !length_app; unfold len in *; lia).
  unfold hd. rewrite <-!app_assoc. f_equal.
  - rewrite take_app_exact by lens. by apply from_to_be_small.
  - rewrite drop_app_exact, take_app_exact by lens. by apply from_to_be_small.
Qed.

(** ** The invariant of the defragmenter

    Every stored set counts its parts right and is incomplete. *)

Definition present (ps : list (option bytes)) : Z := len (filter is_Some ps).

Definition set_wf (f : FragmentSet) : Prop :=
  received f = present (parts f) /\ present (parts f) < len (parts f) /\
  2 <= len (parts f) <= 255.

Definition wf (d : Defragger) : Prop := map_Forall (fun _ f => set_wf f) d.

Lemma present_app l1 l2 : present (l1 ++ l2) = present l1 + present l2.
Proof. unfold present. by rewrite filter_app, len_app. Qed.

Lemma present_insert ps i x :
  ps !! i = Some None -> present (<[i := Some x]> ps) = present ps + 1.
Proof.
  intros Hi. rewrite insert_take_drop by (by eapply lookup_lt_Some).
  rewrite <-(take_drop_middle ps i None Hi) at 3. rewrite !present_app.
  unfold present at 2 4. rewrite filter_cons_True by done.
  rewrite filter_cons_False by by intros []. rewrite len_cons. unfold present. lia.
Qed.

Lemma present_none n : present (replicate n None) = 0.
Proof.
  induction n as [|n IH]; [done|]. unfold present in *. cbn [replicate].
  by rewrite filter_cons_False by by intros [].
Qed.

Lemma present_le ps : 0 <= present ps <= len ps.
Proof.
  unfold present, len. pose proof (length_filter is_Some ps). lia.
Qed.

(** All parts are there exactly when the count says so. *)
Lemma present_full ps : present ps = len ps -> exists chunks, mapM id ps = Some chunks.
Proof.
  intros H. apply mapM_is_Some. unfold present, len in H.
  induction ps as [|[c|] ps IH]; [by constructor|..].
  - rewrite filter_cons_True in H by done. constructor; [by eexists|]. apply IH.
    simpl in H. lia.
  - rewrite filter_cons_False in H by by intros [].
    pose proof (length_filter is_Some ps). simpl in H. lia.
Qed.

Lemma present_all ps : Forall is_Some ps -> present ps = len ps.
Proof.
  unfold present. induction 1 as [|x ps Hx HF IH]; [done|].
  by rewrite filter_cons_True, !len_cons, IH by done.
Qed.

Lemma wf_filter now d : wf d -> wf (filter (fresh now) d).
Proof. intros Hd k f [Hk _]%map_lookup_filter_Some. by eapply Hd. Qed.

Lemma empty_set_wf now m total : 2 <= total <= 255 -> set_wf (empty_set now m total).
Proof.
  intros Ht. unfold set_wf, empty_set. simpl. rewrite present_none, len_replicate. lia.
Qed.

(** What [feed] does to a fragment of a packet that takes several: the set it
    looks at is well formed and has the announced size, so the index is in
    range and a complete set has all its parts. *)
Lemma feed_spec now m d :
  wf d -> 1 < bz (fragment_total m) -> bz (fragment_id m) < bz (fragment_total m) ->
  exists f, set_wf f /\ len (parts f) = bz (fragment_total m) /\
    (f = empty_set now m (bz (fragment_total m)) \/
     filter (fresh now) d !! packet_id m = Some f) /\
    let index := Z.to_nat (bz (fragment_id m)) in
    exists slot, parts f !! index = Some slot /\
    let ps := match slot with None => <[index := Some (data m)]> (parts f) | _ => parts f end in
    if decide (present ps = len ps)
    then exists chunks, mapM id ps = Some chunks /\
      feed now m d = Returns
        (if total_length chunks >? MAX_UDP_SIZE
         then Err (Protocol (str "Hysteria2 reassembled UDP packet exceeds 4096 bytes"))
         else Ok (Some {| p_data := concat chunks; p_destination := fs_destination f |}),
         delete (packet_id m) (filter (fresh now) d))
    else feed now m d = Returns (Ok None,
      <[packet_id m := {| updated_at := now; fs_destination := fs_destination f;
                          parts := ps; received := present ps |}]> (filter (fresh now) d)).
Proof.
  intros Hd Ht Hi. pose proof (bz_range (fragment_id m)). pose proof (bz_range (fragment_total m)).
  pose proof (wf_filter now d Hd) as Hf.
  set (e := empty_set now m (bz (fragment_total m))).
  assert (set_wf e) as He by (apply empty_set_wf; lia).
  assert (len (parts e) = bz (fragment_total m)) as Hel.
  { unfold e, empty_set. simpl. rewrite len_replicate. lia. }
  set (f0 := default e (filter (fresh now) d !! packet_id m)).
  assert (set_wf f0 /\ (f0 = e \/ filter (fresh now) d !! packet_id m = Some f0)) as [Hf0 Hf0'].
  { unfold f0. destruct (filter (fresh now) d !! packet_id m) as [f|] eqn:E; simpl.
    - split; [by eapply Hf|by right].
    - split; [done|by left]. }
  set (f := if negb (len (parts f0) =? bz (fragment_total m)) then e else f0).
  assert (set_wf f /\ len (parts f) = bz (fragment_total m) /\
    (f = e \/ filter (fresh now) d !! packet_id m = Some f)) as (Hw & Hl & Hsrc).
  { unfold f. destruct (Z.eqb_spec (len (parts f0)) (bz (fragment_total m))); simpl; auto. }
  exists f. split_and!; [done..|].
  assert (Z.to_nat (bz (fragment_id m)) < length (parts f))%nat as Hlt by (unfold len in Hl; lia).
  destruct (lookup_lt_is_Some_2 _ _ Hlt) as [slot Hslot]. cbv zeta. exists slot. split; [done|].
  destruct Hw as (Hr & Hinc & _).
  unfold feed. destruct (Z.leb_spec (bz (fragment_total m)) 1); [lia|].
  rewrite Z.geb_leb. destruct (Z.leb_spec (bz (fragment_total m)) (bz (fragment_id m))); [lia|].
  cbv zeta. fold e f0 f. rewrite Hslot.
  destruct slot as [c|]; cbn [received parts fs_destination].
  - rewrite decide_False by lia. destruct (Z.eqb_spec (received f) (bz (fragment_total m))); [lia|].
    simpl. by rewrite Hr.
  - pose proof (present_insert (parts f) _ (data m) Hslot) as Hp.
    rewrite Hr, <-Hp. rewrite <-Hl.
    assert (len (<[Z.to_nat (bz (fragment_id m)):=Some (data m)]> (parts f)) = len (parts f)) as Hil.
    { unfold len. by rewrite length_insert. }
    case_decide as Hc.
    + rewrite Hil in Hc. rewrite Hc, Z.eqb_refl. cbv iota beta delta [negb].
      destruct (present_full (<[Z.to_nat (bz (fragment_id m)):=Some (data m)]> (parts f)))
        as [chunks Hch]; [by rewrite Hil|].
      exists chunks. split; [done|]. rewrite Hch. by destruct (total_length chunks >? MAX_UDP_SIZE).
    + rewrite Hil in Hc. destruct (Z.eqb_spec (present
        (<[Z.to_nat (bz (fragment_id m)):=Some (data m)]> (parts f))) (len (parts f))); [done|].
      done.
Qed.

Lemma total_length_concat chunks : total_length chunks = len (concat chunks).
Proof.
  unfold total_length. induction chunks as [|c chunks IH]; [done|]. csimpl.
  rewrite len_app. by rewrite IH.
Qed.

Lemma feed_total now m d :
  wf d ->
  exists r d', feed now m d = Returns (r, d') /\ wf d' /\
    (forall p, r = Ok (Some p) -> 1 < bz (fragment_total m) -> len (p_data p) <= MAX_UDP_SIZE).
Proof.
  intros Hd.
  pose proof (wf_filter now d Hd) as Hf.
  destruct (decide (bz (fragment_total m) <= 1)) as [H1|H1].
  { unfold feed. destruct (Z.leb_spec (bz (fragment_total m)) 1); [|lia].
    eexists _, d. split_and!; [done|done|]. intros; lia. }
  destruct (decide (bz (fragment_id m) < bz (fragment_total m))) as [H2|H2].
  2: { unfold feed. destruct (Z.leb_spec (bz (fragment_total m)) 1); [lia|].
       rewrite Z.geb_leb. destruct (Z.leb_spec (bz (fragment_total m)) (bz (fragment_id m))); [|lia].
       by eexists _, d. }
  destruct (feed_spec now m d Hd ltac:(lia) H2) as (f & Hw & Hl & _ & slot & Hslot & H).
  cbv zeta in H. case_decide as Hc.
  - destruct H as (chunks & _ & Hr). eexists _, _. split; [exact Hr|]. split.
    + by apply map_Forall_delete.
    + intros p Hp _. destruct (Z.gtb_spec (total_length chunks) MAX_UDP_SIZE); [done|].
      simplify_eq/=. by rewrite <-total_length_concat.
  - eexists _, _. split; [exact H|]. split; [|done].
    apply map_Forall_insert_2; [|done]. unfold set_wf. cbn [received parts].
    destruct Hw as (_ & _ & Hb). destruct slot as [c|].
    + pose proof (present_le (parts f)). split_and!; [done|lia..].
    + set (ps := <[_ := _]> (parts f)) in *. pose proof (present_le ps).
      assert (len ps = len (parts f)) as Hps by (unfold ps, len; by rewrite length_insert).
      split_and!; [done|lia..].
Qed.

(** C22: the defragmenter never panics and keeps its invariant, whatever
    messages arrive and whenever: the indexing and the two [expect]s cannot
    fail; and a packet it delivers from several fragments is at most
    [MAX_UDP_SIZE] bytes. *)
Theorem feed_safe now m d (Hd : wf d) :
  exists r d', feed now m d = Returns (r, d') /\ wf d' /\
    (forall p, r = Ok (Some p) -> 1 < bz (fragment_total m) -> len (p_data p) <= MAX_UDP_SIZE).
Proof.
  by apply feed_total.
Qed.

Lemma feed_safe_witness :
  let m := {| session_id := 1; packet_id := 2; fragment_id := Byte.x01; fragment_total := Byte.x02;
              destination := {| Address.host := str "dns.example"; Address.port := 53 |};
              data := str "two" |} in
  wf ∅ /\ exists r d', feed 0 m ∅ = Returns (r, d') /\ wf d' /\
    (forall p, r = Ok (Some p) -> 1 < bz (fragment_total m) -> len (p_data p) <= MAX_UDP_SIZE).
Proof.
  intros m. assert (wf ∅) as H by apply map_Forall_empty.
  split; [exact H|]. exact (feed_safe 0 m ∅ H).
Defined.

(** ** What [send] hands to the connection *)

Section SendSpec.
Context {Ch : Type} `{Mpsc Ch Packet}.

(** The part of the state that sending does not touch. *)
Definition same_session (s s' : PacketConnection Ch) : Prop :=
  pc_session_id s' = pc_session_id s /\ incoming s' = incoming s /\
  defragger s' = defragger s.

Lemma send_chunks_ok path pid tot address al k chunks (s s' : PacketConnection Ch) :
  send_chunks path pid tot address al k chunks s = (Ok tt, s') ->
  same_session s s' /\ next_packet_id s' = next_packet_id s /\ activity s' = activity s /\
  outbox s' = outbox s ++ imap (fun i c =>
    encode_message (pc_session_id s) pid (zb (k + Z.of_nat i)) tot address al c) chunks.
Proof using.
  revert k s. induction chunks as [|c chunks IH]; intros k s.
  { intros [= <-]. split_and!; try done. simpl. by rewrite app_nil_r. }
  cbn [send_chunks]. unfold mbind, send_datagram.
  destruct (send_error path _) as [e|]; [done|]. intros Hs.
  apply IH in Hs as ((H1 & H2 & H3) & H4 & H5 & H6). simpl in *.
  split_and!; try done. rewrite H6, <-app_assoc. simpl. rewrite Z.add_0_r. do 2 f_equal.
  apply imap_ext. intros i c' _. simpl. do 2 f_equal. lia.
Qed.

(** The fragments of a packet of the given size; an empty packet is one
    empty fragment. *)
Definition fragments_of (fragment_size : Z) (data : bytes) : list bytes :=
  match data with
  | [] => [[]]
  | _ => chunks (Z.to_nat fragment_size) data
  end.

Definition header_size (address : bytes) : Z :=
  UDP_HEADER_SIZE + len (VarInt.encoded (len address)) + len address.

Lemma fragments_of_spec n data :
  0 < n ->
  let cs := fragments_of n data in
  concat cs = data /\ Forall (fun c => len c <= n) cs /\
  len cs = Z.max ((len data + n - 1) / n) 1.
Proof using.
  intros Hn. destruct data as [|b data]; cbv zeta.
  - simpl. split_and!; [done|apply Forall_singleton; rewrite len_nil; lia|].
    change (len [[]]) with 1. rewrite len_nil. rewrite Z.div_small; lia.
  - unfold fragments_of. rewrite concat_chunks by lia.
    split_and!; [done| |].
    + eapply Forall_impl; [apply chunks_bound; lia|]. intros c Hc. unfold len. simpl in Hc. lia.
    + rewrite len_chunks by lia. rewrite Z2Nat.id by lia.
      assert (1 <= (len (b :: data) + n - 1) / n); [|lia].
      apply Z.div_le_lower_bound; [lia|]. rewrite len_cons. pose proof (len_nonneg data). lia.
Qed.

(** A successful [send]: the datagrams are the encodings of the fragments,
    all under one packet id, and nothing but the counter, the activity time
    and the outbox changes. *)
Lemma send_ok path now packet (s s' : PacketConnection Ch) :
  send path now packet s = (Ok tt, s') ->
  let address := Address.to_string (p_destination packet) in
  let n := datagram_budget path - header_size address in
  let cs := fragments_of n (p_data packet) in
  let pid := wrap 32 (next_packet_id s + 1) mod u16_max in
  0 < n /\ len (p_data packet) <= MAX_UDP_SIZE /\ 0 < len address <= MAX_ADDRESS_LENGTH /\
  len cs <= u8_max /\
  same_session s s' /\ next_packet_id s' = wrap 32 (next_packet_id s + 1) /\
  activity s' = now /\
  outbox s' = outbox s ++ imap (fun i c =>
    encode_message (pc_session_id s) pid (zb (Z.of_nat i)) (zb (len cs)) address
      (VarInt.encoded (len address)) c) cs.
Proof using.
  cbv zeta. set (address := Address.to_string (p_destination packet)).
  unfold send. destruct (Z.gtb_spec (len (p_data packet)) MAX_UDP_SIZE) as [|Hd]; [done|].
  unfold mbind at 1. cbn [fetch_add]. fold address.
  assert (forall z, wrap 16 (wrap 32 z mod u16_max) = wrap 32 z mod u16_max) as Hw.
  { intros z. apply wrap_small. pose proof (Z.mod_pos_bound (wrap 32 z) u16_max ltac:(done)).
    unfold uint, u16_max in *. lia. }
  rewrite Hw. destruct ((len address =? 0) || (len address >? MAX_ADDRESS_LENGTH)) eqn:Ea; [done|].
  pose proof (len_nonneg address).
  assert (0 < len address <= MAX_ADDRESS_LENGTH) as Hal by lia.
  unfold MAX_ADDRESS_LENGTH in Hal. unfold mbind at 1, mlift.
  rewrite VarInt.encode_encoded by (unfold VarInt.MAX; rewrite Z.shiftl_1_l; lia).
  change (UDP_HEADER_SIZE + len (VarInt.encoded (len address)) + len address)
    with (header_size address).
  rewrite Z.geb_leb.
  destruct (Z.leb_spec (datagram_budget path) (header_size address)) as [|Hh]; [done|].
  set (n := datagram_budget path - header_size address) in *.
  assert (0 < n) as Hn by lia.
  destruct (fragments_of_spec n (p_data packet) Hn) as (_ & _ & Hlen). rewrite <-Hlen.
  destruct (Z.gtb_spec (len (fragments_of n (p_data packet))) u8_max) as [|Ht]; [done|].
  set (s1 := {| pc_session_id := _ |}).
  unfold mbind at 1.
  destruct (send_chunks path _ _ address _ 0 (chunks (Z.to_nat n) (p_data packet)) s1)
    as [[[]|e] s2] eqn:Es; [|done].
  apply send_chunks_ok in Es as ((H1 & H2 & H3) & H4 & H5 & H6). unfold mbind.
  destruct (p_data packet) as [|b rest] eqn:Ep.
  - unfold send_datagram. destruct (send_error path _) as [e|]; [done|].
    intros [= <-]. split_and!; try done; try apply Hal. simpl. rewrite H6. simpl.
    by rewrite app_nil_r, H1.
  - intros [= <-]. split_and!; try done; apply Hal.
Qed.

Lemma send_chunks_total path pid tot address al k chunks (s : PacketConnection Ch) :
  (forall frame, send_error path frame = None) ->
  exists s', send_chunks path pid tot address al k chunks s = (Ok tt, s').
Proof using.
  intros Hp. revert k s. induction chunks as [|c chunks IH]; intros k s; [by eexists|].
  cbn [send_chunks]. unfold mbind, send_datagram. rewrite Hp. apply IH.
Qed.

Lemma len_encode_message sid pid fid tot address al data :
  len (encode_message sid pid fid tot address al data)
  = UDP_HEADER_SIZE + len al + len address + len data.
Proof. unfold encode_message, UDP_HEADER_SIZE. lens. Qed.

(** C29: every datagram of a successful [send] fits the budget, which is
    below the size the connection reports and below the official initial
    size; there are at most 255 of them, and the packet id they carry is
    never [u16::MAX]. *)
Theorem send_datagrams_fit path now packet (s s' : PacketConnection Ch)
    (Hsend : send path now packet s = (Ok tt, s')) :
  exists ds, outbox s' = outbox s ++ ds /\ 1 <= len ds <= 255 /\
    Forall (fun d => len d <= datagram_budget path /\
                     from_be (take 2 (drop 4 d)) < u16_max) ds /\
    datagram_budget path <= INITIAL_UDP_MTU /\
    (forall size, max_datagram_size path = Some size -> datagram_budget path <= Z.max 0 (size - 3)).
Proof using.
  apply send_ok in Hsend. cbv zeta in Hsend.
  destruct Hsend as (Hn & _ & _ & Hcs & _ & _ & _ & Hout).
  set (n := _ - _) in *. set (cs := fragments_of n _) in *.
  destruct (fragments_of_spec n (p_data packet) Hn) as (_ & HF & Hlen). fold cs in HF, Hlen.
  eexists. split; [exact Hout|]. unfold u8_max in Hcs. split_and!.
  - unfold len. rewrite length_imap. fold (len cs). lia.
  - unfold len. rewrite length_imap. fold (len cs). lia.
  - apply Forall_forall. intros d Hin. apply list_elem_of_lookup in Hin as [i Hi].
    apply list_lookup_imap_Some in Hi as (c & Hc & ->).
    rewrite Forall_lookup in HF. specialize (HF i c Hc).
    rewrite len_encode_message. unfold n, header_size in HF. split; [lia|].
    unfold encode_message. rewrite drop_app_exact, take_app_exact by lens.
    rewrite from_to_be. change (256 ^ Z.of_nat 2) with 65536.
    pose proof (Z.mod_pos_bound (wrap 32 (next_packet_id s + 1)) u16_max ltac:(done)).
    unfold u16_max in *. rewrite Z.mod_small; lia.
  - unfold datagram_budget. lia.
  - intros size Hsz. unfold datagram_budget. rewrite Hsz. unfold sat, u64_max. lia.
Qed.

(** C30: over a connection that takes every datagram, [send] succeeds
    exactly when the payload, the address, the header and the number of
    fragments are within their limits; otherwise it reports an error and
    nothing is sent. *)
Theorem send_succeeds_iff path now packet (s : PacketConnection Ch)
    (Hpath : forall frame, send_error path frame = None) :
  let address := Address.to_string (p_destination packet) in
  let n := datagram_budget path - header_size address in
  let fits := len (p_data packet) <= MAX_UDP_SIZE /\
    0 < len address <= MAX_ADDRESS_LENGTH /\ 0 < n /\
    len (fragments_of n (p_data packet)) <= u8_max in
  (fits -> exists s', send path now packet s = (Ok tt, s')) /\
  (~ fits -> exists e s', send path now packet s = (Err e, s') /\ outbox s' = outbox s).
Proof using.
  intros address n fits.
  destruct (send path now packet s) as [[[]|e] s'] eqn:E.
  { split; [eauto|]. intros Hnf. exfalso. apply Hnf.
    apply send_ok in E. cbv zeta in E. fold address in E. fold n in E. subst fits. tauto. }
  revert E. unfold send. fold address.
  destruct (Z.gtb_spec (len (p_data packet)) MAX_UDP_SIZE) as [|Hd].
  { intros [= <- <-]. split; [unfold fits; lia|eauto]. }
  unfold mbind at 1. cbn [fetch_add].
  destruct ((len address =? 0) || (len address >? MAX_ADDRESS_LENGTH)) eqn:Ea.
  { intros [= <- <-]. split; [unfold fits; lia|]. intros _. by eexists _, _. }
  pose proof (len_nonneg address). unfold MAX_ADDRESS_LENGTH in Ea.
  unfold mbind at 1, mlift.
  rewrite VarInt.encode_encoded by (unfold VarInt.MAX; rewrite Z.shiftl_1_l; lia).
  change (UDP_HEADER_SIZE + len (VarInt.encoded (len address)) + len address)
    with (header_size address).
  rewrite Z.geb_leb.
  destruct (Z.leb_spec (datagram_budget path) (header_size address)) as [|Hh].
  { intros [= <- <-]. split; [unfold fits; lia|]. intros _. by eexists _, _. }
  fold n. assert (0 < n) as Hn by lia.
  destruct (fragments_of_spec n (p_data packet) Hn) as (_ & _ & Hlen). rewrite <-Hlen.
  destruct (Z.gtb_spec (len (fragments_of n (p_data packet))) u8_max) as [|Ht].
  { intros [= <- <-]. split; [unfold fits; lia|]. intros _. by eexists _, _. }
  set (s1 := {| pc_session_id := _ |}). unfold mbind at 1.
  destruct (send_chunks_total path (wrap 16 (wrap 32 (next_packet_id s + 1) mod u16_max))
    (zb (len (fragments_of n (p_data packet)))) address (VarInt.encoded (len address)) 0
    (chunks (Z.to_nat n) (p_data packet)) s1 Hpath) as [s2 ->].
  unfold mbind, send_datagram. destruct (p_data packet); [by rewrite Hpath|done].
Qed.
End SendSpec.

Definition accept_all (size : option Z) : DatagramPath :=
  {| max_datagram_size := size; send_error := fun _ => None |}.

Definition example_packet : Packet :=
  {| p_data := replicate 150 Byte.x2a;
     p_destination := {| Address.host := str "example.com"; Address.port := 443 |} |}.

Definition example_connection : PacketConnection (ListChannel.Chan Packet) := new 7 0.

Lemma send_datagrams_fit_witness :
  let s' := (send (accept_all (Some 100)) 5 example_packet example_connection).2 in
  send (accept_all (Some 100)) 5 example_packet example_connection = (Ok tt, s') /\
  exists ds, outbox s' = outbox example_connection ++ ds /\ 1 <= len ds <= 255 /\
    Forall (fun d => len d <= datagram_budget (accept_all (Some 100)) /\
                     from_be (take 2 (drop 4 d)) < u16_max) ds /\
    datagram_budget (accept_all (Some 100)) <= INITIAL_UDP_MTU /\
    (forall size, max_datagram_size (accept_all (Some 100)) = Some size ->
       datagram_budget (accept_all (Some 100)) <= Z.max 0 (size - 3)).
Proof.
  intros s'.
  assert (send (accept_all (Some 100)) 5 example_packet example_connection = (Ok tt, s')) as H
    by (vm_compute; reflexivity).
  split; [exact H|]. exact (send_datagrams_fit _ _ _ _ _ H).
Defined.

Lemma send_succeeds_iff_witness :
  (forall frame, send_error (accept_all None) frame = None) /\
  exists s', send (accept_all None) 5 example_packet example_connection = (Ok tt, s').
Proof.
  split; [reflexivity|].
  apply (send_succeeds_iff (accept_all None) 5 example_packet example_connection);
    [reflexivity|]. split_and!; vm_compute; congruence.
Defined.

End Hy2Packet.
