(* ===== verification/Hy2Reassembly.v ===== *)
(** * Reassembly of Hysteria2 UDP packets

    What the defragmenter of [src/hysteria2/packet.rs] promises for one
    packet: it gives the packet back, in whatever order the fragments arrive,
    with duplicates and with other packets in between. *)

From Stdlib Require Import ZArith Lia.
From stdpp Require Import base gmap list strings.
From S2P Require Import Prelude Error VarInt Text Net Address Channels Hy2Packet.
Import Hy2Packet.

#[local] Open Scope Z_scope.
#[local] Open Scope rust_scope.

Module Hy2Reassembly.

(** Feeding a sequence of messages, each with its arrival time. *)
Fixpoint run (tr : list (Z * UdpMessage)) (d : Defragger)
    : Outcome (list (Result (option Packet)) * Defragger) :=
  match tr with
  | [] => Returns ([], d)
  | (now, m) :: tr =>
      match feed now m d with
      | Panics => Panics
      | Returns (r, d) =>
          match run tr d with
          | Panics => Panics
          | Returns (rs, d) => Returns (r :: rs, d)
          end
      end
  end.

Section Packet.
(** One packet on its way: [cs] are the payloads of its fragments. *)
Context (sid pid : Z) (dest : Address.Address) (cs : list bytes).

Definition frag (i : nat) (c : bytes) : UdpMessage :=
  {| session_id := sid; packet_id := pid; fragment_id := zb (Z.of_nat i);
     fragment_total := zb (len cs); destination := dest; data := c |}.

(** The abstract state of the reassembly is the set [S] of the fragments
    seen; [parts_of S] is the array that the code keeps for it. *)
Definition parts_of (S : gset nat) : list (option bytes) :=
  imap (fun i c => if decide (i ∈ S) then Some c else None) cs.

Definition set_of (t : Z) (S : gset nat) : FragmentSet :=
  {| updated_at := t; fs_destination := dest; parts := parts_of S;
     received := present (parts_of S) |}.

Definition complete (S : gset nat) : Prop := Forall (fun i => i ∈ S) (seq 0 (length cs)).

#[local] Instance complete_dec S : Decision (complete S).
Proof. unfold complete. apply _. Defined.

Lemma parts_of_lookup S i c :
  cs !! i = Some c -> parts_of S !! i = Some (if decide (i ∈ S) then Some c else None).
Proof. intros Hi. unfold parts_of. by rewrite list_lookup_imap, Hi. Qed.

Lemma length_parts_of S : length (parts_of S) = length cs.
Proof. unfold parts_of. by rewrite length_imap. Qed.

Lemma len_parts_of S : len (parts_of S) = len cs.
Proof. unfold len. by rewrite length_parts_of. Qed.

Lemma parts_of_insert S i c :
  cs !! i = Some c -> <[i := Some c]> (parts_of S) = parts_of ({[i]} ∪ S).
Proof.
  intros Hi. assert (i < length (parts_of S))%nat as Hlt.
  { rewrite length_parts_of. by eapply lookup_lt_Some. }
  apply list_eq. intros j. destruct (decide (i = j)) as [<-|Hne].
  - rewrite list_lookup_insert_eq by done. rewrite (parts_of_lookup _ i c Hi).
    by rewrite decide_True by set_solver.
  - rewrite list_lookup_insert_ne by done. unfold parts_of.
    rewrite !list_lookup_imap. destruct (cs !! j); [simpl|done]. f_equal.
    apply decide_ext. clear -Hne. set_solver.
Qed.

Lemma parts_of_empty : parts_of ∅ = replicate (length cs) None.
Proof.
  apply list_eq. intros j. unfold parts_of. rewrite list_lookup_imap.
  destruct (cs !! j) as [c|] eqn:E; simpl.
  - rewrite decide_False by set_solver. symmetry. apply lookup_replicate_2.
    by eapply lookup_lt_Some.
  - symmetry. apply lookup_ge_None_2. rewrite length_replicate. by apply lookup_ge_None.
Qed.

Lemma mapM_complete S : complete S -> mapM id (parts_of S) = Some cs.
Proof.
  intros Hc. apply mapM_Some. apply Forall2_same_length_lookup_2.
  { apply length_parts_of. }
  intros i x y Hx Hy. rewrite (parts_of_lookup S i y Hy) in Hx.
  unfold complete in Hc. rewrite Forall_forall in Hc.
  rewrite decide_True in Hx; [by simplify_eq|]. apply Hc.
  apply elem_of_seq. apply lookup_lt_Some in Hy. lia.
Qed.

Lemma present_complete S : present (parts_of S) = len (parts_of S) <-> complete S.
Proof.
  split.
  - intros [chunks Hch]%present_full. apply Forall_forall. intros i Hi.
    apply elem_of_seq in Hi. destruct (lookup_lt_is_Some_2 cs i) as [c Hc]; [lia|].
    destruct (decide (i ∈ S)) as [|Hni]; [done|]. exfalso.
    apply mapM_Some_1 in Hch. eapply Forall2_lookup_l in Hch as (y & _ & Hy);
      [|by apply (parts_of_lookup S i c)]. by rewrite decide_False in Hy.
  - intros Hc. apply mapM_complete, mapM_Some_1 in Hc.
    apply present_all.
    apply Forall_forall. intros x Hx. apply list_elem_of_lookup_1 in Hx as [i Hi].
    eapply Forall2_lookup_l in Hc as (y & _ & Hy); [|done]. unfold id in Hy. by eexists.
Qed.

Context (Hn : 2 <= len cs <= 255).

Lemma frag_total i c : bz (fragment_total (frag i c)) = len cs.
Proof using Hn. simpl. apply bz_zb_small. lia. Qed.

Lemma frag_index i c : cs !! i = Some c -> bz (fragment_id (frag i c)) = Z.of_nat i.
Proof using Hn.
  intros Hi%lookup_lt_Some. simpl. apply bz_zb_small. unfold len in Hn. lia.
Qed.

(** The state [d] holds the abstract state [S] for this packet. *)
Definition holds (d : Defragger) (S : gset nat) : Prop :=
  (d !! pid = None /\ S = ∅) \/ (exists t, d !! pid = Some (set_of t S)).

(** What the reassembled packet is: the concatenation, unless too long. *)
Definition verdict : Result (option Packet) :=
  if total_length cs >? MAX_UDP_SIZE
  then Err (Protocol (str "Hysteria2 reassembled UDP packet exceeds 4096 bytes"))
  else Ok (Some {| p_data := concat cs; p_destination := dest |}).

(** A fragment of the packet: the abstract state grows by its index, and
    the last missing one yields the packet and forgets the state. *)
Lemma feed_ours now i c d S :
  cs !! i = Some c -> holds (filter (fresh now) d) S -> ~ complete S ->
  feed now (frag i c) d =
  if decide (complete ({[i]} ∪ S))
  then Returns (verdict, delete pid (filter (fresh now) d))
  else Returns (Ok None, <[pid := set_of now ({[i]} ∪ S)]> (filter (fresh now) d)).
Proof using Hn.
  intros Hi Hh Hnc. unfold feed. rewrite frag_total, frag_index by done.
  destruct (Z.leb_spec (len cs) 1); [lia|]. pose proof (lookup_lt_Some _ _ _ Hi) as Hlt.
  rewrite Z.geb_leb. destruct (Z.leb_spec (len cs) (Z.of_nat i)); [unfold len in *; lia|].
  cbv zeta. cbn [packet_id frag].
  assert (exists t, (if negb (len (parts (default (empty_set now (frag i c) (len cs))
      (filter (fresh now) d !! pid))) =? len cs) then empty_set now (frag i c) (len cs)
    else default (empty_set now (frag i c) (len cs)) (filter (fresh now) d !! pid))
    = set_of t S) as [t ->].
  { destruct Hh as [[-> ->]|[t ->]]; cbn [default].
    - exists now. unfold set_of. rewrite parts_of_empty, present_none.
      unfold empty_set. rewrite to_nat_len. by destruct (negb _).
    - exists t. cbn [id set_of parts]. by rewrite len_parts_of, Z.eqb_refl. }
  cbn [parts set_of received fs_destination updated_at].
  rewrite Nat2Z.id, (parts_of_lookup S i c Hi).
  assert (present (parts_of S) <> len cs) as Hp.
  { intros Hp. apply Hnc, present_complete. by rewrite Hp, len_parts_of. }
  destruct (decide (i ∈ S)) as [Hin|Hni]; cbn [received parts fs_destination data frag].
  - replace ({[i]} ∪ S) with S by set_solver. rewrite decide_False by done.
    by destruct (Z.eqb_spec (present (parts_of S)) (len cs)).
  - rewrite <-(present_insert _ i c) by (by rewrite (parts_of_lookup S i c Hi), decide_False).
    rewrite (parts_of_insert S i c Hi). case_decide as Hc.
    + pose proof (proj2 (present_complete _) Hc) as Hpc. rewrite len_parts_of in Hpc.
      rewrite Hpc, Z.eqb_refl. cbv iota beta delta [negb]. rewrite mapM_complete by done.
      unfold verdict. by destruct (total_length cs >? MAX_UDP_SIZE).
    + destruct (Z.eqb_spec (present (parts_of ({[i]} ∪ S))) (len cs)) as [E|]; [|done].
      exfalso. apply Hc, present_complete. by rewrite len_parts_of.
Qed.

(** A message of another packet leaves the state of this one alone. *)
Lemma feed_other now m d r d' :
  wf d -> packet_id m <> pid -> feed now m d = Returns (r, d') ->
  (forall f, d !! pid = Some f -> fresh now (pid, f)) -> d' !! pid = d !! pid.
Proof using.
  intros Hd Hne Hfeed Hfr.
  assert (filter (fresh now) d !! pid = d !! pid) as Hfl.
  { destruct (d !! pid) as [f|] eqn:E.
    - apply map_lookup_filter_Some. split; [done|]. by apply Hfr.
    - apply map_lookup_filter_None. by left. }
  destruct (decide (bz (fragment_total m) <= 1)) as [H1|H1].
  { unfold feed in Hfeed. destruct (Z.leb_spec (bz (fragment_total m)) 1); [|lia].
    by simplify_eq. }
  destruct (decide (bz (fragment_id m) < bz (fragment_total m))) as [H2|H2].
  2: { unfold feed in Hfeed. destruct (Z.leb_spec (bz (fragment_total m)) 1); [lia|].
       rewrite Z.geb_leb in Hfeed.
       destruct (Z.leb_spec (bz (fragment_total m)) (bz (fragment_id m))); [|lia].
       by simplify_eq. }
  destruct (feed_spec now m d Hd ltac:(lia) H2) as (f & _ & _ & _ & slot & _ & H).
  cbv zeta in H. case_decide.
  - destruct H as (chunks & _ & H). rewrite H in Hfeed. simplify_eq.
    unfold Defragger. by rewrite lookup_delete_ne.
  - rewrite H in Hfeed. simplify_eq. unfold Defragger. by rewrite lookup_insert_ne.
Qed.

(** ** Traces *)

(** All arrivals lie within one fragment lifetime, and the messages with
    this packet's id are its fragments. *)
Definition trace_ok (t0 : Z) (tr : list (Z * UdpMessage)) : Prop :=
  Forall (fun '(now, m) => t0 <= now <= t0 + FRAGMENT_LIFETIME /\
    (packet_id m = pid -> exists i c, cs !! i = Some c /\ m = frag i c)) tr.

(** The fragments of this packet in a trace. *)
Fixpoint seen (tr : list (Z * UdpMessage)) : gset nat :=
  match tr with
  | [] => ∅
  | (_, m) :: tr =>
      (if decide (packet_id m = pid) then {[Z.to_nat (bz (fragment_id m))]} else ∅) ∪ seen tr
  end.

(** The state for this packet was last touched in the window. *)
Definition in_window (t0 : Z) (d : Defragger) : Prop :=
  forall f, d !! pid = Some f -> t0 <= updated_at f <= t0 + FRAGMENT_LIFETIME.

Lemma in_window_fresh t0 now d f :
  in_window t0 d -> t0 <= now <= t0 + FRAGMENT_LIFETIME ->
  d !! pid = Some f -> fresh now (pid, f).
Proof using.
  intros Hw Hnow Hf. unfold fresh, duration_since. simpl. specialize (Hw f Hf). lia.
Qed.

Lemma holds_filter t0 now d S :
  in_window t0 d -> t0 <= now <= t0 + FRAGMENT_LIFETIME ->
  holds d S -> holds (filter (fresh now) d) S.
Proof using.
  intros Hw Hnow [[Hd ->]|[t Hd]].
  - left. split; [|done]. apply map_lookup_filter_None. by left.
  - right. exists t. apply map_lookup_filter_Some. split; [done|].
    by eapply in_window_fresh.
Qed.

(** As long as a fragment is missing, the messages of the packet yield
    nothing and the state holds exactly what was seen. *)
Lemma run_incomplete t0 tr d S :
  wf d -> holds d S -> in_window t0 d -> trace_ok t0 tr -> ~ complete (seen tr ∪ S) ->
  exists rs d', run tr d = Returns (rs, d') /\ wf d' /\ in_window t0 d' /\
    holds d' (seen tr ∪ S) /\
    Forall2 (fun '(_, m) r => packet_id m = pid -> r = Ok None) tr rs.
Proof using Hn.
  revert d S. induction tr as [|[now m] tr IH]; intros d S Hd Hh Hw Htr Hnc.
  { exists [], d. replace (seen [] ∪ S) with S by set_solver. split_and!; [done..|]. constructor. }
  apply Forall_cons in Htr as [[Hnow Hm] Htr]. cbn [run].
  destruct (feed_total now m d Hd) as (r & d1 & Hfeed & Hd1 & _).
  assert (forall T, complete T -> T ⊆ seen ((now, m) :: tr) ∪ S ->
    complete (seen ((now, m) :: tr) ∪ S)) as Hmono.
  { intros T HT Hsub. eapply Forall_impl; [exact HT|]. simpl. set_solver. }
  assert (exists T, seen ((now, m) :: tr) ∪ S = seen tr ∪ T /\ holds d1 T /\
    in_window t0 d1 /\ (packet_id m = pid -> r = Ok None)) as (T & HT & Hh1 & Hw1 & Hr).
  { cbn [seen]. destruct (decide (packet_id m = pid)) as [Hp|Hp].
    - destruct (Hm Hp) as (i & c & Hi & ->). rewrite frag_index, Nat2Z.id by done.
      exists ({[i]} ∪ S). split; [set_solver|].
      rewrite (feed_ours now i c d S Hi) in Hfeed.
      + rewrite decide_False in Hfeed.
        * simplify_eq. unfold holds, in_window, Defragger. split_and!; [|intros f|done].
          { right. exists now. by rewrite lookup_insert_eq. }
          rewrite lookup_insert_eq. intros [= <-]. done.
        * intros Hc. apply Hnc, (Hmono _ Hc). cbn [seen].
          rewrite decide_True by done. rewrite frag_index, Nat2Z.id by done. set_solver.
      + by eapply holds_filter.
      + intros Hc. apply Hnc, (Hmono _ Hc). set_solver.
    - exists S. split; [set_solver|].
      assert (d1 !! pid = d !! pid) as He.
      { eapply feed_other; [exact Hd|exact Hp|exact Hfeed|].
        intros f Hf. by eapply in_window_fresh. }
      split_and!; [|intros f Hf; apply Hw; congruence|done].
      destruct Hh as [[? ->]|[t ?]]; [left|right]; [|exists t]; split || idtac; congruence. }
  rewrite HT in *.
  destruct (IH d1 T Hd1 Hh1 Hw1 Htr Hnc) as (rs & d' & Hrun & Hd' & Hw' & Hh' & HF).
  rewrite Hfeed, Hrun. eexists _, _. split_and!; [done..|]. by constructor.
Qed.

End Packet.

#[local] Existing Instance complete_dec.

(** C21: reassembly.  Take a packet in at least two fragments and any sequence
    of messages within one fragment lifetime in which the messages with its
    id are its fragments: in any order, repeated, and mixed with the messages
    of other packets.  While a fragment is missing nothing is delivered for
    the packet; when the last missing fragment arrives, the packet is
    delivered: the concatenation of the fragments in index order, to the
    destination they carry, and its state is forgotten. *)
Theorem defragger_reassembles sid pid dest cs t0 tr now i c d
    (Hn : 2 <= len cs <= 255) (Hlen : len (concat cs) <= MAX_UDP_SIZE)
    (Hd : wf d) (Hfresh : d !! pid = None)
    (Htr : trace_ok sid pid dest cs t0 tr)
    (Hnow : t0 <= now <= t0 + FRAGMENT_LIFETIME) (Hi : cs !! i = Some c)
    (Hmissing : ~ complete cs (seen pid tr)) (Hlast : complete cs ({[i]} ∪ seen pid tr)) :
  exists rs d' d'',
    run tr d = Returns (rs, d') /\
    Forall2 (fun '(_, m) r => packet_id m = pid -> r = Ok None) tr rs /\
    feed now (frag sid pid dest cs i c) d'
      = Returns (Ok (Some {| p_data := concat cs; p_destination := dest |}), d'') /\
    d'' !! pid = None.
Proof.
  destruct (run_incomplete sid pid dest cs Hn t0 tr d ∅) as (rs & d' & Hrun & Hd' & Hw & Hh & HF).
  - done.
  - by left.
  - intros f Hf. congruence.
  - done.
  - by replace (seen pid tr ∪ ∅) with (seen pid tr) by set_solver.
  - replace (seen pid tr ∪ ∅) with (seen pid tr) in Hh by set_solver.
    exists rs, d', (delete pid (filter (fresh now) d')). split_and!; [done..| |].
    + erewrite feed_ours; [|done|done|by eapply holds_filter|done].
      rewrite decide_True by done. unfold verdict. rewrite total_length_concat.
      destruct (Z.gtb_spec (len (concat cs)) MAX_UDP_SIZE); [lia|done].
    + unfold Defragger. by rewrite lookup_delete_eq.
Qed.

(** ** From the sender to the receiver *)

Lemma run_app tr1 tr2 d :
  run (tr1 ++ tr2) d =
  match run tr1 d with
  | Panics => Panics
  | Returns (rs1, d1) =>
      match run tr2 d1 with
      | Panics => Panics
      | Returns (rs2, d2) => Returns (rs1 ++ rs2, d2)
      end
  end.
Proof.
  revert d. induction tr1 as [|[now m] tr1 IH]; intros d; simpl.
  { by destruct (run tr2 d) as [[]|]. }
  destruct (feed now m d) as [[r d1]|]; [|done]. rewrite IH.
  destruct (run tr1 d1) as [[rs1 d2]|]; [|done]. by destruct (run tr2 d2) as [[]|].
Qed.

Definition index_of (m : UdpMessage) : nat := Z.to_nat (bz (fragment_id m)).

(** A packet in one fragment passes straight through. *)
Lemma feed_single now m d :
  bz (fragment_total m) = 1 ->
  feed now m d = Returns (Ok (Some {| p_data := data m; p_destination := destination m |}), d).
Proof. intros H1. unfold feed. by rewrite H1. Qed.

Lemma defragger_reassembles_witness :
  let dest := {| Address.host := str "dns.example"; Address.port := 53 |} in
  let cs := [str "one"; str "two"] in
  let tr := [(3, frag 1 2 dest cs 1 (str "two"))] in
  exists rs d' d'',
    run tr ∅ = Returns (rs, d') /\
    Forall2 (fun '(_, m) r => packet_id m = 2 -> r = Ok None) tr rs /\
    feed 5 (frag 1 2 dest cs 0 (str "one")) d'
      = Returns (Ok (Some {| p_data := str "onetwo"; p_destination := dest |}), d'') /\
    d'' !! 2 = None.
Proof.
  intros dest cs tr.
  apply (defragger_reassembles 1 2 dest cs 0 tr 5 0%nat (str "one") ∅).
  - split; vm_compute; congruence.
  - vm_compute; congruence.
  - apply map_Forall_empty.
  - reflexivity.
  - apply Forall_singleton. split; [split; vm_compute; congruence|].
    intros _. exists 1%nat, (str "two"). split; reflexivity.
  - split; vm_compute; congruence.
  - reflexivity.
  - apply (bool_decide_eq_false_1 (complete cs (seen 2 tr))). reflexivity.
  - apply (bool_decide_eq_true_1 (complete cs ({[0%nat]} ∪ seen 2 tr))). reflexivity.
Defined.

End Hy2Reassembly.
