(* ===== verification/Hy2Idle.v ===== *)
(** * Waiting for a packet connection to fall idle

    [Hysteria2PacketConnection::wait_inactive] and [recv] of
    [src/src/hysteria2/packet.rs] with the clock.  The task that waits and
    everything else that happens to the connection interleave as the rules
    of two relations: the rules of [task] are the turns of the loop, those of
    [world] are the clock, the sends, receptions and datagrams of the
    connection and its end.  A timer fires at its deadline or later. *)

From Stdlib Require Import ZArith Lia.
From stdpp Require Import base gmap list strings relations.
From S2P Require Import Prelude Error Address Channels Hy2Packet.

#[local] Open Scope Z_scope.

Module Hy2Idle.
Import Hy2Packet.

Section Idle.
Context {Ch : Type} `{MC : Mpsc Ch Packet}.
(** The timeout that the caller waits for. *)
Variable timeout : Z.

(** The waiting call.  [unseen] says that the watch channel has a value that
    the subscriber has not taken notice of, [deadline] is that of the
    [select!] being polled and [None] at the head of the loop, and
    [returned] is the time at which the call returned. *)
Record Waiting := {
  now : Z;
  self : PacketConnection Ch;
  unseen : bool;
  deadline : option Z;
  conn_closed : option ConnectionError;
  returned : option Z;
}.

(** [self.activity.subscribe()]: the current value counts as seen. *)
Definition subscribe (t : Z) (conn : PacketConnection Ch) (closed : option ConnectionError)
    : Waiting :=
  {| now := t; self := conn; unseen := false; deadline := None; conn_closed := closed;
     returned := None |}.

(** [let deadline = *activity.borrow() + timeout]. *)
Definition arm (w : Waiting) : Waiting :=
  {| now := now w; self := self w; unseen := unseen w;
     deadline := Some (activity (self w) + timeout);
     conn_closed := conn_closed w; returned := returned w |}.

(** The timer's arm: [duration_since] saturates at zero. *)
Definition on_timer (w : Waiting) : Waiting :=
  let idle := Z.max 0 (now w - activity (self w)) >=? timeout in
  {| now := now w; self := self w; unseen := unseen w; deadline := None;
     conn_closed := conn_closed w; returned := if idle then Some (now w) else returned w |}.

(** The arm of [changed()]; it cannot fail while [self], which owns the
    sender, is borrowed. *)
Definition on_changed (w : Waiting) : Waiting :=
  {| now := now w; self := self w; unseen := false; deadline := None;
     conn_closed := conn_closed w; returned := returned w |}.

(** The arm of [closed()]. *)
Definition on_closed (w : Waiting) : Waiting :=
  {| now := now w; self := self w; unseen := unseen w; deadline := None;
     conn_closed := conn_closed w; returned := Some (now w) |}.

Inductive task : Waiting -> Waiting -> Prop :=
| task_arm w : returned w = None -> deadline w = None -> task w (arm w)
| task_timer d w : returned w = None -> deadline w = Some d -> d <= now w -> task w (on_timer w)
| task_changed d w :
    returned w = None -> deadline w = Some d -> unseen w = true -> task w (on_changed w)
| task_closed d w :
    returned w = None -> deadline w = Some d -> is_Some (conn_closed w) -> task w (on_closed w).

(** [Hysteria2PacketConnection::recv]: a queued packet or the end of the
    connection, either when both are there. *)
Inductive recv_returns (t : Z) (conn : PacketConnection Ch) (closed : option ConnectionError)
    : Result Packet -> PacketConnection Ch -> Prop :=
| recv_packet_returns p conn' :
    recv_packet t conn = Some (p, conn') -> recv_returns t conn closed (Ok p) conn'
| recv_closed_returns e :
    closed = Some e -> recv_returns t conn closed (Err (Connection e)) conn.

Definition with_self (w : Waiting) (conn : PacketConnection Ch) (touched : bool) : Waiting :=
  {| now := now w; self := conn; unseen := unseen w || touched; deadline := deadline w;
     conn_closed := conn_closed w; returned := returned w |}.

Inductive world : Waiting -> Waiting -> Prop :=
| world_tick t w : now w <= t ->
    world w {| now := t; self := self w; unseen := unseen w; deadline := deadline w;
               conn_closed := conn_closed w; returned := returned w |}
| world_send path packet r conn w :
    send path (now w) packet (self w) = (r, conn) -> world w (with_self w conn (is_ok r))
| world_recv r conn w :
    recv_returns (now w) (self w) (conn_closed w) r conn -> world w (with_self w conn (is_ok r))
| world_input m r conn w :
    input (now w) m (self w) = Returns (r, conn) -> world w (with_self w conn false)
| world_close e w :
    world w {| now := now w; self := self w; unseen := unseen w; deadline := deadline w;
               conn_closed := Some e; returned := returned w |}.

Definition reachable : Waiting -> Waiting -> Prop := rtc (fun w w' => task w w' \/ world w w').

(** ** What the operations do to the activity *)

Definition keeps_activity {A} (c : M (PacketConnection Ch) A) : Prop :=
  forall s r s', c s = (r, s') -> activity s' = activity s.

Lemma idle_keeps_bind {A B} (c : M (PacketConnection Ch) A) (k : A -> M (PacketConnection Ch) B) :
  keeps_activity c -> (forall a, keeps_activity (k a)) -> keeps_activity (mbind c k).
Proof using.
  intros Hc Hk s r s'. unfold mbind. destruct (c s) as [[a|e] s1] eqn:E1.
  - intros E2. rewrite (Hk _ _ _ _ E2). by apply (Hc _ _ _ E1).
  - intros [= <- <-]. by apply (Hc _ _ _ E1).
Qed.

Lemma keeps_datagram path f : keeps_activity (fun s => send_datagram path (f s) s).
Proof using. intros s r s'. unfold send_datagram. case_match; by intros [= <- <-]. Qed.

Lemma keeps_chunks path pid tot address al chunks : forall k,
  keeps_activity (send_chunks path pid tot address al k chunks).
Proof using.
  induction chunks as [|c chunks IH]; intros k; cbn [send_chunks]; [by intros s r s' [= <- <-]|].
  apply idle_keeps_bind; [apply keeps_datagram|]. auto.
Qed.

(** A send marks the activity exactly when it succeeds. *)
Lemma send_activity path t packet (s s' : PacketConnection Ch) r :
  send path t packet s = (r, s') -> activity s' = if is_ok r then t else activity s.
Proof using.
  destruct r as [[]|e]; simpl; [by intros (_ & _ & _ & _ & _ & _ & ? & _)%send_ok|].
  assert (forall {A} (c : M (PacketConnection Ch) A) k (u u' : PacketConnection Ch),
    keeps_activity c -> (forall a v v', k a v = (Err e, v') -> activity v' = activity v) ->
    mbind c k u = (@Err unit e, u') -> activity u' = activity u) as Hstep.
  { intros A c k u u' Hc Hk. unfold mbind. destruct (c u) as [[a|e'] u1] eqn:E1.
    - intros E2. rewrite (Hk _ _ _ E2). by apply (Hc _ _ _ E1).
    - intros [= _ <-]. by apply (Hc _ _ _ E1). }
  unfold send. case_match; [by intros [= _ <-]|].
  apply Hstep; [by intros v r v' [= <- <-]|]. intros old v v'.
  case_match; [by intros [= _ <-]|].
  apply Hstep; [by intros ??? [= <- <-]|]. intros al u u'.
  case_match; [by intros [= _ <-]|]. case_match; [by intros [= _ <-]|].
  apply Hstep; [apply keeps_chunks|]. intros _ x x'.
  apply Hstep; [|by intros ??? [=]]. case_match; [apply keeps_datagram|by intros ??? [= <- <-]].
Qed.

Lemma input_activity t m (s s' : PacketConnection Ch) r :
  input t m s = Returns (r, s') -> activity s' = activity s.
Proof using. unfold input. repeat case_match; try done; by intros [= <- <-]. Qed.

Lemma recv_activity t conn closed r conn' :
  recv_returns t conn closed r conn' -> activity conn' = if is_ok r then t else activity conn.
Proof using.
  intros [p c Hr|e _]; [|done]. unfold recv_packet in Hr.
  destruct (recv (incoming conn)) as [[q ch]|]; [|done]. by injection Hr as <- <-.
Qed.

(** ** Invariant *)

(** The clock never runs behind the activity, and the deadline is never
    later than the moment at which the connection would be idle. *)
Record wait_inv (w : Waiting) : Prop := {
  wi_past : activity (self w) <= now w;
  wi_deadline d : deadline w = Some d -> d <= activity (self w) + timeout;
}.

Lemma with_self_inv w conn (touched : bool) :
  wait_inv w -> activity conn = (if touched then now w else activity (self w)) ->
  wait_inv (with_self w conn touched).
Proof using.
  intros [H1 H2] Ha. split; simpl; rewrite Ha; destruct touched; try lia; intros d Hd%H2; lia.
Qed.

Lemma task_inv w w' : wait_inv w -> task w w' -> wait_inv w'.
Proof using.
  intros [H1 H2] Ht. destruct Ht; split; simpl; try done; by intros ? [= <-].
Qed.

Lemma world_inv w w' : wait_inv w -> world w w' -> wait_inv w'.
Proof using.
  intros Hi Hw. destruct Hw as [t w Ht|path packet r conn w Hs|r conn w Hr|m r conn w Hm|e w].
  - destruct Hi as [H1 H2]. split; simpl; [lia|done].
  - apply with_self_inv; [done|]. by apply send_activity in Hs.
  - apply with_self_inv; [done|]. by apply recv_activity in Hr.
  - apply with_self_inv; [done|]. by apply input_activity in Hm.
  - by destruct Hi.
Qed.

Lemma idle_reachable_inv t conn closed w :
  activity conn <= t -> reachable (subscribe t conn closed) w -> wait_inv w.
Proof using.
  intros Ha Hr. assert (wait_inv (subscribe t conn closed)) as Hi by (split; simpl; done).
  revert Hi. induction Hr as [w|w1 w2 w3 [Ht|Hw] _ IH]; intros Hi; [done|..]; apply IH.
  - by eapply task_inv.
  - by eapply world_inv.
Qed.

(** ** Progress *)

(** The turns that the loop can still take before it must return. *)
Definition turns (w : Waiting) : nat :=
  match returned w with
  | Some _ => 0
  | None => 1 + (match deadline w with Some _ => 0 | None => 1 end) + (if unseen w then 2 else 0)
  end.

Definition idle (w : Waiting) : Prop := activity (self w) + timeout <= now w.

Lemma idle_timer w : 0 <= timeout -> wait_inv w -> idle w -> returned (on_timer w) = Some (now w).
Proof using.
  intros Ht [Hp _] Hi. unfold on_timer, idle in *. simpl. rewrite Z.geb_leb.
  by rewrite (proj2 (Z.leb_le _ _)) by lia.
Qed.

Lemma task_turns w w' :
  0 <= timeout -> wait_inv w -> idle w -> task w w' ->
  (turns w' < turns w)%nat /\ idle w' /\ now w' = now w /\
  (returned w' = None \/ returned w' = Some (now w)).
Proof using.
  intros Ht Hi Hidle Hs. pose proof (idle_timer w Ht Hi Hidle) as Htimer.
  destruct Hs as [w Hr Hd|d w Hr Hd Hn|d w Hr Hd Hu|d w Hr Hd Hc]; unfold turns in *;
    rewrite ?Hr, ?Hd, ?Hu in *.
  - simpl. rewrite Hr. split_and!; [lia|done|done|by left].
  - rewrite Htimer. split_and!; [lia|done|done|by right].
  - simpl. rewrite Hr. split_and!; [lia|done|done|by left].
  - simpl. split_and!; [lia|done|done|by right].
Qed.

Lemma task_enabled w :
  wait_inv w -> idle w -> returned w = None -> exists w', task w w'.
Proof using.
  intros [_ Hd] Hi Hr. destruct (deadline w) as [d|] eqn:E.
  - exists (on_timer w). apply (task_timer d); [done|done|]. unfold idle in Hi.
    specialize (Hd d eq_refl). lia.
  - exists (arm w). by apply task_arm.
Qed.

Lemma task_run k : forall w w',
  0 <= timeout -> wait_inv w -> idle w -> nsteps task k w w' ->
  wait_inv w' /\ idle w' /\ now w' = now w /\ (k + turns w' <= turns w)%nat /\
  (returned w = None -> returned w' = None \/ returned w' = Some (now w)).
Proof using.
  induction k as [|k IH]; intros w w' Ht Hi Hidle Hs.
  { inversion Hs; subst. split_and!; auto. }
  inversion Hs as [|? ? w1 ? H1 H2]; subst.
  destruct (task_turns w w1 Ht Hi Hidle H1) as (Hlt & Hid & Hnow & Hret).
  pose proof (task_inv _ _ Hi H1) as Hi1.
  destruct (IH w1 w' Ht Hi1 Hid H2) as (Hi' & Hid' & Hn' & Hk & Hr').
  split_and!; [done|done|congruence|lia|]. intros _. rewrite <-Hnow.
  destruct Hret as [Hret|Hret]; [auto|]. right.
  destruct k; inversion H2 as [|? ? w2 ? H3]; subst; [congruence|].
  destruct H3; congruence.
Qed.

(** C17: [wait_inactive] returns when, and only when, it should.  Whatever
    happens to the connection and however late the timer is, the call
    returns only at a moment when the connection is closed or has seen no
    activity for the timeout; and once it has been idle for that long, the
    call is never stuck: it takes at most four more turns, whichever arms of
    the [select!] are taken, and then it has returned. *)
Theorem wait_inactive_live t conn closed w
    (Htimeout : 0 <= timeout) (Hstart : activity conn <= t)
    (Hreach : reachable (subscribe t conn closed) w) (Hwaiting : returned w = None) :
  (forall w' r, task w w' -> returned w' = Some r ->
     r = now w /\ (is_Some (conn_closed w) \/ activity (self w) + timeout <= now w)) /\
  (activity (self w) + timeout <= now w ->
     (forall k w', nsteps task k w w' -> (k <= 4)%nat) /\
     (forall w', rtc task w w' ->
        returned w' = Some (now w) \/ (returned w' = None /\ exists w'', task w' w''))).
Proof using.
  pose proof (idle_reachable_inv _ _ _ _ Hstart Hreach) as Hi. split.
  - intros w' r Hs Hr. destruct Hs as [w _ _|d w _ _ _|d w _ _ _|d w _ _ Hc]; simpl in Hr;
      try congruence.
    + destruct (Z.geb_spec (Z.max 0 (now w - activity (self w))) timeout); [|congruence].
      injection Hr as <-. split; [done|]. right. destruct Hi. lia.
    + injection Hr as <-. auto.
  - intros Hidle. split.
    + intros k w' Hk. destruct (task_run k w w' Htimeout Hi Hidle Hk) as (_ & _ & _ & Hle & _).
      unfold turns in Hle. rewrite Hwaiting in Hle.
      destruct (deadline w), (unseen w), (returned w'); lia.
    + intros w' [k Hk]%rtc_nsteps.
      destruct (task_run k w w' Htimeout Hi Hidle Hk) as (Hi' & Hid' & _ & _ & Hr).
      destruct (Hr Hwaiting) as [Hn|Hs]; [right|by left]. split; [done|].
      by apply task_enabled.
Qed.
End Idle.
Arguments Waiting : clear implicits.

(** A session that was last used at 5 and is looked at again at 40. *)
Definition example_waiting : Waiting (ListChannel.Chan Packet) :=
  arm 30 (subscribe 7 (new 3 5) None).

Lemma wait_inactive_live_witness :
  let w := {| now := 40; self := self example_waiting; unseen := false; deadline := Some 35;
              conn_closed := None; returned := None |} in
  returned w = None /\
  (forall w', rtc (task 30) w w' ->
     returned w' = Some 40 \/ (returned w' = None /\ exists w'', task 30 w' w'')).
Proof.
  intros w. split; [reflexivity|].
  refine (proj2 (proj2 (wait_inactive_live 30 7 (new 3 5) None w _ _ _ _) _)).
  - lia.
  - simpl. lia.
  - eapply rtc_l; [left; by apply task_arm|]. apply rtc_once. right.
    apply (world_tick 40 example_waiting). simpl. lia.
  - reflexivity.
  - simpl. lia.
Defined.

End Hy2Idle.
