(* ===== verification/Congestion.v ===== *)
(** * The switchable congestion controller

    [src/src/congestion.rs]: a controller whose shared state is replaced at
    run time.  The [Arc<Mutex<SwitchState>>] is a cell of an explicit heap,
    so that the handle of the QUIC connection and the clones that
    [congestion_state] gives out alias the same cell.  The BBR and Brutal
    controllers are code of the QUIC library: the class [Controllers] is the
    [Controller] trait with the two builders, and no law is assumed of it. *)
From stdpp Require Import base numbers list.
From S2P Require Import Prelude Error.
Local Open Scope Z_scope.

(** The [Controller] trait and the builders of the two concrete controllers.
    Instants and durations are in nanoseconds. *)
Class Controllers (Ctl Rtt Pacing Metrics : Type) := {
  ctl_on_sent : Z -> Z -> Z -> Ctl -> Ctl;
  ctl_on_ack : Z -> Z -> Z -> bool -> Rtt -> Ctl -> Ctl;
  ctl_on_end_acks : Z -> Z -> bool -> option Z -> Ctl -> Ctl;
  ctl_on_congestion_event : Z -> Z -> bool -> bool -> Z -> Z -> Ctl -> Ctl;
  ctl_on_mtu_update : Z -> Ctl -> Ctl;
  ctl_window : Ctl -> Z;
  ctl_pacing : Z -> Ctl -> option Pacing;
  ctl_metrics : Ctl -> Metrics;
  ctl_initial_window : Ctl -> Z;
  (** [BbrConfig::default().build(now, mtu)]. *)
  bbr_build : Z -> Z -> Ctl;
  (** [BrutalConfig::new(rate)] with its loss compensation flag, built with
      [build_with_rtt(now, mtu, rtt)]. *)
  brutal_build : Z -> bool -> Z -> Z -> Z -> Ctl;
}.

Module Congestion.

Inductive CongestionKind :=
| Bbr
| Brutal (bytes_per_second : Z).

#[global] Instance CongestionKind_eq_dec : EqDecision CongestionKind.
Proof. solve_decision. Defined.

Section Switchable.
Context {Ctl Rtt Pacing Metrics : Type} `{Controllers Ctl Rtt Pacing Metrics}.

Record SwitchState := {
  controller : Ctl;
  kind_of : CongestionKind;
  current_mtu : Z;
}.

(** The cells behind the [Arc]s, by their address. *)
Abbreviation Heap := (list SwitchState).

(** A handle; [Clone] copies the address. *)
Record SwitchableController := { state : nat }.

Definition clone (self : SwitchableController) : SwitchableController :=
  {| state := state self |}.

(** One critical section of the mutex. *)
Definition locked (self : SwitchableController) (f : SwitchState -> SwitchState)
    (h : Heap) : Heap := alter f (state self) h.

Definition set_bbr (now : Z) (self : SwitchableController) : Heap -> Heap :=
  locked self (fun st =>
    {| controller := bbr_build now (current_mtu st);
       kind_of := Bbr;
       current_mtu := current_mtu st |}).

Definition set_brutal (now bytes_per_second initial_rtt : Z)
    (disable_loss_compensation : bool) (self : SwitchableController) : Heap -> Heap :=
  locked self (fun st =>
    {| controller := brutal_build bytes_per_second (negb disable_loss_compensation)
                       now (current_mtu st) initial_rtt;
       kind_of := Brutal bytes_per_second;
       current_mtu := current_mtu st |}).

(** The readers; [None] is a dangling handle, which the [Arc] excludes. *)
Definition kind (self : SwitchableController) (h : Heap) : option CongestionKind :=
  kind_of <$> h !! state self.
Definition window (self : SwitchableController) (h : Heap) : option Z :=
  (fun st => ctl_window (controller st)) <$> h !! state self.
Definition pacing (mtu : Z) (self : SwitchableController) (h : Heap) : option (option Pacing) :=
  (fun st => ctl_pacing mtu (controller st)) <$> h !! state self.
Definition metrics (self : SwitchableController) (h : Heap) : option Metrics :=
  (fun st => ctl_metrics (controller st)) <$> h !! state self.
Definition initial_window (self : SwitchableController) (h : Heap) : option Z :=
  (fun st => ctl_initial_window (controller st)) <$> h !! state self.

(** A callback that only passes the call on. *)
Definition delegate (f : Ctl -> Ctl) (self : SwitchableController) : Heap -> Heap :=
  locked self (fun st =>
    {| controller := f (controller st); kind_of := kind_of st;
       current_mtu := current_mtu st |}).

Definition on_sent (now bytes last_packet_number : Z) : SwitchableController -> Heap -> Heap :=
  delegate (ctl_on_sent now bytes last_packet_number).
Definition on_ack (now sent bytes : Z) (app_limited : bool) (rtt : Rtt)
    : SwitchableController -> Heap -> Heap :=
  delegate (ctl_on_ack now sent bytes app_limited rtt).
Definition on_end_acks (now in_flight : Z) (app_limited : bool) (largest : option Z)
    : SwitchableController -> Heap -> Heap :=
  delegate (ctl_on_end_acks now in_flight app_limited largest).
Definition on_congestion_event (now sent : Z) (persistent ecn : bool)
    (lost_bytes lost_packets : Z) : SwitchableController -> Heap -> Heap :=
  delegate (ctl_on_congestion_event now sent persistent ecn lost_bytes lost_packets).
Definition on_mtu_update (new_mtu : Z) (self : SwitchableController) : Heap -> Heap :=
  locked self (fun st =>
    {| controller := ctl_on_mtu_update new_mtu (controller st);
       kind_of := kind_of st; current_mtu := new_mtu |}).

(** [SwitchableCongestionFactory::build]: a new cell. *)
Definition build (now mtu : Z) (h : Heap) : SwitchableController * Heap :=
  ({| state := length h |},
   h ++ [{| controller := bbr_build now mtu; kind_of := Bbr; current_mtu := mtu |}]).

(** ** Connections *)

(** The controller of a QUIC connection: [congestion_state] clones its box
    and [downcast] finds the wrapper or something else. *)
Inductive DynController :=
| Switchable (c : SwitchableController)
| Foreign (c : Ctl).

Record Connection := { congestion : DynController; rtt : Z }.

Definition congestion_state (connection : Connection) : DynController :=
  match congestion connection with
  | Switchable c => Switchable (clone c)
  | Foreign c => Foreign c
  end.

Definition downcast (c : DynController) : option SwitchableController :=
  match c with
  | Switchable c => Some c
  | Foreign _ => None
  end.

Definition configure_connection_brutal_with_options (now : Z) (connection : Connection)
    (bytes_per_second : Z) (disable_loss_compensation : bool) (h : Heap) : bool * Heap :=
  if bytes_per_second =? 0 then (false, h)
  else match downcast (congestion_state connection) with
       | None => (false, h)
       | Some controller =>
           (true, set_brutal now bytes_per_second (rtt connection)
                    disable_loss_compensation controller h)
       end.

Definition configure_connection_brutal (now : Z) (connection : Connection)
    (bytes_per_second : Z) (h : Heap) : bool * Heap :=
  configure_connection_brutal_with_options now connection bytes_per_second false h.

Definition configure_connection_bbr (now : Z) (connection : Connection) (h : Heap)
    : bool * Heap :=
  match downcast (congestion_state connection) with
  | None => (false, h)
  | Some controller => (true, set_bbr now controller h)
  end.

Definition connection_congestion_kind (connection : Connection) (h : Heap)
    : option CongestionKind :=
  match downcast (congestion_state connection) with
  | None => None
  | Some controller => kind controller h
  end.

(** ** Traces

    The calls that reach controllers, in the order in which they take the
    mutex: callbacks of the QUIC connection and switches by the protocol. *)
Inductive Call :=
| OnSent (now bytes last_packet_number : Z)
| OnAck (now sent bytes : Z) (app_limited : bool) (rtt : Rtt)
| OnEndAcks (now in_flight : Z) (app_limited : bool) (largest : option Z)
| OnCongestionEvent (now sent : Z) (persistent ecn : bool) (lost_bytes lost_packets : Z)
| OnMtuUpdate (new_mtu : Z)
| SetBbr (now : Z)
| SetBrutal (now bytes_per_second initial_rtt : Z) (disable_loss_compensation : bool).

Definition call (self : SwitchableController) (c : Call) : Heap -> Heap :=
  match c with
  | OnSent now n pn => on_sent now n pn self
  | OnAck now sent n app r => on_ack now sent n app r self
  | OnEndAcks now fl app largest => on_end_acks now fl app largest self
  | OnCongestionEvent now sent p e lb lp => on_congestion_event now sent p e lb lp self
  | OnMtuUpdate mtu => on_mtu_update mtu self
  | SetBbr now => set_bbr now self
  | SetBrutal now r i d => set_brutal now r i d self
  end.

Fixpoint run (tr : list (SwitchableController * Call)) (h : Heap) : Heap :=
  match tr with
  | [] => h
  | (c, e) :: tr => run tr (call c e h)
  end.

(** What one call does to the cell it reaches. *)
Definition effect (c : Call) (st : SwitchState) : SwitchState :=
  let pass f := {| controller := f (controller st); kind_of := kind_of st;
                   current_mtu := current_mtu st |} in
  match c with
  | OnSent now n pn => pass (ctl_on_sent now n pn)
  | OnAck now sent n app r => pass (ctl_on_ack now sent n app r)
  | OnEndAcks now fl app largest => pass (ctl_on_end_acks now fl app largest)
  | OnCongestionEvent now sent p e lb lp => pass (ctl_on_congestion_event now sent p e lb lp)
  | OnMtuUpdate mtu => {| controller := ctl_on_mtu_update mtu (controller st);
                          kind_of := kind_of st; current_mtu := mtu |}
  | SetBbr now => {| controller := bbr_build now (current_mtu st); kind_of := Bbr;
                     current_mtu := current_mtu st |}
  | SetBrutal now r i d => {| controller := brutal_build r (negb d) now (current_mtu st) i;
                              kind_of := Brutal r; current_mtu := current_mtu st |}
  end.

(** ** The specification of a cell, from the calls alone *)

Definition is_switch (c : Call) : Prop :=
  match c with SetBbr _ | SetBrutal _ _ _ _ => True | _ => False end.

#[global] Instance is_switch_dec c : Decision (is_switch c).
Proof. destruct c; simpl; apply _. Defined.

(** The MTU is that of the last update. *)
Fixpoint mtu_after (mtu : Z) (cs : list Call) : Z :=
  match cs with
  | [] => mtu
  | OnMtuUpdate m :: cs => mtu_after m cs
  | _ :: cs => mtu_after mtu cs
  end.

(** The callbacks as the concrete controller sees them. *)
Definition feedback (c : Call) (k : Ctl) : Ctl :=
  match c with
  | OnSent now n pn => ctl_on_sent now n pn k
  | OnAck now sent n app r => ctl_on_ack now sent n app r k
  | OnEndAcks now fl app largest => ctl_on_end_acks now fl app largest k
  | OnCongestionEvent now sent p e lb lp => ctl_on_congestion_event now sent p e lb lp k
  | OnMtuUpdate mtu => ctl_on_mtu_update mtu k
  | SetBbr _ | SetBrutal _ _ _ _ => k
  end.

Definition replay (cs : list Call) (k : Ctl) : Ctl := foldl (fun k c => feedback c k) k cs.

(** What a switch installs when the MTU is [mtu]. *)
Definition installed (c : Call) (mtu : Z) : option (Ctl * CongestionKind) :=
  match c with
  | SetBbr now => Some (bbr_build now mtu, Bbr)
  | SetBrutal now r i d => Some (brutal_build r (negb d) now mtu i, Brutal r)
  | _ => None
  end.

(** The calls of a trace that reach one cell. *)
Definition calls_at (l : nat) (tr : list (SwitchableController * Call)) : list Call :=
  snd <$> filter (fun e => state e.1 = l) tr.

(** ** Lemmas *)

Lemma call_effect self c (h : Heap) : call self c h = alter (effect c) (state self) h.
Proof. by destruct c. Qed.

(** A cell evolves by the calls that reach it and by no others. *)
Lemma run_at tr l (h : Heap) :
  run tr h !! l = (fun st => foldl (fun st c => effect c st) st (calls_at l tr)) <$> h !! l.
Proof.
  revert h. induction tr as [|[c e] tr IH]; intros h.
  { simpl. by destruct (h !! l). }
  simpl. rewrite IH, call_effect. unfold calls_at. rewrite filter_cons. simpl.
  destruct (decide (state c = l)) as [<-|Hne].
  - rewrite list_lookup_alter_eq. by destruct (h !! state c).
  - by rewrite list_lookup_alter_ne.
Qed.

Lemma effects_mtu cs st :
  current_mtu (foldl (fun st c => effect c st) st cs) = mtu_after (current_mtu st) cs.
Proof. revert st. induction cs as [|[] cs IH]; intros st; simpl; by rewrite ?IH. Qed.

Lemma effects_no_switch cs st :
  Forall (fun c => ~ is_switch c) cs ->
  foldl (fun st c => effect c st) st cs
  = {| controller := replay cs (controller st); kind_of := kind_of st;
       current_mtu := mtu_after (current_mtu st) cs |}.
Proof.
  intros Hns. revert st. induction Hns as [|c cs Hc _ IH]; intros st; [by destruct st|].
  simpl. rewrite IH. by destruct c; simpl in Hc.
Qed.

Lemma effect_switch c st k kd :
  installed c (current_mtu st) = Some (k, kd) ->
  effect c st = {| controller := k; kind_of := kd; current_mtu := current_mtu st |}.
Proof. by destruct c; simpl; intros [= <- <-]. Qed.

Lemma congestion_state_same conn : congestion_state conn = congestion conn.
Proof. by unfold congestion_state; destruct (congestion conn) as [[]|]. Qed.

(** ** Properties *)

(** C23: whatever calls interleave on whatever handles, a cell made by the
    factory holds BBR, built for the MTU of its creation and fed the
    callbacks that reached it, until its first switch; after a switch it
    holds the kind of its last switch, in a controller built at that moment
    for the MTU reported last, and fed exactly the callbacks since. *)
Theorem switchable_trace now mtu (h : Heap) tr pre sw post k kd
    (Hcalls : calls_at (state (build now mtu h).1) tr = pre ++ sw ++ post)
    (Hpost : Forall (fun c => ~ is_switch c) post)
    (Hsw : match sw with
           | [] => pre = [] /\ (k, kd) = (bbr_build now mtu, Bbr)
           | [c] => installed c (mtu_after mtu pre) = Some (k, kd)
           | _ => False
           end) :
  run tr (build now mtu h).2 !! state (build now mtu h).1
  = Some {| controller := replay post k; kind_of := kd;
            current_mtu := mtu_after mtu (pre ++ post) |}.
Proof.
  rewrite run_at, Hcalls. simpl. rewrite list_lookup_middle by done. simpl. f_equal.
  destruct sw as [|c [|]]; [| |done].
  - destruct Hsw as [-> [= -> ->]]. simpl. by rewrite effects_no_switch.
  - rewrite foldl_app. simpl. erewrite effect_switch by (by rewrite effects_mtu).
    rewrite effects_no_switch by done. simpl. f_equal.
    rewrite effects_mtu. simpl. clear. revert mtu.
    induction pre as [|[] pre IH]; intros mtu; simpl; by rewrite ?IH.
Qed.

(** C24: switching a connection to Brutal succeeds exactly when the rate is
    not zero and the connection runs the switchable controller; the kind is
    then Brutal at that rate for every handle of the cell, the MTU is kept,
    and no other connection's cell changes.  A refused switch changes
    nothing. *)
Theorem configure_brutal_correct now conn rate dis (h : Heap)
    (Hlive : forall c, congestion conn = Switchable c -> is_Some (h !! state c)) :
  let '(ok, h') := configure_connection_brutal_with_options now conn rate dis h in
  (ok = true <-> rate <> 0 /\ exists c, congestion conn = Switchable c) /\
  (ok = false -> h' = h) /\
  (ok = true ->
     connection_congestion_kind conn h' = Some (Brutal rate) /\
     forall c, congestion conn = Switchable c ->
       (forall other, state other = state c -> kind other h' = Some (Brutal rate)) /\
       current_mtu <$> h' !! state c = current_mtu <$> h !! state c /\
       forall l, l <> state c -> h' !! l = h !! l).
Proof.
  unfold configure_connection_brutal_with_options, connection_congestion_kind.
  rewrite congestion_state_same.
  destruct (Z.eqb_spec rate 0) as [->|Hr].
  { split; [split; [done|by intros []]|done]. }
  destruct (congestion conn) as [c|f]; simpl.
  2:{ split; [split; [done|by intros (_ & ? & ?)]|done]. }
  destruct (Hlive c eq_refl) as [st Hst]. unfold kind, set_brutal, locked.
  split; [split; by eauto|]. split; [done|]. intros _. rewrite list_lookup_alter_eq, Hst. simpl. split; [done|].
  intros c' [= <-]. split_and!.
  - intros other ->. by rewrite list_lookup_alter_eq, Hst.
  - by rewrite list_lookup_alter_eq, Hst.
  - intros l Hl. by apply list_lookup_alter_ne.
Qed.
End Switchable.

Arguments SwitchState : clear implicits.
Arguments Connection : clear implicits.
Arguments DynController : clear implicits.
Arguments Call : clear implicits.

(** ** A concrete pair of controllers: counters of what they were told *)
Module Counting.

Record Ctl := { rate : Z; mtu : Z; sent : Z; lost : Z }.

#[global] Instance counting : Controllers Ctl Z Z Z := {|
  ctl_on_sent _ n _ c := {| rate := rate c; mtu := mtu c; sent := sent c + n; lost := lost c |};
  ctl_on_ack _ _ _ _ _ c := c;
  ctl_on_end_acks _ _ _ _ c := c;
  ctl_on_congestion_event _ _ _ _ n _ c :=
    {| rate := rate c; mtu := mtu c; sent := sent c; lost := lost c + n |};
  ctl_on_mtu_update m c := {| rate := rate c; mtu := m; sent := sent c; lost := lost c |};
  ctl_window c := 10 * mtu c;
  ctl_pacing _ c := Some (rate c);
  ctl_metrics c := sent c;
  ctl_initial_window c := 10 * mtu c;
  bbr_build _ m := {| rate := 0; mtu := m; sent := 0; lost := 0 |};
  brutal_build r _ _ m _ := {| rate := r; mtu := m; sent := 0; lost := 0 |};
|}.

End Counting.

Definition example_handle : SwitchableController := {| state := 0 |}.

Definition example_trace : list (SwitchableController * Call Z) :=
  [(example_handle, OnSent 1 500 0); (example_handle, OnMtuUpdate 1400);
   (example_handle, SetBrutal 2 1000000 100 false); ({| state := 7 |}, SetBbr 3);
   (example_handle, OnSent 3 700 1)].

Lemma switchable_trace_witness :
  run example_trace (build 0 1200 []).2 !! 0%nat
  = Some {| controller := {| Counting.rate := 1000000; Counting.mtu := 1400;
                             Counting.sent := 700; Counting.lost := 0 |};
            kind_of := Brutal 1000000; current_mtu := 1400 |}.
Proof.
  refine (switchable_trace 0 1200 [] example_trace [OnSent 1 500 0; OnMtuUpdate 1400]
           [SetBrutal 2 1000000 100 false] [OnSent 3 700 1]
           {| Counting.rate := 1000000; Counting.mtu := 1400;
              Counting.sent := 0; Counting.lost := 0 |} (Brutal 1000000) _ _ _).
  - reflexivity.
  - constructor; [intros []|constructor].
  - reflexivity.
Defined.

Lemma configure_brutal_correct_witness :
  let conn : Connection Counting.Ctl := {| congestion := Switchable example_handle; rtt := 5 |} in
  let h' := (configure_connection_brutal_with_options 1 conn 9 true (build 0 1200 []).2).2 in
  connection_congestion_kind conn h' = Some (Brutal 9).
Proof.
  intros conn h'.
  refine (proj1 (proj2 (proj2 (configure_brutal_correct 1 conn 9 true (build 0 1200 []).2 _)) _)).
  - intros c Hc. injection Hc as <-. eexists. reflexivity.
  - reflexivity.
Defined.

End Congestion.
