(* ===== verification/Metrics.v ===== *)
(** * Connection metrics

    [ConnectionMetricsTask] of [src/src/hysteria2/metrics.rs]: the reports
    that the task logs of a connection, with the rates in double precision.
    What the QUIC library's statistics and the clock say at each tick is
    input. *)

From Stdlib Require Import ZArith Lia.
From stdpp Require Import base list strings.
From S2P Require Import Prelude Error Float Net Congestion.

#[local] Open Scope Z_scope.

Module Metrics.

(** The part of [quinn::ConnectionStats] that the task reads; the round-trip
    time is in nanoseconds. *)
Record Stats := {
  tx_bytes : Z; rx_bytes : Z;
  sent_packets : Z; lost_packets : Z; lost_bytes : Z; congestion_events : Z;
  rtt : Z; cwnd : Z; current_mtu : Z;
}.

(** A tick of the loop: the clock, the statistics, and whether the
    connection is found closed after the report. *)
Record Tick := { now : Z; current : Stats; closed : bool }.

(** The fields of the log entry. *)
Record Report := {
  role : bytes; peer : Net.SocketAddr; congestion : Congestion.CongestionKind;
  rtt_ms : F64.f64; cwnd_bytes : Z; mtu : Z;
  tx_mbps : F64.f64; rx_mbps : F64.f64;
  r_sent_packets : Z; r_lost_packets : Z; r_lost_bytes : Z;
  loss_percent : F64.f64;
  r_congestion_events : Z;
}.

Section Task.
Variable task_role : bytes.
Variable task_peer : Net.SocketAddr.
Variable task_congestion : Congestion.CongestionKind.

(** [now.duration_since(previous_at).as_secs_f64().max(0.001)]. *)
Definition elapsed (previous_at now : Z) : F64.f64 :=
  F64.max (F64.as_secs_f64 (Z.max 0 (now - previous_at))) F64.thousandth.

(** A rate in megabits per second. *)
Definition mbps (bytes : Z) (elapsed : F64.f64) : F64.f64 :=
  F64.div (F64.div (F64.mul (F64.of_int bytes) (F64.of_int 8)) elapsed) (F64.of_int 1000000).

Definition percent (lost sent : Z) : F64.f64 :=
  if sent =? 0 then F64.of_int 0
  else F64.div (F64.mul (F64.of_int lost) (F64.of_int 100)) (F64.of_int sent).

(** The body of the loop up to the log entry. *)
Definition report (previous : Stats) (previous_at : Z) (t : Tick) : Report :=
  let elapsed := elapsed previous_at (now t) in
  let sub f := sat u64_max (f (current t) - f previous) in
  let sent_bytes := sub tx_bytes in
  let received_bytes := sub rx_bytes in
  let sent_packets := sub sent_packets in
  let lost_packets := sub lost_packets in
  {| role := task_role; peer := task_peer; congestion := task_congestion;
     rtt_ms := F64.mul (F64.as_secs_f64 (rtt (current t))) (F64.of_int 1000);
     cwnd_bytes := cwnd (current t); mtu := current_mtu (current t);
     tx_mbps := mbps sent_bytes elapsed; rx_mbps := mbps received_bytes elapsed;
     r_sent_packets := sent_packets; r_lost_packets := lost_packets;
     r_lost_bytes := sub lost_bytes;
     loss_percent := percent lost_packets sent_packets;
     r_congestion_events := sub congestion_events |}.

(** The loop of [ConnectionMetricsTask::spawn]. *)
Fixpoint reports (previous : Stats) (previous_at : Z) (ticks : list Tick) : list Report :=
  match ticks with
  | [] => []
  | t :: ticks =>
      report previous previous_at t ::
        (if closed t then [] else reports (current t) (now t) ticks)
  end.

(** ** Properties *)

(** What the types of the statistics guarantee: counters of 64 bits and a
    round-trip time that is a [Duration]. *)
Definition stats_ok (s : Stats) : Prop :=
  Forall (uint 64) [tx_bytes s; rx_bytes s; sent_packets s; lost_packets s; lost_bytes s;
                    congestion_events s] /\
  0 <= rtt s < 2 ^ 64 * 1000000000.

Definition instant_ok (t : Z) : Prop := 0 <= t < 2 ^ 64 * 1000000000.

Lemma sat_uint z : uint 64 (sat u64_max z).
Proof. unfold sat, uint, u64_max. lia. Qed.

Lemma elapsed_bounds previous_at t :
  instant_ok previous_at -> instant_ok t ->
  F64.above (-62) (elapsed previous_at t) /\ F64.below 67 (elapsed previous_at t).
Proof.
  intros H1 H2. apply F64.max_thousandth; [|lia]. apply F64.as_secs_below. unfold instant_ok in *. lia.
Qed.

Lemma mbps_below b e : uint 64 b -> F64.above (-62) e -> F64.below 115 (mbps b e).
Proof.
  intros Hb He. apply (F64.div_below 133 19); [|by apply (F64.of_int_above 1000000)|lia].
  apply (F64.div_below 70 (-62)); [|done|lia].
  apply (F64.mul_below 65 4); [by apply F64.of_int_below| |lia]. split; [done|]. vm_compute. intuition congruence.
Qed.

Lemma percent_below l s : uint 64 l -> uint 64 s -> F64.below 74 (percent l s).
Proof.
  intros Hl Hs. unfold percent. destruct (Z.eqb_spec s 0) as [|Hne]; [done|].
  eapply F64.below_weaken; [apply (F64.div_below 73 0)|]; [| |lia|lia].
  - apply (F64.mul_below 65 7); [by apply F64.of_int_below| |lia]. split; [done|]. vm_compute. intuition congruence.
  - unfold uint in Hs. pose proof (F64.of_int_above s Hs ltac:(lia)) as Ha.
    destruct (F64.of_int s); try done. destruct Ha as [-> Ha]. split; [done|].
    pose proof (Z.log2_nonneg s). lia.
Qed.
Lemma report_proper previous previous_at t :
  instant_ok previous_at -> stats_ok (current t) -> instant_ok (now t) ->
  let r := report previous previous_at t in
  F64.proper (rtt_ms r) /\ F64.proper (tx_mbps r) /\ F64.proper (rx_mbps r) /\
  F64.proper (loss_percent r).
Proof.
  intros Hp [_ Hs] Ht r. destruct (elapsed_bounds previous_at (now t) Hp Ht) as [He _].
  split_and!; eexists.
  - apply (F64.mul_below 67 10); [by apply F64.as_secs_below| |lia]. split; [done|].
    vm_compute. intuition congruence.
  - apply mbps_below; [apply sat_uint|done].
  - apply mbps_below; [apply sat_uint|done].
  - apply percent_below; apply sat_uint.
Qed.

(** C37: the metrics task reports numbers.  Whatever the statistics and the
    clock say, also when they stand still or run backwards, every rate,
    round-trip time and percentage that it logs is a finite number that is
    not negative; and over samples in which a counter does not run backwards
    the totals it logs add up to what the counter moved by. *)
Theorem metrics_reports_proper previous previous_at ticks
    (Hat : instant_ok previous_at)
    (Hticks : Forall (fun t => stats_ok (current t) /\ instant_ok (now t)) ticks) :
  Forall (fun r => F64.proper (rtt_ms r) /\ F64.proper (tx_mbps r) /\ F64.proper (rx_mbps r) /\
                   F64.proper (loss_percent r)) (reports previous previous_at ticks) /\
  forall f total, (f, total) ∈ [(sent_packets, r_sent_packets); (lost_packets, r_lost_packets);
                                (lost_bytes, r_lost_bytes);
                                (congestion_events, r_congestion_events)] ->
    (forall i a b, (previous :: (current <$> ticks)) !! i = Some a ->
       (previous :: (current <$> ticks)) !! S i = Some b -> 0 <= f a <= f b /\ f b <= u64_max) ->
    Forall (fun t => closed t = false) ticks ->
    foldr Z.add 0 (total <$> reports previous previous_at ticks)
    = f (default previous (last (current <$> ticks))) - f previous.
Proof.
  split.
  - revert previous previous_at Hat. induction Hticks as [|t ticks [Hs Ht] _ IH]; intros previous at0 Hat;
      [constructor|]. cbn [reports]. constructor; [by apply report_proper|].
    destruct (closed t); [constructor|by apply IH].
  - intros f total Hf. clear Hat Hticks. revert previous previous_at.
    induction ticks as [|t ticks IH]; intros previous at0 Hmono Hopen; [simpl; lia|].
    apply Forall_cons in Hopen as [Hc Hopen]. cbn [reports]. rewrite Hc. csimpl.
    rewrite IH by (done || intros i a b Ha Hb; exact (Hmono (S i) a b Ha Hb)).
    pose proof (Hmono 0%nat previous (current t) eq_refl eq_refl) as Hpc.
    assert (total (report previous at0 t) = f (current t) - f previous) as ->.
    { repeat (apply elem_of_cons in Hf as [E|Hf]; [simplify_eq; simpl; unfold sat; lia|]).
      by apply elem_of_nil in Hf. }
    rewrite last_cons. destruct (last (current <$> ticks)); simpl; lia.
Qed.
End Task.

(** ** Examples *)

Definition example_stats (n : Z) : Stats :=
  {| tx_bytes := 1000 * n; rx_bytes := 0; sent_packets := n; lost_packets := n; lost_bytes := 0;
     congestion_events := 0; rtt := 20000000; cwnd := 14720; current_mtu := 1200 |}.

(** The second tick comes at the same instant as the first. *)
Definition example_ticks : list Tick :=
  [{| now := 7; current := example_stats 5; closed := false |};
   {| now := 7; current := example_stats 9; closed := false |}].

Definition example_reports : list Report :=
  reports (str "client") {| Net.ip := Net.V4 [127; 0; 0; 1]; Net.port := 443; Net.scope_id := 0 |}
    Congestion.Bbr (example_stats 2) 7 example_ticks.

Lemma metrics_reports_proper_witness :
  foldr Z.add 0 (r_sent_packets <$> example_reports) = 7 /\
  Forall (fun r => F64.proper (tx_mbps r)) example_reports.
Proof.
  destruct (metrics_reports_proper (str "client")
    {| Net.ip := Net.V4 [127; 0; 0; 1]; Net.port := 443; Net.scope_id := 0 |}
    Congestion.Bbr (example_stats 2) 7 example_ticks) as [Hp Ht].
  - split; done.
  - repeat constructor; done.
  - split; [|eapply Forall_impl; [exact Hp|]; by intros r (_ & ? & _)].
    apply (Ht sent_packets r_sent_packets); [by left| |by repeat constructor].
    intros [|[|[|i]]] a b Ha Hb; simpl in Ha, Hb; simplify_eq; simpl; unfold u64_max; lia.
Defined.

End Metrics.
