(* ===== verification/Transport.v ===== *)
(** * Transport tuning

    [src/src/transport.rs] (flow-control windows that follow the
    bandwidth-delay product), the configuration part of
    [src/src/hysteria2/transport.rs], and [shadowquic_transport_config]. *)
From stdpp Require Import base numbers list.
From S2P Require Import Prelude Error.
Local Open Scope Z_scope.

Module Transport.

Definition WINDOW_HEADROOM : Z := 2.
Definition WINDOW_UPDATE_INTERVAL : Z := 1 * 1000000000.
Definition INITIAL_WINDOW_PACKETS : Z := 10.

(** [VarInt::MAX] of the QUIC library, which [VarInt::try_from] refuses to
    exceed. *)
Definition VARINT_MAX : Z := 2 ^ 62 - 1.

(** [adaptive_window]; [rtt] is in nanoseconds. *)
Definition adaptive_window (bytes_per_second rtt minimum : Z) : Z :=
  let bdp := sat u128_max (bytes_per_second * rtt) / 1000000000 in
  let target := Z.min (sat u128_max (bdp * WINDOW_HEADROOM)) u64_max in
  Z.max (wrap 64 target) minimum.

(** The part of [connection.stats().path] that the windows depend on. *)
Record PathStats := { path_rtt : Z; path_cwnd : Z; path_current_mtu : Z }.

(** The two windows a connection is given. *)
Record Windows := { send_window : Z; receive_window : Z }.

Definition update_connection_windows (stats : PathStats)
    (send_bytes_per_second receive_bytes_per_second
     minimum_send_window minimum_receive_window : Z) : Windows :=
  let mtu_window := sat u64_max (path_current_mtu stats * INITIAL_WINDOW_PACKETS) in
  let send_window :=
    Z.max (Z.max (adaptive_window send_bytes_per_second (path_rtt stats) minimum_send_window)
                 (sat u64_max (path_cwnd stats * WINDOW_HEADROOM)))
          mtu_window in
  let receive_window :=
    Z.max (adaptive_window receive_bytes_per_second (path_rtt stats) minimum_receive_window)
          mtu_window in
  {| send_window := send_window;
     receive_window := if receive_window <=? VARINT_MAX then receive_window else VARINT_MAX |}.

(** What the task sees at a tick: the connection has a close reason, or its
    statistics. *)
Inductive Tick := Closed | Open (stats : PathStats).

(** [AdaptiveWindowTask::spawn]: the windows set at once and then at every
    tick, until a tick finds the connection closed. *)
Fixpoint ticks (send receive min_send min_receive : Z) (ts : list Tick) : list Windows :=
  match ts with
  | [] => []
  | Closed :: _ => []
  | Open stats :: ts =>
      update_connection_windows stats send receive min_send min_receive
      :: ticks send receive min_send min_receive ts
  end.

Definition spawn (stats : PathStats) (send receive min_send min_receive : Z)
    (ts : list Tick) : list Windows :=
  update_connection_windows stats send receive min_send min_receive
  :: ticks send receive min_send min_receive ts.

(** ** Transport configurations

    A configuration is the sequence of builder calls made on
    [TransportConfig::default()]; for each setting the last call counts. *)
Inductive Setting :=
| SwitchableCongestion
| StreamReceiveWindow (n : Z)
| ReceiveWindow (n : Z)
| SendWindow (n : Z)
| DatagramReceiveBufferSize (n : option Z)
| DatagramSendBufferSize (n : Z)
| MaxIdleTimeout (n : option Z)
| KeepAliveInterval (n : option Z)
| InitialMtu (n : Z)
| MinMtu (n : Z)
| NoMtuDiscovery
| MaxConcurrentBidiStreams (n : Z)
| MaxConcurrentUniStreams (n : Z).

Definition STREAM_RECEIVE_WINDOW : Z := 8 * 1024 * 1024.
Definition CONNECTION_RECEIVE_WINDOW : Z := 20 * 1024 * 1024.
Definition SEND_WINDOW : Z := 20 * 1024 * 1024.
Definition DATAGRAM_BUFFER_SIZE : Z := 2500000.

Record QuicTransportOptions := {
  initial_packet_size : Z;
  disable_path_mtu_discovery : bool;
}.

Definition default_options : QuicTransportOptions :=
  {| initial_packet_size := 0; disable_path_mtu_discovery := false |}.

Definition base_transport_config (options : QuicTransportOptions) : list Setting :=
  [SwitchableCongestion;
   StreamReceiveWindow STREAM_RECEIVE_WINDOW;
   ReceiveWindow CONNECTION_RECEIVE_WINDOW;
   SendWindow SEND_WINDOW;
   DatagramReceiveBufferSize (Some DATAGRAM_BUFFER_SIZE);
   DatagramSendBufferSize DATAGRAM_BUFFER_SIZE;
   MaxIdleTimeout (Some (30 * 1000000000));
   KeepAliveInterval (Some (10 * 1000000000))]
  ++ (if initial_packet_size options >? 0 then [InitialMtu (initial_packet_size options)] else [])
  ++ (if disable_path_mtu_discovery options then [NoMtuDiscovery] else []).

(** [shadowquic_transport_config]. *)
Definition MAX_CONCURRENT_STREAMS : Z := 1000.
Definition SHADOWQUIC_INITIAL_MTU : Z := 1300.
Definition SHADOWQUIC_MIN_MTU : Z := 1290.

Definition shadowquic_transport_config : list Setting :=
  base_transport_config default_options
  ++ [MaxConcurrentBidiStreams MAX_CONCURRENT_STREAMS;
      MaxConcurrentUniStreams MAX_CONCURRENT_STREAMS;
      DatagramReceiveBufferSize (Some DATAGRAM_BUFFER_SIZE);
      DatagramSendBufferSize DATAGRAM_BUFFER_SIZE;
      MinMtu SHADOWQUIC_MIN_MTU;
      InitialMtu SHADOWQUIC_INITIAL_MTU].

(** ** Lemmas *)

Definition stats_wf (s : PathStats) : Prop :=
  0 <= path_rtt s /\ uint 64 (path_cwnd s) /\ uint 16 (path_current_mtu s).

#[global] Instance stats_wf_dec s : Decision (stats_wf s).
Proof. unfold stats_wf. apply _. Defined.

Lemma adaptive_window_spec b r m :
  uint 64 b -> 0 <= r ->
  adaptive_window b r m = Z.max (Z.min u64_max (2 * (b * r / 1000000000))) m.
Proof.
  intros [Hb0 Hb] Hr. unfold adaptive_window, WINDOW_HEADROOM. f_equal.
  assert (0 <= b * r) by nia.
  pose proof (Z.div_pos (b * r) 1000000000 ltac:(lia) ltac:(lia)) as Hd.
  assert (forall x, 0 <= x -> wrap 64 (Z.min x u64_max) = Z.min x u64_max) as Hw.
  { intros x Hx. apply wrap_small. unfold uint, u64_max. lia. }
  rewrite Hw by (unfold sat, u128_max; lia).
  destruct (Z.le_gt_cases (b * r) u128_max) as [Hle|Hgt].
  - rewrite (sat_id _ (b * r)) by lia. unfold sat, u128_max, u64_max in *. lia.
  - replace (sat u128_max (b * r)) with u128_max by (unfold sat, u128_max in *; lia).
    assert (u128_max / 1000000000 <= b * r / 1000000000) by (apply Z.div_le_mono; lia).
    assert (u64_max < u128_max / 1000000000) by done.
    unfold sat, u64_max, u128_max in *. lia.
Qed.

Lemma uint64_max z : uint 64 z <-> 0 <= z <= u64_max.
Proof. unfold uint, u64_max. lia. Qed.

Lemma adaptive_window_bounds b r m :
  uint 64 b -> 0 <= r -> uint 64 m ->
  let w := adaptive_window b r m in
  0 <= w <= u64_max /\ m <= w /\ Z.min (2 * (b * r / 1000000000)) u64_max <= w.
Proof.
  intros Hb Hr Hm%uint64_max. cbv zeta. rewrite adaptive_window_spec by done.
  assert (0 <= b * r / 1000000000) by (apply Z.div_pos; [destruct Hb; nia|lia]).
  unfold u64_max in *. lia.
Qed.

Lemma update_windows_bounds s snd rcv ms mr :
  stats_wf s -> uint 64 snd -> uint 64 rcv -> uint 64 ms -> uint 64 mr ->
  let w := update_connection_windows s snd rcv ms mr in
  uint 64 (send_window w) /\ uint 62 (receive_window w) /\
  ms <= send_window w /\ Z.min mr VARINT_MAX <= receive_window w /\
  10 * path_current_mtu s <= send_window w /\ 10 * path_current_mtu s <= receive_window w /\
  Z.min (2 * path_cwnd s) u64_max <= send_window w /\
  Z.min (2 * (snd * path_rtt s / 1000000000)) u64_max <= send_window w.
Proof.
  intros (Hr & Hc%uint64_max & Hm) Hs Hrc Hms Hmr. cbv zeta. unfold update_connection_windows.
  destruct (adaptive_window_bounds snd (path_rtt s) ms Hs Hr Hms) as (HA & HA1 & HA2).
  destruct (adaptive_window_bounds rcv (path_rtt s) mr Hrc Hr Hmr) as (HB & HB1 & _).
  set (A := adaptive_window snd _ _) in *. set (B := adaptive_window rcv _ _) in *.
  set (x := Z.min (2 * (_ / _)) _) in *. clearbody A B x.
  assert (uint 16 (path_current_mtu s) -> 0 <= path_current_mtu s < 65536) as Hu by (unfold uint; lia).
  apply Hu in Hm. clear Hu Hs Hrc Hms Hmr Hr.
  assert (sat u64_max (path_current_mtu s * INITIAL_WINDOW_PACKETS) = 10 * path_current_mtu s) as ->.
  { unfold INITIAL_WINDOW_PACKETS. rewrite sat_id; unfold u64_max; lia. }
  assert (sat u64_max (path_cwnd s * WINDOW_HEADROOM) = Z.min (2 * path_cwnd s) u64_max) as ->.
  { unfold WINDOW_HEADROOM, sat. lia. }
  cbn [send_window receive_window]. rewrite uint64_max.
  assert (forall z, uint 62 z <-> 0 <= z <= VARINT_MAX) as ->.
  { intros z. unfold uint, VARINT_MAX. lia. }
  unfold VARINT_MAX, u64_max in *.
  match goal with |- context [?a <=? ?b] => destruct (Z.leb_spec a b) end; split_and!; lia.
Qed.

(** The ticks that count: those before the first that finds it closed. *)
Fixpoint open_prefix (ts : list Tick) : list PathStats :=
  match ts with
  | Open s :: ts => s :: open_prefix ts
  | _ => []
  end.

Lemma ticks_open_prefix snd rcv ms mr ts :
  ticks snd rcv ms mr ts
  = (fun s => update_connection_windows s snd rcv ms mr) <$> open_prefix ts.
Proof. induction ts as [|[|s] ts IH]; [done..|]. csimpl. by rewrite IH. Qed.

Lemma open_prefix_wf ts :
  Forall (fun t => forall s, t = Open s -> stats_wf s) ts -> Forall stats_wf (open_prefix ts).
Proof. induction 1 as [|[|s] ts Ht _ IH]; simpl; constructor; auto. Qed.

(** ** Properties *)

(** C35: the window is twice the bandwidth-delay product, capped by [u64] and
    at least the minimum: none of the saturating 128-bit steps nor the final
    cast loses anything, whatever the rate and the round-trip time. *)
Theorem adaptive_window_exact bytes_per_second rtt minimum
    (Hrate : uint 64 bytes_per_second) (Hrtt : 0 <= rtt) :
  adaptive_window bytes_per_second rtt minimum
  = Z.max (Z.min u64_max (2 * (bytes_per_second * rtt / 1000000000))) minimum.
Proof. by apply adaptive_window_spec. Qed.

Lemma adaptive_window_exact_witness :
  adaptive_window 125000000 100000000 1 = 25000000.
Proof.
  rewrite (adaptive_window_exact 125000000 100000000 1); [reflexivity|split; lia|lia].
Defined.

(** C36: every pair of windows the task sets is within the ranges of its
    types and never below its floor: the configured minimum, ten packets of
    the path's MTU and, for sending, twice the congestion window and twice
    the bandwidth-delay product; and it sets one pair at once and one for
    each tick before the first that finds the connection closed. *)
Theorem adaptive_windows_bounded stats snd rcv ms mr ts
    (Hstats : stats_wf stats) (Hticks : Forall (fun t => forall s, t = Open s -> stats_wf s) ts)
    (Hsnd : uint 64 snd) (Hrcv : uint 64 rcv) (Hms : uint 64 ms) (Hmr : uint 64 mr) :
  Forall2 (fun s w =>
    uint 64 (send_window w) /\ uint 62 (receive_window w) /\
    ms <= send_window w /\ Z.min mr VARINT_MAX <= receive_window w /\
    10 * path_current_mtu s <= send_window w /\ 10 * path_current_mtu s <= receive_window w /\
    Z.min (2 * path_cwnd s) u64_max <= send_window w /\
    Z.min (2 * (snd * path_rtt s / 1000000000)) u64_max <= send_window w)
  (stats :: open_prefix ts) (spawn stats snd rcv ms mr ts).
Proof.
  unfold spawn. rewrite ticks_open_prefix. constructor; [by apply update_windows_bounds|].
  apply Forall2_fmap_r, Forall2_same_length_lookup_2; [done|].
  intros i s s' Hs Hs'. simplify_eq. apply update_windows_bounds; try done.
  apply open_prefix_wf in Hticks. rewrite Forall_lookup in Hticks. eauto.
Qed.

Lemma adaptive_windows_bounded_witness :
  let s := {| path_rtt := 100000000; path_cwnd := 12000; path_current_mtu := 1300 |} in
  length (spawn s 125000000 0 SEND_WINDOW CONNECTION_RECEIVE_WINDOW [Open s; Closed; Open s])
  = 2%nat.
Proof.
  intros s.
  assert (stats_wf s) as Hs by by apply (bool_decide_eq_true_1 _).
  symmetry.
  refine (Forall2_length _ _ _ (adaptive_windows_bounded s 125000000 0 SEND_WINDOW
    CONNECTION_RECEIVE_WINDOW [Open s; Closed; Open s] _ _ _ _ _ _)); try by (split; done).
  constructor; [by intros ? [= <-]|]. constructor; [by intros|]. constructor; [by intros ? [= <-]|constructor].
Defined.

End Transport.
