(* ===== verification/Streams.v ===== *)
(** * Proxied streams

    [Hysteria2Stream] ([src/src/hysteria2/stream.rs]) and [ShadowQuicStream]
    ([src/src/shadowquic/mod.rs]): a bidirectional QUIC stream as one object
    that the application reads and writes.  The polls of the halves are the
    QUIC library's ([AsyncRead], [AsyncWrite]); no law is assumed of them. *)

From Stdlib Require Import ZArith.
From stdpp Require Import base list.
From S2P Require Import Prelude Error.

#[local] Open Scope Z_scope.

Module Streams.

(** ** The traits of Tokio *)

Inductive Poll (A : Type) := Ready (r : IoError + A) | Pending.
Arguments Ready {A} _.
Arguments Pending {A}.

(** A read names the room of the buffer and gives the bytes put into it. *)
Class AsyncRead (R : Type) := poll_read : nat -> R -> Poll bytes * R.

Class AsyncWrite (S : Type) := {
  poll_write : bytes -> S -> Poll Z * S;
  poll_flush : S -> Poll unit * S;
  poll_shutdown : S -> Poll unit * S;
}.

(** ** The wrappers *)

Record Hysteria2Stream (S R : Type) := { hy2_send : S; hy2_recv : R }.
Arguments Build_Hysteria2Stream {S R} _ _.
Arguments hy2_send {S R} _.
Arguments hy2_recv {S R} _.

Record ShadowQuicStream (S R : Type) := { sq_send : S; sq_recv : R }.
Arguments Build_ShadowQuicStream {S R} _ _.
Arguments sq_send {S R} _.
Arguments sq_recv {S R} _.

Section Wrappers.
Context {S R : Type} `{AR : !AsyncRead R} `{AW : !AsyncWrite S}.

(** [Hysteria2Stream::new] and its polls. *)
Definition hy2_new (send : S) (recv : R) : Hysteria2Stream S R :=
  {| hy2_send := send; hy2_recv := recv |}.

Definition hy2_poll_read : AsyncRead (Hysteria2Stream S R) := fun room self =>
  let (r, recv) := poll_read room (hy2_recv self) in
  (r, {| hy2_send := hy2_send self; hy2_recv := recv |}).

Definition hy2_on_send {A} (f : S -> Poll A * S) (self : Hysteria2Stream S R)
    : Poll A * Hysteria2Stream S R :=
  let (r, send) := f (hy2_send self) in
  (r, {| hy2_send := send; hy2_recv := hy2_recv self |}).

Definition hy2_polls : AsyncWrite (Hysteria2Stream S R) :=
  {| poll_write buffer := hy2_on_send (poll_write buffer);
     poll_flush := hy2_on_send poll_flush;
     poll_shutdown := hy2_on_send poll_shutdown |}.

(** [ShadowQuicStream::new] and its polls. *)
Definition sq_new (send : S) (recv : R) : ShadowQuicStream S R :=
  {| sq_send := send; sq_recv := recv |}.

Definition sq_poll_read : AsyncRead (ShadowQuicStream S R) := fun room self =>
  let (r, recv) := poll_read room (sq_recv self) in
  (r, {| sq_send := sq_send self; sq_recv := recv |}).

Definition sq_on_send {A} (f : S -> Poll A * S) (self : ShadowQuicStream S R)
    : Poll A * ShadowQuicStream S R :=
  let (r, send) := f (sq_send self) in
  (r, {| sq_send := send; sq_recv := sq_recv self |}).

Definition sq_polls : AsyncWrite (ShadowQuicStream S R) :=
  {| poll_write buffer := sq_on_send (poll_write buffer);
     poll_flush := sq_on_send poll_flush;
     poll_shutdown := sq_on_send poll_shutdown |}.
End Wrappers.

(** ** What the application relies on *)

(** The polls of the writing side. *)
Inductive WriteOp := PollWrite (buffer : bytes) | PollFlush | PollShutdown.

Inductive Written := Wrote (r : Poll Z) | Done (r : Poll unit).

Definition write_op {T} `{!AsyncWrite T} (op : WriteOp) (t : T) : Written * T :=
  match op with
  | PollWrite buffer => let (r, t) := poll_write buffer t in (Wrote r, t)
  | PollFlush => let (r, t) := poll_flush t in (Done r, t)
  | PollShutdown => let (r, t) := poll_shutdown t in (Done r, t)
  end.

(** A run of polls of one side. *)
Fixpoint polls {T Op Out} (f : Op -> T -> Out * T) (ops : list Op) (t : T) : list Out * T :=
  match ops with
  | [] => ([], t)
  | op :: ops => let (r, t) := f op t in let (rs, t) := polls f ops t in (r :: rs, t)
  end.

(** A poll of either side. *)
Definition either {T} `{!AsyncRead T, !AsyncWrite T} (op : nat + WriteOp) (t : T)
    : (Poll bytes + Written) * T :=
  match op with
  | inl room => let (r, t) := poll_read room t in (inl r, t)
  | inr op => let (r, t) := write_op op t in (inr r, t)
  end.

Definition lefts {A B} (l : list (A + B)) : list A :=
  omap (fun x => match x with inl a => Some a | inr _ => None end) l.
Definition rights {A B} (l : list (A + B)) : list B :=
  omap (fun x => match x with inl _ => None | inr b => Some b end) l.

(** An object made of two halves, whose polls are those of the halves. *)
Class Duplex (S R T : Type) `{!AsyncRead R, !AsyncWrite S, !AsyncRead T, !AsyncWrite T} := {
  join : S -> R -> T;
  duplex_read room s r :
    poll_read room (join s r) = let (x, r) := poll_read room r in (x, join s r);
  duplex_write op s r :
    write_op op (join s r) = let (x, s) := write_op op s in (x, join s r);
}.

(** A stream is full duplex: however reads and writes alternate, each side
    sees what it would see if the other were never polled. *)
Theorem duplex_independent {S R T : Type}
    `{!AsyncRead R, !AsyncWrite S, !AsyncRead T, !AsyncWrite T, D : !Duplex S R T} ops (s : S) (r : R) :
  let (out, t) := polls either ops (join s r) in
  let (reads, r') := polls poll_read (lefts ops) r in
  let (writes, s') := polls write_op (rights ops) s in
  lefts out = reads /\ rights out = writes /\ t = join s' r'.
Proof.
  revert s r. induction ops as [|[room|op] ops IH]; intros s r; csimpl; [done| |].
  - rewrite duplex_read. destruct (poll_read room r) as [x r1]. specialize (IH s r1).
    destruct (polls either ops (join s r1)) as [out t], (polls poll_read (lefts ops) r1),
      (polls write_op (rights ops) s); csimpl. naive_solver.
  - rewrite duplex_write. destruct (write_op op s) as [x s1]. specialize (IH s1 r).
    destruct (polls either ops (join s1 r)) as [out t], (polls poll_read (lefts ops) r),
      (polls write_op (rights ops) s1); csimpl. naive_solver.
Qed.

Section Instances.
Context {S R : Type} `{AR : !AsyncRead R} `{AW : !AsyncWrite S}.

#[export] Instance hy2_read_instance : AsyncRead (Hysteria2Stream S R) := hy2_poll_read.
#[export] Instance hy2_write_instance : AsyncWrite (Hysteria2Stream S R) := hy2_polls.
#[export] Instance sq_read_instance : AsyncRead (ShadowQuicStream S R) := sq_poll_read.
#[export] Instance sq_write_instance : AsyncWrite (ShadowQuicStream S R) := sq_polls.

#[export] Program Instance hy2_duplex : Duplex S R (Hysteria2Stream S R) := {| join := hy2_new |}.
Next Obligation. done. Qed.
Next Obligation.
  intros [buffer| |] s r; simpl; unfold hy2_on_send; simpl;
    [destruct (poll_write buffer s)|destruct (poll_flush s)|destruct (poll_shutdown s)]; done.
Qed.

#[export] Program Instance sq_duplex : Duplex S R (ShadowQuicStream S R) := {| join := sq_new |}.
Next Obligation. done. Qed.
Next Obligation.
  intros [buffer| |] s r; simpl; unfold sq_on_send; simpl;
    [destruct (poll_write buffer s)|destruct (poll_flush s)|destruct (poll_shutdown s)]; done.
Qed.
End Instances.

(** Both kinds of proxied streams are full duplex. *)
Corollary proxied_streams_duplex {S R : Type} `{!AsyncRead R, !AsyncWrite S} ops (s : S) (r : R) :
  let (reads, r') := polls poll_read (lefts ops) r in
  let (writes, s') := polls write_op (rights ops) s in
  (let (out, t) := polls either ops (hy2_new s r) in
   lefts out = reads /\ rights out = writes /\ t = hy2_new s' r') /\
  (let (out, t) := polls either ops (sq_new s r) in
   lefts out = reads /\ rights out = writes /\ t = sq_new s' r').
Proof.
  pose proof (duplex_independent (T := Hysteria2Stream S R) ops s r) as H1.
  pose proof (duplex_independent (T := ShadowQuicStream S R) ops s r) as H2. simpl in H1, H2.
  destruct (polls either ops (hy2_new s r)), (polls either ops (sq_new s r)),
    (polls poll_read (lefts ops) r), (polls write_op (rights ops) s). done.
Qed.

End Streams.
