(* ===== verification/Socket.v ===== *)
(** * UDP sockets and endpoints

    [bind_endpoint], [bind_udp_socket] and [tune_udp_socket] of
    [src/src/hysteria2/transport.rs].  What the operating system answers to
    each call is input ([Os]): the functions decide which answers are fatal,
    which are only logged, and what is left of the socket. *)

From Stdlib Require Import ZArith Lia.
From stdpp Require Import base gmap list strings.
From S2P Require Import Prelude Error Net.

#[local] Open Scope Z_scope.

Module Socket.

Definition UDP_SOCKET_BUFFER_SIZE : Z := 16 * 1024 * 1024.

(** [socket2::Domain]. *)
Inductive Domain := IPV4 | IPV6.

#[global] Instance Domain_eq_dec : EqDecision Domain.
Proof. solve_decision. Defined.

Definition for_address (address : Net.SocketAddr) : Domain :=
  match Net.ip address with Net.V4 _ => IPV4 | Net.V6 _ => IPV6 end.

Definition is_ipv6 (address : Net.SocketAddr) : bool :=
  match Net.ip address with Net.V4 _ => false | Net.V6 _ => true end.

(** A UDP socket: its family, whether it refuses IPv4 peers, the address it
    is bound to and the sizes of its kernel buffers. *)
Record UdpSocket := {
  domain : Domain;
  only_v6 : bool;
  bound : option Net.SocketAddr;
  send_buffer : Z;
  recv_buffer : Z;
}.

(** The operating system: the socket it hands out, the errors of the calls,
    and the size it grants for a requested buffer. *)
Record Os := {
  new_socket : Domain -> IoError + UdpSocket;
  only_v6_error : option IoError;
  bind_error : UdpSocket -> Net.SocketAddr -> option IoError;
  assigned : Net.SocketAddr -> Net.SocketAddr;
  state_error : option IoError;
  set_send_error : option IoError;
  set_recv_error : option IoError;
  granted : Z -> Z;
  get_send_error : option IoError;
  get_recv_error : option IoError;
  endpoint_error : option IoError;
}.

Definition set_only_v6 (s : UdpSocket) (b : bool) : UdpSocket :=
  {| domain := domain s; only_v6 := b; bound := bound s;
     send_buffer := send_buffer s; recv_buffer := recv_buffer s |}.
Definition set_bound (s : UdpSocket) (a : Net.SocketAddr) : UdpSocket :=
  {| domain := domain s; only_v6 := only_v6 s; bound := Some a;
     send_buffer := send_buffer s; recv_buffer := recv_buffer s |}.
Definition set_buffers (s : UdpSocket) (snd rcv : Z) : UdpSocket :=
  {| domain := domain s; only_v6 := only_v6 s; bound := bound s;
     send_buffer := snd; recv_buffer := rcv |}.

(** What the functions log. *)
Inductive Log :=
| NotDualStack (e : IoError)
| NoTuning (e : IoError)
| NoSendBuffer (e : IoError)
| NoRecvBuffer (e : IoError)
| Limited (send_buffer receive_buffer : Z)
| Configured (send_buffer receive_buffer : Z).

Section Bind.
Variable os : Os.

(** [bind_udp_socket]: only the creation and the binding can fail. *)
Definition bind_udp_socket (address : Net.SocketAddr) : (IoError + UdpSocket) * list Log :=
  match new_socket os (for_address address) with
  | inl e => (inl e, [])
  | inr socket =>
      let (socket, log) :=
        if is_ipv6 address then
          match only_v6_error os with
          | Some e => (socket, [NotDualStack e])
          | None => (set_only_v6 socket false, [])
          end
        else (socket, []) in
      match bind_error os socket address with
      | Some e => (inl e, log)
      | None => (inr (set_bound socket (assigned os address)), log)
      end
  end.

Definition log_error (f : IoError -> Log) (e : option IoError) : list Log :=
  match e with Some e => [f e] | None => [] end.

(** The size of a buffer that was asked to hold [UDP_SOCKET_BUFFER_SIZE]. *)
Definition tuned (e : option IoError) (size : Z) : Z :=
  match e with Some _ => size | None => granted os UDP_SOCKET_BUFFER_SIZE end.

(** A size as it is read back, zero on an error. *)
Definition read_back (e : option IoError) (size : Z) : Z :=
  match e with Some _ => 0 | None => size end.

Definition tune_udp_socket (socket : UdpSocket) : UdpSocket * list Log :=
  match state_error os with
  | Some e => (socket, [NoTuning e])
  | None =>
      let socket := set_buffers socket (tuned (set_send_error os) (send_buffer socket))
                      (tuned (set_recv_error os) (recv_buffer socket)) in
      let snd := read_back (get_send_error os) (send_buffer socket) in
      let rcv := read_back (get_recv_error os) (recv_buffer socket) in
      (socket,
       log_error NoSendBuffer (set_send_error os) ++ log_error NoRecvBuffer (set_recv_error os)
       ++ [if (snd <? UDP_SOCKET_BUFFER_SIZE) || (rcv <? UDP_SOCKET_BUFFER_SIZE)
           then Limited snd rcv else Configured snd rcv])
  end.
End Bind.

(** [quinn::Endpoint]: its socket and the configurations it uses for
    incoming and for outgoing connections; [close_reason] once it is closed. *)
Record Endpoint (ServerConfig ClientConfig : Type) := {
  socket : UdpSocket;
  server_config : option ServerConfig;
  client_config : option ClientConfig;
  close_reason : option (Z * bytes);
}.
Arguments socket {ServerConfig ClientConfig} _.
Arguments server_config {ServerConfig ClientConfig} _.
Arguments client_config {ServerConfig ClientConfig} _.
Arguments close_reason {ServerConfig ClientConfig} _.

Section Endpoint.
Context {ServerConfig ClientConfig : Type}.
Implicit Types e : Endpoint ServerConfig ClientConfig.

(** [Endpoint::set_server_config]. *)
Definition set_server_config e (c : option ServerConfig) : Endpoint ServerConfig ClientConfig :=
  {| socket := socket e; server_config := c; client_config := client_config e;
     close_reason := close_reason e |}.

(** [Endpoint::set_default_client_config]. *)
Definition set_default_client_config e (c : ClientConfig) : Endpoint ServerConfig ClientConfig :=
  {| socket := socket e; server_config := server_config e; client_config := Some c;
     close_reason := close_reason e |}.

(** [Endpoint::close]: the first close counts. *)
Definition close_endpoint e (code : Z) (reason : bytes) : Endpoint ServerConfig ClientConfig :=
  {| socket := socket e; server_config := server_config e; client_config := client_config e;
     close_reason := match close_reason e with Some r => Some r | None => Some (code, reason) end |}.

Definition bind_endpoint (os : Os) (address : Net.SocketAddr) (config : option ServerConfig)
    : (IoError + Endpoint ServerConfig ClientConfig) * list Log :=
  match bind_udp_socket os address with
  | (inl e, log) => (inl e, log)
  | (inr socket, log) =>
      let (socket, tuning) := tune_udp_socket os socket in
      match endpoint_error os with
      | Some e => (inl e, log ++ tuning)
      | None => (inr {| socket := socket; server_config := config; client_config := None;
                        close_reason := None |}, log ++ tuning)
      end
  end.

(** The socket that is bound: dual-stack where that is wanted and allowed. *)
Definition dual_stack (os : Os) (address : Net.SocketAddr) (s : UdpSocket) : UdpSocket :=
  if is_ipv6 address && bool_decide (only_v6_error os = None) then set_only_v6 s false else s.

(** The errors that make [bind_endpoint] fail, in the order of the calls. *)
Definition fatal (os : Os) (address : Net.SocketAddr) : option IoError :=
  match new_socket os (for_address address) with
  | inl e => Some e
  | inr s =>
      match bind_error os (dual_stack os address s) address with
      | Some e => Some e
      | None => endpoint_error os
      end
  end.

(** What is logged about the calls that may be refused: the dual-stack
    option, and, when the socket's state can be had, the two buffer sizes. *)
Definition refusals (os : Os) (address : Net.SocketAddr) : list Log :=
  if is_ipv6 address then log_error NotDualStack (only_v6_error os) else [].

Definition buffer_refusals (os : Os) : list Log :=
  match state_error os with
  | Some e => [NoTuning e]
  | None => log_error NoSendBuffer (set_send_error os) ++ log_error NoRecvBuffer (set_recv_error os)
  end.

Lemma log_error_elem (f : IoError -> Log) o x : x ∈ log_error f o <-> exists y, o = Some y /\ x = f y.
Proof.
  destruct o as [y|]; simpl; [rewrite list_elem_of_singleton|rewrite elem_of_nil]; naive_solver.
Qed.

Lemma refusals_elem os address x :
  x ∈ refusals os address <->
  is_ipv6 address = true /\ exists y, only_v6_error os = Some y /\ x = NotDualStack y.
Proof.
  unfold refusals. destruct (is_ipv6 address); [rewrite log_error_elem|rewrite elem_of_nil]; naive_solver.
Qed.

Lemma buffer_refusals_elem os x :
  x ∈ buffer_refusals os <->
  (exists y, state_error os = Some y /\ x = NoTuning y) \/
  state_error os = None /\ ((exists y, set_send_error os = Some y /\ x = NoSendBuffer y) \/
                            (exists y, set_recv_error os = Some y /\ x = NoRecvBuffer y)).
Proof.
  unfold buffer_refusals. destruct (state_error os) as [y|].
  - rewrite list_elem_of_singleton. naive_solver.
  - rewrite elem_of_app, !log_error_elem. naive_solver.
Qed.

Lemma bind_udp_socket_spec os address :
  match bind_udp_socket os address with
  | (inl e, log) =>
      match new_socket os (for_address address) with
      | inl e' => e' = e /\ log = []
      | inr s => bind_error os (dual_stack os address s) address = Some e /\ log = refusals os address
      end
  | (inr s, log) => exists s0,
      new_socket os (for_address address) = inr s0 /\
      bind_error os (dual_stack os address s0) address = None /\
      s = set_bound (dual_stack os address s0) (assigned os address) /\ log = refusals os address
  end.
Proof.
  unfold bind_udp_socket, dual_stack, refusals. destruct (new_socket os _) as [e|s]; [done|].
  destruct (is_ipv6 address); simpl; [destruct (only_v6_error os) as [e|]; simpl|];
    (destruct (bind_error os _ _) eqn:E; [done|]); by exists s.
Qed.

(** The sizes as they are read back. *)
Definition size_report (os : Os) (s : UdpSocket) : Log :=
  let snd := read_back (get_send_error os) (send_buffer s) in
  let rcv := read_back (get_recv_error os) (recv_buffer s) in
  if decide (snd < UDP_SOCKET_BUFFER_SIZE \/ rcv < UDP_SOCKET_BUFFER_SIZE)
  then Limited snd rcv else Configured snd rcv.

Lemma tune_udp_socket_spec os s :
  let (s', log) := tune_udp_socket os s in
  bound s' = bound s /\ only_v6 s' = only_v6 s /\
  match state_error os with
  | Some _ => s' = s /\ log = buffer_refusals os
  | None =>
      send_buffer s' = tuned os (set_send_error os) (send_buffer s) /\
      recv_buffer s' = tuned os (set_recv_error os) (recv_buffer s) /\
      log = buffer_refusals os ++ [size_report os s']
  end.
Proof.
  unfold tune_udp_socket, buffer_refusals. destruct (state_error os) as [x|]; [done|].
  cbv zeta. split_and!; try done. rewrite <-app_assoc. do 3 f_equal. unfold size_report. simpl.
  case_decide; [by replace (_ || _) with true by lia|by replace (_ || _) with false by lia].
Qed.

End Endpoint.
End Socket.
