(* ===== verification/Http.v ===== *)
(** * HTTP as the Hysteria2 exchange uses it

    Requests, responses and the request stream of HTTP/3.  The [http] and
    [h3] crates are library code: header maps, header values and URIs enter
    as the class [HttpLib] with the laws their documentation gives, and a
    request stream is what the library answers to each call of the server. *)

From Stdlib Require Import ZArith Lia.
From stdpp Require Import base gmap list strings.
From S2P Require Import Prelude Error Hy2Protocol.

#[local] Open Scope Z_scope.
#[local] Open Scope rust_scope.

(** The parts of [http::Uri] that the code asks for. *)
Record Uri := { uri_authority : option bytes; uri_path : bytes }.

(** [http::HeaderMap], [http::HeaderValue] and [http::Uri].  Header names are
    in lower case, as the code writes them. *)
Class HttpLib (Headers : Type) := {
  hm_empty : Headers;
  hm_get : bytes -> Headers -> option bytes;
  hm_append : bytes -> bytes -> Headers -> Headers;
  hm_insert : bytes -> bytes -> Headers -> Headers;
  hm_remove : bytes -> Headers -> Headers;
  hv_valid : bytes -> bool;
  uri_parse : bytes -> option Uri;

  hm_get_empty n : hm_get n hm_empty = None;
  hm_get_append n v m h :
    hm_get m (hm_append n v h)
    = if decide (m = n) then Some (default v (hm_get n h)) else hm_get m h;
  hm_get_insert n v m h :
    hm_get m (hm_insert n v h) = if decide (m = n) then Some v else hm_get m h;
  hm_get_remove n m h :
    hm_get m (hm_remove n h) = if decide (m = n) then None else hm_get m h;
  hv_valid_visible v : Forall visible v -> hv_valid v = true;
  uri_parse_https a p :
    a <> [] -> Forall (fun b => is_alphanumeric b = true) a ->
    Forall (fun b => is_alphanumeric b = true) p ->
    uri_parse (str "https://" ++ a ++ str "/" ++ p)
    = Some {| uri_authority := Some a; uri_path := str "/" ++ p |};
}.

Section Http.
Context {Headers : Type} `{HttpLib Headers}.

Record Request (B : Type) := {
  method : bytes;
  uri : Uri;
  headers : Headers;
  body : B;
}.
Arguments method {B} _.
Arguments uri {B} _.
Arguments headers {B} _.
Arguments body {B} _.

Record Response (B : Type) := {
  status : Z;
  r_headers : Headers;
  r_body : B;
}.
Arguments status {B} _.
Arguments r_headers {B} _.
Arguments r_body {B} _.

(** [builder.header(name, value)] on the headers collected so far; an
    invalid value makes the builder fail with the library's message. *)
Definition builder_header (invalid name value : bytes) (h : Result Headers) : Result Headers :=
  rbind h (fun h => if hv_valid value then Ok (hm_append name value h) else Err (Protocol invalid)).

Lemma builder_header_ok invalid n v h :
  hv_valid v = true -> builder_header invalid n v (Ok h) = Ok (hm_append n v h).
Proof. intros Hv. unfold builder_header. simpl. by rewrite Hv. Qed.

(** [h3::server::RequestStream] and its client counterpart: the body chunks
    that arrive and what ends them, and how each call of the user fares. *)
Record RequestStream := {
  incoming_data : list bytes;
  recv_error : option bytes;
  send_response_error : option bytes;
  send_data_error : option bytes;
  finish_error : option bytes;
}.

(** What went out on a request stream. *)
Record Reply := {
  sent_response : option (Response unit);
  sent_data : list bytes;
  finished : bool;
}.

Definition no_reply : Reply := {| sent_response := None; sent_data := []; finished := false |}.

Definition or_http3 (e : option bytes) {S} (k : M S unit) : M S unit :=
  match e with Some e => mfail (Http3 e) | None => k end.

Definition send_response (stream : RequestStream) (r : Response unit) : M Reply unit :=
  or_http3 (send_response_error stream) (fun s =>
    (Ok tt, {| sent_response := Some r; sent_data := sent_data s; finished := finished s |})).

Definition send_data (stream : RequestStream) (data : bytes) : M Reply unit :=
  or_http3 (send_data_error stream) (fun s =>
    (Ok tt, {| sent_response := sent_response s; sent_data := sent_data s ++ [data];
               finished := finished s |})).

Definition finish (stream : RequestStream) : M Reply unit :=
  or_http3 (finish_error stream) (fun s =>
    (Ok tt, {| sent_response := sent_response s; sent_data := sent_data s; finished := true |})).

End Http.

Arguments Request : clear implicits.
Arguments Response : clear implicits.
Arguments Reply : clear implicits.
Arguments method {Headers B} _.
Arguments uri {Headers B} _.
Arguments headers {Headers B} _.
Arguments body {Headers B} _.
Arguments status {Headers B} _.
Arguments r_headers {Headers B} _.
Arguments r_body {Headers B} _.

(** ** A concrete library: header maps as finite maps *)
Module PlainHttp.

Fixpoint split_path (l : bytes) : bytes * bytes :=
  match l with
  | [] => ([], [])
  | b :: l => if decide (b = Byte.x2f) then ([], b :: l)
              else let (a, p) := split_path l in (b :: a, p)
  end.

Lemma split_path_app a p :
  Forall (fun b => is_alphanumeric b = true) a ->
  split_path (a ++ str "/" ++ p) = (a, str "/" ++ p).
Proof.
  induction 1 as [|b a Hb _ IH]; [done|]. cbn [split_path app].
  rewrite decide_False by (by intros ->). by rewrite IH.
Qed.

#[global] Program Instance plain_http : HttpLib (gmap bytes bytes) := {|
  hm_empty := ∅;
  hm_get n h := h !! n;
  hm_append n v h := <[n := default v (h !! n)]> h;
  hm_insert n v h := <[n := v]> h;
  hm_remove n h := delete n h;
  hv_valid v := bool_decide (Forall (fun b => 32 <= bz b /\ bz b <> 127) v);
  uri_parse l :=
    if decide (take 8 l = str "https://")
    then let (a, p) := split_path (drop 8 l) in
         if decide (a = []) then None else Some {| uri_authority := Some a; uri_path := p |}
    else None;
|}.
Next Obligation. done. Qed.
Next Obligation.
  intros n v m h. simpl. case_decide; subst;
    [by rewrite lookup_insert_eq|by rewrite lookup_insert_ne].
Qed.
Next Obligation.
  intros n v m h. simpl. case_decide; subst;
    [by rewrite lookup_insert_eq|by rewrite lookup_insert_ne].
Qed.
Next Obligation.
  intros n m h. simpl. case_decide; subst;
    [by rewrite lookup_delete_eq|by rewrite lookup_delete_ne].
Qed.
Next Obligation.
  intros v Hv. apply bool_decide_eq_true_2. eapply Forall_impl; [exact Hv|].
  unfold visible. simpl. lia.
Qed.
Next Obligation.
  intros a p Ha Hal Hp. cbv beta. rewrite decide_True by done.
  change (drop 8 _) with (a ++ str "/" ++ p). rewrite split_path_app by done.
  by rewrite decide_False.
Qed.

End PlainHttp.
