(* ===== verification/Hy2Masquerade.v ===== *)
(** * The masquerade of the Hysteria2 server

    [serve_masquerade_request] and [send_masquerade_response] of
    [src/src/hysteria2/server.rs]: how a request that is not an accepted
    authentication is answered by the web handler, or by [404] when there is
    none. *)

From Stdlib Require Import ZArith Lia.
From stdpp Require Import base gmap list strings.
From S2P Require Import Prelude Error Text Net Hy2Protocol Http.

#[local] Open Scope Z_scope.
#[local] Open Scope rust_scope.

Module Hy2Masquerade.

Definition MAX_MASQUERADE_REQUEST_SIZE : Z := 16 * 1024 * 1024.

Definition HEAD : bytes := str "HEAD".
Definition CONNECTION : bytes := str "connection".
Definition TRANSFER_ENCODING : bytes := str "transfer-encoding".
Definition CONTENT_LENGTH : bytes := str "content-length".
Definition NO_CONTENT : Z := 204.
Definition NOT_MODIFIED : Z := 304.
Definition NOT_FOUND : Z := 404.
Definition PAYLOAD_TOO_LARGE : Z := 413.
Definition is_informational (status : Z) : bool := (100 <=? status) && (status <? 200).

Section Masquerade.
Context {Headers : Type} `{HttpLib Headers}.

(** [MasqueradeHandler::handle]. *)
Definition MasqueradeHandler : Type :=
  Net.SocketAddr -> Request Headers bytes -> Response Headers bytes.

Definition body_is_allowed (status : Z) : bool :=
  negb (is_informational status) && negb (status =? NO_CONTENT) && negb (status =? NOT_MODIFIED).

(** The headers of the answer. *)
Definition answer_headers (is_head : bool) (response : Response Headers bytes) : Headers :=
  let h := hm_remove TRANSFER_ENCODING (hm_remove CONNECTION (r_headers response)) in
  let length := Num.to_decimal (len (r_body response)) in
  if is_head
  then match hm_get CONTENT_LENGTH h with
       | None => hm_insert CONTENT_LENGTH length h
       | Some _ => h
       end
  else if body_is_allowed (status response) then hm_insert CONTENT_LENGTH length h
  else hm_remove CONTENT_LENGTH h.

Definition send_masquerade_response (stream : RequestStream) (response : Response Headers bytes)
    (is_head : bool) : M (Reply Headers) unit :=
  let* _ := send_response stream
    {| status := status response; r_headers := answer_headers is_head response; r_body := tt |} in
  let* _ :=
    if negb is_head && body_is_allowed (status response)
       && negb (bool_decide (r_body response = []))
    then send_data stream (r_body response) else mret tt in
  finish stream.

(** The loop that collects the request's body; [None] is a body over the
    limit. *)
Fixpoint receive_body (chunks : list bytes) (ending : option bytes) (body : bytes)
    : Result (option bytes) :=
  match chunks with
  | [] => match ending with Some e => Err (Http3 e) | None => Ok (Some body) end
  | chunk :: chunks =>
      if sat u64_max (len body + len chunk) >? MAX_MASQUERADE_REQUEST_SIZE then Ok None
      else receive_body chunks ending (body ++ chunk)
  end.

Definition plain_response (status : Z) : Response Headers bytes :=
  {| status := status; r_headers := hm_empty; r_body := [] |}.

Definition serve_masquerade_request (source : Net.SocketAddr) (request : Request Headers unit)
    (stream : RequestStream) (masquerade : option MasqueradeHandler) : M (Reply Headers) unit :=
  let is_head := bool_decide (method request = HEAD) in
  let* body := mlift (receive_body (incoming_data stream) (recv_error stream) []) in
  match body with
  | None => send_masquerade_response stream (plain_response PAYLOAD_TOO_LARGE) is_head
  | Some body =>
      let request := {| method := method request; uri := uri request;
                        headers := headers request; body := body |} in
      let response := match masquerade with
                      | Some handler => handler source request
                      | None => plain_response NOT_FOUND
                      end in
      send_masquerade_response stream response is_head
  end.

(** ** Lemmas *)

Lemma receive_body_inv chunks ending body :
  len body <= MAX_MASQUERADE_REQUEST_SIZE ->
  receive_body chunks ending body
  = if len (body ++ concat chunks) <=? MAX_MASQUERADE_REQUEST_SIZE
    then match ending with Some e => Err (Http3 e) | None => Ok (Some (body ++ concat chunks)) end
    else Ok None.
Proof.
  revert body. induction chunks as [|c chunks IH]; intros body Hb; simpl.
  - rewrite app_nil_r. destruct (Z.leb_spec (len body) MAX_MASQUERADE_REQUEST_SIZE); [done|lia].
  - pose proof (len_nonneg body). pose proof (len_nonneg c). pose proof (len_nonneg (concat chunks)).
    unfold sat, u64_max, MAX_MASQUERADE_REQUEST_SIZE in *.
    match goal with |- context [?a >? ?b] => destruct (Z.gtb_spec a b) as [Hg|Hg] end.
    + rewrite !len_app. destruct (Z.leb_spec (len body + (len c + len (concat chunks))) (16 * 1024 * 1024));
        [lia|done].
    + rewrite IH by (rewrite len_app; lia). by rewrite <-app_assoc.
Qed.

(** The effects of an answer that goes through. *)
Lemma send_masquerade_response_ok stream response is_head s s' :
  send_masquerade_response stream response is_head s = (Ok tt, s') ->
  s' = {| sent_response := Some {| status := status response;
                                   r_headers := answer_headers is_head response; r_body := tt |};
          sent_data := sent_data s ++
            (if negb is_head && body_is_allowed (status response)
                && negb (bool_decide (r_body response = []))
             then [r_body response] else []);
          finished := true |}.
Proof.
  unfold send_masquerade_response, send_response, send_data, finish, or_http3, mbind, mret, mfail.
  destruct (send_response_error stream); [done|]. simpl.
  destruct (negb is_head && _ && _); [destruct (send_data_error stream); [done|]|];
    (destruct (finish_error stream); [done|]); intros [= <-]; simpl; by rewrite ?app_nil_r.
Qed.

(** ** Properties *)


(** C32: the handler is given exactly the bytes of the request's body, and
    only when they are within the limit; a longer body is answered [413] in
    its place, whatever its chunks; a broken stream is answered nothing. *)
Theorem masquerade_request source request stream handler (s : Reply Headers) :
  let data := concat (incoming_data stream) in
  let is_head := bool_decide (method request = HEAD) in
  serve_masquerade_request source request stream (Some handler) s
  = if len data <=? MAX_MASQUERADE_REQUEST_SIZE
    then match recv_error stream with
         | Some e => (Err (Http3 e), s)
         | None => send_masquerade_response stream
                     (handler source {| method := method request; uri := uri request;
                                        headers := headers request; body := data |}) is_head s
         end
    else send_masquerade_response stream (plain_response PAYLOAD_TOO_LARGE) is_head s.
Proof.
  intros data is_head. unfold serve_masquerade_request, mbind, mlift.
  rewrite receive_body_inv by done. simpl. fold data.
  destruct (len data <=? MAX_MASQUERADE_REQUEST_SIZE); [|done].
  by destruct (recv_error stream).
Qed.
End Masquerade.

Definition example_stream (chunks : list bytes) : RequestStream :=
  {| incoming_data := chunks; recv_error := None; send_response_error := None;
     send_data_error := None; finish_error := None |}.

Definition example_page : Response (gmap bytes bytes) bytes :=
  {| status := 200; r_headers := {[ CONNECTION := str "close" ]}; r_body := str "hello" |}.


End Hy2Masquerade.
