(* ===== verification/Hy2Server.v ===== *)
(** * The Hysteria2 server: admission of a connection

    [src/src/hysteria2/server.rs] up to the event loop: the table of users,
    the authentication request, the negotiation of the sending rate, the
    response, and the masquerade loop of a connection that is not admitted.
    What the QUIC and HTTP/3 libraries answer to each call is input. *)

From Stdlib Require Import ZArith Lia.
From stdpp Require Import base gmap list strings.
From S2P Require Import Prelude Error Text Net Hy2Protocol Congestion Transport Http Hy2Masquerade.

#[local] Open Scope Z_scope.
#[local] Open Scope rust_scope.

Module Hy2Server.
Import Hy2Protocol.

Record User := { name : bytes; password : bytes }.

Record ServerBandwidth := {
  send_bps : Z;
  receive_bps : Z;
  ignore_client_bandwidth : bool;
  disable_loss_compensation : bool;
  brutal_debug : bool;
}.

(** The users by password, collected from the list: a later user with the
    same password replaces an earlier one. *)
Definition user_table (users : list User) : gmap bytes bytes :=
  foldl (fun m u => <[password u := name u]> m) ∅ users.

Definition is_normal_connection_close (error : Error) : bool :=
  match error with
  | Connection LocallyClosed => true
  | Connection (ApplicationClosed code _) => code =? 0
  | _ => false
  end.

Definition negotiated_send_rate (bandwidth : ServerBandwidth) (client_receive : CongestionReceive)
    : option Z :=
  if (receive_bps bandwidth =? 0) && ignore_client_bandwidth bandwidth then None
  else match client_receive with
       | Auto => None
       | Rate client_receive_bps =>
           if client_receive_bps =? 0 then None
           else Some (if (send_bps bandwidth >? 0) && (client_receive_bps >? send_bps bandwidth)
                      then send_bps bandwidth else client_receive_bps)
       end.

(** ** Private keys *)

Inductive PrivateKeyDer :=
| Pkcs8 (key : bytes)
| Pkcs1 (key : bytes)
| Sec1 (key : bytes).

(** The loop over the candidates; [any_supported_type] gives the reason a
    candidate is refused. *)
Fixpoint first_supported (any_supported_type : PrivateKeyDer -> option bytes)
    (candidates : list PrivateKeyDer) (last_error : option bytes) : PrivateKeyDer + option bytes :=
  match candidates with
  | [] => inr last_error
  | candidate :: candidates =>
      match any_supported_type candidate with
      | None => inl candidate
      | Some error => first_supported any_supported_type candidates (Some error)
      end
  end.

Definition detect_private_key (any_supported_type : PrivateKeyDer -> option bytes) (key : bytes)
    : Outcome (Result PrivateKeyDer) :=
  match first_supported any_supported_type [Pkcs8 key; Pkcs1 key; Sec1 key] None with
  | inl candidate => Returns (Ok candidate)
  | inr (Some error) => Returns (Err (Tls error))
  | inr None => Panics
  end.

(** [build_server_config]: rustls accepts the certificate and key or gives a
    reason, and so does the QUIC adapter. *)
Record ServerConfig := {
  alpn_protocols : list bytes;
  certificates : list bytes;
  private_key : PrivateKeyDer;
  transport : list Transport.Setting;
  disable_path_manager : bool;
}.

Definition ALPN_H3 : bytes := str "h3".

Definition build_server_config (any_supported_type : PrivateKeyDer -> option bytes)
    (with_single_cert : list bytes -> PrivateKeyDer -> option bytes)
    (quic_tls : option bytes) (certificate_chain : list bytes) (key : bytes)
    (transport_options : Transport.QuicTransportOptions) : Outcome (Result ServerConfig) :=
  match detect_private_key any_supported_type key with
  | Panics => Panics
  | Returns (Err e) => Returns (Err e)
  | Returns (Ok key) =>
      Returns
        match with_single_cert certificate_chain key with
        | Some error => Err (Tls error)
        | None =>
            match quic_tls with
            | Some error => Err (QuicTls error)
            | None =>
                Ok {| alpn_protocols := [ALPN_H3];
                      certificates := certificate_chain;
                      private_key := key;
                      transport := Transport.base_transport_config transport_options
                                   ++ [Transport.MaxConcurrentBidiStreams (Z.shiftl 1 60)];
                      disable_path_manager := true |}
            end
        end
  end.

Section Setup.
Context {Headers : Type} `{HL : HttpLib Headers} `{HV : HeaderValue}.
Context {Ctl Rtt Pacing Metrics : Type} `{CT : Controllers Ctl Rtt Pacing Metrics}.

(** How the [http] crate renders an invalid header value. *)
Variable invalid_header : bytes.

Definition POST : bytes := str "POST".

(** The user whose password the request carries. *)
Definition request_user (users : gmap bytes bytes) (request : Request Headers unit)
    : option bytes :=
  match hm_get HEADER_AUTH (headers request) ≫= hv_to_str with
  | Some password => users !! password
  | None => None
  end.

Definition authenticated (users : gmap bytes bytes) (request : Request Headers unit) : bool :=
  bool_decide (method request = POST)
  && bool_decide (uri_authority (uri request) = Some URL_AUTHORITY)
  && bool_decide (uri_path (uri request) = URL_PATH)
  && bool_decide (is_Some (request_user users request)).

(** A server with a fixed receive rate that ignores the client's wish has
    no use for a client that does not state a rate. *)
Definition rate_required (bandwidth : ServerBandwidth) (client_receive : CongestionReceive) : bool :=
  (receive_bps bandwidth >? 0) && ignore_client_bandwidth bandwidth
  && negb (match client_receive with Rate rate => rate >? 0 | Auto => false end).

(** One round of [accept] and [resolve_request]. *)
Inductive H3Accept :=
| AcceptError (message : bytes)
| AcceptNone
| ResolveError (message : bytes)
| Resolved (request : Request Headers unit) (stream : RequestStream).

Inductive Phase :=
| Ended (r : Result unit)
| AwaitingRequest
| Panicked
| Proxying (user : bytes) (congestion : Congestion.CongestionKind).

(** What a connection has done so far: where it is, the requests it gave to
    the masquerade, and the reply to the authentication request. *)
Record Setup := {
  phase : Phase;
  masqueraded : list (Request Headers unit * RequestStream);
  reply : Reply Headers;
  heap : list (Congestion.SwitchState Ctl);
}.

(** The loop that gives every further request to the masquerade. *)
Fixpoint masquerade_loop (accepts : list H3Accept)
    (served : list (Request Headers unit * RequestStream))
    : Phase * list (Request Headers unit * RequestStream) :=
  match accepts with
  | [] => (AwaitingRequest, served)
  | AcceptError e :: _ => (Ended (Err (Http3 e)), served)
  | AcceptNone :: _ => (Ended (Ok tt), served)
  | ResolveError e :: _ => (Ended (Err (Http3 e)), served)
  | Resolved request stream :: accepts =>
      masquerade_loop accepts (served ++ [(request, stream)])
  end.

(** [configure_connection_brutal_with_options] when a rate was negotiated,
    then the kind of the connection. *)
Definition configure_congestion (now : Z) (connection : Congestion.Connection Ctl)
    (send_rate : option Z) (disable_loss_compensation : bool)
    (h : list (Congestion.SwitchState Ctl))
    : Result Congestion.CongestionKind * list (Congestion.SwitchState Ctl) :=
  let '(configured, h) :=
    match send_rate with
    | Some bytes_per_second =>
        Congestion.configure_connection_brutal_with_options now connection bytes_per_second
          disable_loss_compensation h
    | None => (true, h)
    end in
  if configured
  then (ok_or (Congestion.connection_congestion_kind connection h) CongestionControl, h)
  else (Err CongestionControl, h).

Definition advertised_receive (bandwidth : ServerBandwidth) (send_rate : option Z)
    : CongestionReceive :=
  match send_rate with
  | Some _ => Rate (receive_bps bandwidth)
  | None => Auto
  end.

Definition auth_response (rng : Rng) (advertised : CongestionReceive)
    : Result (Response Headers unit) :=
  let? h := builder_header invalid_header HEADER_PADDING (padding rng 256 2048)
              (builder_header invalid_header HEADER_CC_RX (congestion_receive_value advertised)
                (builder_header invalid_header HEADER_UDP (str "true") (Ok hm_empty))) in
  Ok {| status := STATUS_AUTH_OK; r_headers := h; r_body := tt |}.

(** [serve_connection] from the first request on. *)
Definition serve_request (now : Z) (rng : Rng) (connection : Congestion.Connection Ctl)
    (users : gmap bytes bytes) (bandwidth : ServerBandwidth)
    (request : Request Headers unit) (stream : RequestStream) (accepts : list H3Accept)
    (h : list (Congestion.SwitchState Ctl)) : Setup :=
  let client_receive := parse_congestion_receive (hm_get HEADER_CC_RX (headers request)) in
  let masquerade :=
    let (phase, served) := masquerade_loop accepts [(request, stream)] in
    {| phase := phase; masqueraded := served; reply := no_reply; heap := h |} in
  if negb (authenticated users request) then masquerade
  else if rate_required bandwidth client_receive then masquerade
  else
    let send_rate := negotiated_send_rate bandwidth client_receive in
    let '(congestion, h) := configure_congestion now connection send_rate
                              (disable_loss_compensation bandwidth) h in
    let ended r reply := {| phase := r; masqueraded := []; reply := reply; heap := h |} in
    match congestion with
    | Err e => ended (Ended (Err e)) no_reply
    | Ok congestion =>
        match auth_response rng (advertised_receive bandwidth send_rate) with
        | Err e => ended (Ended (Err e)) no_reply
        | Ok response =>
            match mbind (send_response stream response) (fun _ => finish stream) no_reply with
            | (Err e, reply) => ended (Ended (Err e)) reply
            | (Ok _, reply) =>
                match request_user users request with
                | Some user => ended (Proxying user congestion) reply
                | None => ended Panicked reply
                end
            end
        end
    end.

(** [serve_connection]: the HTTP/3 connection, its first request, and what
    follows from it. *)
Definition serve_connection (now : Z) (rng : Rng) (connection : Congestion.Connection Ctl)
    (users : gmap bytes bytes) (bandwidth : ServerBandwidth)
    (h3_error : option bytes) (accepts : list H3Accept)
    (h : list (Congestion.SwitchState Ctl)) : Setup :=
  let stop r := {| phase := r; masqueraded := []; reply := no_reply; heap := h |} in
  match h3_error with
  | Some e => stop (Ended (Err (Http3 e)))
  | None =>
      match accepts with
      | [] => stop AwaitingRequest
      | AcceptError e :: _ => stop (Ended (Err (Http3 e)))
      | AcceptNone :: _ =>
          stop (Ended (Err (Protocol (str "connection closed before authentication"))))
      | ResolveError e :: _ => stop (Ended (Err (Http3 e)))
      | Resolved request stream :: accepts =>
          serve_request now rng connection users bandwidth request stream accepts h
      end
  end.

(** ** Lemmas *)

Lemma authenticated_spec users request :
  authenticated users request = true <->
  method request = POST /\ uri_authority (uri request) = Some URL_AUTHORITY /\
  uri_path (uri request) = URL_PATH /\
  exists value password user,
    hm_get HEADER_AUTH (headers request) = Some value /\
    hv_to_str value = Some password /\ users !! password = Some user /\
    request_user users request = Some user.
Proof.
  unfold authenticated. rewrite !andb_true_iff, !bool_decide_eq_true.
  split; intros Ha; [destruct Ha as (((H1 & H2) & H3) & [u Hu])|].
  - split_and!; try done. pose proof Hu as Hu'. unfold request_user in Hu.
    destruct (hm_get HEADER_AUTH (headers request)) as [v|]; [|done]. simpl in Hu.
    destruct (hv_to_str v) as [pw|] eqn:Ep; [|done]. by eauto 9.
  - destruct Ha as (H1 & H2 & H3 & v & pw & u & _ & _ & _ & Hu). split_and!; eauto.
Qed.

(** The requests that [accept] resolves before something else happens. *)
Fixpoint resolved (accepts : list H3Accept) : list (Request Headers unit * RequestStream) :=
  match accepts with
  | Resolved request stream :: accepts => (request, stream) :: resolved accepts
  | _ => []
  end.

Lemma masquerade_loop_served accepts served :
  (masquerade_loop accepts served).2 = served ++ resolved accepts.
Proof.
  revert served. induction accepts as [|[] accepts IH]; intros served; simpl;
    rewrite ?app_nil_r; try done. by rewrite IH, <-app_assoc.
Qed.

Lemma masquerade_loop_phase accepts served :
  match (masquerade_loop accepts served).1 with
  | Proxying _ _ | Panicked => False | _ => True
  end.
Proof. revert served. induction accepts as [|[] accepts IH]; intros served; simpl; [done..|apply IH]. Qed.

Lemma user_table_snoc users u :
  user_table (users ++ [u]) = <[password u := name u]> (user_table users).
Proof. unfold user_table. by rewrite foldl_app. Qed.

(** The condition under which a request opens the proxy. *)
Definition admissible (users : gmap bytes bytes) (bandwidth : ServerBandwidth)
    (request : Request Headers unit) : bool :=
  authenticated users request
  && negb (rate_required bandwidth
             (parse_congestion_receive (hm_get HEADER_CC_RX (headers request)))).

(** ** Properties *)

Lemma proxying_admitted now rng connection users bandwidth h3_error accepts h user kind
    (Hproxy : phase (serve_connection now rng connection users bandwidth h3_error accepts h)
              = Proxying user kind) :
  exists request stream rest value password,
    accepts = Resolved request stream :: rest /\
    method request = POST /\ uri_authority (uri request) = Some URL_AUTHORITY /\
    uri_path (uri request) = URL_PATH /\
    hm_get HEADER_AUTH (headers request) = Some value /\
    hv_to_str value = Some password /\ users !! password = Some user /\
    rate_required bandwidth (parse_congestion_receive (hm_get HEADER_CC_RX (headers request)))
      = false /\
    let s := serve_connection now rng connection users bandwidth h3_error accepts h in
    masqueraded s = [] /\ finished (reply s) = true /\
    status <$> sent_response (reply s) = Some STATUS_AUTH_OK.
Proof.
  unfold serve_connection in *. destruct h3_error; [done|].
  destruct accepts as [|[| | |request stream] rest]; try done.
  unfold serve_request in *. cbv zeta in *.
  destruct (authenticated users request) eqn:Ha; cbn [negb] in *.
  2:{ pose proof (masquerade_loop_phase rest [(request, stream)]) as Hp.
      destruct (masquerade_loop rest _) as [p l]. simpl in *. by subst p. }
  destruct (rate_required bandwidth _) eqn:Er.
  { pose proof (masquerade_loop_phase rest [(request, stream)]) as Hp.
    destruct (masquerade_loop rest _) as [p l]. simpl in *. by subst p. }
  destruct (configure_congestion _ _ _ _ _) as [[k|e] h']; [|done].
  destruct (auth_response _ _) as [response|e] eqn:Eresp; [|done].
  destruct (mbind _ _ _) as [[[]|e] rep] eqn:Erep; [|done].
  apply authenticated_spec in Ha as (H1 & H2 & H3 & v & pw & u & H4 & H5 & H6 & H7).
  rewrite H7 in *. simpl in Hproxy. injection Hproxy as <- <-.
  exists request, stream, rest, v, pw. split_and!; try done; simpl.
  - revert Erep. unfold mbind, send_response, finish, or_http3, mfail.
    destruct (send_response_error stream); [done|]. by destruct (finish_error stream); intros [= <-].
  - revert Erep. unfold mbind, send_response, finish, or_http3, mfail.
    destruct (send_response_error stream); [done|]. destruct (finish_error stream); [done|].
    intros [= <-]. simpl. revert Eresp. unfold auth_response.
    by destruct (builder_header _ _ _ _); intros [= <-].
Qed.

(** C11: a connection proxies for a user only if its first request was a
    [POST] to the authentication URL with that user's password, stating a
    rate where the server requires one; it was then answered [233], and
    nothing went to the masquerade. *)
Theorem proxying_authenticated now rng connection users bandwidth h3_error accepts h user kind
    (Hproxy : phase (serve_connection now rng connection users bandwidth h3_error accepts h)
              = Proxying user kind) :
  exists request stream rest value password,
    accepts = Resolved request stream :: rest /\
    method request = POST /\ uri_authority (uri request) = Some URL_AUTHORITY /\
    uri_path (uri request) = URL_PATH /\
    hm_get HEADER_AUTH (headers request) = Some value /\
    hv_to_str value = Some password /\ users !! password = Some user /\
    rate_required bandwidth (parse_congestion_receive (hm_get HEADER_CC_RX (headers request)))
      = false /\
    let s := serve_connection now rng connection users bandwidth h3_error accepts h in
    masqueraded s = [] /\ finished (reply s) = true /\
    status <$> sent_response (reply s) = Some STATUS_AUTH_OK.
Proof.
  exact (proxying_admitted now rng connection users bandwidth h3_error accepts h user kind Hproxy).
Qed.

(** C12: a connection whose first request does not open the proxy gives that
    request and every later one, in order, to the masquerade and sends no
    reply of its own; its congestion controller is left alone and it never
    proxies. *)
Theorem refused_masquerades now rng connection users bandwidth request stream rest h
    (Hno : admissible users bandwidth request = false) :
  let s := serve_connection now rng connection users bandwidth None
             (Resolved request stream :: rest) h in
  masqueraded s = (request, stream) :: resolved rest /\ reply s = no_reply /\ heap s = h /\
  match phase s with Proxying _ _ | Panicked => False | _ => True end.
Proof.
  cbv zeta. unfold serve_connection, serve_request. cbv zeta.
  pose proof (masquerade_loop_phase rest [(request, stream)]) as Hp.
  pose proof (masquerade_loop_served rest [(request, stream)]) as Hs.
  destruct (masquerade_loop rest [(request, stream)]) as [p l]. simpl in Hp, Hs.
  unfold admissible in Hno. apply andb_false_iff in Hno as [->|Hr]; simpl; [done|].
  apply negb_false_iff in Hr. rewrite Hr. by destruct (authenticated users request).
Qed.
End Setup.

Arguments H3Accept : clear implicits.
Arguments Setup : clear implicits.

(** ** An example *)

Definition example_users : list User :=
  [{| name := str "alice"; password := str "secret" |}].

Definition example_bandwidth : ServerBandwidth :=
  {| send_bps := 1000; receive_bps := 2000; ignore_client_bandwidth := false;
     disable_loss_compensation := false; brutal_debug := false |}.

Definition example_request (pw : bytes) : Request (gmap bytes bytes) unit :=
  {| method := POST;
     uri := {| uri_authority := Some URL_AUTHORITY; uri_path := URL_PATH |};
     headers := {[ HEADER_AUTH := pw; HEADER_CC_RX := str "500" ]}; body := tt |}.

Definition example_connection : Congestion.Connection Congestion.Counting.Ctl :=
  {| Congestion.congestion := Congestion.Switchable Congestion.example_handle;
     Congestion.rtt := 5 |}.

Definition example_heap : list (Congestion.SwitchState Congestion.Counting.Ctl) :=
  (Congestion.build 0 1200 []).2.

Definition example_serve (pw : bytes) : Setup (gmap bytes bytes) Congestion.Counting.Ctl :=
  serve_connection (str "invalid") 1 short_rng example_connection (user_table example_users)
    example_bandwidth None [Resolved (example_request pw) (Hy2Masquerade.example_stream [])]
    example_heap.

Lemma proxying_authenticated_witness :
  phase (example_serve (str "secret")) = Proxying (str "alice") (Congestion.Brutal 500) /\
  status <$> sent_response (reply (example_serve (str "secret"))) = Some 233.
Proof.
  assert (phase (example_serve (str "secret"))
          = Proxying (str "alice") (Congestion.Brutal 500)) as H by (vm_compute; reflexivity).
  split; [exact H|].
  destruct (proxying_authenticated (str "invalid") 1 short_rng example_connection
    (user_table example_users) example_bandwidth None
    [Resolved (example_request (str "secret")) (Hy2Masquerade.example_stream [])] example_heap
    _ _ H) as (_ & _ & _ & _ & _ & _ & _ & _ & _ & _ & _ & _ & _ & _ & _ & Hs).
  exact Hs.
Defined.

Lemma refused_masquerades_witness :
  admissible (user_table example_users) example_bandwidth (example_request (str "guess")) = false /\
  masqueraded (example_serve (str "guess"))
  = [(example_request (str "guess"), Hy2Masquerade.example_stream [])].
Proof.
  assert (admissible (user_table example_users) example_bandwidth
            (example_request (str "guess")) = false) as H by (vm_compute; reflexivity).
  split; [exact H|].
  exact (proj1 (refused_masquerades (str "invalid") 1 short_rng example_connection
    (user_table example_users) example_bandwidth (example_request (str "guess"))
    (Hy2Masquerade.example_stream []) [] example_heap H)).
Defined.

(** The key is taken in the first encoding that the provider supports;
    when there is none, the error is that of the last encoding tried. *)
Lemma detect_private_key_first any_supported_type key :
  detect_private_key any_supported_type key
  = Returns
      match any_supported_type (Pkcs8 key) with
      | None => Ok (Pkcs8 key)
      | Some _ =>
          match any_supported_type (Pkcs1 key) with
          | None => Ok (Pkcs1 key)
          | Some _ =>
              match any_supported_type (Sec1 key) with
              | None => Ok (Sec1 key)
              | Some error => Err (Tls error)
              end
          end
      end.
Proof.
  unfold detect_private_key. simpl.
  by destruct (any_supported_type (Pkcs8 key)), (any_supported_type (Pkcs1 key)),
    (any_supported_type (Sec1 key)).
Qed.

(** A password opens the account of the last user in the configuration
    that has it, and of no one when nobody has. *)
Lemma user_table_lookup users pw :
  user_table users !! pw = name <$> last (filter (fun u => password u = pw) users).
Proof.
  induction users as [|u users IH] using rev_ind; [done|].
  rewrite user_table_snoc, filter_app, filter_cons. simpl.
  case_decide as E; [subst pw|].
  - rewrite lookup_insert_eq. change (filter _ []) with (@nil User). by rewrite last_snoc.
  - rewrite lookup_insert_ne by done. by rewrite filter_nil, app_nil_r.
Qed.

(** What the table holds comes from a configured user. *)
Lemma user_table_sound users pw n :
  user_table users !! pw = Some n -> exists u, u ∈ users /\ name u = n /\ password u = pw.
Proof.
  rewrite user_table_lookup. intros (u & Hu & ->)%fmap_Some.
  apply last_Some_elem_of in Hu as [Hp Hu]%list_elem_of_filter. by exists u.
Qed.

End Hy2Server.
