(* ===== verification/Hy2Client.v ===== *)
(** * The Hysteria2 client

    [src/src/hysteria2/client.rs]: the authentication exchange, the cached
    connection, and the opening of proxied streams.  What the QUIC and HTTP/3
    libraries answer is input. *)

From Stdlib Require Import ZArith Lia.
From stdpp Require Import base gmap list strings.
From S2P Require Import Prelude Error Text Net Address Hy2Protocol Congestion Transport Socket Http.

#[local] Open Scope Z_scope.
#[local] Open Scope rust_scope.

Module Hy2Client.
Import Hy2Protocol.

Record ClientOptions := {
  server : Net.SocketAddr;
  server_name : bytes;
  password : bytes;
  ca_certificates : list bytes;
}.

Record ClientBandwidth := {
  send_bps : Z;
  receive_bps : Z;
  disable_loss_compensation : bool;
  brutal_debug : bool;
}.

Definition negotiated_send_rate (configured_send_bps : Z) (remote_receive : CongestionReceive)
    : option Z :=
  match remote_receive with
  | Auto => None
  | Rate remote_receive_bps =>
      let actual :=
        if (remote_receive_bps =? 0) || (remote_receive_bps >? configured_send_bps)
        then configured_send_bps else remote_receive_bps in
      if actual >? 0 then Some actual else None
  end.

(** ** Construction *)

(** The configuration a client's endpoint gets. *)
Record ClientConfig := {
  roots : list bytes;
  alpn_protocols : list bytes;
  transport : list Transport.Setting;
}.

Abbreviation Endpoint := (Socket.Endpoint unit ClientConfig).

Record Client (Conn : Type) := {
  endpoint : Endpoint;
  options : ClientOptions;
  bandwidth : ClientBandwidth;
  connection : option Conn;
}.
Arguments endpoint {Conn} _.
Arguments options {Conn} _.
Arguments bandwidth {Conn} _.
Arguments connection {Conn} _.

(** [roots.add] for every certificate, up to the first refused. *)
Fixpoint add_roots (add : bytes -> option bytes) (certificates : list bytes) : Result unit :=
  match certificates with
  | [] => Ok tt
  | certificate :: certificates =>
      match add certificate with
      | Some error => Err (Tls error)
      | None => add_roots add certificates
      end
  end.

(** The unspecified address of the server's family, with any port. *)
Definition bind_address (server : Net.SocketAddr) : Net.SocketAddr :=
  {| Net.ip := match Net.ip server with
               | Net.V4 _ => Net.V4 (replicate 4 0)
               | Net.V6 _ => Net.V6 (replicate 8 0)
               end;
     Net.port := 0; Net.scope_id := 0 |}.

(** [ClientBandwidth::default()]. *)
Definition default_bandwidth : ClientBandwidth :=
  {| send_bps := 0; receive_bps := 0; disable_loss_compensation := false;
     brutal_debug := false |}.

Section Construction.
Context {Conn : Type}.
(** The answers of rustls and of the QUIC adapter. *)
Variable add : bytes -> option bytes.
Variable quic_tls : option bytes.
Variable os : Socket.Os.

(** [Client::new_with_bandwidth_and_transport]. *)
Definition new_with_bandwidth_and_transport (options : ClientOptions)
    (bandwidth : ClientBandwidth) (transport_options : Transport.QuicTransportOptions)
    : Result (Client Conn) :=
  if bool_decide (server_name options = []) then Err (InvalidServerName (server_name options))
  else
    let? _ := add_roots add (ca_certificates options) in
    match quic_tls with
    | Some error => Err (QuicTls error)
    | None =>
        match (Socket.bind_endpoint os (bind_address (server options)) None).1 with
        | inl error => Err (Io error)
        | inr endpoint =>
            Ok {| endpoint := Socket.set_default_client_config endpoint
                    {| roots := ca_certificates options; alpn_protocols := [str "h3"];
                       transport := Transport.base_transport_config transport_options |};
                  options := options; bandwidth := bandwidth; connection := None |}
        end
    end.

Definition new_with_bandwidth (options : ClientOptions) (bandwidth : ClientBandwidth)
    : Result (Client Conn) :=
  new_with_bandwidth_and_transport options bandwidth Transport.default_options.

Definition new (options : ClientOptions) : Result (Client Conn) :=
  new_with_bandwidth options default_bandwidth.

(** [Client::local_addr] and [Client::close]. *)
Definition local_addr (no_address : IoError) (self : Client Conn) : Result Net.SocketAddr :=
  match Socket.bound (Socket.socket (endpoint self)) with
  | Some a => Ok a
  | None => Err (Io no_address)
  end.

Definition close (self : Client Conn) : Client Conn :=
  {| endpoint := Socket.close_endpoint (endpoint self) 0 (str "client closed");
     options := options self; bandwidth := bandwidth self; connection := connection self |}.
End Construction.

Section Authenticate.
Context {Headers : Type} `{HL : HttpLib Headers} `{HV : HeaderValue}.
Context {Ctl Rtt Pacing Metrics : Type} `{CT : Controllers Ctl Rtt Pacing Metrics}.

(** How the [http] crate renders an invalid header or URI. *)
Variable invalid_header : bytes.

Definition auth_request (rng : Rng) (password : bytes) (bandwidth : ClientBandwidth)
    : Result (Request Headers unit) :=
  let? u := ok_or (uri_parse (str "https://" ++ URL_AUTHORITY ++ URL_PATH))
                  (Protocol invalid_header) in
  let? h := builder_header invalid_header HEADER_PADDING (padding rng 256 2048)
              (builder_header invalid_header HEADER_CC_RX (Num.to_decimal (receive_bps bandwidth))
                (builder_header invalid_header HEADER_AUTH password (Ok hm_empty))) in
  Ok {| method := str "POST"; uri := u; headers := h; body := tt |}.

(** The HTTP/3 exchange as the client sees it: the errors of sending, then the response and how its body ends. *)
Record Exchange := {
  send_error : option bytes;
  finish_failed : option bytes;
  response : bytes + Response Headers unit;
  body_error : option bytes;
}.

(** What [authenticate] leaves behind: its result, the application close it
    issued if any, and the controllers. *)
Record Authenticated := {
  outcome : Result Congestion.CongestionKind;
  closed_with : option (Z * bytes);
  heap : list (Congestion.SwitchState Ctl);
}.

Definition exchange_result (x : Exchange) : Result (Response Headers unit) :=
  match send_error x, finish_failed x with
  | Some e, _ => Err (Http3 e)
  | None, Some e => Err (Http3 e)
  | None, None =>
      match response x with
      | inl e => Err (Http3 e)
      | inr r => match body_error x with Some e => Err (Http3 e) | None => Ok r end
      end
  end.

Definition authenticate (now : Z) (rng : Rng) (connection : Congestion.Connection Ctl)
    (password : bytes) (bandwidth : ClientBandwidth)
    (exchange : Request Headers unit -> Exchange) (h3_error : option bytes)
    (h : list (Congestion.SwitchState Ctl)) : Authenticated :=
  let fail e := {| outcome := Err e; closed_with := None; heap := h |} in
  match h3_error with
  | Some e => fail (Http3 e)
  | None =>
      match auth_request rng password bandwidth with
      | Err e => fail e
      | Ok request =>
          match exchange_result (exchange request) with
          | Err e => fail e
          | Ok response =>
              if negb (status response =? STATUS_AUTH_OK)
              then {| outcome := Err (AuthenticationFailed (status response));
                      closed_with := Some (0, str "authentication failed"); heap := h |}
              else
                let remote_receive :=
                  parse_congestion_receive (hm_get HEADER_CC_RX (r_headers response)) in
                let send_rate := negotiated_send_rate (send_bps bandwidth) remote_receive in
                let '(configured, h) :=
                  match send_rate with
                  | Some bytes_per_second =>
                      Congestion.configure_connection_brutal_with_options now connection
                        bytes_per_second (disable_loss_compensation bandwidth) h
                  | None => (true, h)
                  end in
                if negb configured
                then {| outcome := Err CongestionControl;
                        closed_with := Some (0, str "congestion control failed"); heap := h |}
                else {| outcome := ok_or (Congestion.connection_congestion_kind connection h)
                                         CongestionControl;
                        closed_with := None; heap := h |}
          end
      end
  end.

(** An authentication that succeeds was answered [233]. *)
Lemma authenticate_ok now rng conn pw bw exchange h3 h k :
  outcome (authenticate now rng conn pw bw exchange h3 h) = Ok k ->
  exists request r, auth_request rng pw bw = Ok request /\
    exchange_result (exchange request) = Ok r /\ status r = STATUS_AUTH_OK.
Proof.
  unfold authenticate. destruct h3; [done|]. destruct (auth_request rng pw bw) as [request|]; [|done].
  destruct (exchange_result (exchange request)) as [r|] eqn:Er; [|done].
  destruct (Z.eqb_spec (status r) STATUS_AUTH_OK) as [Hs|]; [|done]. by eauto.
Qed.

(** ** The cached connection *)

(** An established connection, known by a number, with its negotiated
    controller. *)
Record ClientConnection := { id : nat; congestion : Congestion.CongestionKind }.

(** What happens when the client needs a connection: the reason the cached
    one is closed, if it is, how a new one comes about, and its HTTP/3
    exchange. *)
Record Attempt := {
  close_reason : nat -> option ConnectionError;
  connect_error : option bytes;
  connecting : option ConnectionError;
  new_id : nat;
  at_time : Z;
  random : Rng;
  quic : Congestion.Connection Ctl;
  h3_failed : option bytes;
  exchange : Request Headers unit -> Exchange;
}.

(** The client with the controllers of its connections. *)
Record State := {
  client : Client ClientConnection;
  controllers : list (Congestion.SwitchState Ctl);
}.

(** [authenticate] of a new connection of the client. *)
Definition authenticate_attempt (env : Attempt) (self : State) : Authenticated :=
  authenticate (at_time env) (random env) (quic env) (password (options (client self)))
    (bandwidth (client self)) (exchange env) (h3_failed env) (controllers self).

(** [Client::connection] when the cache has no healthy connection. *)
Definition establish (env : Attempt) : M State ClientConnection := fun self =>
  match connect_error env, connecting env with
  | Some e, _ => (Err (Connect e), self)
  | None, Some e => (Err (Connection e), self)
  | None, None =>
      let a := authenticate_attempt env self in
      match outcome a with
      | Err e => (Err e, {| client := client self; controllers := heap a |})
      | Ok congestion =>
          let c := {| id := new_id env; congestion := congestion |} in
          (Ok c, {| client := {| endpoint := endpoint (client self);
                                 options := options (client self);
                                 bandwidth := bandwidth (client self);
                                 connection := Some c |};
                    controllers := heap a |})
      end
  end.

(** [Client::connection]. *)
Definition get_connection (env : Attempt) : M State ClientConnection := fun self =>
  match connection (client self) with
  | Some c => match close_reason env (id c) with
              | None => (Ok c, self)
              | Some _ => establish env self
              end
  | None => establish env self
  end.

(** [Client::congestion_kind]. *)
Definition congestion_kind (self : State) : option Congestion.CongestionKind :=
  congestion <$> connection (client self).

(** [Client::connect]: the stream halves that [open_bi] gives on a
    connection, and the halves the caller gets. *)
Definition connect (env : Attempt) (rng : Rng)
    (open_bi : nat -> ConnectionError + (SendHalf * RecvHalf)) (destination : Address.Address)
    : M State (SendHalf * RecvHalf) :=
  let* c := get_connection env in
  mlift
    match open_bi (id c) with
    | inl e => Err (Connection e)
    | inr (send, recv) =>
        match write_tcp_request rng destination send with
        | (Err e, _) => Err e
        | (Ok _, send) =>
            match read_tcp_response recv with
            | (Err e, _) => Err e
            | (Ok _, recv) => Ok (send, recv)
            end
        end
    end.

(** ** Properties *)

(** The connection comes from an attempt whose exchange, begun with the
    password, was answered [233]. *)
Definition vouched (pw : bytes) (bw : ClientBandwidth) (env : Attempt) (c : ClientConnection)
    : Prop :=
  id c = new_id env /\ connecting env = None /\
  exists request r, auth_request (random env) pw bw = Ok request /\
    exchange_result (exchange env request) = Ok r /\ status r = STATUS_AUTH_OK.

Lemma establish_step env (s : State) :
  let '(r, s') := establish env s in
  options (client s') = options (client s) /\ bandwidth (client s') = bandwidth (client s) /\
  match r with
  | Ok c => connection (client s') = Some c /\
      vouched (password (options (client s))) (bandwidth (client s)) env c
  | Err _ => connection (client s') = connection (client s)
  end.
Proof.
  unfold establish. destruct (connect_error env); [done|]. destruct (connecting env) eqn:En; [done|].
  destruct (outcome (authenticate_attempt env s)) as [k|e] eqn:Ek; [|done].
  split_and!; try done. split_and!; try done. by eapply authenticate_ok.
Qed.

Lemma get_connection_step env (s : State) :
  let '(r, s') := get_connection env s in
  options (client s') = options (client s) /\ bandwidth (client s') = bandwidth (client s) /\
  match r with
  | Ok c => connection (client s') = Some c /\
      ((connection (client s) = Some c /\ close_reason env (id c) = None /\ s' = s) \/
       vouched (password (options (client s))) (bandwidth (client s)) env c)
  | Err _ => connection (client s') = connection (client s)
  end.
Proof.
  unfold get_connection. pose proof (establish_step env s) as He.
  assert (let '(r, s') := establish env s in
    options (client s') = options (client s) /\ bandwidth (client s') = bandwidth (client s) /\
    match r with
    | Ok c => connection (client s') = Some c /\
        ((connection (client s) = Some c /\ close_reason env (id c) = None /\ s' = s) \/
         vouched (password (options (client s))) (bandwidth (client s)) env c)
    | Err _ => connection (client s') = connection (client s)
    end) as He' by (destruct (establish env s) as [[c|e] s']; naive_solver).
  destruct (connection (client s)) as [c|] eqn:Ec; [|done].
  destruct (close_reason env (id c)) eqn:Er; [done|]. split_and!; try done. by left.
Qed.

(** C33: a proxied stream is opened only on a connection that was
    authenticated, now or earlier: whatever the sequence of calls and however
    each attempt fares, what the client holds and gives out is the connection
    it started with or one whose own exchange, begun with the client's
    password, was answered [233]; and a healthy cached connection is given
    out again without any change. *)
Theorem cached_connection_authenticated (attempts : list Attempt) (s : State) env
    (Hstart : connection (client s) = None) :
  let s' := foldl (fun s env => (get_connection env s).2) s attempts in
  let good c := exists e, e ∈ attempts ++ [env] /\
                  vouched (password (options (client s))) (bandwidth (client s)) e c in
  (forall c, connection (client s') = Some c -> good c) /\
  match get_connection env s' with
  | (Ok c, s'') => good c /\ connection (client s'') = Some c /\
      (forall c', connection (client s') = Some c' -> close_reason env (id c') = None ->
         c = c' /\ s'' = s')
  | (Err _, s'') => connection (client s'') = connection (client s')
  end.
Proof.
  intros s' good.
  assert (options (client s') = options (client s) /\ bandwidth (client s') = bandwidth (client s) /\
    forall c, connection (client s') = Some c -> good c) as (Ho & Hb & Hg).
  { unfold s', good. clear s' good.
    induction attempts as [|e l IH] using rev_ind.
    { split_and!; [done|done|]. intros c. simpl. by rewrite Hstart. }
    rewrite foldl_app. simpl. destruct IH as (Ho & Hb & Hg).
    set (t := foldl _ s l) in *. pose proof (get_connection_step e t) as Hstep.
    destruct (get_connection e t) as [r t']. simpl. destruct Hstep as (Ho' & Hb' & Hr).
    split_and!; [congruence..|]. intros c Hc.
    assert (connection (client t) = Some c \/
      vouched (password (options (client t))) (bandwidth (client t)) e c) as [Ht|Hv].
    { destruct r as [c'|]; [|left; congruence].
      destruct Hr as (Hc' & [(Ht & _)|Hv]); rewrite Hc in Hc'; injection Hc' as ->; auto. }
    - destruct (Hg c Ht) as (e' & He & Hv). exists e'. split; [|done]. set_solver.
    - exists e. rewrite <-Ho, <-Hb. split; [set_solver|done]. }
  split; [done|]. pose proof (get_connection_step env s') as Hstep.
  destruct (get_connection env s') as [[c|e] s''] eqn:Eg; [|by destruct Hstep as (_ & _ & ?)].
  destruct Hstep as (_ & _ & Hc & Hor). rewrite Ho, Hb in Hor. split_and!; [|done|].
  - destruct Hor as [(Hold & _)|Hv]; [by apply Hg|]. exists env. split; [set_solver|done].
  - intros c' Hc' Hopen. revert Eg. unfold get_connection. rewrite Hc', Hopen. by intros [= <- <-].
Qed.
End Authenticate.

Arguments Exchange : clear implicits.
Arguments Authenticated : clear implicits.
Arguments Attempt : clear implicits.
Arguments State : clear implicits.

Definition example_client : State Congestion.Counting.Ctl :=
  {| client :=
       {| endpoint := {| Socket.socket := {| Socket.domain := Socket.IPV4; Socket.only_v6 := false;
                                             Socket.bound := None; Socket.send_buffer := 0;
                                             Socket.recv_buffer := 0 |};
                         Socket.server_config := None; Socket.client_config := None;
                         Socket.close_reason := None |};
          options := {| server := {| Net.ip := Net.V4 [127; 0; 0; 1]; Net.port := 443;
                                     Net.scope_id := 0 |};
                        server_name := str "localhost"; password := str "secret";
                        ca_certificates := [] |};
          bandwidth := {| send_bps := 0; receive_bps := 0; disable_loss_compensation := false;
                          brutal_debug := false |};
          connection := None |};
     controllers := (Congestion.build 0 1200 []).2 |}.

Definition example_attempt (n : nat)
    : Attempt (gmap bytes bytes) Congestion.Counting.Ctl :=
  {| close_reason := fun _ => None; connect_error := None; connecting := None; new_id := n;
     at_time := 1; random := short_rng;
     quic := {| Congestion.congestion := Congestion.Switchable Congestion.example_handle;
                Congestion.rtt := 5 |};
     h3_failed := None;
     exchange := fun _ =>
       {| send_error := None; finish_failed := None;
          response := inr {| status := 233; r_headers := ∅; r_body := tt |};
          body_error := None |} |}.

Lemma cached_connection_authenticated_witness :
  connection (client (foldl (fun s env => (get_connection (str "invalid") env s).2) example_client
    [example_attempt 1])) = Some {| id := 1; congestion := Congestion.Bbr |} /\
  match get_connection (str "invalid") (example_attempt 2)
          (foldl (fun s env => (get_connection (str "invalid") env s).2) example_client
             [example_attempt 1]) with
  | (Ok c, _) => id c = 1%nat
  | (Err _, _) => False
  end.
Proof.
  split; [vm_compute; reflexivity|].
  pose proof (proj2 (cached_connection_authenticated (str "invalid") [example_attempt 1]
    example_client (example_attempt 2) eq_refl)) as H.
  destruct (get_connection _ _ _) as [[c|e] s''] eqn:E; [|vm_compute in E; discriminate].
  destruct H as (_ & _ & H).
  destruct (H {| id := 1; congestion := Congestion.Bbr |}) as [-> _];
    [vm_compute; reflexivity|reflexivity|reflexivity].
Defined.

End Hy2Client.
