(* ===== verification/Hy2Handshake.v ===== *)
(** * The Hysteria2 handshake, end to end

    The client's [authenticate] run against the server's [serve_connection]:
    the request one builds is the request the other checks, and the response
    goes back.  Both ends then agree on who sends how fast. *)

From Stdlib Require Import ZArith Lia.
From stdpp Require Import base gmap list strings.
From S2P Require Import Prelude Error Text Net Address Hy2Protocol Congestion Transport Http.
From S2P Require Import Hy2Masquerade Hy2Server Hy2Client.

#[local] Open Scope Z_scope.
#[local] Open Scope rust_scope.

Module Hy2Handshake.
Import Hy2Protocol.

(** ** What the two ends should agree on *)

(** The rate the server sends at: nothing fixed when either side leaves it
    to the network, else the client's receive rate, at most its own. *)
Definition server_rate (s : Hy2Server.ServerBandwidth) (c : Hy2Client.ClientBandwidth)
    : option Z :=
  let wanted := Hy2Client.receive_bps c in
  if bool_decide (wanted = 0)
     || (bool_decide (Hy2Server.receive_bps s = 0) && Hy2Server.ignore_client_bandwidth s)
  then None
  else Some (if bool_decide (Hy2Server.send_bps s = 0) then wanted
             else Z.min wanted (Hy2Server.send_bps s)).

(** The rate the client sends at: nothing fixed unless the server's is, else
    its own rate, at most the server's receive rate if it has one. *)
Definition client_rate (s : Hy2Server.ServerBandwidth) (c : Hy2Client.ClientBandwidth)
    : option Z :=
  match server_rate s c with
  | None => None
  | Some _ =>
      let rate := if bool_decide (Hy2Server.receive_bps s = 0) then Hy2Client.send_bps c
                  else Z.min (Hy2Client.send_bps c) (Hy2Server.receive_bps s) in
      if bool_decide (rate = 0) then None else Some rate
  end.

Definition kind_of_rate (r : option Z) : Congestion.CongestionKind :=
  match r with Some rate => Congestion.Brutal rate | None => Congestion.Bbr end.

Definition server_wf (s : Hy2Server.ServerBandwidth) : Prop :=
  uint 64 (Hy2Server.send_bps s) /\ uint 64 (Hy2Server.receive_bps s).
Definition client_wf (c : Hy2Client.ClientBandwidth) : Prop :=
  uint 64 (Hy2Client.send_bps c) /\ uint 64 (Hy2Client.receive_bps c).

Lemma server_rate_spec s c :
  server_wf s -> client_wf c ->
  Hy2Server.negotiated_send_rate s (Rate (Hy2Client.receive_bps c)) = server_rate s c.
Proof.
  intros [Hs1 Hs2] [Hc1 Hc2]. unfold Hy2Server.negotiated_send_rate, server_rate, uint in *.
  destruct (Z.eqb_spec (Hy2Server.receive_bps s) 0), (Hy2Server.ignore_client_bandwidth s),
    (Z.eqb_spec (Hy2Client.receive_bps c) 0); simpl;
    repeat case_bool_decide; try lia; try done; simpl; f_equal;
    destruct (Z.gtb_spec (Hy2Server.send_bps s) 0),
      (Z.gtb_spec (Hy2Client.receive_bps c) (Hy2Server.send_bps s)); simpl; lia.
Qed.

Lemma client_rate_spec s c :
  server_wf s -> client_wf c ->
  Hy2Client.negotiated_send_rate (Hy2Client.send_bps c)
    (Hy2Server.advertised_receive s (server_rate s c)) = client_rate s c.
Proof.
  intros [Hs1 Hs2] [Hc1 Hc2]. unfold client_rate. destruct (server_rate s c); [|done].
  unfold Hy2Client.negotiated_send_rate, uint in *. simpl.
  destruct (Z.eqb_spec (Hy2Server.receive_bps s) 0) as [E|E];
    [rewrite (bool_decide_true _ E)|rewrite (bool_decide_false _ E)]; simpl.
  - destruct (Z.gtb_spec (Hy2Client.send_bps c) 0); case_bool_decide; try lia; done.
  - destruct (Z.gtb_spec (Hy2Server.receive_bps s) (Hy2Client.send_bps c)).
    + rewrite Z.min_l by lia.
      destruct (Z.gtb_spec (Hy2Client.send_bps c) 0); case_bool_decide; try lia; done.
    + rewrite Z.min_r by lia.
      destruct (Z.gtb_spec (Hy2Server.receive_bps s) 0); case_bool_decide; try lia; done.
Qed.

Lemma server_rate_nonzero s c r : server_wf s -> client_wf c -> server_rate s c = Some r -> r <> 0.
Proof.
  intros [Hs1 Hs2] [Hc1 Hc2]. unfold server_rate, uint in *.
  repeat case_bool_decide; simpl; try done; destruct (Hy2Server.ignore_client_bandwidth s);
    simpl; intros [= <-]; lia.
Qed.

Lemma client_rate_nonzero s c r : client_rate s c = Some r -> r <> 0.
Proof.
  unfold client_rate. destruct (server_rate s c); [|done].
  destruct (bool_decide (Hy2Server.receive_bps s = 0)); case_bool_decide; by intros [= <-].
Qed.

(** A client that leaves its receive rate to the network turns the fixed rate
    off in both directions, whatever rates are configured for sending. *)
Lemma client_auto_disables_brutal s c :
  Hy2Client.receive_bps c = 0 -> server_rate s c = None /\ client_rate s c = None.
Proof. intros Hc. unfold client_rate, server_rate. by rewrite Hc. Qed.

Section Handshake.
Context {Headers : Type} `{HL : HttpLib Headers} `{HV : HeaderValue}.
Context {Ctl Rtt Pacing Metrics : Type} `{CT : Controllers Ctl Rtt Pacing Metrics}.
Variable invalid_header : bytes.

(** ** The messages *)

(** A header of a map built by appending constant names. *)
Ltac lookup_header :=
  repeat (rewrite hm_get_append;
          first [rewrite decide_False by done | rewrite decide_True by done]);
  rewrite ?hm_get_empty; reflexivity.

Lemma padding_valid rng min max : hv_valid (padding rng min max) = true.
Proof.
  apply hv_valid_visible. unfold padding. apply Forall_fmap, Forall_forall.
  intros i _. simpl. pose proof (alphanumeric_ok rng i) as Ha.
  unfold is_alphanumeric in Ha. unfold visible. lia.
Qed.

Lemma decimal_valid z : 0 <= z -> hv_valid (Num.to_decimal z) = true.
Proof. intros Hz. by apply hv_valid_visible, decimal_visible. Qed.

(** The request a client builds from a password of visible characters. *)
Lemma auth_request_ok rng password c :
  Forall visible password -> client_wf c ->
  exists request : Request Headers unit,
    Hy2Client.auth_request invalid_header rng password c = Ok request /\
    method request = Hy2Server.POST /\
    uri request = {| uri_authority := Some URL_AUTHORITY; uri_path := URL_PATH |} /\
    hm_get HEADER_AUTH (headers request) = Some password /\
    hm_get HEADER_CC_RX (headers request) = Some (Num.to_decimal (Hy2Client.receive_bps c)).
Proof.
  intros Hp [_ [Hr _]]. unfold Hy2Client.auth_request.
  change URL_PATH with (str "/" ++ str "auth").
  rewrite uri_parse_https by first [done|by repeat constructor]. cbn [ok_or rbind].
  rewrite !builder_header_ok by (apply padding_valid || by apply decimal_valid || by apply hv_valid_visible).
  eexists. split; [done|]. simpl. split_and!; try done;
    lookup_header.
Qed.

(** The response a server builds. *)
Lemma auth_response_ok rng v :
  rate_wf v ->
  exists response : Response Headers unit,
    Hy2Server.auth_response invalid_header rng v = Ok response /\
    status response = STATUS_AUTH_OK /\
    parse_congestion_receive (hm_get HEADER_CC_RX (r_headers response)) = v.
Proof.
  intros Hv. unfold Hy2Server.auth_response.
  assert (hv_valid (str "true") = true) as Ht
    by (apply hv_valid_visible; by apply (bool_decide_eq_true_1 _)).
  assert (hv_valid (congestion_receive_value v) = true) as Hc.
  { destruct v as [|r]; simpl in *; [|apply decimal_valid; lia].
    apply hv_valid_visible. by apply (bool_decide_eq_true_1 _). }
  rewrite !builder_header_ok by (done || apply padding_valid). cbn [rbind].
  eexists. split; [done|]. split; [done|]. simpl.
  rewrite <-(congestion_roundtrip v Hv) at 2. f_equal. lookup_header.
Qed.

(** A connection that runs the switchable controller, still with BBR. *)
Definition starts_bbr (connection : Congestion.Connection Ctl)
    (h : list (Congestion.SwitchState Ctl)) : Prop :=
  exists c st, Congestion.congestion connection = Congestion.Switchable c /\
    h !! Congestion.state c = Some st /\ Congestion.kind_of st = Congestion.Bbr.

Lemma configure_ok now connection h rate dis :
  starts_bbr connection h -> (forall r, rate = Some r -> r <> 0) ->
  exists h', Hy2Server.configure_congestion now connection rate dis h
             = (Ok (kind_of_rate rate), h').
Proof.
  intros (c & st & Hc & Hst & Hk) Hr. unfold Hy2Server.configure_congestion.
  destruct rate as [r|].
  - unfold Congestion.configure_connection_brutal_with_options, Congestion.connection_congestion_kind.
    rewrite !Congestion.congestion_state_same, Hc.
    destruct (Z.eqb_spec r 0) as [->|]; [by destruct (Hr 0)|].
    eexists. simpl. unfold Congestion.kind, Congestion.set_brutal, Congestion.locked.
    by rewrite list_lookup_alter_eq, Hst.
  - eexists. unfold Congestion.connection_congestion_kind.
    rewrite Congestion.congestion_state_same, Hc. simpl. unfold Congestion.kind.
    rewrite Hst. simpl. by rewrite Hk.
Qed.

(** ** The two ends together *)

(** The exchange in which the client reads a server's reply. *)
Definition reads_reply (r : Reply Headers) : Hy2Client.Exchange Headers :=
  {| Hy2Client.send_error := None; Hy2Client.finish_failed := None;
     Hy2Client.response := match sent_response r with
                           | Some r => inr r
                           | None => inl (str "stream closed")
                           end;
     Hy2Client.body_error := None |}.

(** A stream on which every call of the server succeeds. *)
Definition stream_ok (stream : RequestStream) : Prop :=
  recv_error stream = None /\ send_response_error stream = None /\
  send_data_error stream = None /\ finish_error stream = None.

(** The response of the masquerade to a request: the handler's, if there is
    one and the body is within the limit. *)
Definition decoy (source : Net.SocketAddr) (masquerade : option Hy2Masquerade.MasqueradeHandler)
    (request : Request Headers unit) (stream : RequestStream) : Response Headers bytes :=
  let data := concat (incoming_data stream) in
  if len data <=? Hy2Masquerade.MAX_MASQUERADE_REQUEST_SIZE
  then match masquerade with
       | Some handler => handler source {| method := method request; uri := uri request;
                                           headers := headers request; body := data |}
       | None => Hy2Masquerade.plain_response Hy2Masquerade.NOT_FOUND
       end
  else Hy2Masquerade.plain_response Hy2Masquerade.PAYLOAD_TOO_LARGE.

(** What the peer of [serve_connection] reads: its reply, or those of the
    masquerade tasks that it spawned. *)
Definition replied (source : Net.SocketAddr) (masquerade : option Hy2Masquerade.MasqueradeHandler)
    (setup : Hy2Server.Setup Headers Ctl) : Reply Headers :=
  foldl (fun r q => (Hy2Masquerade.serve_masquerade_request source q.1 q.2 masquerade r).2)
        (Hy2Server.reply setup) (Hy2Server.masqueraded setup).

(** A connection whose only request goes to the masquerade. *)
Definition to_masquerade (request : Request Headers unit) (stream : RequestStream)
    (h : list (Congestion.SwitchState Ctl)) : Hy2Server.Setup Headers Ctl :=
  {| Hy2Server.phase := Hy2Server.AwaitingRequest; Hy2Server.masqueraded := [(request, stream)];
     Hy2Server.reply := no_reply; Hy2Server.heap := h |}.

Lemma decoy_replied source masquerade request stream h :
  stream_ok stream ->
  exists r, sent_response (replied source masquerade (to_masquerade request stream h)) = Some r /\
    status r = status (decoy source masquerade request stream).
Proof.
  intros (Hs1 & Hs2 & Hs3 & Hs4). unfold replied, decoy. simpl.
  unfold Hy2Masquerade.serve_masquerade_request, mbind at 1, mlift.
  rewrite Hy2Masquerade.receive_body_inv by done. rewrite Hs1. simpl.
  destruct (_ <=? _); unfold Hy2Masquerade.send_masquerade_response, mbind, send_response, send_data, finish, or_http3;
    rewrite Hs2, Hs3, Hs4; destruct (negb _ && _ && _); by eexists.
Qed.

(** What a client whose request went to the masquerade makes of it. *)
Definition turned_away (client : Hy2Client.Authenticated Ctl) (code : Z)
    (h : list (Congestion.SwitchState Ctl)) : Prop :=
  Hy2Client.outcome client = Err (AuthenticationFailed code) /\
  Hy2Client.closed_with client = Some (0, str "authentication failed") /\
  Hy2Client.heap client = h.

Lemma decoy_refused now rng password c cconn source masquerade serve request stream hs hc :
  Hy2Client.auth_request invalid_header rng password c = Ok request -> stream_ok stream ->
  serve request = to_masquerade request stream hs ->
  status (decoy source masquerade request stream) <> STATUS_AUTH_OK ->
  turned_away (Hy2Client.authenticate invalid_header now rng cconn password c
    (fun q => reads_reply (replied source masquerade (serve q))) None hc)
    (status (decoy source masquerade request stream)) hc.
Proof.
  intros Hreq Hstream Hserve Hne. destruct (decoy_replied source masquerade request stream hs Hstream)
    as (r & Hr & Hst).
  unfold turned_away, Hy2Client.authenticate. rewrite Hreq, Hserve.
  unfold Hy2Client.exchange_result, reads_reply. simpl. rewrite Hr. simpl. rewrite Hst.
  by rewrite (proj2 (Z.eqb_neq _ _) Hne).
Qed.

(** The request of a client is its user's. *)
Lemma request_authenticated users password user req :
  Forall visible password -> Hy2Server.user_table users !! password = Some user ->
  method req = Hy2Server.POST ->
  uri req = {| uri_authority := Some URL_AUTHORITY; uri_path := URL_PATH |} ->
  hm_get HEADER_AUTH (headers req) = Some password ->
  Hy2Server.request_user (Hy2Server.user_table users) req = Some user /\
  Hy2Server.authenticated (Hy2Server.user_table users) req = true.
Proof.
  intros Hvisible Huser Hm Hu Hpw.
  assert (Hy2Server.request_user (Hy2Server.user_table users) req = Some user) as Hru.
  { unfold Hy2Server.request_user. rewrite Hpw. simpl. by rewrite hv_to_str_visible. }
  split; [done|]. apply Hy2Server.authenticated_spec. rewrite Hm, Hu. split_and!; try done.
  exists password, password, user. split_and!; try done. by apply hv_to_str_visible.
Qed.

(** The server's side when the request is accepted. *)
Lemma handshake_accepted now rng users user s c sconn hs stream req :
  server_wf s -> client_wf c -> stream_ok stream -> starts_bbr sconn hs ->
  Hy2Server.authenticated (Hy2Server.user_table users) req = true ->
  Hy2Server.request_user (Hy2Server.user_table users) req = Some user ->
  parse_congestion_receive (hm_get HEADER_CC_RX (headers req)) = Rate (Hy2Client.receive_bps c) ->
  Hy2Server.rate_required s (Rate (Hy2Client.receive_bps c)) = false ->
  exists hs' resp, status resp = STATUS_AUTH_OK /\
    parse_congestion_receive (hm_get HEADER_CC_RX (r_headers resp))
    = Hy2Server.advertised_receive s (server_rate s c) /\
    Hy2Server.serve_connection invalid_header now rng sconn (Hy2Server.user_table users) s None
      [Hy2Server.Resolved req stream] hs
    = {| Hy2Server.phase := Hy2Server.Proxying user (kind_of_rate (server_rate s c));
         Hy2Server.masqueraded := [];
         Hy2Server.reply := {| sent_response := Some resp; sent_data := []; finished := true |};
         Hy2Server.heap := hs' |}.
Proof.
  intros Hs Hc (_ & Hs1 & _ & Hs2) Hsconn Hauth Hru Hparse Hrate.
  destruct (configure_ok now sconn hs (server_rate s c) (Hy2Server.disable_loss_compensation s)
    Hsconn) as [hs' Hcfg].
  { intros r. by apply server_rate_nonzero. }
  destruct (auth_response_ok rng (Hy2Server.advertised_receive s (server_rate s c)))
    as (resp & Hresp & Hst & Hadv).
  { destruct (server_rate s c); simpl; [|done]. destruct Hs as [_ [? ?]]. unfold u64_max. lia. }
  exists hs', resp. split_and!; [done..|].
  unfold Hy2Server.serve_connection, Hy2Server.serve_request. cbv zeta.
  rewrite Hauth, Hparse, Hrate. cbn [negb]. rewrite server_rate_spec, Hcfg, Hresp by done.
  unfold mbind, send_response, finish, or_http3. by rewrite Hs1, Hs2, Hru.
Qed.


(** C13: a client whose password no user has gets nowhere, on a stream that
    works.  The server gives its request to the masquerade and touches
    nothing else.  The client reads the answer of the configured web handler,
    or [404] without one, or [413] when it sent a body over the limit; unless
    the handler itself answers [233] it reports that status, closes the
    connection and leaves its congestion controller alone. *)
Theorem wrong_password_refused now rng_c rng_s users password s c sconn cconn hs hc stream source masquerade
    (Hvisible : Forall visible password)
    (Huser : Hy2Server.user_table users !! password = None)
    (Hc : client_wf c) (Hstream : stream_ok stream) :
  let serve request :=
    Hy2Server.serve_connection invalid_header now rng_s sconn (Hy2Server.user_table users) s None
      [Hy2Server.Resolved request stream] hs in
  let client := Hy2Client.authenticate invalid_header now rng_c cconn password c
       (fun request => reads_reply (replied source masquerade (serve request))) None hc in
  exists request, Hy2Client.auth_request invalid_header rng_c password c = Ok request /\
    serve request = to_masquerade request stream hs /\
    (status (decoy source masquerade request stream) <> STATUS_AUTH_OK ->
     turned_away client (status (decoy source masquerade request stream)) hc) /\
    (masquerade = None ->
     len (concat (incoming_data stream)) <= Hy2Masquerade.MAX_MASQUERADE_REQUEST_SIZE ->
     turned_away client 404 hc).
Proof.
  intros serve client.
  destruct (auth_request_ok rng_c password c Hvisible Hc) as (req & Hreq & _ & _ & Hpw & _).
  assert (Hy2Server.authenticated (Hy2Server.user_table users) req = false) as Hauth.
  { apply not_true_iff_false. rewrite Hy2Server.authenticated_spec.
    intros (_ & _ & _ & v & p & u & Hv & Hp & Hup & _).
    rewrite Hpw in Hv. injection Hv as <-. apply hv_to_str_same in Hp. congruence. }
  assert (serve req = to_masquerade req stream hs) as Hserve.
  { unfold serve, Hy2Server.serve_connection, Hy2Server.serve_request. by rewrite Hauth. }
  pose proof (decoy_refused now rng_c password c cconn source masquerade serve req stream hs hc
    Hreq Hstream Hserve) as Haway.
  exists req. split; [done|]. split; [done|]. split; [exact Haway|]. intros -> Hsize. unfold decoy in Haway.
  rewrite (proj2 (Z.leb_le _ _) Hsize) in Haway. by apply Haway.
Qed.
End Handshake.

(** ** An example *)

Definition example_client : Hy2Client.ClientBandwidth :=
  {| Hy2Client.send_bps := 3000; Hy2Client.receive_bps := 500;
     Hy2Client.disable_loss_compensation := true; Hy2Client.brutal_debug := false |}.

Lemma example_starts_bbr : starts_bbr Hy2Server.example_connection Hy2Server.example_heap.
Proof. by eexists _, _. Qed.

Definition example_source : Net.SocketAddr :=
  {| Net.ip := Net.V4 [127; 0; 0; 1]; Net.port := 5; Net.scope_id := 0 |}.

(** A web handler that answers every request with a page. *)
Definition example_page_handler (source : Net.SocketAddr) (request : Request (gmap bytes bytes) bytes)
    : Response (gmap bytes bytes) bytes := {| status := 200; r_headers := ∅; r_body := str "page" |}.


Lemma wrong_password_refused_witness :
  exists r, turned_away r 200 Hy2Server.example_heap.
Proof.
  destruct (wrong_password_refused (str "invalid") 1 short_rng short_rng Hy2Server.example_users
    (str "guess") Hy2Server.example_bandwidth example_client
    Hy2Server.example_connection Hy2Server.example_connection Hy2Server.example_heap
    Hy2Server.example_heap (Hy2Masquerade.example_stream []) example_source (Some example_page_handler)
    ltac:(by apply (bool_decide_eq_true_1 _)) eq_refl ltac:(by split) ltac:(by repeat split))
    as (request & _ & _ & H & _).
  eexists. apply H. discriminate.
Defined.

End Hy2Handshake.
