(* ===== verification/Hy2Session.v ===== *)
(** * The event loop of an authenticated Hysteria2 connection

    The loop at the end of [serve_connection] of
    [src/src/hysteria2/server.rs], the streams it spawns
    ([handle_stream]) and the UDP sessions it routes datagrams to.  A session
    is known to the loop by a [Weak] pointer: the packet connections that are
    still held are an explicit store, from which the owner's last [Arc]
    removes them. *)

From Stdlib Require Import ZArith Lia.
From stdpp Require Import base gmap list strings relations.
From S2P Require Import Prelude Error Text Net Address Hy2Protocol Channels Congestion Hy2Packet.

#[local] Open Scope Z_scope.
#[local] Open Scope rust_scope.

Module Hy2Session.
Import Hy2Protocol Hy2Packet.

(** [Accepted]; a packet connection is known by its place in the store. *)
Inductive Accepted :=
| AcceptedStream (stream : SendHalf * RecvHalf) (destination : Address.Address) (user : bytes)
    (source : Net.SocketAddr) (congestion : Congestion.CongestionKind)
| AcceptedPacket (connection : nat) (destination : Address.Address) (user : bytes)
    (source : Net.SocketAddr) (congestion : Congestion.CongestionKind).

Definition accepted_user (a : Accepted) : bytes :=
  match a with AcceptedStream _ _ u _ _ | AcceptedPacket _ _ u _ _ => u end.
Definition accepted_congestion (a : Accepted) : Congestion.CongestionKind :=
  match a with AcceptedStream _ _ _ _ c | AcceptedPacket _ _ _ _ c => c end.

Definition accepted_source (a : Accepted) : Net.SocketAddr :=
  match a with AcceptedStream _ _ _ a _ | AcceptedPacket _ _ _ a _ => a end.

Record Loop (Ch Ac : Type) := {
  udp_sessions : gmap Z nat;
  objects : gmap nat (PacketConnection Ch);
  next_object : nat;
  accepted : Ac;
  tasks : list (SendHalf * RecvHalf);
  remote : Net.SocketAddr;
}.
Arguments udp_sessions {Ch Ac} _.
Arguments objects {Ch Ac} _.
Arguments next_object {Ch Ac} _.
Arguments accepted {Ch Ac} _.
Arguments tasks {Ch Ac} _.
Arguments remote {Ch Ac} _.

(** How the body of a [select!] arm ends. *)
Inductive Verdict (S : Type) :=
| Continue (s : S)
| Stops (r : Result unit) (s : S)
| Waits
| Panicked.
Arguments Continue {S} _.
Arguments Stops {S} _ _.
Arguments Waits {S}.
Arguments Panicked {S}.

Section Loop.
Context {Ch Ac : Type} `{MC : Mpsc Ch Packet} `{MA : Mpsc Ac Accepted}.
(** The user and the controller that the handshake settled on. *)
Variable user : bytes.
Variable congestion : Congestion.CongestionKind.
Implicit Types s : Loop Ch Ac.

Definition with_accepted s (a : Ac) : Loop Ch Ac :=
  {| udp_sessions := udp_sessions s; objects := objects s; next_object := next_object s;
     accepted := a; tasks := tasks s; remote := remote s |}.
Definition with_tasks s (l : list (SendHalf * RecvHalf)) : Loop Ch Ac :=
  {| udp_sessions := udp_sessions s; objects := objects s; next_object := next_object s;
     accepted := accepted s; tasks := l; remote := remote s |}.
Definition with_objects s (m : gmap nat (PacketConnection Ch)) : Loop Ch Ac :=
  {| udp_sessions := udp_sessions s; objects := m; next_object := next_object s;
     accepted := accepted s; tasks := tasks s; remote := remote s |}.
Definition with_remote s (a : Net.SocketAddr) : Loop Ch Ac :=
  {| udp_sessions := udp_sessions s; objects := objects s; next_object := next_object s;
     accepted := accepted s; tasks := tasks s; remote := a |}.

(** The control arm. *)
Definition on_control (error : option bytes) s : Verdict (Loop Ch Ac) :=
  match error with Some e => Stops (Err (Http3 e)) s | None => Continue s end.

(** The [accept_bi] arm: the stream gets a task of its own. *)
Definition on_stream (stream : ConnectionError + (SendHalf * RecvHalf)) s
    : Verdict (Loop Ch Ac) :=
  match stream with
  | inl e => Stops (Err (Connection e)) s
  | inr halves => Continue (with_tasks s (tasks s ++ [halves]))
  end.

(** [handle_stream] of one task: the request is read, the response written,
    and the stream handed over.  [None] while the channel is full; the
    result of a finished task is only logged. *)
Definition handle_stream (rng : Rng) (halves : SendHalf * RecvHalf) s
    : option (Result unit * Loop Ch Ac) :=
  match read_tcp_request (snd halves) with
  | (Err e, _) => Some (Err e, s)
  | (Ok destination, recv) =>
      match write_tcp_response rng None (fst halves) with
      | (Err e, _) => Some (Err e, s)
      | (Ok _, send) =>
          match send_wait (AcceptedStream (send, recv) destination user (remote s) congestion)
                  (accepted s) with
          | None => None
          | Some (true, a) => Some (Ok tt, with_accepted s a)
          | Some (false, a) => Some (Err Closed, with_accepted s a)
          end
      end
  end.

(** [udp_sessions.get(&id).and_then(Weak::upgrade)]. *)
Definition upgrade s (session : Z) : option nat :=
  match udp_sessions s !! session with
  | Some id => if decide (is_Some (objects s !! id)) then Some id else None
  | None => None
  end.

(** [packet_connection.input(message)] on a held packet connection. *)
Definition input_at (now : Z) (id : nat) (message : UdpMessage) s : Verdict (Loop Ch Ac) :=
  match objects s !! id with
  | None => Panicked
  | Some pc =>
      match input now message pc with
      | Panics => Panicked
      | Returns (r, pc) =>
          let s := with_objects s (<[id := pc]> (objects s)) in
          match r with Err e => Stops (Err e) s | Ok _ => Continue s end
      end
  end.

(** The [read_datagram] arm. *)
Definition on_datagram (now : Z) (datagram : ConnectionError + bytes) s : Verdict (Loop Ch Ac) :=
  match datagram with
  | inl e => Stops (Err (Connection e)) s
  | inr d =>
      match decode_message d with
      | Err e => Stops (Err e) s
      | Ok message =>
          match upgrade s (session_id message) with
          | Some id => input_at now id message s
          | None =>
              let id := next_object s in
              let fresh := new (session_id message) now in
              match send_wait (AcceptedPacket id (destination message) user (remote s) congestion)
                      (accepted s) with
              | None => Waits
              | Some (false, a) => Stops (Err Closed) (with_accepted s a)
              | Some (true, a) =>
                  input_at now id message
                    {| udp_sessions := <[session_id message := id]> (udp_sessions s);
                       objects := <[id := fresh]> (objects s); next_object := S id;
                       accepted := a; tasks := tasks s; remote := remote s |}
              end
          end
      end
  end.

(** ** Steps *)

(** A turn of the select loop that does not end it. *)
Inductive arm_step : Loop Ch Ac -> Loop Ch Ac -> Prop :=
| step_control s s' : on_control None s = Continue s' -> arm_step s s'
| step_stream halves s s' : on_stream halves s = Continue s' -> arm_step s s'
| step_datagram now d s s' : on_datagram now d s = Continue s' -> arm_step s s'.

(** The tasks that the loop spawned, the owners of the packet connections,
    and changes of the peer's address. *)
Inductive task_step : Loop Ch Ac -> Loop Ch Ac -> Prop :=
| step_task rng l1 halves l2 r s s' :
    tasks s = l1 ++ halves :: l2 -> handle_stream rng halves (with_tasks s (l1 ++ l2)) = Some (r, s') ->
    task_step s s'
| step_drop id s : task_step s (with_objects s (delete id (objects s)))
| step_owner_send path now packet id pc s :
    objects s !! id = Some pc ->
    task_step s (with_objects s (<[id := (send path now packet pc).2]> (objects s)))
| step_owner_recv now id pc p pc' s :
    objects s !! id = Some pc -> recv_packet now pc = Some (p, pc') ->
    task_step s (with_objects s (<[id := pc']> (objects s)))
| step_migrate a s : task_step s (with_remote s a).

(** The connection by itself, with the consumer of the accepted items. *)
Inductive step : Loop Ch Ac -> Loop Ch Ac -> Prop :=
| step_arm s s' : arm_step s s' -> step s s'
| step_other s s' : task_step s s' -> step s s'
| step_take a ac s : recv (accepted s) = Some (a, ac) -> step s (with_accepted s ac).

Definition reachable : Loop Ch Ac -> Loop Ch Ac -> Prop := rtc step.

(** The loop as the handshake leaves it. *)
Definition initial (ac : Ac) (a : Net.SocketAddr) : Loop Ch Ac :=
  {| udp_sessions := ∅; objects := ∅; next_object := 0; accepted := ac; tasks := []; remote := a |}.

(** ** The invariant *)

(** Sessions lead to packet connections of their own id, which are sound;
    everything queued since the start carries the authenticated user. *)
Record inv (ac0 : Ac) s : Prop := {
  inv_route session id pc :
    udp_sessions s !! session = Some id -> objects s !! id = Some pc ->
    pc_session_id pc = session;
  inv_session session id : udp_sessions s !! session = Some id -> (id < next_object s)%nat;
  inv_object id pc : objects s !! id = Some pc -> (id < next_object s)%nat /\ wf (defragger pc);
  inv_accepted a : a ∈ queued (accepted s) ->
    a ∈ queued ac0 \/ accepted_user a = user /\ accepted_congestion a = congestion;
}.

(** ** Packet connections keep their session *)

Definition kept (pc pc' : PacketConnection Ch) : Prop :=
  pc_session_id pc' = pc_session_id pc /\ defragger pc' = defragger pc.

Definition keeps {A} (c : M (PacketConnection Ch) A) : Prop := forall pc, kept pc (c pc).2.

Lemma keeps_bind {A B} (c : M (PacketConnection Ch) A) (k : A -> M (PacketConnection Ch) B) :
  keeps c -> (forall a, keeps (k a)) -> keeps (mbind c k).
Proof.
  intros Hc Hk pc. unfold mbind. specialize (Hc pc).
  destruct (c pc) as [[a|e] pc']; [|done]. specialize (Hk a pc'). unfold kept in *.
  simpl in Hc. destruct Hk, Hc. split; congruence.
Qed.

Lemma keeps_send_datagram path frame :
  keeps (fun pc => send_datagram path (frame pc) pc).
Proof. intros pc. unfold send_datagram. by destruct (send_error path _). Qed.

Lemma keeps_send_chunks path pid tot address al k chunks :
  keeps (send_chunks path pid tot address al k chunks).
Proof.
  revert k. induction chunks as [|c chunks IH]; intros k; [done|].
  cbn [send_chunks]. apply keeps_bind; [|intros _; apply IH].
  apply (keeps_send_datagram path (fun pc => encode_message _ _ _ _ _ _ _)).
Qed.

Lemma keeps_send path now packet : keeps (send path now packet).
Proof.
  unfold send. case_match; [done|].
  apply keeps_bind; [done|]. intros old. case_match; [done|].
  apply keeps_bind; [done|]. intros al. case_match; [done|]. case_match; [done|].
  apply keeps_bind; [apply keeps_send_chunks|]. intros _.
  apply keeps_bind; [|done]. intros _ || idtac.
  destruct (p_data packet); [|done].
  apply (keeps_send_datagram path (fun pc => encode_message _ _ _ _ _ _ _)).
Qed.

Lemma recv_packet_kept now pc p pc' : recv_packet now pc = Some (p, pc') -> kept pc pc'.
Proof. unfold recv_packet. by destruct (recv (incoming pc)) as [[]|]; intros [= <- <-]. Qed.

Lemma input_total now m pc :
  wf (defragger pc) ->
  exists r pc', input now m pc = Returns (r, pc') /\
    pc_session_id pc' = pc_session_id pc /\ wf (defragger pc').
Proof.
  intros Hw. unfold input. destruct (feed_total now m (defragger pc) Hw) as (r & d & -> & Hd & _).
  destruct r as [[p|]|e]; by eexists _, _.
Qed.

(** ** Preservation *)

Lemma inv_initial ac a : inv ac (initial ac a).
Proof. split; simpl; intros *; try by rewrite lookup_empty. by left. Qed.

(** Replacing a packet connection by one of the same session. *)
Lemma inv_update ac0 s id pc pc' :
  inv ac0 s -> objects s !! id = Some pc ->
  pc_session_id pc' = pc_session_id pc -> wf (defragger pc') ->
  inv ac0 (with_objects s (<[id := pc']> (objects s))).
Proof.
  intros [H1 H2 H3 H4] Hid Hs Hw. split; simpl; try done.
  - intros session id' pc0 Hu. rewrite lookup_insert. case_decide; [|by eauto].
    subst. intros [= <-]. rewrite Hs. by eapply H1.
  - intros id' pc0. rewrite lookup_insert. case_decide; [|by apply H3].
    subst. intros [= <-]. split; [|done]. by eapply H3.
Qed.

Lemma inv_accept ac0 s x ac ok :
  inv ac0 s -> send_wait x (accepted s) = Some (ok, ac) ->
  accepted_user x = user -> accepted_congestion x = congestion -> inv ac0 (with_accepted s ac).
Proof.
  intros [H1 H2 H3 H4] Hx Hu Hc. apply send_wait_spec in Hx as (Hq & _).
  split; simpl; try done. intros a. rewrite Hq. destruct ok; [|by apply H4].
  rewrite elem_of_app, list_elem_of_singleton. intros [Ha| ->]; [by apply H4|by right].
Qed.

(** The state in which a new session has just been entered. *)
Lemma inv_enter ac0 s session now :
  inv ac0 s ->
  inv ac0 {| udp_sessions := <[session := next_object s]> (udp_sessions s);
             objects := <[next_object s := new session now]> (objects s);
             next_object := S (next_object s); accepted := accepted s;
             tasks := tasks s; remote := remote s |}.
Proof.
  intros [H1 H2 H3 H4]. split; simpl; [| | |done].
  - intros session' id pc. rewrite lookup_insert. case_decide as E.
    + subst. intros [= <-]. rewrite lookup_insert_eq. by intros [= <-].
    + intros Hu. rewrite lookup_insert_ne by (specialize (H2 _ _ Hu); lia). by apply H1.
  - intros session' id. rewrite lookup_insert. case_decide; [intros [= <-]; lia|].
    intros Hu. specialize (H2 _ _ Hu). lia.
  - intros id pc. rewrite lookup_insert. case_decide as E.
    + subst. intros [= <-]. split; [lia|]. apply map_Forall_empty.
    + intros Ho. apply H3 in Ho as [? ?]. split; [lia|done].
Qed.

Lemma input_at_inv ac0 now id m s :
  inv ac0 s -> is_Some (objects s !! id) ->
  match input_at now id m s with
  | Continue s' | Stops _ s' => inv ac0 s'
  | Waits | Panicked => False
  end.
Proof.
  intros Hi [pc Hpc]. unfold input_at. rewrite Hpc.
  destruct (inv_object _ _ Hi _ _ Hpc) as [_ Hw].
  destruct (input_total now m pc Hw) as (r & pc' & -> & Hs & Hw').
  destruct r; by eapply inv_update.
Qed.

Lemma on_datagram_inv ac0 now d s :
  inv ac0 s ->
  match on_datagram now d s with
  | Continue s' | Stops _ s' => inv ac0 s'
  | Waits => True
  | Panicked => False
  end.
Proof.
  intros Hi. unfold on_datagram. destruct d as [e|d]; [done|].
  destruct (decode_message d) as [m|e]; [|done].
  destruct (upgrade s (session_id m)) as [id|] eqn:Eu.
  - assert (is_Some (objects s !! id)) as Hid.
    { unfold upgrade in Eu. destruct (udp_sessions s !! session_id m); [|done].
      case_decide; [|done]. by injection Eu as <-. }
    pose proof (input_at_inv ac0 now id m s Hi Hid) as H. by destruct (input_at now id m s).
  - destruct (send_wait _ _) as [[[] a]|] eqn:Ew; [| |done].
    + pose proof (inv_accept _ _ _ _ _ Hi Ew eq_refl eq_refl) as Ha.
      apply (inv_enter _ _ (session_id m) now) in Ha.
      pose proof (input_at_inv ac0 now (next_object s) m _ Ha) as H. simpl in H.
      rewrite lookup_insert_eq in H. specialize (H ltac:(eauto)). by destruct (input_at _ _ _ _).
    + by apply (inv_accept _ _ _ _ _ Hi Ew eq_refl eq_refl).
Qed.

Lemma handle_stream_inv ac0 rng halves s r s' :
  inv ac0 s -> handle_stream rng halves s = Some (r, s') -> inv ac0 s'.
Proof.
  intros Hi. unfold handle_stream.
  destruct (read_tcp_request _) as [[d|e] rcv]; [|by intros [= <- <-]].
  destruct (write_tcp_response _ _ _) as [[u|e] snd]; [|by intros [= <- <-]].
  destruct (send_wait _ _) as [[[] a]|] eqn:Ew; [| |done]; intros [= <- <-];
    by apply (inv_accept _ _ _ _ _ Hi Ew eq_refl eq_refl).
Qed.

Lemma inv_same_but ac0 s s' :
  inv ac0 s -> udp_sessions s' = udp_sessions s -> objects s' = objects s ->
  next_object s' = next_object s -> accepted s' = accepted s -> inv ac0 s'.
Proof.
  intros [H1 H2 H3 H4] Eu Eo En Ea. split; intros *; rewrite ?Eu, ?Eo, ?En, ?Ea; eauto.
Qed.

Lemma arm_step_inv ac0 s s' : inv ac0 s -> arm_step s s' -> inv ac0 s'.
Proof.
  intros Hi Hs. destruct Hs as [s s' E|halves s s' E|now d s s' E].
  - by simplify_eq/=.
  - destruct halves; simplify_eq/=. by eapply inv_same_but.
  - pose proof (on_datagram_inv ac0 now d s Hi) as Hd. by rewrite E in Hd.
Qed.

Lemma task_step_inv ac0 s s' : inv ac0 s -> task_step s s' -> inv ac0 s'.
Proof.
  intros Hi Hs. destruct Hs as [rng l1 halves l2 r s s' El E|id s|path now packet id pc s E
                 |now id pc p pc' s E Er|a s].
  - eapply handle_stream_inv; [|done]. by eapply inv_same_but.
  - destruct Hi as [H1 H2 H3 H4]. split; simpl; try done.
    + intros session id' pc Hu Ho. apply lookup_delete_Some in Ho as [_ Ho]. by eapply H1.
    + intros id' pc Ho. apply lookup_delete_Some in Ho as [_ Ho]. by apply H3.
  - destruct (keeps_send path now packet pc) as [E1 E2]. eapply inv_update; try done.
    rewrite E2. by eapply inv_object.
  - apply recv_packet_kept in Er as [E1 E2]. eapply inv_update; try done.
    rewrite E2. by eapply inv_object.
  - by eapply inv_same_but.
Qed.

Lemma step_inv ac0 s s' : inv ac0 s -> step s s' -> inv ac0 s'.
Proof.
  intros Hi Hs. destruct Hs as [s s' Ha|s s' Ht|a ac s E];
    [by eapply arm_step_inv|by eapply task_step_inv|].
  pose proof (recv_spec (accepted s)) as Hr. rewrite E in Hr. destruct Hr as (Hq & _).
  destruct Hi as [H1 H2 H3 H4]. split; simpl; try done.
  intros x Hx. apply H4. rewrite Hq. by right.
Qed.

(** The invariant counts from any channel. *)
Lemma inv_rebase ac0 ac s : inv ac0 s -> inv ac (with_accepted s ac).
Proof. intros [H1 H2 H3 H4]. split; simpl; try done. by left. Qed.

Lemma reachable_inv ac a s : reachable (initial ac a) s -> inv ac s.
Proof.
  intros Hr. assert (inv ac (initial ac a)) as Hi by apply inv_initial.
  induction Hr as [s|s1 s2 s3 Hs _ IH]; [done|]. apply IH. by eapply step_inv.
Qed.

Lemma input_at_continue now id m s s' :
  input_at now id m s = Continue s' ->
  exists pc pc', objects s !! id = Some pc /\ input now m pc = Returns (Ok tt, pc') /\
    s' = with_objects s (<[id := pc']> (objects s)).
Proof.
  unfold input_at. destruct (objects s !! id) as [pc|]; [|done].
  destruct (input now m pc) as [[[[]|e] pc']|] eqn:Ei; try done. intros [= <-]. by eexists _, _.
Qed.

(** ** What a connection hands over *)

(** [a] is made by a turn or task of the connection between [s] and [s']: it
    carries the connection's user and controller and the address of its peer;
    a stream is one that a task of the connection had, after its request was
    read and answered, and a packet connection is in its store. *)
Definition comes_from s s' (a : Accepted) : Prop :=
  accepted_user a = user /\ accepted_congestion a = congestion /\ accepted_source a = remote s /\
  match a with
  | AcceptedStream halves d _ _ _ => exists rng stream, stream ∈ tasks s /\
      read_tcp_request (snd stream) = (Ok d, snd halves) /\
      write_tcp_response rng None (fst stream) = (Ok tt, fst halves)
  | AcceptedPacket id _ _ _ _ => (id < next_object s')%nat
  end.

Definition hands_over s s' : Prop :=
  (next_object s <= next_object s')%nat /\
  exists items, queued (accepted s') = queued (accepted s) ++ items /\ Forall (comes_from s s') items.

Lemma hands_nothing s s' :
  next_object s' = next_object s -> queued (accepted s') = queued (accepted s) -> hands_over s s'.
Proof. intros En Eq. split; [lia|]. exists []. by rewrite app_nil_r. Qed.

Lemma input_at_hands now id m s :
  match input_at now id m s with
  | Continue s' | Stops _ s' => next_object s' = next_object s /\ accepted s' = accepted s
  | Waits | Panicked => True
  end.
Proof.
  unfold input_at. destruct (objects s !! id) as [pc|]; [|done].
  by destruct (input now m pc) as [[[u|e] pc']|].
Qed.

Lemma on_datagram_hands now d s :
  match on_datagram now d s with
  | Continue s' | Stops _ s' => hands_over s s'
  | Waits | Panicked => True
  end.
Proof.
  unfold on_datagram. destruct d as [e|d]; [by apply hands_nothing|].
  destruct (decode_message d) as [m|e]; [|by apply hands_nothing].
  destruct (upgrade s (session_id m)) as [id|].
  - pose proof (input_at_hands now id m s) as H.
    destruct (input_at now id m s) as [s'|r s'| |]; try done; destruct H as [En Ea];
      apply hands_nothing; congruence.
  - destruct (send_wait _ _) as [[[] a]|] eqn:Ew; [| |done]; apply send_wait_spec in Ew as (Hq & _).
    2: by apply hands_nothing.
    match goal with |- context [input_at now ?i m ?t] => pose proof (input_at_hands now i m t) as H;
      destruct (input_at now i m t) as [s'|r s'| |] end; try done; destruct H as [En Ea]; simpl in En, Ea;
      (split; [lia|]); eexists; rewrite Ea, Hq; (split; [done|]); apply Forall_singleton;
      repeat split; rewrite En; lia.
Qed.

Lemma task_step_hands s s' : task_step s s' -> hands_over s s'.
Proof.
  intros Hs. destruct Hs as [rng l1 halves l2 r s s' El E|id s|path now packet id pc s E
                 |now id pc p pc' s E Er|a s]; try by apply hands_nothing.
  revert E. unfold handle_stream.
  destruct (read_tcp_request _) as [[d|e] rcv] eqn:Er; [|by intros [= <- <-]; apply hands_nothing].
  destruct (write_tcp_response _ _ _) as [[u|e] snd] eqn:Ew; [|by intros [= <- <-]; apply hands_nothing].
  destruct (send_wait _ _) as [[[] a]|] eqn:Es; [| |done]; intros [= <- <-];
    apply send_wait_spec in Es as (Hq & _); [|by apply hands_nothing].
  split; [done|]. eexists. split; [exact Hq|]. apply Forall_singleton. repeat split.
  destruct u. exists rng, halves. split; [|done]. rewrite El. apply elem_of_app. right. by left.
Qed.

(** ** Properties *)

(** C9: in every state an authenticated connection can reach, whatever the
    peer sends and however tasks, owners and the consumer interleave, a
    session id leads only to packet connections made for that session;
    everything the connection hands over carries the authenticated user and
    the negotiated controller; and no datagram makes the loop panic. *)
Theorem sessions_sound ac a s (Hreach : reachable (initial ac a) s) :
  (forall session id pc, udp_sessions s !! session = Some id -> objects s !! id = Some pc ->
     pc_session_id pc = session) /\
  (forall x, x ∈ queued (accepted s) ->
     x ∈ queued ac \/ accepted_user x = user /\ accepted_congestion x = congestion) /\
  (forall now d, on_datagram now d s <> Panicked).
Proof.
  apply reachable_inv in Hreach. split_and!.
  - apply (inv_route _ _ Hreach).
  - apply (inv_accepted _ _ Hreach).
  - intros now d Hp. pose proof (on_datagram_inv _ now d s Hreach) as H. by rewrite Hp in H.
Qed.


(** C14: a proxied stream, end to end.  What the client writes for a
    destination makes the server hand over a stream to that destination for
    the authenticated user, positioned at the first application byte; and the
    server's answer is one that the client accepts, leaving the application
    bytes that follow. *)
Theorem proxied_stream rng_c rng_s dest s payload e ending1 e'
    (Hwf : Address.wf dest) (Hcan : Address.canonical dest)
    (Hlen : len (Address.to_string dest) <= MAX_ADDRESS_LENGTH)
    (Halive : alive (accepted s) = true)
    (Hroom : (length (queued (accepted s)) < capacity (accepted s))%nat) :
  let client := write_tcp_request rng_c dest (open_send [] e) in
  client.1 = Ok tt /\
  exists snd s',
    handle_stream rng_s
      (open_send [] e', {| pending := written client.2 ++ payload; ending := ending1 |}) s
    = Some (Ok tt, s') /\
    queued (accepted s') = queued (accepted s) ++
      [AcceptedStream (snd, {| pending := payload; ending := ending1 |}) dest user (remote s)
         congestion] /\
    forall rest ending2,
      read_tcp_response {| pending := written snd ++ rest; ending := ending2 |}
      = (Ok tt, {| pending := rest; ending := ending2 |}).
Proof.
  intros client.
  assert (0 < len (Address.to_string dest)) as Hpos.
  { destruct Hwf as (_ & _ & Hp). pose proof (Address.to_string_len dest ltac:(lia)).
    pose proof (len_nonneg (Address.host dest)). lia. }
  assert (client = (Ok tt, open_send (request_frame rng_c (Address.to_string dest)) e)) as ->.
  { unfold client. by rewrite request_writes. }
  split; [done|]. unfold handle_stream. cbn [fst snd open_send written].
  rewrite (request_reads rng_c (Address.to_string dest) dest)
    by (done || by apply Address.to_string_valid || by apply Address.from_str_to_string).
  rewrite response_writes, write_all_open.
  destruct (send_wait _ _) as [[ok ac]|] eqn:Ew.
  2:{ unfold send_wait in Ew. rewrite Halive in Ew. by rewrite bool_decide_true in Ew. }
  pose proof Ew as (Hq & _ & _ & Hok)%send_wait_spec. rewrite Halive in Hok. subst ok.
  eexists _, _. split_and!; [done|exact Hq|]. intros rest en. cbn [open_send written app].
  rewrite response_reads by apply truncated_len. done.
Qed.
End Loop.

(** ** Examples *)

Definition example_remote : Net.SocketAddr :=
  {| Net.ip := Net.V4 [127; 0; 0; 1]; Net.port := 40000; Net.scope_id := 0 |}.

Definition example_initial : Loop (ListChannel.Chan Packet) (ListChannel.Chan Accepted) :=
  initial (channel 256) example_remote.

Definition example_datagram : bytes :=
  encode_message 9 7 Byte.x00 Byte.x01 (str "1.1.1.1:53") [Byte.x0a] (str "query").

Definition example_next : Loop (ListChannel.Chan Packet) (ListChannel.Chan Accepted) :=
  match on_datagram (str "alice") Congestion.Bbr 5 (inr example_datagram) example_initial with
  | Continue s => s
  | _ => example_initial
  end.

Lemma sessions_sound_witness :
  udp_sessions example_next !! 9 = Some 0%nat /\
  forall now d, on_datagram (str "alice") Congestion.Bbr now d example_next <> Panicked.
Proof.
  split; [vm_compute; reflexivity|].
  refine (proj2 (proj2 (sessions_sound (str "alice") Congestion.Bbr (channel 256) example_remote
    example_next _))).
  apply rtc_once, step_arm, (step_datagram _ _ 5 (inr example_datagram)). vm_compute. reflexivity.
Defined.


Lemma proxied_stream_witness :
  (write_tcp_request short_rng example_address (open_send [] (Io UnexpectedEof))).1 = Ok tt.
Proof.
  refine (proj1 (proxied_stream (str "alice") Congestion.Bbr short_rng short_rng example_address
    example_initial (str "GET /") (Io UnexpectedEof) None (Io UnexpectedEof)
    example_wf example_canonical _ _ _)).
  - by vm_compute.
  - reflexivity.
  - simpl. lia.
Defined.

End Hy2Session.
