(* ===== verification/Hy2Relay.v ===== *)
(** * UDP over Hysteria2, end to end

    From [Hysteria2PacketConnection::send] of [src/src/hysteria2/packet.rs]
    on one side to the packets that the application takes from
    [Hysteria2PacketConnection::recv] on the other, through the event loop of
    [src/src/hysteria2/server.rs].  Sends may fail midway; datagrams may be
    lost and overtake each other; the loop, its tasks and the application
    interleave. *)

From Stdlib Require Import ZArith Lia.
From stdpp Require Import base gmap list strings relations.
From S2P Require Import Prelude Error VarInt Text Net Address Channels Congestion Hy2Packet Hy2Reassembly Hy2Session.
Import Hy2Packet.

#[local] Open Scope Z_scope.
#[local] Open Scope rust_scope.

Module Hy2Relay.
Import Hy2Reassembly.

(** ** Many packets through one defragmenter *)

(** A packet on its way: its id, its destination and its payload in the
    pieces that travel. *)
Record Sent := { s_pid : Z; s_dest : Address.Address; s_chunks : list bytes }.

#[local] Instance Sent_eq_dec : EqDecision Sent.
Proof. solve_decision. Defined.

Definition whole (x : Sent) : Packet :=
  {| p_data := concat (s_chunks x); p_destination := s_dest x |}.

Definition sent_ok (x : Sent) : Prop :=
  1 <= len (s_chunks x) <= 255 /\ len (concat (s_chunks x)) <= MAX_UDP_SIZE.

Definition piece (sid : Z) (x : Sent) (i : nat) (c : bytes) : UdpMessage :=
  frag sid (s_pid x) (s_dest x) (s_chunks x) i c.

(** All pieces of a packet are among the messages of a trace. *)
Definition arrived (tr : list (Z * UdpMessage)) (x : Sent) : Prop :=
  complete (s_chunks x) (seen (s_pid x) tr).

#[local] Instance arrived_dec tr x : Decision (arrived tr x).
Proof. unfold arrived, complete. apply _. Defined.

(** What the results of a run hand on. *)
Definition outputs (rs : list (Result (option Packet))) : list Packet :=
  omap (fun r => match r with Ok x => x | Err _ => None end) rs.

Lemma outputs_snoc rs r :
  outputs (rs ++ [r]) = outputs rs ++ match r with Ok (Some p) => [p] | _ => [] end.
Proof. unfold outputs. rewrite omap_app. by destruct r as [[]|]. Qed.

Lemma seen_snoc pid tr now m :
  seen pid (tr ++ [(now, m)])
  = (if decide (packet_id m = pid) then {[index_of m]} else ∅) ∪ seen pid tr.
Proof.
  induction tr as [|[t m'] tr IH]; simpl; [done|]. rewrite IH. set_solver.
Qed.

Lemma filter_ext_in {A} (P Q : A -> Prop) `{!forall x, Decision (P x), !forall x, Decision (Q x)}
    (l : list A) :
  (forall y, y ∈ l -> (P y <-> Q y)) -> filter Q l = filter P l.
Proof.
  induction l as [|x l IH]; intros Hext; [done|]. rewrite !filter_cons, IH by set_solver.
  specialize (Hext x ltac:(set_solver)). repeat case_decide; tauto.
Qed.

Lemma elem_of_concat {A} (x : A) ls : x ∈ concat ls <-> exists l, l ∈ ls /\ x ∈ l.
Proof.
  induction ls as [|l ls IH]; simpl; [set_solver|]. rewrite elem_of_app, IH. set_solver.
Qed.

Lemma nodup_fmap_inj {A B} (f : A -> B) (l : list A) a b :
  NoDup (f <$> l) -> a ∈ l -> b ∈ l -> f a = f b -> a = b.
Proof.
  intros Hnd [i Hi]%list_elem_of_lookup [j Hj]%list_elem_of_lookup E.
  assert (i = j) as ->; [|congruence].
  eapply NoDup_lookup; [exact Hnd|by rewrite list_lookup_fmap, Hi|].
  rewrite list_lookup_fmap, Hj. simpl. by rewrite E.
Qed.

(** One more element satisfies the predicate of a filter. *)
Lemma filter_one_more {A} (P Q : A -> Prop) `{!forall x, Decision (P x), !forall x, Decision (Q x)}
    (l : list A) x :
  NoDup l -> x ∈ l -> ~ P x -> Q x -> (forall y, y ∈ l -> y <> x -> (P y <-> Q y)) ->
  filter Q l ≡ₚ filter P l ++ [x].
Proof.
  intros Hnd (l1 & l2 & ->)%list_elem_of_split HP HQ Hext.
  apply NoDup_app in Hnd as (_ & Hx & [Hx2 _]%NoDup_cons).
  assert (forall l', l' ⊆ l1 ++ x :: l2 -> x ∉ l' -> filter Q l' = filter P l') as Hf.
  { intros l' Hsub Hni. apply filter_ext_in. intros y Hy.
    apply Hext; [by apply Hsub|]. by intros ->. }
  rewrite !filter_app, filter_cons_True, filter_cons_False by done.
  rewrite (Hf l1), (Hf l2) by set_solver. rewrite <-app_assoc. f_equiv.
  by rewrite Permutation_cons_append.
Qed.

Section Many.
Context (sid t0 : Z) (ss : list Sent).
Context (Hok : Forall sent_ok ss) (Hids : NoDup (s_pid <$> ss)).

(** A trace of pieces of these packets, each at most once. *)
Definition from (tr : list (Z * UdpMessage)) : Prop :=
  Forall (fun y => t0 <= y.1 <= t0 + FRAGMENT_LIFETIME /\
    exists x i c, x ∈ ss /\ s_chunks x !! i = Some c /\ y.2 = piece sid x i c) tr /\
  NoDup (snd <$> tr).

(** The defragmenter keeps what a packet still waits with, and nothing once
    it is complete. *)
Definition tracked (d : Defragger) (tr : list (Z * UdpMessage)) (x : Sent) : Prop :=
  in_window (s_pid x) t0 d /\ (arrived tr x -> d !! s_pid x = None) /\
  (~ arrived tr x -> holds (s_pid x) (s_dest x) (s_chunks x) d (seen (s_pid x) tr)).

Lemma pid_inj x y : x ∈ ss -> y ∈ ss -> s_pid x = s_pid y -> x = y.
Proof. by apply nodup_fmap_inj. Qed.

Lemma piece_index x i c :
  x ∈ ss -> s_chunks x !! i = Some c -> index_of (piece sid x i c) = i.
Proof.
  intros Hx Hi%lookup_lt_Some. rewrite Forall_forall in Hok. destruct (Hok x Hx) as [Hn _].
  unfold index_of. simpl. rewrite bz_zb_small by (unfold len in Hn; lia). lia.
Qed.

(** An index is seen when its piece has come. *)
Lemma seen_piece tr x i c :
  from tr -> x ∈ ss -> s_chunks x !! i = Some c ->
  (i ∈ seen (s_pid x) tr <-> piece sid x i c ∈ snd <$> tr).
Proof.
  intros [Hf _] Hx Hi. induction Hf as [|[t m] tr [_ (y & j & c' & Hy & Hj & Hm)] _ IH].
  { simpl. set_solver. }
  simpl in Hm. csimpl. rewrite elem_of_union, elem_of_cons, IH. f_equiv. case_decide as Hp.
  - fold (index_of m). rewrite elem_of_singleton. subst m. simpl in Hp.
    apply (pid_inj y x Hy Hx) in Hp as ->. rewrite (piece_index x j c') by done.
    split; [intros <-; congruence|]. intros E%(f_equal index_of).
    by rewrite !piece_index in E.
  - split; [set_solver|]. intros <-. by destruct Hp.
Qed.

Lemma seen_other tr now m x : packet_id m <> s_pid x -> seen (s_pid x) (tr ++ [(now, m)]) = seen (s_pid x) tr.
Proof. intros Hne. rewrite seen_snoc, decide_False by done. set_solver. Qed.
(** A message of another packet changes nothing for this one. *)
Lemma tracked_other d d' tr now m x :
  d' !! s_pid x = d !! s_pid x -> packet_id m <> s_pid x -> tracked d tr x ->
  tracked d' (tr ++ [(now, m)]) x.
Proof.
  intros Ed Hne. unfold tracked, arrived, in_window, holds. by rewrite (seen_other tr now m x Hne), Ed.
Qed.

(** A packet of one piece is never kept. *)
Lemma single_untracked d tr x c :
  wf d -> s_chunks x = [c] -> tracked d tr x -> d !! s_pid x = None.
Proof.
  intros Hd Hc (_ & Ha & Ht). destruct (decide (arrived tr x)) as [|Hna]; [by apply Ha|].
  destruct (Ht Hna) as [[E _]|[t E]]; [done|].
  apply Hd in E as (_ & _ & Hl). simpl in Hl. rewrite len_parts_of, Hc in Hl. change (len [c]) with 1 in Hl. lia.
Qed.

Lemma not_seen tr now x i c :
  from (tr ++ [(now, piece sid x i c)]) -> x ∈ ss -> s_chunks x !! i = Some c ->
  from tr /\ (i ∉ seen (s_pid x) tr) /\ ~ arrived tr x.
Proof.
  intros [Hf Hnd] Hx Hi. rewrite fmap_app in Hnd. apply Forall_app in Hf as [Hf _].
  apply NoDup_app in Hnd as (Hnd & Hni & _). assert (from tr) as Hfr by done.
  assert (i ∉ seen (s_pid x) tr) as Hs.
  { rewrite (seen_piece tr x i c Hfr Hx Hi). intros Hin. apply (Hni _ Hin). simpl. set_solver. }
  split_and!; [done|done|]. intros Ha. apply Hs. unfold arrived, complete in Ha.
  rewrite Forall_forall in Ha. apply Ha, elem_of_seq. apply lookup_lt_Some in Hi. lia.
Qed.

(** A piece of a packet in several pieces completes it, or is kept. *)
Lemma feed_several d now x i c S :
  2 <= len (s_chunks x) <= 255 -> len (concat (s_chunks x)) <= MAX_UDP_SIZE ->
  s_chunks x !! i = Some c -> t0 <= now <= t0 + FRAGMENT_LIFETIME ->
  in_window (s_pid x) t0 d -> holds (s_pid x) (s_dest x) (s_chunks x) d S ->
  ~ complete (s_chunks x) S ->
  let S' := {[i]} ∪ S in
  exists r d', feed now (piece sid x i c) d = Returns (Ok r, d') /\ in_window (s_pid x) t0 d' /\
    (complete (s_chunks x) S' -> r = Some (whole x) /\ d' !! s_pid x = None) /\
    (~ complete (s_chunks x) S' -> r = None /\
       holds (s_pid x) (s_dest x) (s_chunks x) d' S').
Proof.
  intros Hn Hlen Hi Hnow Hw Hh Hnc S'. apply (holds_filter _ _ _ t0 now) in Hh; [|done|done].
  unfold piece. rewrite (feed_ours _ _ _ _ Hn now i c d S Hi Hh Hnc). fold S'.
  unfold holds, in_window, Defragger. case_decide as Hc.
  - unfold verdict. rewrite total_length_concat.
    destruct (Z.gtb_spec (len (concat (s_chunks x))) MAX_UDP_SIZE); [lia|].
    eexists _, _. rewrite lookup_delete_eq. by split_and!.
  - eexists _, _. rewrite lookup_insert_eq. split_and!; [done| |done|].
    + intros f [= <-]. done.
    + intros _. split; [done|]. right. by exists now.
Qed.

(** A piece of any packet. *)
Lemma feed_piece tr d now x i c :
  let m := piece sid x i c in
  from (tr ++ [(now, m)]) -> x ∈ ss -> s_chunks x !! i = Some c -> wf d -> tracked d tr x ->
  exists r d', feed now m d = Returns (Ok r, d') /\ tracked d' (tr ++ [(now, m)]) x /\
    r = if decide (arrived (tr ++ [(now, m)]) x) then Some (whole x) else None.
Proof.
  intros m Hfrom Hx Hi Hd Htr. destruct (not_seen tr now x i c Hfrom Hx Hi) as (_ & Hs & Hna).
  assert (t0 <= now <= t0 + FRAGMENT_LIFETIME) as Hnow.
  { destruct Hfrom as [[_ Hm]%Forall_app _]. apply Forall_cons in Hm as [[Hm _] _]. done. }
  pose proof (proj1 (Forall_forall _ _) Hok x Hx) as [Hn Hlen].
  assert (seen (s_pid x) (tr ++ [(now, m)]) = {[i]} ∪ seen (s_pid x) tr) as Hseen.
  { rewrite seen_snoc, decide_True by done. unfold m. by rewrite piece_index. }
  destruct (decide (2 <= len (s_chunks x))) as [H2|H2].
  - destruct Htr as (Hw & _ & Hh).
    destruct (feed_several d now x i c _ ltac:(lia) Hlen Hi Hnow Hw (Hh Hna) Hna)
      as (r & d' & Hfeed & Hw' & Hc & Hnc). exists r, d'. rewrite <-Hseen in Hc, Hnc.
    unfold tracked. case_decide as Ha.
    + destruct (Hc Ha). by split_and!.
    + destruct (Hnc Ha). by split_and!.
  - assert (s_chunks x = [c] /\ i = 0%nat) as [Ec ->].
    { destruct (s_chunks x) as [|c0 [|c1 cs]]; [done| |rewrite !len_cons in H2; pose proof (len_nonneg cs); lia].
      destruct i; [by injection Hi as ->|done]. }
    assert (arrived (tr ++ [(now, m)]) x) as Ha.
    { unfold arrived. rewrite Ec, Hseen. apply Forall_singleton. set_solver. }
    exists (Some (whole x)), d. rewrite decide_True by done. split; [|split; [|done]].
    + unfold m, whole. rewrite feed_single; simpl; rewrite Ec; [|done]. simpl. by rewrite app_nil_r.
    + split_and!; [apply Htr|intros _; by eapply single_untracked|done].
Qed.

Lemma not_arrived x : x ∈ ss -> ~ arrived [] x.
Proof.
  intros Hx Ha. pose proof (proj1 (Forall_forall _ _) Hok x Hx) as [Hn _].
  unfold arrived, complete in Ha. rewrite Forall_forall in Ha.
  assert (0%nat ∈ (∅ : gset nat)); [|set_solver]. apply Ha, elem_of_seq. unfold len in Hn. lia.
Qed.

(** Of the packets whose pieces come in any order, exactly those that come
    completely are handed on. *)
Lemma run_many tr :
  from tr -> exists rs d, run tr ∅ = Returns (rs, d) /\ wf d /\
    Forall (fun r => exists p, r = Ok p) rs /\
    (forall x, x ∈ ss -> tracked d tr x) /\ outputs rs ≡ₚ whole <$> filter (arrived tr) ss.
Proof.
  induction tr as [|[now m] tr IH] using rev_ind; intros Hf.
  { exists [], ∅. split_and!; [done|apply map_Forall_empty|done| |].
    - intros x Hx. split_and!; [by intros f ?%lookup_empty_Some| |intros _; by left].
      by intros []%not_arrived.
    - rewrite (filter_ext_in (fun _ => False) (arrived []) ss); [by clear; induction ss|].
      intros x Hx. pose proof (not_arrived x Hx). tauto. }
  pose proof Hf as [HF _]. rename Hf into Hfrom.
  apply Forall_app in HF as [_ [[_ (x & i & c & Hx & Hi & Hm)] _]%Forall_cons]. simpl in Hm. subst m.
  destruct (not_seen tr now x i c Hfrom Hx Hi) as (Hft & Hs & Hna).
  destruct (IH Hft) as (rs & d & Hrun & Hd & Hrs & Htr & Hout).
  destruct (feed_piece tr d now x i c Hfrom Hx Hi Hd (Htr x Hx)) as (r & d' & Hfeed & Htx & Hr).
  set (m := piece sid x i c) in *. exists (rs ++ [Ok r]), d'.
  assert (wf d') as Hd'.
  { destruct (feed_total now m d Hd) as (r0 & d0 & H0 & Hd0 & _). rewrite Hfeed in H0.
    by injection H0 as _ <-. }
  assert (forall y, y ∈ ss -> y <> x -> packet_id m <> s_pid y) as Hpid.
  { intros y Hy Hne Hp. apply Hne. symmetry. by apply pid_inj. }
  split_and!; [|done|by apply Forall_app; split; [done|apply Forall_singleton; eauto]| |].
  - by rewrite run_app, Hrun; simpl; rewrite Hfeed.
  - intros y Hy. destruct (decide (y = x)) as [->|Hne]; [done|].
    apply (tracked_other d); [|by apply Hpid|by apply Htr].
    eapply feed_other; [exact Hd|by apply Hpid|exact Hfeed|]. intros f Hfy.
    eapply in_window_fresh; [apply (Htr y Hy)| |exact Hfy].
    destruct Hfrom as [[_ [[Hnow _] _]%Forall_cons]%Forall_app _]. done.
  - rewrite outputs_snoc, Hout, Hr. case_decide as Ha.
    + rewrite (filter_one_more (arrived tr) (arrived (tr ++ [(now, m)])) ss x), fmap_app; try done.
      * by eapply NoDup_fmap_1.
      * intros y Hy Hne. unfold arrived. by rewrite seen_other by by apply Hpid.
    + rewrite app_nil_r. erewrite (filter_ext_in (arrived tr) (arrived (tr ++ [(now, m)]))); [done|].
      intros y Hy. destruct (decide (y = x)) as [->|Hne]; [done|].
      unfold arrived. by rewrite seen_other by by apply Hpid.
Qed.
End Many.

(** ** Sending *)

Section Sending.
Context {Ch : Type} `{MC : Mpsc Ch Packet}.
Implicit Types s : PacketConnection Ch.

(** The datagrams of a packet. *)
Definition wire (sid : Z) (x : Sent) : list bytes :=
  let address := Address.to_string (s_dest x) in
  imap (fun i c => encode_message sid (s_pid x) (zb (Z.of_nat i)) (zb (len (s_chunks x))) address
                     (VarInt.encoded (len address)) c) (s_chunks x).

(** The chunks of a send that fails have gone out up to the one that was
    refused. *)
Lemma send_chunks_prefix path pid tot address al k chunks s r s' :
  send_chunks path pid tot address al k chunks s = (r, s') ->
  pc_session_id s' = pc_session_id s /\ next_packet_id s' = next_packet_id s /\
  exists n, outbox s' = outbox s ++ take n (imap (fun i c =>
      encode_message (pc_session_id s) pid (zb (k + Z.of_nat i)) tot address al c) chunks) /\
    (r = Ok tt -> n = length chunks) /\ (r <> Ok tt -> (n < length chunks)%nat).
Proof.
  revert k s. induction chunks as [|c chunks IH]; intros k s.
  { intros [= <- <-]. split_and!; [done..|]. exists 0%nat. by rewrite app_nil_r. }
  cbn [send_chunks]. unfold mbind, send_datagram. destruct (send_error path _) as [e|].
  { intros [= <- <-]. split_and!; [done..|]. exists 0%nat. rewrite app_nil_r.
    split_and!; [done|done|]. simpl. lia. }
  intros Hs. apply IH in Hs as (H1 & H2 & n & Ho & Hn1 & Hn2). simpl in *.
  split_and!; [done..|]. exists (S n). split_and!.
  - rewrite Ho, <-app_assoc. simpl. rewrite Z.add_0_r. do 3 f_equal.
    apply imap_ext. intros i c' _. simpl. do 2 f_equal. lia.
  - intros Hr. by rewrite Hn1.
  - intros Hr. specialize (Hn2 Hr). lia.
Qed.

(** A send that fails has sent nothing, or some of the datagrams. *)
Lemma send_failed path now p s e s' :
  send path now p s = (Err e, s') ->
  pc_session_id s' = pc_session_id s /\
  ((outbox s' = outbox s /\
    (next_packet_id s' = next_packet_id s \/ next_packet_id s' = wrap 32 (next_packet_id s + 1))) \/
   exists x n, s_pid x = wrap 32 (next_packet_id s + 1) mod u16_max /\ whole x = p /\ sent_ok x /\
     0 < len (Address.to_string (s_dest x)) <= MAX_ADDRESS_LENGTH /\
     next_packet_id s' = wrap 32 (next_packet_id s + 1) /\
     outbox s' = outbox s ++ take n (wire (pc_session_id s) x) /\ (n < length (s_chunks x))%nat).
Proof.
  set (address := Address.to_string (p_destination p)). unfold send.
  destruct (Z.gtb_spec (len (p_data p)) MAX_UDP_SIZE) as [|Hd]; [intros [= _ <-]; auto|].
  unfold mbind at 1. cbn [fetch_add]. fold address.
  destruct ((len address =? 0) || (len address >? MAX_ADDRESS_LENGTH)) eqn:Ea;
    [intros [= _ <-]; auto|].
  pose proof (len_nonneg address).
  assert (0 < len address <= MAX_ADDRESS_LENGTH) as Hal by lia. unfold mbind at 1, mlift.
  rewrite VarInt.encode_encoded
    by (unfold MAX_ADDRESS_LENGTH in Hal; unfold VarInt.MAX; rewrite Z.shiftl_1_l; lia).
  change (UDP_HEADER_SIZE + len (VarInt.encoded (len address)) + len address)
    with (header_size address).
  rewrite Z.geb_leb. destruct (Z.leb_spec (datagram_budget path) (header_size address)) as [|Hh];
    [intros [= _ <-]; auto|].
  set (n := datagram_budget path - header_size address) in *. assert (0 < n) as Hn by lia.
  destruct (fragments_of_spec n (p_data p) Hn) as (Hcat & _ & Hlen). rewrite <-Hlen.
  destruct (Z.gtb_spec (len (fragments_of n (p_data p))) u8_max) as [|Ht]; [intros [= _ <-]; auto|].
  set (s1 := {| pc_session_id := _ |}). unfold mbind.
  destruct (send_chunks path _ _ address _ 0 (chunks (Z.to_nat n) (p_data p)) s1)
    as [[[]|e'] s2] eqn:Es;
    apply send_chunks_prefix in Es as (H1 & H2 & m & Ho & Hm & Hm').
  - destruct (p_data p) as [|b rest] eqn:Ep; [|done].
    unfold send_datagram. destruct (send_error path _); [|done]. intros [= _ <-].
    split; [done|]. left. split; [|by right]. rewrite Ho. simpl. by rewrite take_nil, app_nil_r.
  - intros [= _ <-]. split; [done|]. right.
    exists {| s_pid := wrap 32 (next_packet_id s + 1) mod u16_max; s_dest := p_destination p;
              s_chunks := fragments_of n (p_data p) |}, m. simpl.
    assert (fragments_of n (p_data p) = chunks (Z.to_nat n) (p_data p)) as Hf.
    { destruct (p_data p); [simpl in Hm'; specialize (Hm' ltac:(done)); lia|done]. }
    split; [done|]. split; [unfold whole; simpl; rewrite Hcat; by destruct p|].
    split; [split; simpl; [unfold u8_max in Ht; lia|by rewrite Hcat]|]. split; [done|].
    split; [done|]. split; [|rewrite Hf; by apply Hm'].
    rewrite Ho. unfold wire. cbn [s_chunks s_pid s_dest outbox s1]. fold address. rewrite Hf.
    do 2 f_equal. apply imap_ext. intros i c _. simpl. f_equal.
    apply wrap_small. pose proof (Z.mod_pos_bound (wrap 32 (next_packet_id s + 1)) u16_max ltac:(done)).
    unfold uint, u16_max in *. lia.
Qed.

(** A send, whether it succeeds or fails. *)
Lemma send_any path now p s r s' :
  send path now p s = (r, s') ->
  pc_session_id s' = pc_session_id s /\
  ((r <> Ok tt /\ outbox s' = outbox s /\
    (next_packet_id s' = next_packet_id s \/ next_packet_id s' = wrap 32 (next_packet_id s + 1))) \/
   exists x n, s_pid x = wrap 32 (next_packet_id s + 1) mod u16_max /\ whole x = p /\ sent_ok x /\
     0 < len (Address.to_string (s_dest x)) <= MAX_ADDRESS_LENGTH /\
     next_packet_id s' = wrap 32 (next_packet_id s + 1) /\
     outbox s' = outbox s ++ take n (wire (pc_session_id s) x) /\
     (r = Ok tt -> n = length (s_chunks x)) /\ (r <> Ok tt -> (n < length (s_chunks x))%nat)).
Proof.
  destruct (decide (r = Ok tt)) as [->|Hr].
  - intros Hs. pose proof (send_ok _ _ _ _ _ Hs) as Hok. cbv zeta in Hok.
    destruct Hok as (Hn & Hd & Hal & Hcs & Hsame & Hnext & _ & Hout).
    destruct (fragments_of_spec _ (p_data p) Hn) as (Hcat & _ & Hlen).
    split; [apply Hsame|]. right.
    eexists {| s_pid := _; s_dest := p_destination p; s_chunks := _ |}, _. simpl.
    split; [done|]. split; [unfold whole; simpl; rewrite Hcat; by destruct p|].
    split; [split; simpl; [unfold u8_max in Hcs; lia|by rewrite Hcat]|]. split; [done|].
    split; [done|]. split; [|done]. rewrite Hout. f_equal. symmetry. apply take_ge.
    unfold wire. rewrite length_imap. simpl. lia.
  - destruct r as [[]|e]; [done|]. intros [Hsid [[Ho Hn]|(x & n & Hx)]]%send_failed;
      (split; [done|]); [by left|right]. exists x, n. naive_solver.
Qed.
(** What a side connection does besides sending. *)
Inductive aside : PacketConnection Ch -> PacketConnection Ch -> Prop :=
| aside_input now m r s s' : input now m s = Returns (r, s') -> aside s s'
| aside_recv now p s s' : recv_packet now s = Some (p, s') -> aside s s'.

(** An attempt to send: the packet, whether [send] succeeded, and the
    datagrams that went out. *)
Record Attempt := { a_packet : Packet; a_ok : bool; a_datagrams : list bytes }.

Inductive attempts : PacketConnection Ch -> list Attempt -> PacketConnection Ch -> Prop :=
| attempts_nil s : attempts s [] s
| attempts_send path now p r ds log s s1 s2 :
    attempts s log s1 -> send path now p s1 = (r, s2) -> outbox s2 = outbox s1 ++ ds ->
    attempts s (log ++ [{| a_packet := p; a_ok := is_ok r; a_datagrams := ds |}]) s2
| attempts_aside log s s1 s2 : attempts s log s1 -> aside s1 s2 -> attempts s log s2.

Lemma aside_same s s' :
  aside s s' -> pc_session_id s' = pc_session_id s /\ next_packet_id s' = next_packet_id s /\
    outbox s' = outbox s.
Proof.
  destruct 1 as [now m r s s' E|now p s s' E].
  - unfold input in E. destruct (feed now m (defragger s)) as [[[[]|] d]|];
      simplify_eq/=; by split_and!.
  - unfold recv_packet in E. destruct (recv (incoming s)) as [[]|]; simplify_eq/=. by split_and!.
Qed.

(** How an attempt is explained by a packet on its way: one that got as far
    as the datagrams, [n] of which went out. *)
Definition explained (sid : Z) (a : Attempt) (x : option (Sent * nat)) : Prop :=
  match x with
  | None => a_ok a = false /\ a_datagrams a = []
  | Some (x, n) =>
      whole x = a_packet a /\ sent_ok x /\
      0 < len (Address.to_string (s_dest x)) <= MAX_ADDRESS_LENGTH /\
      a_datagrams a = take n (wire sid x) /\ (n <= length (s_chunks x))%nat /\
      (a_ok a = true <-> n = length (s_chunks x))
  end.

Definition sents (xs : list (option (Sent * nat))) : list Sent := fst <$> omap id xs.

Lemma sents_snoc xs x : sents (xs ++ [x]) = sents xs ++ match x with Some (x, _) => [x] | None => [] end.
Proof. unfold sents. rewrite omap_app, fmap_app. by destruct x as [[]|]. Qed.

(** The ids of one run of fewer than 65536 sends differ. *)
Definition numbered (k k' : Z) (xs : list Sent) : Prop :=
  exists js, NoDup js /\ Forall (fun j => k < j <= k') js /\
    Forall2 (fun j x => s_pid x = j mod u16_max) js xs.

Lemma numbered_snoc k k' xs x :
  numbered k k' xs -> k <= k' -> s_pid x = (k' + 1) mod u16_max -> numbered k (k' + 1) (xs ++ [x]).
Proof.
  intros (js & Hnd & Hj & Hx) Hk Hp. exists (js ++ [k' + 1]). split_and!.
  - apply NoDup_app. split_and!; [done| |apply NoDup_singleton].
    intros j Hin. rewrite list_elem_of_singleton. intros ->. rewrite Forall_forall in Hj.
    specialize (Hj _ Hin). lia.
  - apply Forall_app. split; [eapply Forall_impl; [exact Hj|]; simpl; lia|].
    apply Forall_singleton. lia.
  - apply Forall2_app; [done|]. by repeat constructor.
Qed.

Lemma numbered_nodup k k' xs : numbered k k' xs -> k' - k <= u16_max -> NoDup (s_pid <$> xs).
Proof.
  intros (js & Hnd & Hj & Hx) Hk.
  assert (s_pid <$> xs = (fun j => j mod u16_max) <$> js) as ->.
  { clear -Hx. induction Hx as [|j x js xs E _ IH]; [done|]. csimpl. by rewrite E, IH. }
  apply NoDup_fmap_2_strong; [|done]. intros i j Hi' Hj' E. rewrite Forall_forall in Hj.
  pose proof (Hj _ Hi'). pose proof (Hj _ Hj').
  assert ((i - j) mod u16_max = 0) as Hm by (rewrite Zminus_mod, E, Z.sub_diag; done).
  apply Z.mod_divide in Hm as [q Hq]; [|done]. unfold u16_max in *. nia.
Qed.

Lemma numbered_range k k' xs : numbered k k' xs -> Forall (fun x => uint 16 (s_pid x)) xs.
Proof.
  intros (js & _ & _ & Hx). induction Hx as [|j x js xs E _ IH]; constructor; [|done].
  rewrite E. pose proof (Z.mod_pos_bound j u16_max ltac:(done)). unfold uint, u16_max in *. lia.
Qed.

Lemma attempts_explained s log s' :
  attempts s log s' -> 0 <= next_packet_id s -> next_packet_id s + len log < 2 ^ 32 ->
  pc_session_id s' = pc_session_id s /\ outbox s' = outbox s ++ concat (a_datagrams <$> log) /\
  exists xs, Forall2 (explained (pc_session_id s)) log xs /\
    next_packet_id s <= next_packet_id s' <= next_packet_id s + len log /\
    numbered (next_packet_id s) (next_packet_id s') (sents xs).
Proof.
  intros Ha Hk. induction Ha as [s|path now p r ds log s s1 s2 Ha IH Hsend Hds|log s s1 s2 Ha IH Hs];
    intros Hmany.
  - split; [done|]. split; [by rewrite app_nil_r|]. exists []. split; [constructor|].
    split; [rewrite len_nil; lia|]. exists []. split_and!; constructor.
  - rewrite len_app in *. change (len [_]) with 1 in *.
    destruct (IH Hk ltac:(lia)) as (Hsid & Hout & xs & Hxs & Hn & Hnum).
    assert (wrap 32 (next_packet_id s1 + 1) = next_packet_id s1 + 1) as Hw
      by (apply wrap_small; unfold uint; lia).
    destruct (send_any _ _ _ _ _ _ Hsend) as [Hsid2 Hcase]. rewrite Hw in Hcase.
    split; [congruence|]. split; [rewrite Hds, Hout, fmap_app, concat_app; simpl; by rewrite app_nil_r, app_assoc|].
    destruct Hcase as [(Hr & Ho & Hn2)|(x & n & Hp & Hwx & Hok & Hal & Hn2 & Ho & H1 & H2)].
    + exists (xs ++ [None]). rewrite sents_snoc, app_nil_r. split; [|split; [lia|]].
      * apply Forall2_app; [done|]. constructor; [|constructor].
        rewrite Ho in Hds. rewrite <-(app_nil_r (outbox s1)) in Hds at 1. simplify_list_eq.
        split; [|done]. simpl. by destruct r as [[]|].
      * destruct Hn2 as [-> | ->]; [done|]. destruct Hnum as (js & Hnd & Hj & Hx).
        exists js. split_and!; [done| |done]. eapply Forall_impl; [exact Hj|]. simpl. lia.
    + exists (xs ++ [Some (x, n)]). rewrite sents_snoc, Hn2. split; [|split; [lia|]].
      * apply Forall2_app; [done|]. constructor; [|constructor].
        rewrite Ho, Hsid in Hds. simplify_list_eq.
        do 4 (split; [done|]). split.
        -- destruct (decide (r = Ok tt)) as [Hr|Hr]; [by rewrite H1|specialize (H2 Hr); lia].
        -- simpl. destruct r as [[]|e]; simpl; [split; [by intros _; apply H1|done]|].
           split; [done|]. intros ->. specialize (H2 ltac:(done)). lia.
      * apply numbered_snoc; [done|lia|done].
  - apply aside_same in Hs as (E1 & E2 & E3).
    destruct (IH Hk Hmany) as (Hsid & Hout & xs & Hxs & Hn & Hnum). rewrite E1, E2, E3.
    split; [done|]. split; [done|]. by exists xs.
Qed.
End Sending.

(** ** The datagrams as messages *)

Section Messages.
Context (sid t0 : Z) (log : list Attempt) (xs : list (option (Sent * nat))).
Context (Hsid : uint 32 sid) (Hxs : Forall2 (explained sid) log xs).
Context (Hids : NoDup (s_pid <$> sents xs)) (Hpids : Forall (fun x => uint 16 (s_pid x)) (sents xs)).
Context (Hwf : Forall (fun a => Address.wf (p_destination (a_packet a)) /\
                                Address.canonical (p_destination (a_packet a))) log).

Definition read_as (y : Z * bytes) (z : Z * UdpMessage) : Prop :=
  z.1 = y.1 /\ decode_message y.2 = Ok z.2.

Lemma sents_elem x n : Some (x, n) ∈ xs -> x ∈ sents xs.
Proof.
  intros Hin. apply list_elem_of_fmap. exists (x, n). split; [done|].
  apply list_elem_of_omap. by exists (Some (x, n)).
Qed.

Lemma explained_elem a : a ∈ log -> exists x, x ∈ xs /\ explained sid a x.
Proof.
  intros [i Hi]%list_elem_of_lookup. destruct (Forall2_lookup_l _ _ _ _ _ Hxs Hi) as (y & Hy & He).
  exists y. split; [by eapply list_elem_of_lookup_2|done].
Qed.

Lemma explaining_elem x n : Some (x, n) ∈ xs -> exists a, a ∈ log /\ explained sid a (Some (x, n)).
Proof.
  intros [i Hi]%list_elem_of_lookup. destruct (Forall2_lookup_r _ _ _ _ _ Hxs Hi) as (a & Ha & He).
  exists a. split; [by eapply list_elem_of_lookup_2|done].
Qed.

Lemma sents_ok : Forall sent_ok (sents xs).
Proof.
  apply Forall_forall. intros x ([y n] & -> & Hy)%list_elem_of_fmap.
  apply list_elem_of_omap in Hy as (z & Hz & [= ->]). by apply explaining_elem in Hz as (a & _ & _ & Hok & _).
Qed.

Lemma wire_lookup x i d :
  wire sid x !! i = Some d <-> exists c, s_chunks x !! i = Some c /\
    d = encode_message sid (s_pid x) (zb (Z.of_nat i)) (zb (len (s_chunks x)))
          (Address.to_string (s_dest x)) (VarInt.encoded (len (Address.to_string (s_dest x)))) c.
Proof. unfold wire. rewrite list_lookup_imap_Some. naive_solver. Qed.

Lemma wire_decodes x n i c d :
  Some (x, n) ∈ xs -> s_chunks x !! i = Some c -> wire sid x !! i = Some d ->
  decode_message d = Ok (piece sid x i c).
Proof.
  intros Hx Hi (c' & Hc' & ->)%wire_lookup. assert (c' = c) as -> by congruence.
  pose proof (proj1 (Forall_forall _ _) Hpids x (sents_elem x n Hx)) as Hp.
  destruct (explaining_elem x n Hx) as (a & Ha & Hw & _ & Hal & _).
  pose proof (proj1 (Forall_forall _ _) Hwf a Ha) as [H1 H2]. rewrite <-Hw in H1, H2. simpl in H1, H2.
  apply message_roundtrip; [done|done|done|by apply Address.to_string_valid|].
  by apply Address.from_str_to_string.
Qed.

(** A datagram that went out is one of a packet's. *)
Lemma datagram_sent d :
  d ∈ concat (a_datagrams <$> log) -> exists x n i c, Some (x, n) ∈ xs /\ (i < n)%nat /\
    s_chunks x !! i = Some c /\ wire sid x !! i = Some d /\ decode_message d = Ok (piece sid x i c).
Proof.
  intros (l & Hl & Hd)%elem_of_concat. apply list_elem_of_fmap in Hl as (a & -> & Ha).
  destruct (explained_elem a Ha) as ([[x n]|] & Hx & He).
  2:{ destruct He as [_ He]. rewrite He in Hd. by apply elem_of_nil in Hd. }
  destruct He as (_ & _ & _ & Hds & _). rewrite Hds in Hd.
  apply list_elem_of_lookup in Hd as [i Hi]. apply lookup_take_Some in Hi as [Hi Hlt].
  destruct (proj1 (wire_lookup x i d) Hi) as (c & Hc & _). exists x, n, i, c.
  split_and!; [done..|]. by eapply wire_decodes.
Qed.
Lemma sent_once x n n' : Some (x, n) ∈ xs -> Some (x, n') ∈ xs -> n = n'.
Proof.
  intros H1 H2. assert ((x, n) = (x, n')) as E; [|by injection E].
  apply (nodup_fmap_inj fst (omap id xs)); [by eapply NoDup_fmap_1| | |done];
    apply list_elem_of_omap; eauto.
Qed.

Lemma piece_inj x n i c y n' j c' :
  Some (x, n) ∈ xs -> s_chunks x !! i = Some c -> Some (y, n') ∈ xs -> s_chunks y !! j = Some c' ->
  piece sid x i c = piece sid y j c' -> x = y /\ n = n' /\ i = j.
Proof.
  intros Hx Hi Hy Hj E. pose proof (sents_elem x n Hx). pose proof (sents_elem y n' Hy).
  assert (x = y) as <- by (apply (pid_inj (sents xs)); [done..|by apply (f_equal packet_id) in E]).
  apply (f_equal index_of) in E. rewrite !(piece_index sid (sents xs) sents_ok) in E by done.
  split_and!; [done|by eapply sent_once|done].
Qed.

(** Different datagrams of a run are different messages. *)
Lemma decode_inj d1 d2 m :
  d1 ∈ concat (a_datagrams <$> log) -> d2 ∈ concat (a_datagrams <$> log) ->
  decode_message d1 = Ok m -> decode_message d2 = Ok m -> d1 = d2.
Proof.
  intros (x & n & i & c & Hx & _ & Hi & Hw & E1)%datagram_sent
    (y & n' & j & c' & Hy & _ & Hj & Hw' & E2)%datagram_sent D1 D2.
  destruct (piece_inj x n i c y n' j c' Hx Hi Hy Hj ltac:(congruence)) as (<- & _ & <-).
  congruence.
Qed.

Section Arrivals.
Context (arrivals : list (Z * bytes)).
Context (Hwin : Forall (fun y => t0 <= y.1 <= t0 + FRAGMENT_LIFETIME) arrivals).
Context (Honce : NoDup (snd <$> arrivals)).
Context (Hsub : forall d, d ∈ snd <$> arrivals -> d ∈ concat (a_datagrams <$> log)).

Lemma read_exists : exists tr, Forall2 read_as arrivals tr.
Proof.
  clear Hwin Honce. induction arrivals as [|[t d] l IH]; [by exists []|].
  destruct IH as [tr Htr]; [intros d' Hd'; apply Hsub; csimpl; set_solver|].
  destruct (datagram_sent d) as (x & n & i & c & _ & _ & _ & _ & Hdec);
    [apply Hsub; csimpl; set_solver|].
  exists ((t, piece sid x i c) :: tr). by constructor.
Qed.

Lemma read_elem tr m :
  Forall2 read_as arrivals tr ->
  (m ∈ snd <$> tr <-> exists d, d ∈ snd <$> arrivals /\ decode_message d = Ok m).
Proof.
  clear. induction 1 as [|y z l tr [_ Hr] _ IH]; csimpl; [set_solver|].
  rewrite elem_of_cons, IH. setoid_rewrite elem_of_cons. split.
  - intros [->|(d & Hd & Hm)]; eauto.
  - intros (d & [->|Hd] & Hm); [left; congruence|eauto].
Qed.

(** The piece of a packet has been read when its datagram has arrived. *)
Lemma piece_read tr x n i c :
  Forall2 read_as arrivals tr -> Some (x, n) ∈ xs -> s_chunks x !! i = Some c ->
  (piece sid x i c ∈ snd <$> tr <->
   (i < n)%nat /\ exists d, wire sid x !! i = Some d /\ d ∈ snd <$> arrivals).
Proof.
  intros Htr Hx Hi. rewrite (read_elem tr _ Htr). split.
  - intros (d & Hd & Hdec). destruct (datagram_sent d (Hsub d Hd)) as (y & n' & j & c' & Hy & Hj & Hc & Hw & Hdec').
    destruct (piece_inj x n i c y n' j c' Hx Hi Hy Hc ltac:(congruence)) as (<- & <- & <-). eauto.
  - intros (_ & d & Hw & Hd). exists d. split; [done|]. by eapply wire_decodes.
Qed.

Lemma read_from tr :
  Forall2 read_as arrivals tr ->
  from sid t0 (sents xs) tr /\ Forall (fun z => session_id z.2 = sid) tr.
Proof.
  intros Htr.
  assert (Forall (fun z => (t0 <= z.1 <= t0 + FRAGMENT_LIFETIME /\ exists x i c,
    x ∈ sents xs /\ s_chunks x !! i = Some c /\ z.2 = piece sid x i c)) tr) as Hall.
  { apply Forall_forall. intros z [k Hk]%list_elem_of_lookup.
    destruct (Forall2_lookup_r _ _ _ _ _ Htr Hk) as (y & Hy & Ht & Hdec).
    apply list_elem_of_lookup_2 in Hy. rewrite Ht.
    split; [by apply (proj1 (Forall_forall _ _) Hwin y)|].
    destruct (datagram_sent y.2) as (x & n & i & c & Hx & _ & Hi & _ & Hdec').
    { apply Hsub, list_elem_of_fmap. eauto. }
    exists x, i, c. split; [by eapply sents_elem|]. split; [done|]. congruence. }
  split; [split; [done|]|].
  - assert (Forall2 (fun d m => decode_message d = Ok m) (snd <$> arrivals) (snd <$> tr)) as Hd.
    { apply Forall2_fmap. eapply Forall2_impl; [exact Htr|]. by intros y z [_ ?]. }
    apply NoDup_alt. intros i j m Hi Hj.
    destruct (Forall2_lookup_r _ _ _ _ _ Hd Hi) as (d1 & H1 & E1).
    destruct (Forall2_lookup_r _ _ _ _ _ Hd Hj) as (d2 & H2 & E2).
    apply (NoDup_lookup (snd <$> arrivals) i j d1); [done|done|]. rewrite H2. f_equal.
    apply list_elem_of_lookup_2 in H1, H2. apply (decode_inj d2 d1 m); auto.
  - eapply Forall_impl; [exact Hall|]. intros z (_ & x & i & c & _ & _ & ->). done.
Qed.

(** A packet has arrived when [send] had sent all of its datagrams and all
    of them have arrived. *)
Lemma arrived_iff tr x n :
  Forall2 read_as arrivals tr -> Some (x, n) ∈ xs ->
  (arrived tr x <-> n = length (s_chunks x) /\ Forall (fun d => d ∈ snd <$> arrivals) (wire sid x)).
Proof.
  intros Htr Hx. destruct (read_from tr Htr) as [Hf _].
  destruct (explaining_elem x n Hx) as (a & _ & _ & [Hn _] & _ & _ & Hle & _).
  assert (arrived tr x <-> forall i c, s_chunks x !! i = Some c -> piece sid x i c ∈ snd <$> tr) as ->.
  { unfold arrived, complete. rewrite Forall_forall. split.
    - intros Ha i c Hi. apply (seen_piece sid t0 (sents xs) sents_ok Hids tr x i c Hf); [by eapply sents_elem|done|].
      apply Ha, elem_of_seq. apply lookup_lt_Some in Hi. lia.
    - intros Ha i [_ Hi]%elem_of_seq. destruct (lookup_lt_is_Some_2 (s_chunks x) i) as [c Hc]; [lia|].
      apply (seen_piece sid t0 (sents xs) sents_ok Hids tr x i c Hf); [by eapply sents_elem|done|by apply Ha]. }
  split.
  - intros Ha. assert (forall i, (i < length (s_chunks x))%nat ->
      (i < n)%nat /\ exists d, wire sid x !! i = Some d /\ d ∈ snd <$> arrivals) as Hp.
    { intros i Hi. destruct (lookup_lt_is_Some_2 (s_chunks x) i Hi) as [c Hc].
      apply (piece_read tr x n i c Htr Hx Hc). by apply Ha. }
    split.
    + unfold len in Hn. destruct (Hp (length (s_chunks x) - 1)%nat); lia.
    + apply Forall_lookup. intros i d Hd. destruct (proj1 (wire_lookup x i d) Hd) as (c & Hc & _).
      destruct (Hp i (lookup_lt_Some _ _ _ Hc)) as (_ & d' & Hd' & Hin). congruence.
  - intros [-> Hall] i c Hi. apply (piece_read tr x _ i c Htr Hx Hi).
    split; [by eapply lookup_lt_Some|]. rewrite Forall_lookup in Hall.
    eexists. split; [apply wire_lookup; eauto|]. eapply Hall, wire_lookup. eauto.
Qed.
(** The attempts that [send] reported as sent and whose datagrams have all
    arrived. *)
Definition reached (a : Attempt) : Prop :=
  a_ok a = true /\ Forall (fun d => d ∈ snd <$> arrivals) (a_datagrams a).

#[local] Instance reached_dec a : Decision (reached a).
Proof. unfold reached. apply _. Defined.

Lemma reached_whole tr :
  Forall2 read_as arrivals tr ->
  whole <$> filter (arrived tr) (sents xs) = a_packet <$> filter reached log.
Proof.
  intros Htr.
  assert (Forall2 (fun a x => match x with
    | None => ~ reached a
    | Some (x, _) => (arrived tr x <-> reached a) /\ whole x = a_packet a
    end) log xs) as H.
  { apply Forall2_same_length_lookup. split; [by eapply Forall2_length|]. intros i a x Ha Hx.
    pose proof (Forall2_lookup_lr _ _ _ _ _ _ Hxs Ha Hx) as He. destruct x as [[x n]|].
    2:{ destruct He as [Hno _]. intros [Hyes _]. congruence. }
    destruct He as (Hw & _ & _ & Hd & Hle & Hok). split; [|done].
    apply list_elem_of_lookup_2 in Hx. rewrite (arrived_iff tr x n Htr Hx). unfold reached.
    rewrite Hok, Hd. assert (length (wire sid x) = length (s_chunks x)) by apply length_imap.
    split; (intros [-> Hall]; split; [done|]); by rewrite take_ge in * by lia. }
  clear -H. induction H as [|a [[x n]|] log xs Hx _ IH]; [done| |]; rewrite filter_cons.
  - destruct Hx as [Hiff Hw]. unfold sents in *. csimpl. rewrite filter_cons.
    repeat case_decide; csimpl; rewrite IH, ?Hw; tauto || done.
  - rewrite decide_False by done. exact IH.
Qed.

(** What a defragmenter makes of the datagrams that arrive. *)
Lemma reassembled :
  exists tr rs d, Forall2 read_as arrivals tr /\ Forall (fun z => session_id z.2 = sid) tr /\
    run tr ∅ = Returns (rs, d) /\ Forall (fun r => exists p, r = Ok p) rs /\
    outputs rs ≡ₚ a_packet <$> filter reached log.
Proof.
  destruct read_exists as [tr Htr]. destruct (read_from tr Htr) as [Hf Hs].
  destruct (run_many sid t0 (sents xs) sents_ok Hids tr Hf) as (rs & d & Hrun & _ & Hrs & _ & Hout).
  exists tr, rs, d. rewrite <-(reached_whole tr Htr). by split_and!.
Qed.
End Arrivals.
End Messages.

(** ** Through the event loop *)

Section Relay.
Context {Ch Ac : Type} `{MC : Mpsc Ch Packet} `{MA : Mpsc Ac Hy2Session.Accepted}.
Context (user : bytes) (congestion : Congestion.CongestionKind) (sid : Z).
Implicit Types s : Hy2Session.Loop Ch Ac.

(** What the loop has received for the session: the packets still in pieces
    and the queue of the packet connection. *)
Definition reception s : option (Defragger * Ch) :=
  match Hy2Session.upgrade s sid with
  | None => None
  | Some id => (fun pc => (defragger pc, incoming pc)) <$> Hy2Session.objects s !! id
  end.

(** The packet that a datagram completes when the queue is full: it is
    dropped. *)
Definition overflow (now : Z) (d : bytes) s : list Packet :=
  match reception s, decode_message d with
  | Some (df, ch), Ok m =>
      if decide (length (queued ch) < capacity ch)%nat then []
      else match feed now m df with Returns (Ok (Some p), _) => [p] | _ => [] end
  | _, _ => []
  end.

(** The loop takes the datagrams of the session as they arrive; the
    application takes packets; in between the connection does anything else
    that does not concern the session.  [got] are the packets that were taken,
    [lost] those that found the queue full. *)
Inductive served : Hy2Session.Loop Ch Ac -> list (Z * bytes) -> list Packet -> list Packet ->
    Hy2Session.Loop Ch Ac -> Prop :=
| served_nil s : served s [] [] [] s
| served_datagram now d arrivals got lost s s1 s2 :
    served s arrivals got lost s1 ->
    Hy2Session.on_datagram user congestion now (inr d) s1 = Hy2Session.Continue s2 ->
    served s (arrivals ++ [(now, d)]) got (lost ++ overflow now d s1) s2
| served_take now id pc p pc' arrivals got lost s s1 :
    served s arrivals got lost s1 -> Hy2Session.upgrade s1 sid = Some id ->
    Hy2Session.objects s1 !! id = Some pc -> recv_packet now pc = Some (p, pc') ->
    served s arrivals (got ++ [p]) lost
      (Hy2Session.with_objects s1 (<[id := pc']> (Hy2Session.objects s1)))
| served_other arrivals got lost s s1 s2 :
    served s arrivals got lost s1 -> Hy2Session.step user congestion s1 s2 ->
    reception s2 = reception s1 -> served s arrivals got lost s2.

(** The loop after the messages [tr], of which the application took [got] and
    [lost] were dropped. *)
Definition received (tr : list (Z * UdpMessage)) (got lost : list Packet) s : Prop :=
  (tr = [] /\ got = [] /\ lost = [] /\ reception s = None) \/
  exists d ch rs, reception s = Some (d, ch) /\ run tr ∅ = Returns (rs, d) /\
    got ++ queued ch ++ lost ≡ₚ outputs rs /\ alive ch = true.

Lemma upgrade_some s id :
  Hy2Session.upgrade s sid = Some id ->
  Hy2Session.udp_sessions s !! sid = Some id /\ is_Some (Hy2Session.objects s !! id).
Proof.
  unfold Hy2Session.upgrade. destruct (Hy2Session.udp_sessions s !! sid); [|done].
  case_decide; [|done]. by intros [= <-].
Qed.

Lemma reception_at s id pc :
  Hy2Session.udp_sessions s !! sid = Some id -> Hy2Session.objects s !! id = Some pc ->
  reception s = Some (defragger pc, incoming pc).
Proof.
  intros Hs Ho. unfold reception, Hy2Session.upgrade. by rewrite Hs, decide_True, Ho by eauto.
Qed.

Lemma input_received now d m (pc pc' : PacketConnection Ch) s tr rs got lost :
  reception s = Some (defragger pc, incoming pc) -> decode_message d = Ok m ->
  run tr ∅ = Returns (rs, defragger pc) -> got ++ queued (incoming pc) ++ lost ≡ₚ outputs rs ->
  alive (incoming pc) = true -> input now m pc = Returns (Ok tt, pc') ->
  exists rs', run (tr ++ [(now, m)]) ∅ = Returns (rs', defragger pc') /\
    got ++ queued (incoming pc') ++ lost ++ overflow now d s ≡ₚ outputs rs' /\
    alive (incoming pc') = true.
Proof.
  intros Hr Hdec Hrun Hq Ha. unfold input, overflow. rewrite Hr, Hdec.
  destruct (feed now m (defragger pc)) as [[r df]|] eqn:Ef; [|done].
  intros Hin. exists (rs ++ [r]). rewrite run_app, Hrun. cbn [run]. rewrite Ef. rewrite outputs_snoc, <-Hq.
  destruct r as [[p|]|e]; [| |done]; injection Hin as <-; cbn [defragger incoming].
  - pose proof (try_send_spec p (incoming pc)) as (_ & Hs & Hl & _). rewrite Ha in Hs, Hl. rewrite Hs, Hl.
    case_bool_decide; cbn [andb]; [rewrite decide_True by done|rewrite decide_False by done];
      (split; [done|]); (split; [solve_Permutation|done]).
  - split; [done|]. split; [|done]. rewrite !app_nil_r. by destruct (decide _); rewrite app_nil_r.
Qed.

Lemma datagram_received now d m s s' tr got lost :
  received tr got lost s -> decode_message d = Ok m -> session_id m = sid ->
  Hy2Session.on_datagram user congestion now (inr d) s = Hy2Session.Continue s' ->
  received (tr ++ [(now, m)]) got (lost ++ overflow now d s) s'.
Proof.
  intros Hrec Hdec Hm. unfold Hy2Session.on_datagram. rewrite Hdec, Hm.
  intros Hgo. right. revert Hgo.
  destruct (Hy2Session.upgrade s sid) as [id|] eqn:Eu.
  - destruct (upgrade_some s id Eu) as [Hsess _].
    intros (pc & pc' & Hpc & Hin & ->)%Hy2Session.input_at_continue.
    pose proof (reception_at s id pc Hsess Hpc) as Hat.
    destruct Hrec as [(_ & _ & _ & Hno)|(df & ch & rs & Hr & Hrun & Hq & Ha)]; [congruence|].
    rewrite Hat in Hr. injection Hr as <- <-.
    destruct (input_received now d m pc pc' s tr rs got lost Hat Hdec Hrun Hq Ha Hin) as (rs' & H1 & H2 & H3).
    eexists _, _, rs'. split; [|done]. apply (reception_at _ id); simpl; [done|apply lookup_insert_eq].
  - destruct Hrec as [(-> & -> & -> & Hno)|(df & ch & rs & Hr & _)];
      [|unfold reception in Hr; by rewrite Eu in Hr].
    destruct (send_wait _ _) as [[[] a]|]; [|done..].
    intros (pc & pc' & Hpc & Hin & ->)%Hy2Session.input_at_continue. simpl in Hpc.
    rewrite lookup_insert_eq in Hpc. injection Hpc as <-.
    pose proof (channel_spec (Ch := Ch) (A := Packet) 64) as (Hq & Ha & Hc).
    match type of Hin with input _ _ _ = _ =>
      match goal with |- context [Hy2Session.with_objects ?l _] => set (l1 := l) end end.
    assert (reception l1 = Some (defragger (new sid now), incoming (new sid now : PacketConnection Ch))) as Hat.
    { apply (reception_at _ (Hy2Session.next_object s)); simpl; apply lookup_insert_eq. }
    destruct (input_received now d m (new sid now) pc' l1 [] [] [] [] Hat Hdec) as (rs' & H1 & H2 & H3); try done.
    { simpl. by rewrite Hq. }
    assert (overflow now d s = [] /\ overflow now d l1 = []) as [-> Eo].
    { unfold overflow. rewrite Hno, Hat, Hdec. simpl. by rewrite decide_True by (rewrite Hq, Hc; simpl; lia). }
    rewrite Eo in H2. eexists _, _, rs'. split; [|done].
    apply (reception_at _ (Hy2Session.next_object s)); simpl; apply lookup_insert_eq.
Qed.

Lemma served_received s arrivals got lost s1 tr :
  served s arrivals got lost s1 -> reception s = None ->
  Forall2 read_as arrivals tr -> Forall (fun z => session_id z.2 = sid) tr -> received tr got lost s1.
Proof.
  intros Hs Hnew. revert tr.
  induction Hs as [s|now d arrivals got lost s s1 s2 Hs IH Hd|now id pc p pc' arrivals got lost s s1 Hs IH Hu Ho Hp
                  |arrivals got lost s s1 s2 Hs IH Hstep Hsame]; intros tr Htr Hsid.
  - apply Forall2_nil_inv_l in Htr as ->. by left.
  - apply Forall2_app_inv_l in Htr as (tr' & z & Htr & Hz & ->).
    apply Forall2_cons_inv_l in Hz as ([t m] & z' & [Ht Hdec] & Hz & ->).
    apply Forall2_nil_inv_l in Hz as ->. apply Forall_app in Hsid as [Hsid [Hm _]%Forall_cons].
    simpl in Ht, Hdec, Hm. subst t. eapply datagram_received; eauto.
  - destruct (upgrade_some s1 id Hu) as [Hsess _]. specialize (IH Hnew tr Htr Hsid).
    destruct IH as [(_ & _ & _ & Hno)|(df & ch & rs & Hr & Hrun & Hq & Ha)];
      rewrite (reception_at s1 id pc Hsess Ho) in *; [done|]. simplify_eq. right.
    unfold recv_packet in Hp. pose proof (recv_spec (incoming pc)) as Hrs.
    destruct (recv (incoming pc)) as [[q ch]|]; [|done]. injection Hp as -> <-.
    destruct Hrs as (Hq' & Ha' & _). exists (defragger pc), ch, rs. split_and!; [|done| |congruence].
    + erewrite (reception_at _ id); [|done|simpl; apply lookup_insert_eq]. done.
    + by rewrite <-app_assoc, <-Hq, Hq'.
  - specialize (IH Hnew tr Htr Hsid). unfold received in *. by rewrite Hsame.
Qed.
(** The packets that wait for the application. *)
Definition waiting s : list Packet :=
  match reception s with None => [] | Some (_, ch) => queued ch end.

Lemma received_outputs tr got lost s rs d :
  received tr got lost s -> run tr ∅ = Returns (rs, d) -> got ++ waiting s ++ lost ≡ₚ outputs rs.
Proof.
  unfold waiting. intros [(-> & -> & -> & ->)|(d' & ch & rs' & -> & Hrun & Hq & _)] Hr.
  - by injection Hr as <- <-.
  - rewrite Hrun in Hr. by injection Hr as -> ->.
Qed.

(** A datagram that the defragmenter accepts does not end the loop. *)
Lemma datagram_continues now d m s tr got lost rs df :
  received tr got lost s -> decode_message d = Ok m -> session_id m = sid ->
  run (tr ++ [(now, m)]) ∅ = Returns (rs, df) -> Forall (fun r => exists p, r = Ok p) rs ->
  alive (Hy2Session.accepted s) = true ->
  Hy2Session.on_datagram user congestion now (inr d) s = Hy2Session.Waits \/
  exists s', Hy2Session.on_datagram user congestion now (inr d) s = Hy2Session.Continue s'.
Proof.
  intros Hrec Hdec Hm Hrun Hrs Ha. unfold Hy2Session.on_datagram. rewrite Hdec, Hm.
  assert (forall id (l : Hy2Session.Loop Ch Ac) pc rs0, Hy2Session.objects l !! id = Some pc ->
    run tr ∅ = Returns (rs0, defragger pc) ->
    exists s', Hy2Session.input_at now id m l = Hy2Session.Continue s') as Hin.
  { intros id l pc rs0 Hpc Hr. rewrite run_app, Hr in Hrun. cbn [run] in Hrun.
    unfold Hy2Session.input_at. rewrite Hpc. unfold input.
    destruct (feed now m (defragger pc)) as [[r d']|]; [|done]. injection Hrun as <- _.
    apply Forall_app in Hrs as [_ [[p ->] _]%Forall_cons]. destruct p; by eexists. }
  destruct (Hy2Session.upgrade s sid) as [id|] eqn:Eu.
  - destruct (upgrade_some s id Eu) as [Hsess [pc Hpc]]. right.
    destruct Hrec as [(_ & _ & _ & Hno)|(df' & ch & rs' & Hr & Hrun' & _)];
      rewrite (reception_at s id pc Hsess Hpc) in *; [done|]. simplify_eq. by eapply Hin.
  - destruct Hrec as [(-> & -> & -> & _)|(df' & ch & rs' & Hr & _)];
      [|unfold reception in Hr; by rewrite Eu in Hr].
    destruct (send_wait _ _) as [[ok a]|] eqn:Ew; [|by left].
    pose proof Ew as (_ & _ & _ & Hok)%send_wait_spec. rewrite Ha in Hok. subst ok. right.
    eapply (Hin _ _ (new sid now) []); [simpl; apply lookup_insert_eq|done].
Qed.
End Relay.

(** C6: UDP over Hysteria2, end to end, for a session that is new to the
    receiver, at most 65535 sends to canonical destinations before the
    sender's counter wraps, and arrivals within one lifetime of a fragment.  Whatever the packet connection tries to
    send, of the datagrams that it gives to the network some may be lost and
    the others come in any order, each once, while the event loop of the other
    side, its tasks and the application interleave in any way: the packets
    that [send] reported as sent and whose datagrams have all arrived are,
    each once, unchanged and to its destination, those that the application
    got, those that wait in the queue, and those that were completed while the
    queue was full and are dropped; there are no others.  And no such datagram
    ends the connection. *)
Theorem udp_relayed {ChS Ch Ac} `{MS : Mpsc ChS Packet} `{MC : Mpsc Ch Packet}
    `{MA : Mpsc Ac Hy2Session.Accepted} user congestion
    (s0 s1 : PacketConnection ChS) log t0 arrivals got lost (l0 l1 : Hy2Session.Loop Ch Ac)
    (Hsends : attempts s0 log s1) (Hsid : uint 32 (pc_session_id s0))
    (Hnext : 0 <= next_packet_id s0) (Hmany : next_packet_id s0 + len log < 2 ^ 32)
    (Hfew : len log <= u16_max)
    (Hwf : Forall (fun a => Address.wf (p_destination (a_packet a)) /\
                            Address.canonical (p_destination (a_packet a))) log)
    (Hwin : Forall (fun y => t0 <= y.1 <= t0 + FRAGMENT_LIFETIME) arrivals)
    (Honce : NoDup (snd <$> arrivals))
    (Hsub : forall d, d ∈ snd <$> arrivals -> d ∈ concat (a_datagrams <$> log))
    (Hnew : reception (pc_session_id s0) l0 = None)
    (Hserved : served user congestion (pc_session_id s0) l0 arrivals got lost l1) :
  outbox s1 = outbox s0 ++ concat (a_datagrams <$> log) /\
  got ++ waiting (pc_session_id s0) l1 ++ lost ≡ₚ a_packet <$> filter (reached arrivals) log /\
  forall now d, t0 <= now <= t0 + FRAGMENT_LIFETIME -> d ∈ concat (a_datagrams <$> log) ->
    d ∉ snd <$> arrivals -> alive (Hy2Session.accepted l1) = true ->
    Hy2Session.on_datagram user congestion now (inr d) l1 = Hy2Session.Waits \/
    exists l2, Hy2Session.on_datagram user congestion now (inr d) l1 = Hy2Session.Continue l2.
Proof.
  destruct (attempts_explained s0 log s1 Hsends Hnext Hmany) as (_ & Hout & xs & Hxs & Hk & Hnum).
  split; [done|]. pose proof (numbered_nodup _ _ _ Hnum ltac:(lia)) as Hids.
  pose proof (numbered_range _ _ _ Hnum) as Hpids.
  set (sid := pc_session_id s0) in *.
  destruct (reassembled sid t0 log xs Hsid Hxs Hids Hpids Hwf arrivals Hwin Honce Hsub)
    as (tr & rs & df & Htr & Hs & Hrun & Hrs & Hperm).
  pose proof (served_received user congestion sid l0 arrivals got lost l1 tr Hserved Hnew Htr Hs) as Hrec.
  split; [by rewrite (received_outputs sid tr got lost l1 rs df)|]. intros now d Hnow Hd Hni Ha.
  destruct (reassembled sid t0 log xs Hsid Hxs Hids Hpids Hwf (arrivals ++ [(now, d)]))
    as (tr' & rs' & df' & Htr' & Hs' & Hrun' & Hrs' & _).
  - apply Forall_app. split; [done|]. by apply Forall_singleton.
  - rewrite fmap_app. apply NoDup_app. split_and!; [done| |apply NoDup_singleton].
    intros x Hx. simpl. rewrite list_elem_of_singleton. by intros ->.
  - intros x. rewrite fmap_app, elem_of_app. simpl. rewrite list_elem_of_singleton.
    intros [Hx| ->]; [by apply Hsub|done].
  - apply Forall2_app_inv_l in Htr' as (tr1 & z & Htr1 & Hz & ->).
    apply Forall2_cons_inv_l in Hz as ([t m] & z' & [Ht Hdec] & Hz & ->).
    apply Forall2_nil_inv_l in Hz as ->. simpl in Ht, Hdec. subst t.
    apply Forall_app in Hs' as [Hs1 [Hm _]%Forall_cons].
    eapply (datagram_continues user congestion sid now d m l1 tr1); [|done..].
    by eapply served_received.
Qed.

(** ** Examples *)

(** A packet in three pieces, after one that [send] refuses. *)
Definition example_path : DatagramPath := accept_all (Some 100).

Definition example_long : Packet :=
  {| p_data := replicate 5000 Byte.x00; p_destination := p_destination example_packet |}.

Definition example_sender : PacketConnection (ListChannel.Chan Packet) :=
  (send example_path 5 example_packet (send example_path 4 example_long example_connection).2).2.

Definition example_log : list Attempt :=
  [{| a_packet := example_long; a_ok := false; a_datagrams := [] |};
   {| a_packet := example_packet; a_ok := true; a_datagrams := outbox example_sender |}].

(** The last piece comes first. *)
Definition example_arrivals : list (Z * bytes) := (fun d => (9, d)) <$> reverse (outbox example_sender).

Definition example_turn (l : Hy2Session.Loop (ListChannel.Chan Packet) (ListChannel.Chan Hy2Session.Accepted))
    (y : Z * bytes) : Hy2Session.Loop (ListChannel.Chan Packet) (ListChannel.Chan Hy2Session.Accepted) :=
  match Hy2Session.on_datagram (str "alice") Congestion.Bbr y.1 (inr y.2) l with
  | Hy2Session.Continue l => l
  | _ => l
  end.

Definition example_loop : Hy2Session.Loop (ListChannel.Chan Packet) (ListChannel.Chan Hy2Session.Accepted) :=
  foldl example_turn Hy2Session.example_initial example_arrivals.

Lemma example_attempts : attempts example_connection example_log example_sender.
Proof.
  apply (attempts_send example_path 5 example_packet (Ok tt) (outbox example_sender)
    [{| a_packet := example_long; a_ok := false; a_datagrams := [] |}] _
    (send example_path 4 example_long example_connection).2).
  - apply (attempts_send example_path 4 example_long
      (Err (Protocol (str "Hysteria2 UDP packet exceeds 4096 bytes"))) [] []
      _ example_connection); [constructor|vm_compute; reflexivity..].
  - vm_compute. reflexivity.
  - vm_compute. reflexivity.
Qed.

Lemma example_served :
  served (str "alice") Congestion.Bbr 7 Hy2Session.example_initial example_arrivals [] [] example_loop.
Proof.
  assert (forall ys arrivals l0 l,
    served (str "alice") Congestion.Bbr 7 l0 arrivals [] [] l ->
    (fix go ys l := match ys with
       | [] => True
       | y :: ys => overflow 7 y.1 y.2 l = [] /\
           Hy2Session.on_datagram (str "alice") Congestion.Bbr y.1 (inr y.2) l
           = Hy2Session.Continue (example_turn l y) /\ go ys (example_turn l y)
       end) ys l ->
    served (str "alice") Congestion.Bbr 7 l0 (arrivals ++ ys) [] [] (foldl example_turn l ys)) as H.
  { induction ys as [|[t d] ys IH]; intros arrivals l0 l Hs Hgo; [by rewrite app_nil_r|].
    destruct Hgo as (Hover & Hd & Hgo). rewrite (cons_middle (t, d) arrivals ys), app_assoc.
    apply IH; [|done].
    pose proof (served_datagram (str "alice") Congestion.Bbr 7 t d arrivals [] [] l0 l _ Hs Hd) as Hn.
    simpl in Hover. by rewrite Hover in Hn. }
  apply (H example_arrivals []); [constructor|]. vm_compute. by repeat split.
Qed.

Lemma udp_relayed_witness :
  length (outbox example_sender) = 3%nat /\ waiting 7 example_loop = [example_packet].
Proof.
  split; [vm_compute; reflexivity|].
  destruct (udp_relayed (str "alice") Congestion.Bbr example_connection example_sender example_log 0
    example_arrivals [] [] Hy2Session.example_initial example_loop example_attempts)
    as (_ & Hperm & _).
  - split; vm_compute; congruence.
  - vm_compute; congruence.
  - vm_compute; reflexivity.
  - vm_compute; congruence.
  - repeat (apply Forall_cons; split); [..|by apply Forall_nil]; (split;
      [split_and!; [done|reflexivity|vm_compute; congruence..]|]);
      left; (split; [|reflexivity]); apply Net.colons_zero; reflexivity.
  - apply (bool_decide_eq_true_1 (Forall _ _)). vm_compute. reflexivity.
  - apply (bool_decide_eq_true_1 (NoDup _)). vm_compute. reflexivity.
  - intros d. change (concat (a_datagrams <$> example_log)) with (outbox example_sender ++ []).
    rewrite app_nil_r. unfold example_arrivals. rewrite <-list_fmap_compose, list_fmap_id.
    by rewrite elem_of_reverse.
  - vm_compute; reflexivity.
  - exact example_served.
  - apply Permutation_singleton_r. rewrite app_nil_l, app_nil_r in Hperm. etrans; [exact Hperm|].
    vm_compute. reflexivity.
Defined.
End Hy2Relay.
