(* ===== verification/Hy2Endpoint.v ===== *)
(** * A running Hysteria2 server

    [Server] of [src/src/hysteria2/server.rs]: binding, the accept task with
    the connections it serves, the masquerade tasks, [Server::accept],
    [Server::update_certificate] and [Server::close], as one step relation.
    Connections come and authenticate, their select loops, stream tasks and
    masquerade tasks interleave, and the application takes what was handed
    over, in any order. *)

From Stdlib Require Import ZArith Lia.
From stdpp Require Import base gmap list strings relations.
From S2P Require Import Prelude Error Text Net Address Channels Hy2Protocol Hy2Packet Congestion Transport Socket Http Hy2Masquerade Hy2Server Hy2Session.

#[local] Open Scope Z_scope.

Module Hy2Endpoint.
Import Hy2Protocol.

Record ServerOptions := {
  listen : Net.SocketAddr;
  certificate_chain : list bytes;
  private_key : bytes;
  users : list Hy2Server.User;
}.

(** [ServerBandwidth::default()]. *)
Definition default_bandwidth : Hy2Server.ServerBandwidth :=
  {| Hy2Server.send_bps := 0; Hy2Server.receive_bps := 0;
     Hy2Server.ignore_client_bandwidth := false; Hy2Server.disable_loss_compensation := false;
     Hy2Server.brutal_debug := false |}.

(** The answers of ring, of rustls and of the QUIC adapter. *)
Record Tls := {
  any_supported_type : Hy2Server.PrivateKeyDer -> option bytes;
  with_single_cert : list bytes -> Hy2Server.PrivateKeyDer -> option bytes;
  quic_tls : option bytes;
}.

Abbreviation Endpoint := (Socket.Endpoint Hy2Server.ServerConfig unit).

(** How the end of a connection is logged. *)
Inductive Closing := ClosedNormally | ClosedUnexpectedly (e : Error).

Definition log_close (e : Error) : Closing :=
  if Hy2Server.is_normal_connection_close e then ClosedNormally else ClosedUnexpectedly e.

Section Server.
Context {Headers : Type} `{HL : HttpLib Headers} `{HV : HeaderValue}.
Context {Ctl Rtt Pacing Metrics : Type} `{CT : Controllers Ctl Rtt Pacing Metrics}.
Context {Ch Ac : Type} `{MC : Mpsc Ch Hy2Packet.Packet} `{MA : Mpsc Ac Hy2Session.Accepted}.
(** How the [http] crate renders an invalid header value. *)
Variable invalid_header : bytes.
Variable tls : Tls.

(** What the accept task was spawned with. *)
Record AcceptTask := {
  task_users : gmap bytes bytes;
  task_bandwidth : Hy2Server.ServerBandwidth;
  task_masquerade : option (Hy2Masquerade.MasqueradeHandler (Headers := Headers));
}.

Record Server := {
  endpoint : Endpoint;
  transport_options : Transport.QuicTransportOptions;
  incoming : Ac;
  accept_task : AcceptTask;
  task_running : bool;
}.

Definition build (chain : list bytes) (key : bytes) (options : Transport.QuicTransportOptions)
    : Outcome (Result Hy2Server.ServerConfig) :=
  Hy2Server.build_server_config (any_supported_type tls) (with_single_cert tls) (quic_tls tls)
    chain key options.

Definition bind_with_bandwidth_and_transport_and_masquerade (os : Socket.Os)
    (options : ServerOptions) (bandwidth : Hy2Server.ServerBandwidth)
    (transport_options : Transport.QuicTransportOptions)
    (masquerade : option Hy2Masquerade.MasqueradeHandler) : Outcome (Result Server) :=
  match build (certificate_chain options) (private_key options) transport_options with
  | Panics => Panics
  | Returns (Err e) => Returns (Err e)
  | Returns (Ok server_config) =>
      Returns
        match (Socket.bind_endpoint os (listen options) (Some server_config)).1 with
        | inl e => Err (Io e)
        | inr endpoint =>
            Ok {| endpoint := endpoint; transport_options := transport_options;
                  incoming := channel 256;
                  accept_task := {| task_users := Hy2Server.user_table (users options);
                                    task_bandwidth := bandwidth;
                                    task_masquerade := masquerade |};
                  task_running := true |}
        end
  end.

Definition bind_with_bandwidth_and_masquerade (os : Socket.Os) (options : ServerOptions)
    (bandwidth : Hy2Server.ServerBandwidth)
    (masquerade : option Hy2Masquerade.MasqueradeHandler) : Outcome (Result Server) :=
  bind_with_bandwidth_and_transport_and_masquerade os options bandwidth Transport.default_options
    masquerade.

Definition bind_with_bandwidth (os : Socket.Os) (options : ServerOptions)
    (bandwidth : Hy2Server.ServerBandwidth) : Outcome (Result Server) :=
  bind_with_bandwidth_and_masquerade os options bandwidth None.

Definition bind (os : Socket.Os) (options : ServerOptions) : Outcome (Result Server) :=
  bind_with_bandwidth os options default_bandwidth.

Definition with_endpoint (self : Server) (e : Endpoint) (running : bool) : Server :=
  {| endpoint := e; transport_options := transport_options self; incoming := incoming self;
     accept_task := accept_task self; task_running := running |}.
Definition with_incoming (self : Server) (ac : Ac) : Server :=
  {| endpoint := endpoint self; transport_options := transport_options self; incoming := ac;
     accept_task := accept_task self; task_running := task_running self |}.

(** [Server::update_certificate]. *)
Definition update_certificate (chain : list bytes) (key : bytes) (self : Server)
    : Outcome (Result unit * Server) :=
  match build chain key (transport_options self) with
  | Panics => Panics
  | Returns (Err e) => Returns (Err e, self)
  | Returns (Ok config) =>
      Returns (Ok tt, with_endpoint self (Socket.set_server_config (endpoint self) (Some config))
                        (task_running self))
  end.

(** [Server::local_addr]. *)
Definition local_addr (no_address : IoError) (self : Server) : Result Net.SocketAddr :=
  match Socket.bound (Socket.socket (endpoint self)) with
  | Some a => Ok a
  | None => Err (Io no_address)
  end.

(** [Server::close]: the endpoint is closed, and when it is idle the accept
    task is stopped. *)
Definition close (self : Server) : Server :=
  with_endpoint self (Socket.close_endpoint (endpoint self) 0 (str "server closed")) false.

(** ** Connections *)

(** A connection that was admitted: the request that authenticated it, the
    user and the controller, and its loop; [serving] until the loop ends.
    [addresses], [streams] and [handed] are its history: the addresses its
    peer has had, the streams it has had tasks for, and what it has put into
    the channel of accepted items. *)
Record Live := {
  admitted : Request Headers unit;
  user : bytes;
  congestion : Congestion.CongestionKind;
  serving : bool;
  loop : Hy2Session.Loop Ch Ac;
  addresses : list Net.SocketAddr;
  streams : list (SendHalf * RecvHalf);
  handed : list Hy2Session.Accepted;
}.

(** A masquerade task. *)
Record Masquerading := {
  masq_source : Net.SocketAddr;
  masq_request : Request Headers unit;
  masq_stream : RequestStream;
}.

(** The server and its tasks.  [replies] are the answers of finished
    masquerade tasks, [closings] the ends of connections as logged,
    [delivered] the history of what [Server::accept] returned. *)
Record State := {
  server : Server;
  pending : list Net.SocketAddr;
  live : list Live;
  masquerades : list Masquerading;
  replies : list (Result unit * Reply Headers);
  controllers : list (Congestion.SwitchState Ctl);
  closings : list Closing;
  delivered : list Hy2Session.Accepted;
}.

Implicit Types e : State.

Definition with_server e (s : Server) (d : list Hy2Session.Accepted) : State :=
  {| server := s; pending := pending e; live := live e; masquerades := masquerades e;
     replies := replies e; controllers := controllers e; closings := closings e;
     delivered := d |}.
Definition with_pending e (ps : list Net.SocketAddr) (h : list (Congestion.SwitchState Ctl))
    : State :=
  {| server := server e; pending := ps; live := live e; masquerades := masquerades e;
     replies := replies e; controllers := h; closings := closings e; delivered := delivered e |}.
Definition with_masquerades e (ms : list Masquerading) (rs : list (Result unit * Reply Headers))
    : State :=
  {| server := server e; pending := pending e; live := live e; masquerades := ms; replies := rs;
     controllers := controllers e; closings := closings e; delivered := delivered e |}.
Definition with_live e (s : Server) (cs : list Live) (cl : list Closing) : State :=
  {| server := s; pending := pending e; live := cs; masquerades := masquerades e;
     replies := replies e; controllers := controllers e; closings := cl;
     delivered := delivered e |}.

(** The request that opened a connection. *)
Definition first_request (accepts : list (Hy2Server.H3Accept Headers))
    : option (Request Headers unit) :=
  match accepts with
  | Hy2Server.Resolved request _ :: _ => Some request
  | _ => None
  end.

(** The task of an incoming connection, once the handshake is done: its
    requests decide whether it proxies, masquerades or ends. *)
Definition connected (now : Z) (rng : Rng) (source : Net.SocketAddr)
    (connection : Congestion.Connection Ctl) (h3_error : option bytes)
    (accepts : list (Hy2Server.H3Accept Headers)) (ps : list Net.SocketAddr) e : State :=
  let task := accept_task (server e) in
  let setup := Hy2Server.serve_connection invalid_header now rng connection (task_users task)
                 (task_bandwidth task) h3_error accepts (controllers e) in
  {| server := server e; pending := ps;
     live := live e ++
       match Hy2Server.phase setup, first_request accepts with
       | Hy2Server.Proxying user kind, Some request =>
           [{| admitted := request; user := user; congestion := kind; serving := true;
               loop := Hy2Session.initial (incoming (server e)) source;
               addresses := [source]; streams := []; handed := [] |}]
       | _, _ => []
       end;
     masquerades := masquerades e ++
       ((fun '(request, stream) =>
           {| masq_source := source; masq_request := request; masq_stream := stream |})
        <$> Hy2Server.masqueraded setup);
     replies := replies e; controllers := Hy2Server.heap setup;
     closings := closings e ++
       match Hy2Server.phase setup with
       | Hy2Server.Ended (Err error) => [log_close error]
       | _ => []
       end;
     delivered := delivered e |}.

(** [spawn_masquerade_request]: a task answers, and its result is only
    logged. *)
Definition masquerade_done (m : Masquerading) (ms : list Masquerading) e : State :=
  with_masquerades e ms
    (replies e ++ [Hy2Masquerade.serve_masquerade_request (masq_source m) (masq_request m)
                     (masq_stream m) (task_masquerade (accept_task (server e))) no_reply]).

Definition with_loop (c : Live) (l : Hy2Session.Loop Ch Ac) (b : bool)
    (items : list Hy2Session.Accepted) : Live :=
  {| admitted := admitted c; user := user c; congestion := congestion c; serving := b; loop := l;
     addresses := addresses c ++ [Hy2Session.remote l]; streams := streams c ++ Hy2Session.tasks l;
     handed := handed c ++ items |}.

(** A connection with the channel as it stands. *)
Definition resumed (c : Live) e : Hy2Session.Loop Ch Ac :=
  Hy2Session.with_accepted (loop c) (incoming (server e)).

(** What a connection has put into the channel since [e]. *)
Definition put e (l : Hy2Session.Loop Ch Ac) : list Hy2Session.Accepted :=
  drop (length (queued (incoming (server e)))) (queued (Hy2Session.accepted l)).

Definition progressed (l1 l2 : list Live) (c : Live) (l : Hy2Session.Loop Ch Ac) e : State :=
  with_live e (with_incoming (server e) (Hy2Session.accepted l))
    (l1 ++ with_loop c l (serving c) (put e l) :: l2) (closings e).

(** The loop of a connection ends. *)
Definition stopped (l1 l2 : list Live) (c : Live) (r : Result unit) (l : Hy2Session.Loop Ch Ac) e
    : State :=
  with_live e (with_incoming (server e) (Hy2Session.accepted l))
    (l1 ++ with_loop c l false (put e l) :: l2)
    (closings e ++ match r with Err error => [log_close error] | Ok _ => [] end).

(** One turn of the select loop. *)
Inductive Arm :=
| Control (error : option bytes)
| Stream (stream : ConnectionError + (SendHalf * RecvHalf))
| Datagram (now : Z) (datagram : ConnectionError + bytes).

Definition turn (c : Live) (arm : Arm) (l : Hy2Session.Loop Ch Ac)
    : Hy2Session.Verdict (Hy2Session.Loop Ch Ac) :=
  match arm with
  | Control error => Hy2Session.on_control error l
  | Stream stream => Hy2Session.on_stream stream l
  | Datagram now d => Hy2Session.on_datagram (user c) (congestion c) now d l
  end.

(** [Server::accept]: the next item, or [Closed] when all senders are gone;
    [None] while it waits. *)
Definition accept (senders : bool) e : option (Result Hy2Session.Accepted * State) :=
  match recv (incoming (server e)) with
  | Some (a, ac) =>
      Some (Ok a, with_server e (with_incoming (server e) ac) (delivered e ++ [a]))
  | None => if senders then None else Some (Err Error.Closed, e)
  end.

Inductive step : State -> State -> Prop :=
| step_incoming source e :
    task_running (server e) = true -> Socket.close_reason (endpoint (server e)) = None ->
    step e (with_pending e (pending e ++ [source]) (controllers e))
| step_built now mtu e :
    step e (with_pending e (pending e) (Congestion.build now mtu (controllers e)).2)
| step_handshake_failed l1 source l2 e :
    pending e = l1 ++ source :: l2 -> step e (with_pending e (l1 ++ l2) (controllers e))
| step_connected now rng l1 source l2 connection h3_error accepts e :
    pending e = l1 ++ source :: l2 ->
    step e (connected now rng source connection h3_error accepts (l1 ++ l2) e)
| step_masquerade l1 m l2 e :
    masquerades e = l1 ++ m :: l2 -> step e (masquerade_done m (l1 ++ l2) e)
| step_turn l1 c l2 arm l e :
    live e = l1 ++ c :: l2 -> serving c = true ->
    turn c arm (resumed c e) = Hy2Session.Continue l -> step e (progressed l1 l2 c l e)
| step_stop l1 c l2 arm r l e :
    live e = l1 ++ c :: l2 -> serving c = true ->
    turn c arm (resumed c e) = Hy2Session.Stops r l -> step e (stopped l1 l2 c r l e)
| step_task l1 c l2 l e :
    live e = l1 ++ c :: l2 ->
    Hy2Session.task_step (user c) (congestion c) (resumed c e) l -> step e (progressed l1 l2 c l e)
| step_accept senders r e e' : accept senders e = Some (r, e') -> step e e'
| step_update chain key r s e :
    update_certificate chain key (server e) = Returns (r, s) ->
    step e (with_server e s (delivered e))
| step_close e : step e (with_server e (close (server e)) (delivered e)).

(** A server as it was bound. *)
Definition start (s : Server) : State :=
  {| server := s; pending := []; live := []; masquerades := []; replies := [];
     controllers := []; closings := []; delivered := [] |}.

(** ** Attribution *)

(** The request that admitted a connection asked for authentication with a
    password of the table. *)
Definition authenticates (table : gmap bytes bytes) (request : Request Headers unit) (u : bytes)
    : Prop :=
  method request = Hy2Server.POST /\ uri_authority (uri request) = Some URL_AUTHORITY /\
  uri_path (uri request) = URL_PATH /\
  exists value password, hm_get HEADER_AUTH (headers request) = Some value /\
    hv_to_str value = Some password /\ table !! password = Some u.

(** An item that the connection [c] has handed over. *)
Definition carries (c : Live) (a : Hy2Session.Accepted) : Prop :=
  Hy2Session.accepted_user a = user c /\ Hy2Session.accepted_congestion a = congestion c /\
  Hy2Session.accepted_source a ∈ addresses c /\
  match a with
  | Hy2Session.AcceptedStream halves d _ _ _ => exists rng stream, stream ∈ streams c /\
      read_tcp_request (snd stream) = (Ok d, snd halves) /\
      write_tcp_response rng None (fst stream) = (Ok tt, fst halves)
  | Hy2Session.AcceptedPacket id _ _ _ _ => (id < Hy2Session.next_object (loop c))%nat
  end.

Record live_ok (table : gmap bytes bytes) (c : Live) : Prop := {
  live_admitted : authenticates table (admitted c) (user c);
  live_inv : exists ac, Hy2Session.inv (user c) (congestion c) ac (loop c);
  live_address : Hy2Session.remote (loop c) ∈ addresses c;
  live_tasks stream : stream ∈ Hy2Session.tasks (loop c) -> stream ∈ streams c;
  live_handed a : a ∈ handed c -> carries c a;
}.

Record inv (task : AcceptTask) e : Prop := {
  inv_task : accept_task (server e) = task;
  inv_live c : c ∈ live e -> live_ok (task_users task) c;
  inv_items : delivered e ++ queued (incoming (server e)) ≡ₚ concat (handed <$> live e);
}.

Lemma resumed_inv table c e :
  live_ok table c ->
  Hy2Session.inv (user c) (congestion c) (incoming (server e)) (resumed c e).
Proof using. intros [_ [ac Hi] _ _ _]. by eapply Hy2Session.inv_rebase. Qed.

Lemma turn_inv c arm ac l :
  Hy2Session.inv (user c) (congestion c) ac l ->
  match turn c arm l with
  | Hy2Session.Continue l' | Hy2Session.Stops _ l' =>
      Hy2Session.inv (user c) (congestion c) ac l'
  | Hy2Session.Waits => True
  | Hy2Session.Panicked => False
  end.
Proof using.
  intros Hi. destruct arm as [[err|]|[err|halves]|now d]; simpl; try done.
  - by eapply Hy2Session.inv_same_but.
  - by apply Hy2Session.on_datagram_inv.
Qed.

Lemma turn_hands c arm l :
  match turn c arm l with
  | Hy2Session.Continue l' | Hy2Session.Stops _ l' =>
      Hy2Session.hands_over (user c) (congestion c) l l'
  | Hy2Session.Waits | Hy2Session.Panicked => True
  end.
Proof using.
  destruct arm as [[err|]|[err|halves]|now d]; simpl; try by apply Hy2Session.hands_nothing.
  apply Hy2Session.on_datagram_hands.
Qed.

(** A connection whose loop has moved is still sound, and what it has put
    into the channel is its own. *)
Lemma moved_ok table c l b e :
  live_ok table c -> Hy2Session.inv (user c) (congestion c) (incoming (server e)) l ->
  Hy2Session.hands_over (user c) (congestion c) (resumed c e) l ->
  live_ok table (with_loop c l b (put e l)) /\
  queued (Hy2Session.accepted l) = queued (incoming (server e)) ++ put e l.
Proof using.
  intros [H1 H2 H3 H4 H5] Hi [Hn (items & Hq & Hitems)].
  assert (put e l = items) as Eput.
  { unfold put. rewrite Hq. apply drop_app_length. }
  rewrite Eput. split; [|exact Hq]. split; simpl; [done|by eexists|set_solver|set_solver|].
  assert (forall s, s ∈ streams c -> s ∈ streams c ++ Hy2Session.tasks l) as Hs by set_solver.
  intros a [Ha|Ha]%elem_of_app; unfold carries; simpl.
  - destruct (H5 a Ha) as (Hu & Hk & Hsrc & Hrest). split_and!; [done|done|set_solver|].
    destruct a; [|simpl in Hn; lia]. destruct Hrest as (rng & st & Hst & Hrest). exists rng, st. auto.
  - rewrite Forall_forall in Hitems. destruct (Hitems a Ha) as (Hu & Hk & Hsrc & Hrest).
    split_and!; [done|done|rewrite Hsrc; set_solver|].
    destruct a; [|done]. destruct Hrest as (rng & st & Hst & Hrest). exists rng, st. auto.
Qed.

Lemma moved_inv task l1 c l2 l b cl e :
  live e = l1 ++ c :: l2 -> inv task e ->
  Hy2Session.inv (user c) (congestion c) (incoming (server e)) l ->
  Hy2Session.hands_over (user c) (congestion c) (resumed c e) l ->
  inv task (with_live e (with_incoming (server e) (Hy2Session.accepted l))
              (l1 ++ with_loop c l b (put e l) :: l2) cl).
Proof using.
  intros Hl [H1 H2 H3] Hi Hh.
  destruct (moved_ok (task_users task) c l b e) as [Hok Hq]; [|done|done|].
  { apply H2. rewrite Hl. apply elem_of_app. right. by left. }
  split; simpl; [done| |].
  - intros x. rewrite elem_of_app, elem_of_cons. intros [Hx|[->|Hx]]; [|done|];
      apply H2; rewrite Hl, elem_of_app, elem_of_cons; auto.
  - rewrite Hl in H3. rewrite Hq, app_assoc, H3, !fmap_app, !concat_app, !fmap_cons. simpl.
    solve_Permutation.
Qed.

(** Steps that add connections at most, and no items. *)
Lemma hy2_inv_more task e e' :
  inv task e -> accept_task (server e') = accept_task (server e) ->
  incoming (server e') = incoming (server e) -> delivered e' = delivered e ->
  (exists cs, live e' = live e ++ cs /\
     forall c, c ∈ cs -> live_ok (task_users task) c /\ handed c = []) ->
  inv task e'.
Proof using.
  intros [H1 H2 H3] Et Ei Ed (cs & El & Hcs). split; [congruence| |].
  - intros c. rewrite El. intros [Hc|Hc]%elem_of_app; [by apply H2|by apply Hcs].
  - rewrite Ed, Ei, El, fmap_app, concat_app, H3.
    assert (concat (handed <$> cs) = []) as ->; [|by rewrite app_nil_r].
    clear -Hcs. induction cs as [|c cs IH]; [done|]. rewrite fmap_cons. simpl.
    destruct (Hcs c) as [_ ->]; [by left|]. apply IH. intros x Hx. apply Hcs. by right.
Qed.

Lemma inv_same task e e' :
  inv task e -> accept_task (server e') = accept_task (server e) ->
  incoming (server e') = incoming (server e) -> delivered e' = delivered e ->
  live e' = live e -> inv task e'.
Proof using.
  intros Hi Et Ei Ed El. apply (hy2_inv_more _ _ _ Hi); try done. exists [].
  rewrite app_nil_r. split; [done|]. by intros c ?%elem_of_nil.
Qed.

Lemma hy2_connected_inv task now rng source connection h3_error accepts ps e :
  inv task e -> inv task (connected now rng source connection h3_error accepts ps e).
Proof using.
  intros Hi. apply (hy2_inv_more _ _ _ Hi); try done. eexists. split; [done|]. intros c Hc.
  destruct (Hy2Server.phase _) as [| | |u k] eqn:Ep; try by apply elem_of_nil in Hc.
  pose proof (Hy2Server.proxying_admitted _ _ _ _ _ _ _ _ _ _ _ Ep)
    as (request & stream & rest & v & pw & -> & H1 & H2 & H3 & H4 & H5 & H6 & _).
  simpl in Hc. apply list_elem_of_singleton in Hc as ->. rewrite (inv_task _ _ Hi) in H6.
  split; [|done]. split; simpl; [|eexists; apply Hy2Session.inv_initial|set_solver..].
  unfold authenticates. by eauto 10.
Qed.

Lemma live_resumed task l1 c l2 e :
  inv task e -> live e = l1 ++ c :: l2 ->
  Hy2Session.inv (user c) (congestion c) (incoming (server e)) (resumed c e).
Proof using.
  intros Hi Hl. eapply resumed_inv, (inv_live _ _ Hi). rewrite Hl. apply elem_of_app. right. by left.
Qed.

Lemma hy2_step_inv task e e' : inv task e -> step e e' -> inv task e'.
Proof using.
  intros Hi Hs. destruct Hs as [src e Hr Hc|now mtu e|l1 src l2 e Hp|now rng l1 src l2 cn err acc e Hp
    |l1 m l2 e Hm|l1 c l2 arm l e Hl Hsv Ht|l1 c l2 arm r l e Hl Hsv Ht|l1 c l2 l e Hl Ht
    |senders r e e' Ha|chain key r s e Hu|e].
  1-3, 5, 11: by apply (inv_same _ _ _ Hi).
  - by apply hy2_connected_inv.
  - pose proof (turn_inv c arm _ _ (live_resumed _ _ _ _ _ Hi Hl)) as H.
    pose proof (turn_hands c arm (resumed c e)) as H'. rewrite Ht in H, H'. by apply moved_inv.
  - pose proof (turn_inv c arm _ _ (live_resumed _ _ _ _ _ Hi Hl)) as H.
    pose proof (turn_hands c arm (resumed c e)) as H'. rewrite Ht in H, H'. by apply moved_inv.
  - apply moved_inv; [done|done| |by apply Hy2Session.task_step_hands].
    eapply Hy2Session.task_step_inv; [|done]. by eapply live_resumed.
  - unfold accept in Ha. pose proof (recv_spec (incoming (server e))) as Hr.
    destruct (recv _) as [[a ac]|]; [|by destruct senders; simplify_eq]. injection Ha as <- <-.
    destruct Hr as (Hq & _). destruct Hi as [H1 H2 H3]. split; simpl; try done.
    by rewrite <-app_assoc, <-H3, Hq.
  - apply (inv_same _ _ _ Hi); try done; revert Hu; unfold update_certificate;
      destruct (build _ _ _) as [[c|x]|]; intros; by simplify_eq.
Qed.

(** C2: a Hysteria2 server hands over nothing without a configured user.
    Whatever connections come, and however their loops, stream tasks,
    masquerade tasks, renewals of the certificate and the application
    interleave: the items that [Server::accept] has returned or will return
    are, each once, those that the admitted connections have put into the
    channel.  A connection was admitted by a [POST] to the authentication URL
    with the password of a user the server was bound with, and each item of
    its own carries that user's name, the controller negotiated there and an
    address of its peer, and is a stream that its peer opened, after the
    request on it, or a packet connection of its own.  Nothing a peer sends
    makes the loop of a connection panic. *)
Theorem hy2_server_attribution os opts bandwidth transport masquerade s0 e
    (Hbind : bind_with_bandwidth_and_transport_and_masquerade os opts bandwidth transport masquerade
             = Returns (Ok s0))
    (Hrun : rtc step (start s0) e) :
  delivered e ++ queued (incoming (server e)) ≡ₚ concat (handed <$> live e) /\
  (forall c, c ∈ live e ->
   (exists u value, u ∈ users opts /\ user c = Hy2Server.name u /\
     method (admitted c) = Hy2Server.POST /\
     uri_authority (uri (admitted c)) = Some URL_AUTHORITY /\
     uri_path (uri (admitted c)) = URL_PATH /\
     hm_get HEADER_AUTH (headers (admitted c)) = Some value /\
     hv_to_str value = Some (Hy2Server.password u)) /\
   (forall a, a ∈ handed c -> carries c a) /\
   forall arm, turn c arm (resumed c e) <> Hy2Session.Panicked).
Proof using.
  assert (task_users (accept_task s0) = Hy2Server.user_table (users opts) /\
          queued (incoming s0) = []) as [Ht Hq].
  { revert Hbind. unfold bind_with_bandwidth_and_transport_and_masquerade.
    destruct (build _ _ _) as [[c|x]|]; try done.
    destruct (Socket.bind_endpoint _ _ _) as [[x|ep] log]; [done|]. intros [= <-].
    split; [done|]. apply channel_spec. }
  assert (inv (accept_task s0) e) as Hi.
  { assert (inv (accept_task s0) (start s0)) as H0.
    { split; simpl; [done|by intros c ?%elem_of_nil|].
      by rewrite Hq. }
    revert H0. clear -Hrun. induction Hrun as [e|e1 e2 e3 Hs _ IH]; [done|].
    intros H. apply IH. by eapply hy2_step_inv. }
  split; [apply (inv_items _ _ Hi)|]. intros c Hc. pose proof (inv_live _ _ Hi c Hc) as Hok. split_and!.
  - destruct (live_admitted _ _ Hok) as (H1 & H2 & H3 & v & pw & H4 & H5 & H6).
    rewrite Ht in H6. apply Hy2Server.user_table_sound in H6 as (u & Hin & Hn & <-).
    by exists u, v.
  - apply (live_handed _ _ Hok).
  - intros arm Hp. pose proof (turn_inv c arm _ _ (resumed_inv _ c e Hok)) as H. by rewrite Hp in H.
Qed.
End Server.

(** ** Examples *)

Definition example_os : Socket.Os :=
  {| Socket.new_socket d := inr {| Socket.domain := d; Socket.only_v6 := true;
                                   Socket.bound := None; Socket.send_buffer := 212992;
                                   Socket.recv_buffer := 212992 |};
     Socket.only_v6_error := None; Socket.bind_error _ _ := None; Socket.assigned a := a;
     Socket.state_error := None; Socket.set_send_error := Some (OtherIo (str "denied"));
     Socket.set_recv_error := None; Socket.granted n := n; Socket.get_send_error := None;
     Socket.get_recv_error := None; Socket.endpoint_error := None |}.

Definition example_tls : Tls :=
  {| any_supported_type k :=
       match k with Hy2Server.Sec1 _ => None | _ => Some (str "unsupported") end;
     with_single_cert _ _ := None; quic_tls := None |}.

Definition example_options : ServerOptions :=
  {| listen := Hy2Session.example_remote; certificate_chain := [str "cert"];
     private_key := str "key"; users := Hy2Server.example_users |}.

Definition ExampleServer : Type :=
  @Server (gmap bytes bytes) (ListChannel.Chan Hy2Session.Accepted).
Definition ExampleState : Type :=
  @State (gmap bytes bytes) Congestion.Counting.Ctl (ListChannel.Chan Hy2Packet.Packet)
    (ListChannel.Chan Hy2Session.Accepted).

Definition example_arrival (s : ExampleServer) : ExampleState :=
  with_pending (with_pending (start s) [] (Congestion.build 0 1200 []).2)
    [Hy2Session.example_remote] (Congestion.build 0 1200 []).2.

Definition example_accepts : list (Hy2Server.H3Accept (gmap bytes bytes)) :=
  [Hy2Server.Resolved (Hy2Server.example_request (str "secret")) (Hy2Masquerade.example_stream [])].

Definition example_connected (s : ExampleServer) : ExampleState :=
  connected (str "invalid") 1 short_rng Hy2Session.example_remote Hy2Server.example_connection None
    example_accepts [] (example_arrival s).

(** The state after a datagram on the only connection. *)
Definition example_relayed (e : ExampleState) : option ExampleState :=
  match live e with
  | [c] =>
      match turn c (Datagram 5 (inr Hy2Session.example_datagram)) (resumed c e) with
      | Hy2Session.Continue l => Some (progressed [] [] c l e)
      | _ => None
      end
  | _ => None
  end.

Lemma example_relayed_step inv tls e e' :
  Forall (fun c : Live => serving c = true) (live e) -> example_relayed e = Some e' -> step inv tls e e'.
Proof.
  unfold example_relayed. intros Hs. destruct (live e) as [|c [|]] eqn:El; try done.
  destruct (turn c _ _) eqn:Et; try done. intros [= <-]. inversion Hs; subst.
  by eapply (step_turn _ _ [] c []).
Qed.

(** The example run of a server [s] up to the first item that is taken. *)
Definition example_end (s : ExampleServer) : option ExampleState :=
  e ← example_relayed (example_connected s); snd <$> accept true e.

Lemma example_end_steps s e :
  task_running s = true -> Socket.close_reason (endpoint s) = None ->
  Forall (fun c : Live => serving c = true) (live (example_connected s)) ->
  example_end s = Some e -> rtc (step (str "invalid") example_tls) (start s) e.
Proof.
  intros Hr Hc Hs. unfold example_end. intros (e1 & H1 & H2)%bind_Some.
  apply fmap_Some in H2 as ([r e2] & Ha & ->).
  eapply rtc_l; [exact (step_built _ _ 0 1200 (start s))|].
  eapply rtc_l; [exact (step_incoming _ _ Hy2Session.example_remote
    (with_pending (start s) [] (Congestion.build 0 1200 []).2) Hr Hc)|].
  eapply rtc_l; [exact (step_connected _ _ 1 short_rng [] Hy2Session.example_remote []
    Hy2Server.example_connection None example_accepts (example_arrival s) eq_refl)|].
  eapply rtc_l; [by apply example_relayed_step|].
  apply rtc_once. by eapply step_accept.
Qed.

Definition example_server : ExampleServer :=
  {| endpoint :=
       {| Socket.socket := {| Socket.domain := Socket.IPV4; Socket.only_v6 := true;
                              Socket.bound := Some Hy2Session.example_remote;
                              Socket.send_buffer := 212992; Socket.recv_buffer := 16777216 |};
          Socket.server_config :=
            Some {| Hy2Server.alpn_protocols := [str "h3"];
                    Hy2Server.certificates := [str "cert"];
                    Hy2Server.private_key := Hy2Server.Sec1 (str "key");
                    Hy2Server.transport :=
                      Transport.base_transport_config Transport.default_options
                      ++ [Transport.MaxConcurrentBidiStreams (Z.shiftl 1 60)];
                    Hy2Server.disable_path_manager := true |};
          Socket.client_config := None; Socket.close_reason := None |};
     transport_options := Transport.default_options; incoming := channel 256;
     accept_task := {| task_users := Hy2Server.user_table Hy2Server.example_users;
                       task_bandwidth := Hy2Server.example_bandwidth; task_masquerade := None |};
     task_running := true |}.

Definition example_final : ExampleState :=
  default (start example_server) (example_end example_server).

Lemma example_run : rtc (step (str "invalid") example_tls) (start example_server) example_final.
Proof.
  assert (bool_decide (is_Some (example_end example_server)) = true) as Hs
    by (vm_compute; reflexivity).
  assert (forallb serving (live (example_connected example_server)) = true) as Hl
    by (vm_compute; reflexivity).
  apply (example_end_steps example_server example_final eq_refl eq_refl).
  - apply Forall_forall. intros c Hc. by apply (proj1 (forallb_forall serving _) Hl), list_elem_of_In.
  - apply bool_decide_eq_true in Hs as [e He]. unfold example_final. by rewrite He.
Qed.

Lemma hy2_server_attribution_witness :
  Hy2Session.accepted_user <$> delivered example_final = [str "alice"] /\
  delivered example_final ++ queued (incoming (server example_final))
  ≡ₚ concat (handed <$> live example_final) /\
  forall c : Live, c ∈ live example_final -> method (admitted c) = Hy2Server.POST.
Proof.
  split; [vm_compute; reflexivity|].
  destruct (hy2_server_attribution (str "invalid") example_tls example_os example_options
    Hy2Server.example_bandwidth Transport.default_options None example_server example_final)
    as [Hitems H].
  - vm_compute. reflexivity.
  - exact example_run.
  - split; [exact Hitems|]. intros c Hc. by destruct (H c Hc) as [(u & v & _ & _ & Hm & _) _].
Defined.
End Hy2Endpoint.
