(* ===== verification/SqWire.v ===== *)
(** * ShadowQuic addresses and requests

    The SOCKS5-style address of [src/src/shadowquic/mod.rs]
    ([encode_address], [decode_address], [encode_connect]) and the constants
    of the protocol. *)

From Stdlib Require Import ZArith Lia.
From stdpp Require Import base gmap list strings.
From S2P Require Import Prelude Error Text Net Address.

#[local] Open Scope Z_scope.
#[local] Open Scope rust_scope.

Module SqWire.

Definition SQ_CONNECT : byte := Byte.x01.
Definition SQ_ASSOCIATE_OVER_DATAGRAM : byte := Byte.x03.
Definition SQ_ASSOCIATE_OVER_STREAM : byte := Byte.x04.
Definition SQ_AUTHENTICATE : byte := Byte.x05.
Definition SQ_EXTENSION : byte := Byte.xff.
Definition SQ_EXTENSION_CONNECTION : Z := 0x01.
Definition SQ_EXTENSION_GET_STATS : byte := Byte.x00.
Definition SQ_IPV4 : byte := Byte.x01.
Definition SQ_DOMAIN : byte := Byte.x03.
Definition SQ_IPV6 : byte := Byte.x04.
Definition MAX_DOMAIN_LENGTH : Z := u8_max.

(** [Ipv6Addr::octets] and [Ipv6Addr::from([u8; 16])]. *)
Definition v6_octets (segments : list Z) : bytes := concat (to_be 2 <$> segments).

Fixpoint v6_of_octets (l : bytes) : list Z :=
  match l with
  | hi :: lo :: l => from_be [hi; lo] :: v6_of_octets l
  | _ => []
  end.

Definition encode_address (destination : Address.Address) : Result bytes :=
  let host := Address.host destination in
  let? frame :=
    match Net.parse_ip host with
    | Some (Net.V4 octets) => Ok (SQ_IPV4 :: (zb <$> octets))
    | Some (Net.V6 segments) => Ok (SQ_IPV6 :: v6_octets segments)
    | None =>
        if bool_decide (host = []) || (len host >? MAX_DOMAIN_LENGTH)
           || negb (forallb Utf8.is_ascii host)
        then Err InvalidAddress
        else Ok (SQ_DOMAIN :: zb (len host) :: host)
    end in
  Ok (frame ++ to_be 2 (Address.port destination)).

Definition encode_connect (destination : Address.Address) : Result bytes :=
  let? address := encode_address destination in
  Ok (SQ_CONNECT :: address).

(** A one-byte array filled from the stream. *)
Definition read_byte : M RecvHalf byte :=
  let* l := quic_read_exact 1 in mret (default Byte.x00 (head l)).

Definition read_host (kind : byte) : M RecvHalf bytes :=
  if decide (kind = SQ_IPV4) then
    let* l := quic_read_exact 4 in mret (Net.show_ip (Net.V4 (bz <$> l)))
  else if decide (kind = SQ_IPV6) then
    let* l := quic_read_exact 16 in mret (Net.show_ip (Net.V6 (v6_of_octets l)))
  else if decide (kind = SQ_DOMAIN) then
    let* length := read_byte in
    let* l := quic_read_exact (Z.to_nat (bz length)) in
    if Utf8.valid l then mret l else mfail InvalidAddress
  else mfail (Protocol (str "invalid ShadowQuic address type")).

Definition decode_address : M RecvHalf Address.Address :=
  let* kind := read_byte in
  let* host := read_host kind in
  let* port := quic_read_exact 2 in
  mlift (Address.new host (from_be port)).

(** What the wire keeps of an address: a host that reads as an IP address
    comes back in the standard textual form. *)
Definition normalize (a : Address.Address) : Address.Address :=
  match Net.parse_ip (Address.host a) with
  | Some ip => {| Address.host := Net.show_ip ip; Address.port := Address.port a |}
  | None => a
  end.

(** ** Lemmas *)

Lemma reads_byte b : reads read_byte [b] b.
Proof.
  unfold read_byte. apply reads_last. eapply reads_bind; [by apply reads_quic_exact|]. apply reads_ret.
Qed.

Lemma octets_roundtrip o : Forall (fun z => 0 <= z < 256) o -> bz <$> (zb <$> o) = o.
Proof.
  induction 1 as [|z o Hz _ IH]; [done|]. csimpl. by rewrite bz_zb_small, IH.
Qed.

Lemma segments_roundtrip s :
  Forall (fun z => 0 <= z < 65536) s -> v6_of_octets (v6_octets s) = s.
Proof.
  induction 1 as [|z s Hz _ IH]; [done|].
  change (v6_octets (z :: s)) with (to_be 2 z ++ v6_octets s).
  cbn [to_be app v6_of_octets]. rewrite IH. f_equal.
  exact (from_to_be_small 2 z Hz).
Qed.

Lemma length_v6_octets s : length (v6_octets s) = (2 * length s)%nat.
Proof.
  induction s as [|z s IH]; [done|].
  change (v6_octets (z :: s)) with (to_be 2 z ++ v6_octets s).
  rewrite length_app, IH, length_to_be. simpl. lia.
Qed.

Lemma v6_of_octets_wf n l :
  length l = (2 * n)%nat ->
  length (v6_of_octets l) = n /\ Forall (fun z => 0 <= z < 65536) (v6_of_octets l).
Proof.
  revert l. induction n as [|n IH]; intros l Hl.
  { destruct l; [|done]. split; [done|constructor]. }
  destruct l as [|hi [|lo l]]; simpl in Hl; [lia..|]. cbn [v6_of_octets length].
  destruct (IH l ltac:(lia)) as [H1 H2]. split; [by rewrite H1|].
  constructor; [|done]. exact (from_be_range [hi; lo]).
Qed.

Lemma parse_ip_nil : Net.parse_ip [] = None.
Proof. reflexivity. Qed.

Lemma new_reads h p rest e :
  h <> [] -> 0 <= p <= u16_max ->
  mbind (quic_read_exact 2) (fun port => mlift (Address.new h (from_be port)))
    {| pending := to_be 2 p ++ rest; ending := e |}
  = (Ok {| Address.host := h; Address.port := p |}, {| pending := rest; ending := e |}).
Proof.
  intros Hh Hp. erewrite mbind_ok by (apply quic_read_exact_app; done).
  unfold mlift. rewrite Address.new_ok by done.
  rewrite from_to_be_small by (simpl; unfold u16_max in *; lia). done.
Qed.

Lemma encode_decode a frame :
  Address.wf a -> encode_address a = Ok frame -> reads decode_address frame (normalize a).
Proof.
  intros (Hne & Hv & Hp) Henc rest e. unfold encode_address in Henc.
  unfold normalize, decode_address. pose proof (Net.parse_ip_wf (Address.host a)) as Hip.
  destruct (Net.parse_ip (Address.host a)) as [[o|s]|]; cbn [rbind] in Henc.
  - injection Henc as <-. destruct (Hip _ eq_refl) as [Hl Ho].
    cbn [app]. erewrite mbind_ok by (apply (reads_byte SQ_IPV4)). rewrite <-app_assoc.
    unfold read_host. rewrite decide_True by done. unfold mbind at 1.
    erewrite mbind_ok by (apply quic_read_exact_app; by rewrite length_fmap).
    unfold mret. rewrite octets_roundtrip by done.
    apply new_reads; [by apply Net.show_ip_nonempty|done].
  - injection Henc as <-. destruct (Hip _ eq_refl) as [Hl Ho].
    cbn [app]. erewrite mbind_ok by (apply (reads_byte SQ_IPV6)). rewrite <-app_assoc.
    unfold read_host. rewrite decide_False, decide_True by done. unfold mbind at 1.
    erewrite mbind_ok by (apply quic_read_exact_app; rewrite length_v6_octets, Hl; done).
    unfold mret. rewrite segments_roundtrip by done.
    apply new_reads; [by apply Net.show_ip_nonempty|done].
  - destruct (bool_decide _ || _ || _) eqn:Eg; [done|]. injection Henc as <-.
    apply orb_false_iff in Eg as [[_ Hl]%orb_false_iff _].
    cbn [app]. erewrite mbind_ok by (apply (reads_byte SQ_DOMAIN)). rewrite <-app_assoc.
    unfold read_host. rewrite !decide_False, decide_True by done. unfold mbind at 1.
    erewrite mbind_ok by (apply (reads_byte (zb (len (Address.host a))))).
    unfold MAX_DOMAIN_LENGTH, u8_max in Hl.
    assert (bz (zb (len (Address.host a))) = len (Address.host a)) as ->.
    { apply bz_zb_small. pose proof (len_nonneg (Address.host a)). lia. }
    rewrite to_nat_len. erewrite mbind_ok by (by apply quic_read_exact_app).
    rewrite Hv. etransitivity; [by apply new_reads|by destruct a].
Qed.

Lemma quic_read_exact_ok n s l s' :
  quic_read_exact n s = (Ok l, s') -> length l = n /\ pending s = l ++ pending s'.
Proof.
  unfold quic_read_exact, fill_exact. case_decide; intros [= <- <-]. simpl.
  rewrite length_take, take_drop. split; [lia|done].
Qed.

Lemma read_byte_ok s b s' : read_byte s = (Ok b, s') -> pending s = b :: pending s'.
Proof.
  unfold read_byte. intros (l & s1 & Hr & Hm)%mbind_ok_inv. injection Hm as <- <-.
  apply quic_read_exact_ok in Hr as [Hl Hp]. by destruct l as [|x [|]].
Qed.

Lemma read_host_ok kind s h s' :
  read_host kind s = (Ok h, s') ->
  Utf8.valid h = true /\ len (pending s) - len (pending s') <= 256.
Proof.
  unfold read_host. repeat case_decide; [..|done].
  - intros (l & s1 & Hr & Hm)%mbind_ok_inv. injection Hm as <- <-.
    apply quic_read_exact_ok in Hr as [Hl Hp]. split.
    + apply Utf8.valid_ascii, (Net.show_ip_ascii (Net.V4 _)). split; [by rewrite length_fmap|].
      apply Forall_fmap, Forall_true. intros b. apply bz_range.
    + rewrite Hp, len_app. unfold len at 1. lia.
  - intros (l & s1 & Hr & Hm)%mbind_ok_inv. injection Hm as <- <-.
    apply quic_read_exact_ok in Hr as [Hl Hp]. split.
    + apply Utf8.valid_ascii, (Net.show_ip_ascii (Net.V6 _)). by apply (v6_of_octets_wf 8).
    + rewrite Hp, len_app. unfold len at 1. lia.
  - intros (n & s1 & Hb & Hr)%mbind_ok_inv. apply read_byte_ok in Hb.
    apply mbind_ok_inv in Hr as (l & s2 & Hr & Hm).
    apply quic_read_exact_ok in Hr as [Hl Hp].
    destruct (Utf8.valid l) eqn:Ev; [|done]. injection Hm as <- <-. split; [done|].
    rewrite Hb, Hp, len_cons, len_app. pose proof (bz_range n). unfold len at 1. lia.
Qed.

Lemma decode_address_ok s a s' :
  decode_address s = (Ok a, s') ->
  Address.wf a /\ len (pending s) - len (pending s') <= 259.
Proof.
  unfold decode_address. intros (k & s1 & Hk & Hr)%mbind_ok_inv. apply read_byte_ok in Hk.
  apply mbind_ok_inv in Hr as (h & s2 & Hh & Hr). apply read_host_ok in Hh as [Hv Hc].
  apply mbind_ok_inv in Hr as (p & s3 & Hp & Hm). apply quic_read_exact_ok in Hp as [Hl Hp].
  unfold mlift in Hm. destruct h as [|b h]; [done|]. injection Hm as <- <-. split.
  - split_and!; [done|done|..]; simpl; pose proof (from_be_range p) as Hb; rewrite Hl in Hb;
      unfold u16_max; simpl in Hb; lia.
  - rewrite Hk, len_cons. rewrite Hp, len_app in Hc. unfold len in *. lia.
Qed.

Lemma decode_address_consumes : consumes decode_address.
Proof.
  unfold decode_address, read_host, read_byte, quic_read_exact.
  repeat first [apply mbind_consumes; [|intros]|case_decide|case_match]; eauto with consumes.
Qed.

(** ** Properties *)

(** An encoded destination decodes, off any stream that starts with it
    and up to its last byte, to the same port and the same host, where a
    host that reads as an IP address comes back in its standard form. *)
Theorem address_roundtrip a frame
    (Hwf : Address.wf a) (Henc : encode_address a = Ok frame) :
  forall rest e, decode_address {| pending := frame ++ rest; ending := e |}
                 = (Ok (normalize a), {| pending := rest; ending := e |}).
Proof. by apply encode_decode. Qed.

(** A destination has an encoding exactly when its host is an IP address
    or a domain of at most 255 ASCII bytes. *)
Theorem address_encodable a (Hwf : Address.wf a) :
  (exists frame, encode_address a = Ok frame) <->
  is_Some (Net.parse_ip (Address.host a)) \/
  (len (Address.host a) <= 255 /\ Forall (fun b => Utf8.is_ascii b = true) (Address.host a)).
Proof.
  destruct Hwf as (Hne & _ & _). unfold encode_address.
  destruct (Net.parse_ip (Address.host a)) as [[o|s]|]; cbn [rbind].
  1, 2: split; [left; eauto|eauto].
  rewrite bool_decide_false by done. cbn [orb]. unfold MAX_DOMAIN_LENGTH, u8_max.
  destruct (Z.gtb_spec (len (Address.host a)) 255) as [Hl|Hl]; cbn [orb rbind].
  { split; [by intros []|]. intros [[]|[]]; [done|lia]. }
  destruct (forallb Utf8.is_ascii (Address.host a)) eqn:Ef; cbn [negb rbind].
  - split; [|eauto]. intros _. right. split; [done|].
    apply Forall_forall. intros b Hb. rewrite forallb_forall in Ef. apply Ef. by apply list_elem_of_In.
  - split; [by intros []|]. intros [[]|[_ Hf]]; [done|]. exfalso.
    apply not_true_iff_false in Ef. apply Ef, forallb_forall. intros b Hb%list_elem_of_In.
    rewrite Forall_forall in Hf. auto.
Qed.

(** Whatever a peer sends, an address that is accepted is well formed
    and took at most 259 bytes off the stream. *)
Theorem decode_address_wf s a s' (Hdec : decode_address s = (Ok a, s')) :
  Address.wf a /\ len (pending s) - len (pending s') <= 259.
Proof. by apply decode_address_ok. Qed.

Lemma address_roundtrip_witness :
  decode_address {| pending := [SQ_IPV4; Byte.x01; Byte.x01; Byte.x01; Byte.x01; Byte.x00; Byte.x35]
                               ++ str "x"; ending := None |}
  = (Ok {| Address.host := str "1.1.1.1"; Address.port := 53 |},
     {| pending := str "x"; ending := None |}).
Proof.
  apply (address_roundtrip {| Address.host := str "1.1.1.1"; Address.port := 53 |}).
  - split_and!; [done|reflexivity|simpl; unfold u16_max; lia..].
  - reflexivity.
Defined.

Lemma address_encodable_witness :
  exists frame, encode_address {| Address.host := str "example.com"; Address.port := 443 |} = Ok frame.
Proof.
  apply (address_encodable {| Address.host := str "example.com"; Address.port := 443 |}).
  - split_and!; [done|reflexivity|simpl; unfold u16_max; lia..].
  - right. split; [by vm_compute|]. by apply (bool_decide_eq_true_1 _).
Defined.

Lemma decode_address_wf_witness :
  let s := {| pending := SQ_DOMAIN :: Byte.x01 :: str "a" ++ [Byte.x00; Byte.x35]; ending := None |} in
  exists a s', decode_address s = (Ok a, s') /\ Address.wf a.
Proof.
  intros s.
  assert (decode_address s = (Ok {| Address.host := str "a"; Address.port := 53 |},
            {| pending := []; ending := None |})) as H by reflexivity.
  eexists _, _. split; [exact H|]. exact (proj1 (decode_address_wf _ _ _ H)).
Defined.

End SqWire.
