(* ===== verification/SqUdp.v ===== *)
(** * ShadowQuic UDP associations

    [IncomingUdpRegistry], [ShadowQuicPacketConnection] and the handlers of
    the UDP control stream, datagrams and unidirectional streams of
    [src/src/shadowquic/mod.rs].  The sender announces an id for each new
    destination on the association's control stream and then names
    destinations by their ids; the receiver keeps the ids as routes. *)

From Stdlib Require Import ZArith Lia.
From stdpp Require Import base gmap list strings.
From S2P Require Import Prelude Error Text Net Address Channels Hy2Packet SqWire.

#[local] Open Scope Z_scope.
#[local] Open Scope rust_scope.

Module SqUdp.

(** [ShadowQuicPacket]. *)
Record Packet := { data : bytes; destination : Address.Address }.

Inductive UdpMode := Datagram | Stream.

(** ** The receiving side *)

(** A route: the channel of the association, by its place among the
    receiver's channels, and the destination. *)
Record IncomingUdpRoute := { sender : nat; route_destination : Address.Address }.

Record IncomingUdpRegistry := { routes : gmap Z IncomingUdpRoute; closed : bool }.

(** [IncomingUdpRegistry::default]. *)
Definition default_registry : IncomingUdpRegistry := {| routes := ∅; closed := false |}.

Definition register (id : Z) (destination : Address.Address) (sender : nat)
    (self : IncomingUdpRegistry) : IncomingUdpRegistry :=
  {| routes := <[id := {| sender := sender; route_destination := destination |}]> (routes self);
     closed := closed self |}.

Definition remove (ids : list Z) (self : IncomingUdpRegistry) : IncomingUdpRegistry :=
  {| routes := foldl (fun m id => delete id m) (routes self) ids; closed := closed self |}.

(** [IncomingUdpRegistry::wait]: [None] while the call waits for a change. *)
Definition wait (id : Z) (self : IncomingUdpRegistry) : option (Result IncomingUdpRoute) :=
  match routes self !! id with
  | Some route => Some (Ok route)
  | None => if closed self then Some (Err Closed) else None
  end.

Definition close (self : IncomingUdpRegistry) : IncomingUdpRegistry :=
  {| routes := routes self; closed := true |}.

(** One round of the control stream: a destination and the id it gets. *)
Definition control_entry : M RecvHalf (Address.Address * Z) :=
  let* destination := SqWire.decode_address in
  let* id := quic_read_exact 2 in
  mret (destination, from_be id).

(** The loop of [handle_udp_control_stream]: registers entry after entry
    until the stream fails or ends; the ids it registered and the error it
    stopped with.  Every round takes bytes, so as much fuel as bytes is
    enough. *)
Fixpoint control_loop (fuel : nat) (chan : nat) (recv : RecvHalf) (reg : IncomingUdpRegistry)
    (ids : list Z) : IncomingUdpRegistry * list Z * option Error :=
  match fuel with
  | O => (reg, ids, None)
  | S fuel =>
      match control_entry recv with
      | (Err e, _) => (reg, ids, Some e)
      | (Ok (destination, id), recv) =>
          control_loop fuel chan recv (register id destination chan reg) (ids ++ [id])
      end
  end.

(** [handle_udp_control_stream]: the loop, then the removal of its ids. *)
Definition handle_udp_control_stream (chan : nat) (recv : RecvHalf) (reg : IncomingUdpRegistry)
    : IncomingUdpRegistry * option Error :=
  let '(reg, ids, e) := control_loop (S (length (pending recv))) chan recv reg [] in
  (remove ids reg, e).

Section Receive.
Context {Ch : Type} `{MC : Mpsc Ch Packet}.

(** Hands a packet to the channel of a route; a channel whose association
    is gone is closed. *)
Definition deliver (route : IncomingUdpRoute) (l : bytes) (chans : gmap nat Ch)
    : option (Result unit * gmap nat Ch) :=
  match chans !! sender route with
  | None => Some (Err Closed, chans)
  | Some ch =>
      match send_wait {| data := l; destination := route_destination route |} ch with
      | None => None
      | Some (true, ch) => Some (Ok tt, <[sender route := ch]> chans)
      | Some (false, ch) => Some (Err Closed, <[sender route := ch]> chans)
      end
  end.

(** [handle_incoming_udp_datagram]; [None] while it waits for its route or
    for room. *)
Definition handle_incoming_udp_datagram (datagram : bytes) (reg : IncomingUdpRegistry)
    (chans : gmap nat Ch) : option (Result unit * gmap nat Ch) :=
  if len datagram <? 2
  then Some (Err (Protocol (str "truncated ShadowQuic UDP datagram")), chans)
  else match wait (from_be (take 2 datagram)) reg with
       | None => None
       | Some (Err e) => Some (Err e, chans)
       | Some (Ok route) => deliver route (drop 2 datagram) chans
       end.

(** One packet of a unidirectional stream. *)
Definition stream_packet : M RecvHalf bytes :=
  let* length := quic_read_exact 2 in
  quic_read_exact (Z.to_nat (from_be length)).

(** The loop of [handle_incoming_udp_stream]; [None] while a channel has no
    room. *)
Fixpoint stream_loop (fuel : nat) (route : IncomingUdpRoute) (recv : RecvHalf)
    (chans : gmap nat Ch) : option (option Error * gmap nat Ch) :=
  match fuel with
  | O => Some (None, chans)
  | S fuel =>
      match stream_packet recv with
      | (Err e, _) => Some (Some e, chans)
      | (Ok l, recv) =>
          match deliver route l chans with
          | None => None
          | Some (Err e, chans) => Some (Some e, chans)
          | Some (Ok _, chans) => stream_loop fuel route recv chans
          end
      end
  end.

(** [handle_incoming_udp_stream]. *)
Definition handle_incoming_udp_stream (recv : RecvHalf) (reg : IncomingUdpRegistry)
    (chans : gmap nat Ch) : option (option Error * gmap nat Ch) :=
  match quic_read_exact 2 recv with
  | (Err e, _) => Some (Some e, chans)
  | (Ok id, recv) =>
      match wait (from_be id) reg with
      | None => None
      | Some (Err e) => Some (Some e, chans)
      | Some (Ok route) => stream_loop (S (length (pending recv))) route recv chans
      end
  end.
End Receive.

(** ** The sending side *)

Inductive OutgoingUdpContext :=
| DatagramContext (id : Z)
| StreamContext (stream : nat).

(** [ShadowQuicPacketConnection] with what it handed to the connection: the
    control stream, the contexts, the datagrams and the unidirectional
    streams in the order in which they were opened. *)
Record Sender := {
  mode : UdpMode;
  next_id : Z;
  control : SendHalf;
  contexts : gmap Address.Address OutgoingUdpContext;
  datagrams : list bytes;
  streams : list SendHalf;
}.

(** What the connection answers: a reason to refuse a datagram, and the
    stream that [open_uni] gives. *)
Record Link := {
  refuse : bytes -> option bytes;
  open_uni : ConnectionError + SendHalf;
}.

Definition with_control (self : Sender) (c : SendHalf) : Sender :=
  {| mode := mode self; next_id := next_id self; control := c; contexts := contexts self;
     datagrams := datagrams self; streams := streams self |}.
Definition with_context (self : Sender) (d : Address.Address) (c : OutgoingUdpContext) : Sender :=
  {| mode := mode self; next_id := next_id self; control := control self;
     contexts := <[d := c]> (contexts self);
     datagrams := datagrams self; streams := streams self |}.
Definition with_streams (self : Sender) (l : list SendHalf) : Sender :=
  {| mode := mode self; next_id := next_id self; control := control self;
     contexts := contexts self; datagrams := datagrams self; streams := l |}.

(** [next_id.fetch_add(1)] on an [AtomicU16]. *)
Definition fetch_id : M Sender Z := fun self =>
  (Ok (next_id self),
   {| mode := mode self; next_id := wrap 16 (next_id self + 1); control := control self;
      contexts := contexts self; datagrams := datagrams self; streams := streams self |}).

Definition write_control (l : bytes) : M Sender unit := fun self =>
  let (r, c) := write_all l (control self) in (r, with_control self c).

(** A write to the unidirectional stream [i], which its context owns. *)
Definition write_stream (i : nat) (l : bytes) : M Sender unit := fun self =>
  match streams self !! i with
  | None => (Err Closed, self)
  | Some half => let (r, half) := write_all l half in
                 (r, with_streams self (<[i := half]> (streams self)))
  end.

Definition open_stream (link : Link) : M Sender nat := fun self =>
  match open_uni link with
  | inl e => (Err (Connection e), self)
  | inr half => (Ok (length (streams self)), with_streams self (streams self ++ [half]))
  end.

Definition send_datagram (link : Link) (frame : bytes) : M Sender unit := fun self =>
  match refuse link frame with
  | Some e => (Err (Protocol e), self)
  | None => (Ok tt, {| mode := mode self; next_id := next_id self; control := control self;
                       contexts := contexts self; datagrams := datagrams self ++ [frame];
                       streams := streams self |})
  end.

(** The context of a destination, announced on the control stream when it is
    new: what [contexts.get_mut] then finds. *)
Definition ensure_context (link : Link) (destination : Address.Address)
    : M Sender OutgoingUdpContext := fun self =>
  match contexts self !! destination with
  | Some context => (Ok context, self)
  | None =>
      (let* id := fetch_id in
       let* address := mlift (SqWire.encode_address destination) in
       let* _ := write_control address in
       let* _ := write_control (to_be 2 id) in
       let* context :=
         match mode self with
         | Datagram => mret (DatagramContext id)
         | Stream =>
             let* stream := open_stream link in
             let* _ := write_stream stream (to_be 2 id) in
             mret (StreamContext stream)
         end in
       fun self => (Ok context, with_context self destination context)) self
  end.

(** [ShadowQuicPacketConnection::send]. *)
Definition send (link : Link) (packet : Packet) : M Sender unit :=
  let* context := ensure_context link (destination packet) in
  match context with
  | DatagramContext id => send_datagram link (to_be 2 id ++ data packet)
  | StreamContext stream =>
      if len (data packet) >? u16_max
      then mfail (Protocol (str "ShadowQuic UDP packet exceeds 65535 bytes"))
      else
        let* _ := write_stream stream (to_be 2 (len (data packet))) in
        write_stream stream (data packet)
  end.

(** A new association over [control]; ids go on from [id]. *)
Definition new_sender (mode : UdpMode) (id : Z) (control : SendHalf) : Sender :=
  {| mode := mode; next_id := id; control := control; contexts := ∅; datagrams := []; streams := [] |}.

(** A connection whose new streams are empty. *)
Definition fresh_link (link : Link) : Prop :=
  forall half, open_uni link = inr half -> written half = [].

(** A run of sends that all succeed. *)
Inductive sends : Sender -> list Packet -> Sender -> Prop :=
| sends_nil s : sends s [] s
| sends_cons link p ps s1 s2 s3 :
    fresh_link link -> send link p s1 = (Ok tt, s2) -> sends s2 ps s3 -> sends s1 (p :: ps) s3.


(** ** What a run of sends leaves on the wire *)

(** The destinations of a run in the order of their first packet. *)
Definition remember (ds : list Address.Address) (d : Address.Address) : list Address.Address :=
  if decide (d ∈ ds) then ds else ds ++ [d].

Definition order (ps : list Packet) : list Address.Address :=
  foldl (fun ds p => remember ds (destination p)) [] ps.

(** The id of the [i]-th destination of an association that starts at [k]. *)
Definition id_of (k : Z) (i : nat) : Z := wrap 16 (k + Z.of_nat i).

Definition announced (k : Z) (j : nat) (frames : list bytes) : bytes :=
  concat (imap (fun i f => f ++ to_be 2 (id_of k (j + i))) frames).

Definition stream_frame (p : Packet) : bytes := to_be 2 (len (data p)) ++ data p.

Definition stream_bytes (k : Z) (i : nat) (d : Address.Address) (log : list Packet) : bytes :=
  to_be 2 (id_of k i) ++ concat (stream_frame <$> filter (fun p => destination p = d) log).

Definition context_of (md : UdpMode) (k : Z) (i : nat) : OutgoingUdpContext :=
  match md with Datagram => DatagramContext (id_of k i) | Stream => StreamContext i end.

(** The state after the destinations [ds] were announced and the packets
    [log] sent. *)
Record relayed (md : UdpMode) (k : Z) (w : bytes) (ds : list Address.Address)
    (log : list Packet) (s : Sender) : Prop := {
  r_mode : mode s = md;
  r_next : next_id s = id_of k (length ds);
  r_control : exists frames, Forall2 (fun d f => SqWire.encode_address d = Ok f) ds frames /\
    written (control s) = w ++ announced k 0 frames;
  r_nodup : NoDup ds;
  r_contexts i d : ds !! i = Some d -> contexts s !! d = Some (context_of md k i);
  r_known d : is_Some (contexts s !! d) -> d ∈ ds;
  r_log p : p ∈ log -> destination p ∈ ds;
  r_sent :
    match md with
    | Datagram => Forall2 (fun p f => exists i, ds !! i = Some (destination p) /\
                                       f = to_be 2 (id_of k i) ++ data p) log (datagrams s)
    | Stream => length (streams s) = length ds /\ Forall (fun p => len (data p) <= u16_max) log /\
        forall i d, ds !! i = Some d -> exists half,
          streams s !! i = Some half /\ written half = stream_bytes k i d log
    end;
}.

Lemma write_all_ok l s s' : write_all l s = (Ok tt, s') -> written s' = written s ++ l.
Proof.
  unfold write_all. destruct (room s); [case_decide|]; by intros [= <-].
Qed.

Lemma write_control_ok l s s' :
  write_control l s = (Ok tt, s') ->
  exists c, s' = with_control s c /\ written c = written (control s) ++ l.
Proof.
  unfold write_control. destruct (write_all l (control s)) as [r c] eqn:E. intros [= -> <-].
  exists c. split; [done|]. by apply write_all_ok.
Qed.

Lemma write_stream_ok i l s s' :
  write_stream i l s = (Ok tt, s') ->
  exists half half', streams s !! i = Some half /\ written half' = written half ++ l /\
    s' = with_streams s (<[i := half']> (streams s)).
Proof.
  unfold write_stream. destruct (streams s !! i) as [half|]; [|done].
  destruct (write_all l half) as [r half'] eqn:E. intros [= -> <-].
  exists half, half'. split_and!; [done|by apply write_all_ok|done].
Qed.

Lemma announced_snoc k j frames f :
  announced k j (frames ++ [f]) = announced k j frames ++ f ++ to_be 2 (id_of k (j + length frames)).
Proof.
  unfold announced. rewrite imap_app, concat_app. simpl. rewrite app_nil_r.
  unfold compose. by rewrite Nat.add_0_r.
Qed.

Lemma id_of_succ k n : wrap 16 (id_of k n + 1) = id_of k (S n).
Proof.
  unfold id_of, wrap. rewrite Zplus_mod_idemp_l. f_equal. lia.
Qed.

Lemma remember_in ds d : d ∈ remember ds d.
Proof. unfold remember. case_decide; [done|]. apply elem_of_app. right. by apply list_elem_of_singleton. Qed.

Lemma filter_none {A} (P : A -> Prop) `{!forall x, Decision (P x)} (l : list A) :
  (forall x, x ∈ l -> ~ P x) -> filter P l = [].
Proof. intros Hno. apply elem_of_nil_inv. intros x [Hp Hx]%list_elem_of_filter. by apply (Hno x). Qed.

(** A context for a known destination changes nothing. *)
Lemma ensure_known md k w ds log s d c :
  relayed md k w ds log s -> contexts s !! d = Some c ->
  remember ds d = ds /\ exists i, ds !! i = Some d /\ c = context_of md k i.
Proof.
  intros Hr Hc. assert (d ∈ ds) as Hd by (apply (r_known _ _ _ _ _ _ Hr); eauto).
  unfold remember. rewrite decide_True by done. split; [done|].
  apply list_elem_of_lookup in Hd as [i Hi]. exists i. split; [done|].
  apply (r_contexts _ _ _ _ _ _ Hr) in Hi. congruence.
Qed.

(** Entering a new destination: control stream, id and context agree. *)
Lemma enter_relayed md k w ds log s s' d frame :
  relayed md k w ds log s -> contexts s !! d = None -> SqWire.encode_address d = Ok frame ->
  mode s' = mode s -> next_id s' = wrap 16 (next_id s + 1) ->
  written (control s') = (written (control s) ++ frame) ++ to_be 2 (next_id s) ->
  contexts s' = <[d := context_of md k (length ds)]> (contexts s) ->
  match md with
  | Datagram => datagrams s' = datagrams s
  | Stream => exists half, streams s' = streams s ++ [half] /\ written half = to_be 2 (next_id s)
  end ->
  relayed md k w (ds ++ [d]) log s'.
Proof.
  intros [Hm Hn (frames & Hf & Hc) Hnd Hctx Hk Hl Hs] Hnone He Em En Ec Ex Es.
  assert (d ∉ ds) as Hd.
  { intros [i Hi]%list_elem_of_lookup. apply Hctx in Hi. congruence. }
  pose proof (Forall2_length _ _ _ Hf) as Hlen.
  split.
  - congruence.
  - rewrite En, Hn, id_of_succ, length_app. f_equal. simpl. lia.
  - exists (frames ++ [frame]). split; [apply Forall2_app; [done|by constructor]|].
    rewrite Ec, Hc, announced_snoc, Hn, <-Hlen, !app_assoc. done.
  - apply NoDup_app. split_and!; [done| |apply NoDup_singleton].
    intros x Hx. rewrite list_elem_of_singleton. by intros ->.
  - intros i d'. rewrite Ex. intros Hi. apply lookup_app_Some in Hi as [Hi|[Hge Hi]].
    + rewrite lookup_insert_ne; [by apply Hctx|]. intros ->. apply Hd, list_elem_of_lookup. eauto.
    + apply list_lookup_singleton_Some in Hi as [Hi <-]. rewrite lookup_insert_eq.
      by replace i with (length ds) by lia.
  - intros d'. rewrite Ex, elem_of_app, list_elem_of_singleton, lookup_insert.
    case_decide; [by right|]. intros Hd'. left. by apply Hk.
  - intros p Hp. apply elem_of_app. left. by apply Hl.
  - destruct md.
    + rewrite Es. eapply Forall2_impl; [exact Hs|]. intros p f (i & Hi & ->). exists i.
      split; [|done]. by apply lookup_app_l_Some.
    + destruct Es as (half & Es & Ew). destruct Hs as (H1 & H2 & H3).
      rewrite Es, !length_app, H1. split_and!; [done|done|]. intros i d' Hi.
      apply lookup_app_Some in Hi as [Hi|[Hge Hi]].
      * destruct (H3 _ _ Hi) as (half' & Hh & Hw). exists half'.
        split; [by apply lookup_app_l_Some|done].
      * apply list_lookup_singleton_Some in Hi as [Hi <-]. exists half.
        replace i with (length ds) by lia. split; [by apply list_lookup_middle; rewrite H1|].
        rewrite Ew. unfold stream_bytes. rewrite filter_none, Hn; [by rewrite app_nil_r|].
        intros p Hp E. apply Hd. rewrite <-E. by apply Hl.
Qed.

Lemma ensure_context_ok md k w ds log s link d ctx s' :
  relayed md k w ds log s -> fresh_link link -> ensure_context link d s = (Ok ctx, s') ->
  relayed md k w (remember ds d) log s' /\
  exists i, remember ds d !! i = Some d /\ ctx = context_of md k i.
Proof.
  intros Hr Hfl. unfold ensure_context. destruct (contexts s !! d) as [c|] eqn:Ec.
  { intros [= <- <-]. destruct (ensure_known _ _ _ _ _ _ _ _ Hr Ec) as [-> Hi]. done. }
  assert (remember ds d = ds ++ [d]) as ->.
  { unfold remember. rewrite decide_False; [done|]. intros [i Hi]%list_elem_of_lookup.
    apply (r_contexts _ _ _ _ _ _ Hr) in Hi. congruence. }
  intros (id & s1 & H1 & H)%mbind_ok_inv. injection H1 as <- <-.
  apply mbind_ok_inv in H as (frame & s1 & H1 & H). unfold mlift in H1.
  injection H1 as He <-.
  apply mbind_ok_inv in H as ([] & s2 & (c1 & -> & Hc1)%write_control_ok & H).
  apply mbind_ok_inv in H as ([] & s3 & (c2 & -> & Hc2)%write_control_ok & H).
  apply mbind_ok_inv in H as (context & s4 & Hx & H). injection H as <- <-.
  simpl in Hc1, Hc2. rewrite Hc1 in Hc2. rewrite (r_mode _ _ _ _ _ _ Hr) in Hx.
  pose proof (r_next _ _ _ _ _ _ Hr) as Hn.
  assert ((ds ++ [d]) !! length ds = Some d) as Hi by by apply list_lookup_middle.
  destruct md.
  - injection Hx as <- <-. rewrite Hn. split; [|by eauto].
    apply (enter_relayed Datagram k w ds log s _ d frame); simpl; rewrite ?Hn in *;
      first [done|symmetry; apply (r_mode _ _ _ _ _ _ Hr)].
  - apply mbind_ok_inv in Hx as (i & s5 & Ho & Hx). unfold open_stream in Ho.
    destruct (open_uni link) as [e|half] eqn:Eo; [done|]. injection Ho as <- <-.
    apply mbind_ok_inv in Hx as ([] & s6 & Hw & Hx). injection Hx as <- <-.
    apply write_stream_ok in Hw as (h1 & h2 & Hh1 & Hh2 & ->). simpl in Hh1 |- *.
    rewrite list_lookup_middle in Hh1 by done. injection Hh1 as <-.
    rewrite (Hfl _ Eo) in Hh2. simpl in Hh2.
    pose proof (r_sent _ _ _ _ _ _ Hr) as (Hlen & _). rewrite Hlen. split; [|by eauto].
    apply (enter_relayed Stream k w ds log s _ d frame); simpl; try done.
    { symmetry. apply (r_mode _ _ _ _ _ _ Hr). }
    exists h2. split; [|done]. rewrite <-Hlen.
    by rewrite insert_app_r_alt, Nat.sub_diag by lia.
Qed.

Lemma send_relayed md k w ds log s link p s' :
  relayed md k w ds log s -> fresh_link link -> send link p s = (Ok tt, s') ->
  relayed md k w (remember ds (destination p)) (log ++ [p]) s'.
Proof.
  intros Hr Hfl (ctx & s1 & Hctx & H)%mbind_ok_inv.
  destruct (ensure_context_ok _ _ _ _ _ _ _ _ _ _ Hr Hfl Hctx) as (Hr1 & i & Hi & ->).
  clear Hr Hctx. set (ds1 := remember ds (destination p)) in *.
  destruct Hr1 as [Hm Hn Hc Hnd Hx Hk Hl Hs].
  assert (forall q, q ∈ log ++ [p] -> destination q ∈ ds1) as Hl'.
  { intros q. rewrite elem_of_app, list_elem_of_singleton. intros [Hq| ->]; [by apply Hl|].
    apply list_elem_of_lookup. eauto. }
  destruct md; cbn [context_of] in H.
  - unfold send_datagram in H. destruct (refuse link _); [done|]. injection H as <-.
    split; try done. simpl. apply Forall2_app; [done|]. constructor; [by eauto|constructor].
  - destruct (Z.gtb_spec (len (data p)) u16_max) as [|Hle]; [done|].
    apply mbind_ok_inv in H as ([] & s2 & (h1 & h2 & Hh1 & Hh2 & ->)%write_stream_ok & H).
    apply write_stream_ok in H as (h3 & h4 & Hh3 & Hh4 & ->). simpl in Hh3 |- *.
    destruct Hs as (H1 & H2 & H3).
    pose proof (lookup_lt_Some _ _ _ Hh1) as Hlt.
    rewrite list_lookup_insert_eq in Hh3 by done. injection Hh3 as <-.
    split; try done. simpl. rewrite list_insert_insert_eq, length_insert.
    split_and!; [done|apply Forall_app; split; [done|by constructor]|].
    intros j d Hj. destruct (H3 j d Hj) as (h & Hh & Hw).
    unfold stream_bytes. rewrite filter_app, fmap_app, concat_app.
    destruct (decide (j = i)) as [->|Hne].
    + assert (d = destination p) as -> by congruence.
      exists h4. split; [by apply list_lookup_insert_eq|].
      rewrite filter_cons_True by done. simpl. rewrite Hh4, Hh2.
      assert (h1 = h) as -> by congruence. rewrite Hw. unfold stream_bytes, stream_frame.
      by rewrite app_nil_r, <-!app_assoc.
    + exists h. split; [by rewrite list_lookup_insert_ne|].
      rewrite filter_cons_False by (intros <-; apply Hne; by eapply NoDup_lookup).
      simpl. by rewrite app_nil_r.
Qed.

Lemma sends_relayed md k w ds log s ps s' :
  relayed md k w ds log s -> sends s ps s' ->
  relayed md k w (foldl (fun ds p => remember ds (destination p)) ds ps) (log ++ ps) s'.
Proof.
  intros Hr Hs. revert ds log Hr. induction Hs as [s|link p ps s1 s2 s3 Hfl Hp _ IH]; intros ds log Hr.
  - by rewrite app_nil_r.
  - simpl. rewrite (cons_middle p log ps), app_assoc. apply IH. by eapply send_relayed.
Qed.

Lemma new_relayed md k ctl :
  uint 16 k -> relayed md k (written ctl) [] [] (new_sender md k ctl).
Proof.
  intros Hk. split; try done.
  - simpl. unfold id_of. rewrite Z.add_0_r. symmetry. by apply wrap_small.
  - exists []. split; [constructor|]. by rewrite app_nil_r.
  - constructor.
  - intros d. simpl. rewrite lookup_empty. by intros [].
  - intros p. by rewrite elem_of_nil.
  - destruct md; [constructor|]. split_and!; [done|constructor|done].
Qed.

(** ** What the receiver makes of it *)

Lemma foldl_delete_lookup {A} (ids : list Z) (m : gmap Z A) id :
  foldl (fun m id => delete id m) m ids !! id = if decide (id ∈ ids) then None else m !! id.
Proof.
  revert m. induction ids as [|i ids IH]; intros m; [by rewrite decide_False by apply not_elem_of_nil|].
  simpl. rewrite IH, lookup_delete. repeat case_decide; subst; try done; set_solver.
Qed.

Definition entries (k : Z) (j : nat) (ds : list Address.Address) : list (Address.Address * Z) :=
  imap (fun i d => (SqWire.normalize d, id_of k (j + i))) ds.

Definition register_all (chan : nat) (es : list (Address.Address * Z)) (reg : IncomingUdpRegistry)
    : IncomingUdpRegistry :=
  foldl (fun r e => register e.2 e.1 chan r) reg es.

Lemma id_of_range k i : uint 16 (id_of k i).
Proof. by apply wrap_uint. Qed.

Lemma id_of_inj k i j :
  id_of k i = id_of k j -> Z.abs (Z.of_nat i - Z.of_nat j) < 65536 -> i = j.
Proof.
  unfold id_of, wrap. change (2 ^ 16) with 65536. intros E Hd.
  assert ((k + Z.of_nat i - (k + Z.of_nat j)) mod 65536 = 0) as Hm
    by (rewrite Zminus_mod, E, Z.sub_diag; done).
  apply Z.mod_divide in Hm as [q Hq]; [|lia]. nia.
Qed.

(** The ids of one connection repeat after 65536 destinations. *)
Lemma id_of_wraps k i j : Z.of_nat j = Z.of_nat i + 65536 -> id_of k j = id_of k i.
Proof.
  intros Hj. unfold id_of, wrap. change (2 ^ 16) with 65536.
  replace (k + Z.of_nat j) with (k + Z.of_nat i + 1 * 65536) by lia.
  apply Z.mod_add. lia.
Qed.

(** The destination that is announced 65536 ids later takes over the route of
    the first, whichever association it belongs to. *)
Lemma id_reused k i j d d' chan chan' reg :
  Z.of_nat j = Z.of_nat i + 65536 ->
  wait (id_of k i) (register (id_of k j) d' chan' (register (id_of k i) d chan reg))
  = Some (Ok {| sender := chan'; route_destination := d' |}).
Proof. intros Hj. rewrite (id_of_wraps k i j Hj). unfold wait. simpl. by rewrite lookup_insert_eq. Qed.

Lemma entries_cons k j d ds :
  entries k j (d :: ds) = (SqWire.normalize d, id_of k j) :: entries k (S j) ds.
Proof.
  unfold entries. simpl. rewrite Nat.add_0_r. f_equal. apply imap_ext. intros i x _. simpl.
  by rewrite Nat.add_succ_r.
Qed.

Lemma announced_cons k j f frames :
  announced k j (f :: frames) = (f ++ to_be 2 (id_of k j)) ++ announced k (S j) frames.
Proof.
  unfold announced. simpl. rewrite Nat.add_0_r. f_equal. f_equal. apply imap_ext. intros i x _.
  cbn [compose]. unfold compose. by rewrite Nat.add_succ_r.
Qed.

Lemma announced_length k j frames : (length frames <= length (announced k j frames))%nat.
Proof.
  revert j. induction frames as [|f frames IH]; intros j; [simpl; lia|].
  rewrite announced_cons, !length_app, length_to_be. specialize (IH (S j)). simpl. lia.
Qed.

Lemma control_entry_reads d f id :
  Address.wf d -> SqWire.encode_address d = Ok f -> uint 16 id ->
  reads control_entry (f ++ to_be 2 id) (SqWire.normalize d, id).
Proof.
  intros Hw He Hid. unfold control_entry.
  eapply reads_bind; [by apply SqWire.encode_decode|].
  apply reads_last. eapply reads_bind; [by apply reads_quic_exact|].
  rewrite from_to_be_small by done. apply reads_ret.
Qed.

Lemma control_loop_announced chan k ds frames :
  Forall Address.wf ds -> Forall2 (fun d f => SqWire.encode_address d = Ok f) ds frames ->
  forall j fuel reg ids, (length frames < fuel)%nat ->
  control_loop fuel chan {| pending := announced k j frames; ending := None |} reg ids
  = (register_all chan (entries k j ds) reg, ids ++ (snd <$> entries k j ds),
     Some (Read (FinishedEarly 0))).
Proof.
  intros Hw Hf. revert Hw. induction Hf as [|d f ds frames He _ IH];
    intros Hw j fuel reg ids Hfuel; (destruct fuel as [|fuel]; [simpl in Hfuel; lia|]).
  { simpl. by rewrite app_nil_r. }
  apply Forall_cons in Hw as [Hd Hw]. rewrite announced_cons, entries_cons. cbn [control_loop].
  rewrite (control_entry_reads d f (id_of k j) Hd He (id_of_range k j)).
  rewrite IH by (done || simpl in Hfuel; lia). csimpl. by rewrite <-app_assoc.
Qed.

Lemma register_all_other chan es reg id :
  id ∉ snd <$> es -> routes (register_all chan es reg) !! id = routes reg !! id.
Proof.
  revert reg. induction es as [|[d i] es IH]; intros reg Hid; [done|]. csimpl in *.
  apply not_elem_of_cons in Hid as [Hne Hid].
  rewrite IH by done. simpl. by rewrite lookup_insert_ne.
Qed.

Lemma entries_ids k j ds id :
  id ∈ snd <$> entries k j ds <-> exists i, (i < length ds)%nat /\ id = id_of k (j + i).
Proof.
  rewrite list_elem_of_fmap. split.
  - intros ([d x] & -> & [i Hi]%list_elem_of_lookup). unfold entries in Hi.
    apply list_lookup_imap_Some in Hi as (d' & Hd & [= -> ->]). exists i.
    split; [by eapply lookup_lt_Some|done].
  - intros (i & Hi & ->). apply lookup_lt_is_Some in Hi as [d Hd].
    exists (SqWire.normalize d, id_of k (j + i)). split; [done|].
    apply list_elem_of_lookup. exists i. unfold entries. by rewrite list_lookup_imap, Hd.
Qed.

Lemma register_all_lookup chan k ds reg i d :
  forall j, len ds <= 65536 -> ds !! i = Some d ->
  routes (register_all chan (entries k j ds) reg) !! id_of k (j + i)
  = Some {| sender := chan; route_destination := SqWire.normalize d |}.
Proof.
  revert i reg. induction ds as [|d' ds IH]; intros i reg j Hl Hi; [done|].
  rewrite entries_cons. rewrite len_cons in Hl. destruct i as [|i].
  - injection Hi as ->. simpl. fold (register_all chan (entries k (S j) ds)).
    rewrite register_all_other; [simpl; by rewrite Nat.add_0_r, lookup_insert_eq|].
    intros (i & Hi & E)%entries_ids. apply id_of_inj in E; unfold len in *; lia.
  - simpl. fold (register_all chan (entries k (S j) ds)).
    replace (j + S i)%nat with (S j + i)%nat by lia. apply IH; [lia|done].
Qed.

Lemma handle_datagram_routed {Ch} `{MC : Mpsc Ch Packet} id l reg route (chans : gmap nat Ch) :
  uint 16 id -> routes reg !! id = Some route ->
  handle_incoming_udp_datagram (to_be 2 id ++ l) reg chans = deliver route l chans.
Proof.
  intros Hid Hr. unfold handle_incoming_udp_datagram. rewrite len_app, len_to_be.
  destruct (Z.ltb_spec (Z.of_nat 2 + len l) 2) as [Hlt|_]; [pose proof (len_nonneg l); lia|].
  rewrite take_app_exact, drop_app_exact by apply length_to_be.
  rewrite from_to_be_small by done. unfold wait. by rewrite Hr.
Qed.

Lemma control_entry_shrinks s x s' :
  control_entry s = (Ok x, s') -> (length (pending s') < length (pending s))%nat.
Proof.
  unfold control_entry. intros (d & s1 & Hd & H)%mbind_ok_inv.
  apply SqWire.decode_address_consumes in Hd as (_ & l & Hl).
  apply mbind_ok_inv in H as (i & s2 & Hi & H). injection H as _ <-.
  apply SqWire.quic_read_exact_ok in Hi as [H2 Hp]. rewrite Hl, Hp, !length_app. lia.
Qed.

Lemma control_entry_stable : stable control_entry.
Proof.
  unfold control_entry, SqWire.decode_address, SqWire.read_host, SqWire.read_byte, quic_read_exact.
  repeat first [apply mbind_stable; [|intros]|case_decide|case_match]; eauto with consumes.
Qed.

Lemma stream_packet_stable : stable stream_packet.
Proof.
  unfold stream_packet, quic_read_exact. apply mbind_stable; intros; eauto with consumes.
Qed.

Lemma control_loop_ends fuel chan recv reg ids :
  (length (pending recv) < fuel)%nat -> is_Some (control_loop fuel chan recv reg ids).2.
Proof.
  revert recv reg ids. induction fuel as [|fuel IH]; intros recv reg ids Hf; [lia|].
  cbn [control_loop]. destruct (control_entry recv) as [[[d id]|e] recv'] eqn:E; [|by eexists].
  apply IH. apply control_entry_shrinks in E. lia.
Qed.

Lemma stream_packet_reads p :
  len (data p) <= u16_max -> reads stream_packet (stream_frame p) (data p).
Proof.
  intros Hp. pose proof (len_nonneg (data p)). unfold stream_packet, stream_frame.
  eapply reads_bind; [by apply reads_quic_exact|].
  rewrite from_to_be_small by (simpl; unfold u16_max in *; lia). rewrite to_nat_len.
  by apply reads_quic_exact.
Qed.

(** A channel with room for all of them takes the packets in order. *)
Lemma stream_loop_delivers {Ch} `{MC : Mpsc Ch Packet} route qs :
  Forall (fun p => len (data p) <= u16_max) qs ->
  forall fuel (chans : gmap nat Ch) ch, (length qs < fuel)%nat ->
  chans !! sender route = Some ch -> alive ch = true ->
  (length (queued ch) + length qs <= capacity ch)%nat ->
  exists chans' ch',
    stream_loop fuel route {| pending := concat (stream_frame <$> qs); ending := None |} chans
    = Some (Some (Read (FinishedEarly 0)), chans') /\
    chans' !! sender route = Some ch' /\
    queued ch' = queued ch ++
      ((fun q => {| data := data q; destination := route_destination route |}) <$> qs) /\
    forall c, c <> sender route -> chans' !! c = chans !! c.
Proof.
  induction 1 as [|q qs Hq _ IH]; intros fuel chans ch Hfuel Hch Ha Hroom;
    (destruct fuel as [|fuel]; [simpl in Hfuel; lia|]).
  { exists chans, ch. split_and!; try done. by rewrite app_nil_r. }
  rewrite !fmap_cons. cbn [stream_loop length concat] in *. rewrite (stream_packet_reads q Hq).
  unfold deliver. rewrite Hch.
  destruct (send_wait _ ch) as [[ok ch1]|] eqn:Ew.
  2:{ unfold send_wait in Ew. rewrite Ha, bool_decide_true in Ew by lia. done. }
  pose proof Ew as (Hq1 & Ha1 & Hc1 & Hok)%send_wait_spec. rewrite Ha in Hok, Ha1. subst ok.
  destruct (IH fuel (<[sender route := ch1]> chans) ch1) as (chans' & ch' & H1 & H2 & H3 & H4).
  - lia.
  - apply lookup_insert_eq.
  - done.
  - rewrite Hq1, Hc1, length_app. simpl. lia.
  - exists chans', ch'. split_and!; [done|done| |].
    + by rewrite H3, Hq1, <-app_assoc.
    + intros c Hne. rewrite H4 by done. by apply lookup_insert_ne.
Qed.

(** ** Properties *)

(** What the control stream and the datagrams of a run make of a receiver. *)
Lemma datagrams_routed k ctl ps s chan reg0
    (Hsends : sends (new_sender Datagram k ctl) ps s) (Hk : uint 16 k)
    (Hwf : Forall Address.wf (order ps)) (Hmany : len (order ps) <= 65536) :
  exists bytes, written (control s) = written ctl ++ bytes /\
  let '(reg, ids, _) := control_loop (S (length bytes)) chan
                          {| pending := bytes; ending := None |} reg0 [] in
  length ids = length (order ps) /\
  Forall2 (fun p d => exists id, uint 16 id /\ d = to_be 2 id ++ data p /\
    routes reg !! id
    = Some {| sender := chan; route_destination := SqWire.normalize (destination p) |})
    ps (datagrams s).
Proof.
  pose proof (sends_relayed _ _ _ _ _ _ _ _ (new_relayed Datagram k ctl Hk) Hsends) as Hr.
  fold (order ps) in Hr. destruct Hr as [_ _ (frames & Hf & Hc) _ _ _ _ Hs]. cbn [app] in Hs.
  eexists. split; [exact Hc|].
  rewrite (control_loop_announced chan k (order ps) frames Hwf Hf)
    by (pose proof (announced_length k 0 frames); lia).
  split; [simpl; by rewrite length_fmap; unfold entries; rewrite length_imap|].
  eapply Forall2_impl; [exact Hs|]. intros p d (i & Hi & ->).
  exists (id_of k i). split; [apply id_of_range|]. split; [done|].
  by apply (register_all_lookup chan k (order ps) reg0 i _ 0).
Qed.


(** Stream associations relay faithfully.  Of a run of sends that
    succeeds, each destination has one unidirectional stream, and a receiver
    that has read the control stream delivers from it exactly the packets
    sent to that destination, in order and unchanged, to the association and
    to no other channel. *)
Theorem stream_relay {Ch} `{MC : Mpsc Ch Packet} k ctl ps s chan reg0 i d (chans : gmap nat Ch) ch
    (Hsends : sends (new_sender Stream k ctl) ps s) (Hk : uint 16 k)
    (Hwf : Forall Address.wf (order ps)) (Hmany : len (order ps) <= 65536)
    (Hd : order ps !! i = Some d)
    (Hch : chans !! chan = Some ch) (Halive : alive ch = true)
    (Hroom : (length (queued ch) + length ps <= capacity ch)%nat) :
  let sent := filter (fun p => destination p = d) ps in
  exists bytes half, written (control s) = written ctl ++ bytes /\
  streams s !! i = Some half /\
  let '(reg, ids, _) := control_loop (S (length bytes)) chan
                          {| pending := bytes; ending := None |} reg0 [] in
  exists e chans' ch',
    handle_incoming_udp_stream {| pending := written half; ending := None |} reg chans
    = Some (Some e, chans') /\
    chans' !! chan = Some ch' /\
    queued ch' = queued ch ++
      ((fun p => {| data := data p; destination := SqWire.normalize d |}) <$> sent) /\
    forall c, c <> chan -> chans' !! c = chans !! c.
Proof.
  intros sent.
  pose proof (sends_relayed _ _ _ _ _ _ _ _ (new_relayed Stream k ctl Hk) Hsends) as Hr.
  fold (order ps) in Hr.
  destruct Hr as [_ _ (frames & Hf & Hc) _ _ _ _ (_ & Hsize & Hs)]. cbn [app] in Hs, Hsize.
  destruct (Hs i d Hd) as (half & Hhalf & Hw). exists (announced k 0 frames), half.
  split; [exact Hc|]. split; [exact Hhalf|].
  rewrite (control_loop_announced chan k (order ps) frames Hwf Hf)
    by (pose proof (announced_length k 0 frames); lia).
  unfold handle_incoming_udp_stream. rewrite Hw. unfold stream_bytes. fold sent.
  rewrite quic_read_exact_app by apply length_to_be. unfold wait.
  rewrite from_to_be_small by apply id_of_range.
  pose proof (register_all_lookup chan k (order ps) reg0 i d 0 Hmany Hd) as Hroute.
  cbn [Nat.add] in Hroute. rewrite Hroute. clear Hroute.
  assert (Forall (fun p => len (data p) <= u16_max) sent) as Hsent.
  { apply Forall_forall. intros p [_ Hp]%list_elem_of_filter. rewrite Forall_forall in Hsize. auto. }
  destruct (stream_loop_delivers {| sender := chan; route_destination := SqWire.normalize d |} sent
    Hsent (S (length (concat (stream_frame <$> sent)))) chans ch)
    as (chans' & ch' & H1 & H2 & H3 & H4); simpl; try done.
  - clear. induction sent as [|q sent IH]; [simpl; lia|]. rewrite fmap_cons. cbn [concat length].
    unfold stream_frame at 1. rewrite !length_app, length_to_be. lia.
  - pose proof (length_filter (fun p => destination p = d) ps). fold sent in H. lia.
  - eexists _, chans', ch'. by split_and!.
Qed.

(** ** Examples *)

Definition example_link : Link :=
  {| refuse := fun _ => None; open_uni := inr (open_send [] Closed) |}.

Definition example_packets : list Packet :=
  [{| data := str "one"; destination := {| Address.host := str "example.com"; Address.port := 53 |} |};
   {| data := str "two"; destination := {| Address.host := str "1.1.1.1"; Address.port := 53 |} |};
   {| data := str "three"; destination := {| Address.host := str "example.com"; Address.port := 53 |} |}].

Definition example_sender (md : UdpMode) (ps : list Packet) : Sender :=
  foldl (fun s p => (send example_link p s).2) (new_sender md 65535 (open_send (str "hi") Closed)) ps.

(** Whether every send of a run succeeds. *)
Fixpoint all_sent (link : Link) (ps : list Packet) (s : Sender) : bool :=
  match ps with
  | [] => true
  | p :: ps => match send link p s with
               | (Ok _, s) => all_sent link ps s
               | (Err _, _) => false
               end
  end.

Lemma all_sent_sends link ps s :
  fresh_link link -> all_sent link ps s = true ->
  sends s ps (foldl (fun s p => (send link p s).2) s ps).
Proof.
  intros Hf. revert s. induction ps as [|p ps IH]; intros s; cbn [all_sent foldl]; [constructor|].
  destruct (send link p s) as [[[]|e] s2] eqn:E; [|done]. intros Ha.
  by eapply sends_cons; [| |apply IH].
Qed.

Lemma example_sends md : sends (new_sender md 65535 (open_send (str "hi") Closed)) example_packets
                           (example_sender md example_packets).
Proof.
  apply all_sent_sends; [intros half [= <-]; reflexivity|].
  destruct md; vm_compute; reflexivity.
Qed.

Lemma example_packets_wf : Forall Address.wf (order example_packets).
Proof.
  repeat (apply Forall_cons; split; [split_and!; [done|reflexivity|vm_compute; congruence..]|]).
  by apply Forall_nil.
Qed.

Lemma stream_relay_witness :
  exists bytes half,
    written (control (example_sender Stream example_packets)) = str "hi" ++ bytes /\
    streams (example_sender Stream example_packets) !! 0%nat = Some half.
Proof.
  destruct (stream_relay 65535 (open_send (str "hi") Closed)
    example_packets (example_sender Stream example_packets) 7 default_registry 0
    {| Address.host := str "example.com"; Address.port := 53 |}
    {[ 7%nat := (channel 256 : ListChannel.Chan Packet) ]} (channel 256)
    (example_sends Stream)) as (bytes & half & Hb & Hh & _).
  - split; done.
  - exact example_packets_wf.
  - vm_compute; congruence.
  - reflexivity.
  - reflexivity.
  - reflexivity.
  - simpl. lia.
  - exists bytes, half. split; [exact Hb|exact Hh].
Defined.

End SqUdp.
