(* ===== verification/SqWait.v ===== *)
(** * Waiting for a route

    [IncomingUdpRegistry::wait] of [src/src/shadowquic/mod.rs] instruction by
    instruction, beside the tasks that register and remove routes and close
    the registry.  Registering and closing first change the registry and then
    call [notify_waiters]; between any two instructions of a task the others
    may run.  [SqUdp.wait] is the whole call as one step, and the theorem of
    this file says in what sense it is. *)

From Stdlib Require Import ZArith Lia.
From stdpp Require Import base gmap list strings relations.
From S2P Require Import Prelude Error Address SqWire SqUdp.

#[local] Open Scope Z_scope.

Module SqWait.
Import SqUdp.

(** Tokio's [Notify] as far as it is used here: a future gets every
    [notify_waiters] from its creation on, polled or not, and none from
    before. *)
Class Notify (Nt Fut : Type) := {
  notify : Nt;
  notified : Nt -> Fut;
  notify_waiters : Nt -> Nt;
  woken : Nt -> Fut -> bool;
  created : Nt -> Fut -> Prop;

  notified_created n : created n (notified n);
  notified_asleep n : woken n (notified n) = false;
  created_later n f : created n f -> created (notify_waiters n) f;
  notify_wakes n f : created n f -> woken (notify_waiters n) f = true;
}.

(** The registry, its [changed], and how many tasks have changed the registry
    and not yet called [notify_waiters]. *)
Record World (Nt : Type) := { reg : IncomingUdpRegistry; changed : Nt; to_notify : nat }.
Arguments reg {Nt} _.
Arguments changed {Nt} _.
Arguments to_notify {Nt} _.

(** Where a call of [wait] is: before [notified()], before the lookup, before
    the load of [closed], at the await of the future, or done. *)
Inductive Place (Fut : Type) :=
| Start
| Looks (f : Fut)
| Loads (f : Fut)
| Awaits (f : Fut)
| Returned (r : Result IncomingUdpRoute).
Arguments Start {Fut}.
Arguments Looks {Fut} _.
Arguments Loads {Fut} _.
Arguments Awaits {Fut} _.
Arguments Returned {Fut} _.

(** What other tasks do to the registry. *)
Inductive Act :=
| Registers (id : Z) (destination : Address.Address) (sender : nat)
| Removes (ids : list Z)
| Closes
| Notifies.

Section Waiting.
Context {Nt Fut : Type} `{NF : Notify Nt Fut}.
Implicit Types (w : World Nt) (p : Place Fut).

(** The next instruction of [wait]; [None] while it sleeps, and when it has
    returned. *)
Definition turn (id : Z) p w : option (Place Fut) :=
  match p with
  | Start => Some (Looks (notified (changed w)))
  | Looks f =>
      Some (match routes (reg w) !! id with Some route => Returned (Ok route) | None => Loads f end)
  | Loads f => Some (if closed (reg w) then Returned (Err Closed) else Awaits f)
  | Awaits f => if woken (changed w) f then Some Start else None
  | Returned _ => None
  end.

Definition act (a : Act) w : option (World Nt) :=
  match a with
  | Registers id destination sender =>
      Some {| reg := register id destination sender (reg w); changed := changed w;
              to_notify := S (to_notify w) |}
  | Removes ids => Some {| reg := remove ids (reg w); changed := changed w; to_notify := to_notify w |}
  | Closes => Some {| reg := close (reg w); changed := changed w; to_notify := S (to_notify w) |}
  | Notifies =>
      match to_notify w with
      | O => None
      | S n => Some {| reg := reg w; changed := notify_waiters (changed w); to_notify := n |}
      end
  end.

Inductive step (id : Z) : Place Fut * World Nt -> Place Fut * World Nt -> Prop :=
| step_turn p p' w : turn id p w = Some p' -> step id (p, w) (p', w)
| step_act a p w w' : act a w = Some w' -> step id (p, w) (p, w').

(** The call by itself for up to [n] turns. *)
Fixpoint turns (id : Z) (n : nat) p w : Place Fut :=
  match n with
  | O => p
  | S n => match turn id p w with Some p' => turns id n p' w | None => p end
  end.

(** ** Wakeups *)

(** The future is woken, or some task is about to wake it. *)
Definition due w (f : Fut) : Prop := woken (changed w) f = true \/ (0 < to_notify w)%nat.

(** What the call has seen may have changed since, but not unnoticed. *)
Definition noticed (id : Z) p w : Prop :=
  match p with
  | Looks f => created (changed w) f
  | Loads f => created (changed w) f /\ (routes (reg w) !! id <> None -> due w f)
  | Awaits f => created (changed w) f /\ (wait id (reg w) <> None -> due w f)
  | Start | Returned _ => True
  end.

Lemma removed_routes ids m (id : Z) :
  foldl (fun (m : gmap Z IncomingUdpRoute) x => delete x m) m ids !! id <> None -> m !! id <> None.
Proof.
  revert m. induction ids as [|x ids IH]; intros m; simpl; [done|]. intros H%IH.
  intros Hn. apply H. rewrite lookup_delete. by case_decide.
Qed.

Lemma removed_wait id ids r : wait id (remove ids r) <> None -> wait id r <> None.
Proof.
  unfold wait. simpl. intros H Hn. apply H. destruct (routes r !! id) eqn:E; [done|].
  destruct (closed r) eqn:Ec; [done|].
  destruct (foldl _ _ _ !! id) eqn:Ef; [|done]. exfalso. apply (removed_routes ids (routes r) id); [|done].
  by rewrite Ef.
Qed.

Lemma act_noticed id a p w w' : noticed id p w -> act a w = Some w' -> noticed id p w'.
Proof.
  intros Hn Ha. destruct a as [i d c|ids| |]; simpl in Ha.
  - injection Ha as <-. destruct p as [|f|f|f|r]; simpl in *; try done;
      (split; [by destruct Hn|]; intros _; right; simpl; lia).
  - injection Ha as <-. destruct p as [|f|f|f|r]; simpl in *; try done; destruct Hn as [Hc Hd]; (split; [done|]).
    + intros H. apply (Hd (removed_routes _ _ _ H)).
    + intros H. apply (Hd (removed_wait _ _ _ H)).
  - injection Ha as <-. destruct p as [|f|f|f|r]; simpl in *; try done;
      (split; [by destruct Hn|]; intros _; right; simpl; lia).
  - destruct (to_notify w) as [|n]; [done|]. injection Ha as <-.
    assert (forall f, created (changed w) f -> woken (notify_waiters (changed w)) f = true) by apply notify_wakes.
    destruct p as [|f|f|f|r]; simpl in *; try done; [by apply created_later|..];
      (destruct Hn as [Hc _]; split; [by apply created_later|]; intros _; left; by apply notify_wakes).
Qed.

Lemma turn_noticed id p p' w : noticed id p w -> turn id p w = Some p' -> noticed id p' w.
Proof.
  intros Hn Ht. destruct p as [|f|f|f|r]; simpl in *; simplify_eq.
  - apply notified_created.
  - destruct (routes (reg w) !! id) eqn:E; [done|]. split; [done|]. by rewrite E.
  - destruct (closed (reg w)) eqn:Ec; [done|]. destruct Hn as [Hc Hd]. split; [done|].
    unfold wait. rewrite Ec. destruct (routes (reg w) !! id); [intros _; by apply Hd|done].
  - by case_match; simplify_eq.
Qed.

Lemma run_noticed id x y :
  rtc (step id) x y -> noticed id x.1 x.2 -> noticed id y.1 y.2.
Proof.
  induction 1 as [x|x y z Hxy _ IH]; intros Hn; [done|]. apply IH.
  destruct Hxy; [by eapply turn_noticed|by eapply act_noticed].
Qed.

(** The call returns by itself when there is something to return. *)
Lemma turns_return id p w :
  noticed id p w -> to_notify w = O -> wait id (reg w) <> None -> exists r, turns id 4 p w = Returned r.
Proof.
  intros Hn Hz Hw. unfold wait in Hw.
  assert (forall f, due w f -> woken (changed w) f = true) as Hdue by (intros f [?|?]; [done|lia]).
  destruct (routes (reg w) !! id) as [route|] eqn:Er, (closed (reg w)) eqn:Ec; try done;
    destruct p as [|f|f|f|r]; cbn [noticed] in Hn; cbn [turns]; repeat (cbn [turn]; rewrite ?Er, ?Ec); eauto;
    (rewrite Hdue by (apply Hn; unfold wait; by rewrite ?Er, ?Ec)); repeat (cbn [turn]; rewrite ?Er, ?Ec); eauto.
Qed.

(** C28: no wakeup of [IncomingUdpRegistry::wait] is lost.  However a call
    interleaves with the tasks that change the registry, once they have
    notified it sleeps only while there is neither a route nor an end to
    return, it returns within four turns of its own when there is one, and
    what it returns is what the registry has at that moment, or that it is
    closed. *)
Theorem wait_no_lost_wakeup id w0 p w (Hrun : rtc (step id) (Start, w0) (p, w)) :
  (to_notify w = O -> turn id p w = None -> (exists r, p = Returned r) \/ wait id (reg w) = None) /\
  (to_notify w = O -> wait id (reg w) <> None -> exists r, turns id 4 p w = Returned r) /\
  (forall r, turn id p w = Some (Returned r) ->
     wait id (reg w) = Some r \/ (r = Err Closed /\ closed (reg w) = true)).
Proof.
  pose proof (run_noticed id _ _ Hrun I) as Hn. simpl in Hn. split_and!.
  - intros Hz Ht. destruct (wait id (reg w)) as [v|] eqn:Ew; [left|by right].
    destruct (turns_return id p w Hn Hz) as [r Hr]; [by rewrite Ew|]. exists r.
    cbn [turns] in Hr. by rewrite Ht in Hr.
  - intros Hz Hw. by apply turns_return.
  - intros r Ht. destruct p as [|f|f|f|r']; simpl in Ht; try done.
    + left. unfold wait. by destruct (routes (reg w) !! id); simplify_eq.
    + right. by destruct (closed (reg w)); simplify_eq.
    + by case_match.
Qed.
End Waiting.

(** ** Examples *)

(** A [Notify] that counts the calls of [notify_waiters]. *)
#[global] Program Instance counting_notify : Notify nat nat := {|
  notify := O;
  notified n := n;
  notify_waiters n := S n;
  woken n f := bool_decide (f < n)%nat;
  created n f := (f <= n)%nat;
|}.
Next Obligation. intros n. cbv beta. lia. Qed.
Next Obligation. intros n. cbv beta. apply bool_decide_eq_false. lia. Qed.
Next Obligation. intros n f H. cbv beta in *. lia. Qed.
Next Obligation. intros n f H. cbv beta in *. apply bool_decide_eq_true. lia. Qed.

Definition example_world (r : IncomingUdpRegistry) (n k : nat) : World nat :=
  {| reg := r; changed := n; to_notify := k |}.

(** The route comes between the lookup and the await. *)
Lemma wait_no_lost_wakeup_witness :
  let d := {| Address.host := str "example.com"; Address.port := 53 |} in
  let w := example_world (register 7 d 0 default_registry) 1 0 in
  turns 7 4 (Awaits O) w = Returned (Ok {| sender := 0; route_destination := d |}) /\
  exists r, turns 7 4 (Awaits O) w = Returned r.
Proof.
  intros d w. split; [vm_compute; reflexivity|].
  refine (proj1 (proj2 (wait_no_lost_wakeup 7 (example_world default_registry 0 0) (Awaits O) w _)) _ _).
  - eapply rtc_l; [by apply step_turn|]. eapply rtc_l; [by apply step_turn|].
    eapply rtc_l; [by apply (step_act _ (Registers 7 d 0))|].
    eapply rtc_l; [by apply step_turn|]. eapply rtc_l; [by apply (step_act _ Notifies)|]. apply rtc_refl.
  - reflexivity.
  - vm_compute. discriminate.
Defined.

End SqWait.
