(* ===== verification/SqTasks.v ===== *)
(** * The tasks that receive UDP

    What both ends of a connection of [src/src/shadowquic/mod.rs] run to
    receive UDP packets: a task per control stream
    ([handle_udp_control_stream]), per datagram
    ([handle_incoming_udp_datagram]) and per unidirectional stream
    ([handle_incoming_udp_stream]), which share the registry of routes and the
    channels of the associations.  A function is split where it awaits
    something that another task changes; a step that waits is [None]. *)

From Stdlib Require Import ZArith Lia.
From stdpp Require Import base gmap list strings relations.
From S2P Require Import Prelude Error Net Address Channels SqWire SqUdp.

#[local] Open Scope Z_scope.

Module SqTasks.
Import SqUdp.

(** A control stream being read: its association's channel and the ids it
    has registered. *)
Record ControlTask := { c_chan : nat; c_recv : RecvHalf; c_ids : list Z }.

(** A unidirectional stream that has found its route. *)
Record UniTask := { u_route : IncomingUdpRoute; u_recv : RecvHalf }.

(** A datagram that has found its route. *)
Record DatagramTask := { d_route : IncomingUdpRoute; d_data : bytes }.

(** What the tasks share, and the tasks that have found what they waited
    for.  Associations are numbered by [next_chan]; [chans] has the channels
    whose receiver the application still holds. *)
Record Udp (Ch : Type) := {
  registry : IncomingUdpRegistry;
  chans : gmap nat Ch;
  next_chan : nat;
  controls : list ControlTask;
  sending : list DatagramTask;
  unis : list UniTask;
}.
Arguments registry {Ch} _.
Arguments chans {Ch} _.
Arguments next_chan {Ch} _.
Arguments controls {Ch} _.
Arguments sending {Ch} _.
Arguments unis {Ch} _.

(** A connection without associations. *)
Definition no_udp {Ch} : Udp Ch :=
  {| registry := default_registry; chans := ∅; next_chan := 0; controls := []; sending := [];
     unis := [] |}.

Section Tasks.
Context {Ch : Type} `{MC : Mpsc Ch Packet}.
Implicit Types u : Udp Ch.

(** A new association: its channel, and the task of its control stream. *)
Definition associated (recv : RecvHalf) u : Udp Ch :=
  {| registry := registry u; chans := <[next_chan u := channel 256]> (chans u);
     next_chan := S (next_chan u);
     controls := controls u ++ [{| c_chan := next_chan u; c_recv := recv; c_ids := [] |}];
     sending := sending u; unis := unis u |}.

Definition with_controls u (reg : IncomingUdpRegistry) (l : list ControlTask) : Udp Ch :=
  {| registry := reg; chans := chans u; next_chan := next_chan u; controls := l;
     sending := sending u; unis := unis u |}.
Definition with_sending u (m : gmap nat Ch) (l : list DatagramTask) : Udp Ch :=
  {| registry := registry u; chans := m; next_chan := next_chan u; controls := controls u;
     sending := l; unis := unis u |}.
Definition with_unis u (m : gmap nat Ch) (l : list UniTask) : Udp Ch :=
  {| registry := registry u; chans := m; next_chan := next_chan u; controls := controls u;
     sending := sending u; unis := l |}.

(** A round of [handle_udp_control_stream], or its end. *)
Definition control_round (t : ControlTask) (l1 l2 : list ControlTask) u : Udp Ch :=
  match control_entry (c_recv t) with
  | (Ok (destination, id), recv) =>
      with_controls u (register id destination (c_chan t) (registry u))
        (l1 ++ {| c_chan := c_chan t; c_recv := recv; c_ids := c_ids t ++ [id] |} :: l2)
  | (Err _, _) => with_controls u (remove (c_ids t) (registry u)) (l1 ++ l2)
  end.

(** [handle_incoming_udp_datagram] up to its route, which it keeps ... *)
Definition route_datagram (datagram : bytes) u : option (Result unit * Udp Ch) :=
  if len datagram <? 2
  then Some (Err (Protocol (str "truncated ShadowQuic UDP datagram")), u)
  else match wait (from_be (take 2 datagram)) (registry u) with
       | None => None
       | Some (Err e) => Some (Err e, u)
       | Some (Ok route) =>
           Some (Ok tt, with_sending u (chans u)
                          (sending u ++ [{| d_route := route; d_data := drop 2 datagram |}]))
       end.

(** ... and from there to its end. *)
Definition send_routed (t : DatagramTask) (l1 l2 : list DatagramTask) u
    : option (Result unit * Udp Ch) :=
  match deliver (d_route t) (d_data t) (chans u) with
  | None => None
  | Some (r, m) => Some (r, with_sending u m (l1 ++ l2))
  end.

(** [handle_incoming_udp_stream] up to its loop. *)
Definition route_stream (recv : RecvHalf) u : option (Result unit * Udp Ch) :=
  match quic_read_exact 2 recv with
  | (Err e, _) => Some (Err e, u)
  | (Ok id, recv) =>
      match wait (from_be id) (registry u) with
      | None => None
      | Some (Err e) => Some (Err e, u)
      | Some (Ok route) =>
          Some (Ok tt, with_unis u (chans u) (unis u ++ [{| u_route := route; u_recv := recv |}]))
      end
  end.

(** A round of its loop, or its end. *)
Definition stream_round (t : UniTask) (l1 l2 : list UniTask) u : option (Udp Ch) :=
  match stream_packet (u_recv t) with
  | (Err _, _) => Some (with_unis u (chans u) (l1 ++ l2))
  | (Ok l, recv) =>
      match deliver (u_route t) l (chans u) with
      | None => None
      | Some (Err _, m) => Some (with_unis u m (l1 ++ l2))
      | Some (Ok _, m) =>
          Some (with_unis u m (l1 ++ {| u_route := u_route t; u_recv := recv |} :: l2))
      end
  end.

(** Whether a sender of the association's channel is left: with the task of
    its control stream, in a route, or with a task that took a copy of one. *)
Definition senders (chan : nat) u : bool :=
  bool_decide (chan ∈ (c_chan <$> controls u) ++
                      (sender ∘ snd <$> map_to_list (routes (registry u))) ++
                      (sender ∘ d_route <$> sending u) ++ (sender ∘ u_route <$> unis u)).

(** [ShadowQuicPacketConnection::recv] on the association that has the
    channel: it waits while nothing is queued and a sender is left. *)
Definition recv_packet (chan : nat) u : option (Result Packet * Udp Ch) :=
  match chans u !! chan with
  | None => None
  | Some ch =>
      match recv ch with
      | Some (p, ch) => Some (Ok p, with_sending u (<[chan := ch]> (chans u)) (sending u))
      | None => if senders chan u then None else Some (Err Closed, u)
      end
  end.

(** The application drops the association, and with it the receiver. *)
Definition dropped (chan : nat) u : Udp Ch :=
  with_sending u (delete chan (chans u)) (sending u).

Definition closed_udp u : Udp Ch := with_controls u (close (registry u)) (controls u).

(** ** Steps *)

(** What a step takes in or gives out: a control stream, a datagram or a
    unidirectional stream of the peer, or a packet that the application
    gets. *)
Inductive Event :=
| Opened (recv : RecvHalf)
| Arrived (datagram : bytes)
| Incoming (recv : RecvHalf)
| Took (chan : nat) (p : Packet)
| Inner.

(** Datagrams and streams that come in look for a route. *)
Definition looks (e : Event) : bool :=
  match e with Arrived _ | Incoming _ => true | _ => false end.

(** [turn_late] is a lookup that misses a route which comes just before the
    registry is closed (see [SqWait]). *)
Inductive turn : Event -> Udp Ch -> Udp Ch -> Prop :=
| turn_opened recv u : turn (Opened recv) u (associated recv u)
| turn_control l1 t l2 u : controls u = l1 ++ t :: l2 -> turn Inner u (control_round t l1 l2 u)
| turn_arrived d r u u' : route_datagram d u = Some (r, u') -> turn (Arrived d) u u'
| turn_sent l1 t l2 r u u' :
    sending u = l1 ++ t :: l2 -> send_routed t l1 l2 u = Some (r, u') -> turn Inner u u'
| turn_incoming recv r u u' : route_stream recv u = Some (r, u') -> turn (Incoming recv) u u'
| turn_stream l1 t l2 u u' :
    unis u = l1 ++ t :: l2 -> stream_round t l1 l2 u = Some u' -> turn Inner u u'
| turn_took chan p u u' : recv_packet chan u = Some (Ok p, u') -> turn (Took chan p) u u'
| turn_ended chan e u u' : recv_packet chan u = Some (Err e, u') -> turn Inner u u'
| turn_dropped chan u : turn Inner u (dropped chan u)
| turn_closed u : turn Inner u (closed_udp u)
| turn_late e u : looks e = true -> closed (registry u) = true -> turn e u u
| turn_none u : turn Inner u u.

Inductive run : list Event -> Udp Ch -> Udp Ch -> Prop :=
| run_nil u : run [] u u
| run_snoc tr e u u' u'' : run tr u u' -> turn e u' u'' -> run (tr ++ [e]) u u''.

Lemma route_routed id l u route :
  uint 16 id -> routes (registry u) !! id = Some route ->
  route_datagram (to_be 2 id ++ l) u
  = Some (Ok tt, with_sending u (chans u) (sending u ++ [{| d_route := route; d_data := l |}])).
Proof.
  intros Hid Hr. unfold route_datagram. rewrite len_app, len_to_be.
  destruct (Z.ltb_spec (Z.of_nat 2 + len l) 2) as [Hlt|_]; [pose proof (len_nonneg l); lia|].
  rewrite take_app_exact, drop_app_exact by apply length_to_be.
  rewrite from_to_be_small by done. unfold wait. by rewrite Hr.
Qed.

(** The packet that an association sees for one that was sent. *)
Definition received (p : Packet) : Packet :=
  {| data := data p; destination := SqWire.normalize (destination p) |}.

(** The task that sends on the datagram of [p] to the channel [chan]. *)
Definition task_of (chan : nat) (p : Packet) : DatagramTask :=
  {| d_route := {| sender := chan;
                           route_destination := SqWire.normalize (destination p) |};
     d_data := data p |}.

(** The two parts of [handle_incoming_udp_datagram], one after the other,
    are the function. *)
Lemma datagram_parts d u r m :
  handle_incoming_udp_datagram d (registry u) (chans u) = Some (r, m) ->
  sending u = [] ->
  (exists e, r = Err e /\ m = chans u /\ route_datagram d u = Some (Err e, u)) \/
  (exists t u1, route_datagram d u = Some (Ok tt, u1) /\ sending u1 = [t] /\
     send_routed t [] [] u1 = Some (r, with_sending u m [])).
Proof.
  unfold handle_incoming_udp_datagram, route_datagram. intros H Hs.
  destruct (len d <? 2); [injection H as <- <-; left; by eexists|].
  destruct (wait _ _) as [[route|e]|]; [|injection H as <- <-; left; by eexists|done].
  right. eexists {| d_route := route; d_data := drop 2 d |}, _. split; [done|].
  simpl. rewrite Hs. split; [done|]. unfold send_routed. simpl. by rewrite H.
Qed.
End Tasks.

End SqTasks.
