(* ===== verification/SqShared.v ===== *)
(** * Associations that share a connection

    The associations that one end of a connection of
    [src/src/shadowquic/mod.rs] has ([Client::associate], [handle_bi_stream])
    take their ids from one counter ([next_udp_id]).  Here is what their sends,
    in any order and with any outcome, leave on the connection: the control
    streams, datagrams and unidirectional streams. *)

From Stdlib Require Import ZArith Lia.
From stdpp Require Import base gmap list strings.
From S2P Require Import Prelude Error Net Address Channels SqWire SqUdp.

#[local] Open Scope Z_scope.
#[local] Open Scope rust_scope.

Module SqShared.
Import SqUdp.

(** ** The sending side *)

(** The counter and the associations of a connection. *)
Record Shared := { next_udp_id : Z; associations : list Sender }.

Definition with_next (s : Sender) (id : Z) : Sender :=
  {| mode := mode s; next_id := id; control := control s; contexts := contexts s;
     datagrams := datagrams s; streams := streams s |}.

(** A send over the [i]-th association.  Of what the associations share it
    touches only the counter, and that in one [fetch_add]. *)
Definition send_on (i : nat) (link : Link) (p : Packet) (self : Shared) : Result unit * Shared :=
  match associations self !! i with
  | None => (Err Closed, self)
  | Some s =>
      let (r, s) := send link p (with_next s (next_udp_id self)) in
      (r, {| next_udp_id := next_id s; associations := <[i := s]> (associations self) |})
  end.

(** A send over a connection: the association, the packet, whether its
    destination had no context yet, and whether the send succeeded. *)
Record Send := { via : nat; packet : Packet; opens : bool; succeeded : bool }.

(** A run of sends in the order in which they come, with any outcome. *)
Inductive traffic : Shared -> list Send -> Shared -> Prop :=
| traffic_nil st : traffic st [] st
| traffic_snoc link i p r s log st st' st'' :
    traffic st log st' -> fresh_link link -> associations st' !! i = Some s ->
    send_on i link p st' = (r, st'') ->
    traffic st (log ++ [{| via := i; packet := p;
                           opens := bool_decide (contexts s !! destination p = None);
                           succeeded := is_ok r |}]) st''.

(** The associations of [modes], opened over the control streams [ctls]. *)
Definition opened (k : Z) (modes : list UdpMode) (ctls : list SendHalf) : Shared :=
  {| next_udp_id := k; associations := zip_with (fun md c => new_sender md k c) modes ctls |}.

(** How many ids a run takes from the counter. *)
Definition ids_taken (log : list Send) : Z := len (filter (fun x => opens x = true) log).

(** The packets that an association sent. *)
Definition packets_of (i : nat) (log : list Send) : list Packet :=
  packet <$> filter (fun x => via x = i /\ succeeded x = true) log.

(** The ids in the order in which they were taken: the association that took
    it, for which destination, and whether it was announced to the peer. *)
Abbreviation Ledger := (list (nat * Address.Address * bool)).

(** The destinations that an association announced, with their ids. *)
Fixpoint owned_from (k : Z) (n : nat) (g : Ledger) (i : nat) : list (Address.Address * Z) :=
  match g with
  | [] => []
  | (j, d, told) :: g =>
      if decide (j = i /\ told = true) then (d, id_of k n) :: owned_from k (S n) g i
      else owned_from k (S n) g i
  end.

Definition owned (k : Z) (g : Ledger) (i : nat) : list (Address.Address * Z) :=
  owned_from k 0 g i.

(** An entry as the sender writes it to the control stream. *)
Definition entry_bytes (e : Address.Address * Z) : bytes :=
  match SqWire.encode_address e.1 with Ok f => f ++ to_be 2 e.2 | Err _ => [] end.

Definition encodable (e : Address.Address * Z) : Prop :=
  exists f, SqWire.encode_address e.1 = Ok f.

(** The packets of a run that went to a destination. *)
Definition to_dest (d : Address.Address) (ps : list Packet) : list Packet :=
  filter (fun p => destination p = d) ps.

(** ** Ids *)

Lemma owned_from_app k n g g' i :
  owned_from k n (g ++ g') i = owned_from k n g i ++ owned_from k (n + length g) g' i.
Proof.
  revert n. induction g as [|[[j d] told] g IH]; intros n; simpl.
  - by rewrite Nat.add_0_r.
  - rewrite IH, Nat.add_succ_r. by case_decide.
Qed.

Lemma owned_snoc k g j d told i :
  owned k (g ++ [(j, d, told)]) i
  = owned k g i ++ if decide (j = i /\ told = true) then [(d, id_of k (length g))] else [].
Proof. unfold owned. rewrite owned_from_app. simpl. by case_decide. Qed.

Lemma owned_from_elem k n g i d id :
  (d, id) ∈ owned_from k n g i <->
  exists m, g !! m = Some (i, d, true) /\ id = id_of k (n + m).
Proof.
  revert n. induction g as [|[[j d'] told] g IH]; intros n; simpl.
  { split; [by intros ?%elem_of_nil|by intros (m & Hm & _)]. }
  assert ((exists m, g !! m = Some (i, d, true) /\ id = id_of k (S n + m)) <->
          (exists m, ((j, d', told) :: g) !! S m = Some (i, d, true) /\ id = id_of k (n + S m))) as Hs.
  { split; intros (m & Hm & ->); exists m; (split; [done|]); f_equal; lia. }
  case_decide as Hj; [rewrite elem_of_cons|]; rewrite IH, Hs.
  - destruct Hj as [-> ->]. split.
    + intros [[= -> ->]|(m & Hm & Hid)]; [|by exists (S m)]. exists 0%nat. by rewrite Nat.add_0_r.
    + intros ([|m] & Hm & Hid); [left|right; by exists m]. injection Hm as ->.
      rewrite Nat.add_0_r in Hid. by rewrite Hid.
  - split; [intros (m & Hm & Hid); by exists (S m)|].
    intros ([|m] & Hm & Hid); [|by exists m]. injection Hm as -> -> ->. by destruct Hj.
Qed.

Lemma owned_elem k g i d id :
  (d, id) ∈ owned k g i <-> exists n, g !! n = Some (i, d, true) /\ id = id_of k n.
Proof. apply owned_from_elem. Qed.

(** An id belongs to one destination of one association. *)
Lemma owned_unique k g i j d d' id :
  len g <= 65536 -> (d, id) ∈ owned k g i -> (d', id) ∈ owned k g j -> i = j /\ d = d'.
Proof.
  intros Hlen (n & Hn & ->)%owned_elem (m & Hm & Hid)%owned_elem.
  pose proof (lookup_lt_Some _ _ _ Hn). pose proof (lookup_lt_Some _ _ _ Hm).
  apply id_of_inj in Hid; [|unfold len in Hlen; lia]. subst m. rewrite Hn in Hm.
  by injection Hm as -> ->.
Qed.

(** ** What a send does *)

(** The two writes of an entry are one. *)
Lemma write_entry {A} a b (f : M Sender A) s :
  mbind (write_control a) (fun _ => mbind (write_control b) (fun _ => f)) s
  = let (r, c) := write_all (a ++ b) (control s) in
    match r with Ok _ => f (with_control s c) | Err e => (Err e, with_control s c) end.
Proof.
  rewrite <-write_all_app. unfold mbind, write_control.
  destruct (write_all a (control s)) as [[[]|e] c]; [|done]. simpl.
  by destruct (write_all b c) as [[[]|e] c'].
Qed.

(** How the announcement of an id changes the control stream. *)
Definition announces (id : Z) (d : Address.Address) (told : bool) (c c' : SendHalf) : Prop :=
  if told
  then exists f, SqWire.encode_address d = Ok f /\ write_all (f ++ to_be 2 id) c = (Ok tt, c')
  else c' = c \/ exists f e, SqWire.encode_address d = Ok f /\ write_all (f ++ to_be 2 id) c = (Err e, c').

(** The context that an announcement for [d] leaves, if any, with the streams
    [extra] that it opened. *)
Definition leaves (r : Result OutgoingUdpContext) (d : Address.Address) (md : UdpMode) (id : Z) (told : bool)
    (extra : list SendHalf) (s s1 : Sender) : Prop :=
  match r with
  | Err _ => contexts s1 = contexts s /\ Forall (fun h => (length (written h) < 2)%nat) extra
  | Ok ctx => told = true /\ contexts s1 = <[d := ctx]> (contexts s) /\
      match md with
      | Datagram => ctx = DatagramContext id
      | Stream => exists half, ctx = StreamContext (length (streams s)) /\ extra = [half] /\
          written half = to_be 2 id
      end
  end.

Lemma ensure_effect link d s r s1 :
  fresh_link link -> ensure_context link d s = (r, s1) ->
  (exists ctx, contexts s !! d = Some ctx /\ r = Ok ctx /\ s1 = s) \/
  (contexts s !! d = None /\ mode s1 = mode s /\ datagrams s1 = datagrams s /\
   next_id s1 = wrap 16 (next_id s + 1) /\
   exists told extra, streams s1 = streams s ++ extra /\ (mode s = Datagram -> extra = []) /\
   announces (next_id s) d told (control s) (control s1) /\
   leaves r d (mode s) (next_id s) told extra s s1).
Proof.
  intros Hfl. unfold ensure_context, leaves. destruct (contexts s !! d) as [c|] eqn:Ec.
  { intros [= <- <-]. left. by exists c. }
  unfold mbind at 1. cbn [fetch_id]. unfold mbind at 1, mlift. intros H. right. split; [done|].
  assert (streams s = streams s ++ []) as Enil by by rewrite app_nil_r.
  destruct (SqWire.encode_address d) as [f|e] eqn:He.
  2:{ injection H as <- <-. split_and!; [done..|]. exists false, []. by split_and!; auto; left. }
  rewrite write_entry in H. cbn [control] in H.
  destruct (write_all (f ++ to_be 2 (next_id s)) (control s)) as [[[]|e] c] eqn:Ew.
  2:{ injection H as <- <-. split_and!; [done..|]. exists false, [].
      split_and!; auto. right. by eexists _, _. }
  assert (announces (next_id s) d true (control s) c) as Hann by by exists f.
  unfold mbind at 1 in H. destruct (mode s) eqn:Em.
  { injection H as <- <-. split_and!; [done..|]. exists true, []. by split_and!; auto. }
  unfold mbind at 1, open_stream in H. destruct (open_uni link) as [e|half] eqn:Eo.
  { injection H as <- <-. split_and!; [done..|]. exists true, []. by split_and!; auto. }
  unfold mbind, write_stream in H. cbn [with_control with_streams streams] in H.
  rewrite list_lookup_middle in H by done.
  destruct (write_all _ half) as [[[]|e] half'] eqn:Eh; injection H as <- <-;
    (split_and!; [done..|]); exists true, [half']; simpl;
    rewrite insert_app_r_alt, Nat.sub_diag by lia; simpl.
  - split_and!; try done. exists half'. apply write_all_ok in Eh. by rewrite (Hfl _ Eo) in Eh.
  - split_and!; try done. apply Forall_singleton. apply write_all_err in Eh as (n & _ & Hn & -> & _).
    rewrite length_to_be in Hn. rewrite (Hfl _ Eo). rewrite app_nil_l, length_take. lia.
Qed.

(** ** Frames on a stream *)

Section Frames.
Context {A : Type} (frame : A -> bytes) (ok : A -> Prop).

(** What a failed write leaves of a frame. *)
Definition piece (l : bytes) : Prop :=
  exists x rest, ok x /\ frame x = l ++ rest /\ rest <> [].

(** The stream [c] holds the frames of [xs] after [w]; or also a piece of
    one more, and then it takes nothing from there on. *)
Definition holds (w : bytes) (xs : list A) (c : SendHalf) : Prop :=
  exists l, written c = w ++ concat (frame <$> xs) ++ l /\
    (l = [] \/ (room c = Some 0%nat /\ piece l)).

Lemma write_nothing (l : bytes) c c' : room c = Some 0%nat -> l <> [] -> write_all l c <> (Ok tt, c').
Proof.
  unfold write_all. intros -> Hl. case_decide as H; [|done].
  destruct l as [|b l]; [done|simpl in H; lia].
Qed.

Lemma holds_written w xs x c c' :
  frame x <> [] -> holds w xs c -> write_all (frame x) c = (Ok tt, c') -> holds w (xs ++ [x]) c'.
Proof.
  intros Hx (l & Hw & He) Hok. destruct He as [->|[Hr _]]; [|by destruct (write_nothing _ _ _ Hr Hx Hok)].
  exists []. split; [|by left]. rewrite (write_all_ok _ _ _ Hok), Hw, fmap_app, concat_app. simpl.
  by rewrite !app_nil_r, <-!app_assoc.
Qed.

Lemma holds_failed w xs x c e c' :
  ok x -> holds w xs c -> write_all (frame x) c = (Err e, c') -> holds w xs c'.
Proof.
  intros Hx (l & Hw & He) (n & Hr & Hn & Hw' & Hr')%write_all_err. destruct He as [->|[Hr0 Hp]].
  - exists (take n (frame x)). split; [by rewrite Hw', Hw, app_nil_r, <-app_assoc|]. right.
    split; [done|]. exists x, (drop n (frame x)). split_and!; [done|by rewrite take_drop|].
    intros E%(f_equal length). rewrite length_drop in E. simpl in E. lia.
  - assert (n = 0%nat) as -> by congruence. exists l. split; [by rewrite Hw', Hw, app_nil_r|]. by right.
Qed.

(** What arrives of a stream is some of its frames and at most a piece. *)
Lemma frames_prefix xs l p :
  Forall ok xs -> l = [] \/ piece l -> p `prefix_of` concat (frame <$> xs) ++ l ->
  exists ys l', ys `prefix_of` xs /\ p = concat (frame <$> ys) ++ l' /\ (l' = [] \/ piece l').
Proof.
  intros Hxs Hl. revert p. induction Hxs as [|x xs Hx _ IH]; intros p [q Hp]; simpl in Hp.
  - exists [], p. split_and!; [done|done|]. destruct Hl as [->|(x & rest & Hx & Hf & Hne)].
    { symmetry in Hp. apply app_nil in Hp as [-> _]. by left. }
    right. exists x, (q ++ rest). split_and!; [done|by rewrite app_assoc, <-Hp|].
    by intros [_ ?]%app_nil.
  - rewrite <-app_assoc in Hp. apply app_eq_inv in Hp as [(m & Hf & ->)|(m & -> & Hm)].
    + destruct m as [|b m].
      { rewrite app_nil_r in Hf. exists [x], []. rewrite app_nil_r. simpl. rewrite app_nil_r.
        split_and!; [apply prefix_cons, prefix_nil|done|by left]. }
      exists [], p. split_and!; [apply prefix_nil|done|]. right. by exists x, (b :: m).
    + destruct (IH m) as (ys & l' & Hys & -> & Hl'); [by exists q|].
      exists (x :: ys), l'. split_and!; [by apply prefix_cons|simpl; by rewrite <-app_assoc|done].
Qed.

(** A function that reads frames reads one after the other, stops at a
    piece, and so finds exactly the frames that are there. *)
Section Reading.
Context {B : Type} (rd : M RecvHalf B) (val : A -> B).
Context (Hreads : forall x, ok x -> reads rd (frame x) (val x)) (Hstable : stable rd).
Context (Hnothing : forall en y s', rd {| pending := []; ending := en |} <> (Ok y, s')).

Lemma frames_read x xs l en :
  ok x ->
  rd {| pending := concat (frame <$> x :: xs) ++ l; ending := en |}
  = (Ok (val x), {| pending := concat (frame <$> xs) ++ l; ending := en |}).
Proof. intros Hx. simpl. rewrite <-app_assoc. by apply Hreads. Qed.

Lemma piece_unread l en y s' :
  l = [] \/ piece l -> rd {| pending := l; ending := en |} <> (Ok y, s').
Proof.
  intros [->|(x & rest & Hx & Hl & Hne)] E; [by apply Hnothing in E|].
  pose proof (Hreads x Hx [] en) as Hr. rewrite app_nil_r, Hl in Hr.
  apply (stable_cut rd l rest _ en Hstable Hr Hne y). by rewrite E.
Qed.

Lemma frames_whole xs ys l l' :
  Forall ok ys -> xs `prefix_of` ys -> l = [] \/ piece l ->
  concat (frame <$> xs) ++ l = concat (frame <$> ys) ++ l' -> xs = ys.
Proof.
  intros Hys [zs ->] Hl E. destruct zs as [|z zs]; [by rewrite app_nil_r|exfalso].
  rewrite fmap_app, concat_app, <-app_assoc in E. apply app_inv_head in E.
  apply Forall_app in Hys as [_ [Hz _]%Forall_cons].
  pose proof (frames_read z zs l' None Hz) as Hr. rewrite <-E in Hr. by apply piece_unread in Hr.
Qed.
End Reading.
End Frames.

(** An entry that can be announced, and a packet that fits its frame. *)
Definition entry_ok (e : Address.Address * Z) : Prop :=
  Address.wf e.1 /\ encodable e /\ uint 16 e.2.

Definition packet_ok (p : Packet) : Prop := len (data p) <= u16_max.

Lemma entry_bytes_ok d id f :
  SqWire.encode_address d = Ok f -> entry_bytes (d, id) = f ++ to_be 2 id.
Proof. unfold entry_bytes. simpl. by intros ->. Qed.

Lemma frame_ends_be {l : bytes} z : l ++ to_be 2 z <> [].
Proof. intros [_ E]%app_nil. apply (f_equal length) in E. by rewrite length_to_be in E. Qed.

Lemma holds_announced w es id d told c c' :
  holds entry_bytes entry_ok w es c -> announces id d told c c' -> Address.wf d -> uint 16 id ->
  holds entry_bytes entry_ok w (es ++ if told then [(d, id)] else []) c' /\
  (told = true -> entry_ok (d, id)).
Proof.
  intros Hh Ha Hd Hid. destruct told; unfold announces in Ha.
  - destruct Ha as (f & Hf & Hok). rewrite <-(entry_bytes_ok d id f Hf) in Hok. split.
    + eapply holds_written; [|done|done]. rewrite (entry_bytes_ok d id f Hf). apply frame_ends_be.
    + intros _. split_and!; [done|by exists f|done].
  - split; [|done]. rewrite app_nil_r. destruct Ha as [->|(f & e & Hf & Herr)]; [done|].
    rewrite <-(entry_bytes_ok d id f Hf) in Herr. eapply holds_failed; [|done|done].
    split_and!; [done|by exists f|done].
Qed.

(** ** The state of an association *)

(** The context of [d] names an id that was announced for it, or the stream
    that begins with it. *)
Definition context_ok (k : Z) (g : Ledger) (ps : list Packet) (i : nat) (md : UdpMode)
    (hs : list SendHalf) (d : Address.Address) (ctx : OutgoingUdpContext) : Prop :=
  exists n, g !! n = Some (i, d, true) /\
    match md with
    | Datagram => ctx = DatagramContext (id_of k n)
    | Stream => exists j half, ctx = StreamContext j /\ hs !! j = Some half /\
                  holds stream_frame packet_ok (to_be 2 (id_of k n)) (to_dest d ps) half
    end.

(** The state of the [i]-th association when it has sent [ps].  A stream
    without a context is one whose id could not be written. *)
Record assoc_ok (k : Z) (g : Ledger) (ps : list Packet) (i : nat) (md : UdpMode) (w : bytes)
    (s : Sender) : Prop := {
  a_mode : mode s = md;
  a_entries : Forall entry_ok (owned k g i);
  a_control : holds entry_bytes entry_ok w (owned k g i) (control s);
  a_context d ctx : contexts s !! d = Some ctx -> context_ok k g ps i md (streams s) d ctx;
  a_stream j half : md = Stream -> streams s !! j = Some half ->
    (length (written half) < 2)%nat \/ exists d, contexts s !! d = Some (StreamContext j);
  a_own d d' j : contexts s !! d = Some (StreamContext j) ->
    contexts s !! d' = Some (StreamContext j) -> d = d';
  a_log p : p ∈ ps -> is_Some (contexts s !! destination p);
  a_fits : md = Stream -> Forall packet_ok ps;
  a_sent :
    match md with
    | Datagram => Forall2 (fun p f => exists n, g !! n = Some (i, destination p, true) /\
                                                f = to_be 2 (id_of k n) ++ data p)
                    ps (datagrams s)
    | Stream => datagrams s = []
    end;
  a_quiet : md = Datagram -> streams s = [];
}.

Lemma packets_of_snoc i log x :
  packets_of i (log ++ [x])
  = packets_of i log ++ if decide (via x = i /\ succeeded x = true) then [packet x] else [].
Proof. unfold packets_of. rewrite filter_app, fmap_app, filter_cons. by case_decide. Qed.

(** Ids that are not announced to the association's peer do not matter. *)
Lemma assoc_grow k g ps i md w s j d told :
  assoc_ok k g ps i md w s -> ~ (j = i /\ told = true) ->
  assoc_ok k (g ++ [(j, d, told)]) ps i md w s.
Proof.
  intros [Hm He Hc Hx Hst Hown Hl Hf Hs Hq] Hn.
  assert (owned k (g ++ [(j, d, told)]) i = owned k g i) as Ho
    by by rewrite owned_snoc, decide_False, app_nil_r.
  assert (forall n y, g !! n = Some y -> (g ++ [(j, d, told)]) !! n = Some y) as Hlk
    by (intros n y; apply lookup_app_l_Some).
  split; rewrite ?Ho; try done.
  - intros d' ctx Hd. destruct (Hx d' ctx Hd) as (n & Hgn & Hr). exists n. auto.
  - destruct md; [|done]. eapply Forall2_impl; [exact Hs|]. intros p f (n & Hgn & ->). exists n. auto.
Qed.

(** A context of [s] still is one when ids and streams are added. *)
Lemma context_grow k g g' ps i md hs hs' d ctx :
  context_ok k g ps i md hs d ctx -> context_ok k (g ++ g') ps i md (hs ++ hs') d ctx.
Proof.
  intros (n & Hgn & Hmd). exists n. split; [by apply lookup_app_l_Some|].
  destruct md; [done|]. destruct Hmd as (j & h & -> & Hj & Hw). exists j, h.
  split_and!; [done|by apply lookup_app_l_Some|done].
Qed.

Section Ensured.
Context (k : Z) (g : Ledger) (ps : list Packet) (i : nat) (md : UdpMode) (w : bytes) (s s1 : Sender).
Context (d : Address.Address) (told : bool) (extra : list SendHalf) (r : Result OutgoingUdpContext).
Context (Ha : assoc_ok k g ps i md w s) (Hnone : contexts s !! d = None).
Context (Hr : leaves r d md (id_of k (length g)) told extra s s1).

Lemma ensured_context d' ctx :
  contexts s1 !! d' = Some ctx ->
  context_ok k (g ++ [(i, d, told)]) ps i md (streams s ++ extra) d' ctx.
Proof using Ha Hnone Hr.
  destruct Ha as [Hm He Hc Hx Hst Hown Hl Hf Hs Hq]. intros Hd'. unfold leaves in Hr. clear Ha.
  destruct r as [ctx0|e]; [|destruct Hr as [E _]; rewrite E in Hd'; by apply context_grow, Hx].
  destruct Hr as (-> & Ec & Hmd). rewrite Ec, lookup_insert in Hd'.
  case_decide; [subst d'; injection Hd' as ->|by apply context_grow, Hx].
  exists (length g). split; [by apply list_lookup_middle|].
  destruct md; [done|]. destruct Hmd as (half & -> & -> & Hw). exists (length (streams s)), half.
  split_and!; [done|by apply list_lookup_middle|].
  assert (to_dest d ps = []) as ->.
  { apply filter_none. intros p Hp <-. destruct (Hl p Hp) as [ctx Hctx]. congruence. }
  exists []. change (concat (stream_frame <$> [])) with (@nil byte).
  rewrite Hw, app_nil_r. split; [done|by left].
Qed.

Lemma ensured_stream j half :
  md = Stream -> (streams s ++ extra) !! j = Some half ->
  (length (written half) < 2)%nat \/ exists d', contexts s1 !! d' = Some (StreamContext j).
Proof using Ha Hnone Hr.
  unfold leaves in Hr. intros Hmd [Hj|[Hge Hj]]%lookup_app_Some.
  - destruct (a_stream _ _ _ _ _ _ _ Ha j half Hmd Hj) as [|[d' Hd']]; [by left|right]. exists d'.
    destruct r as [ctx|e]; [|destruct Hr as [-> _]; done]. destruct Hr as (_ & -> & _).
    rewrite lookup_insert_ne; [done|]. congruence.
  - rewrite Hmd in Hr. destruct r as [ctx|e].
    + destruct Hr as (_ & Hc1 & h & -> & -> & _). right. rewrite Hc1. exists d. rewrite lookup_insert_eq.
      apply list_lookup_singleton_Some in Hj as [Hj _]. do 2 f_equal. lia.
    + destruct Hr as [_ Hr']. left. rewrite Forall_forall in Hr'. by apply Hr', (list_elem_of_lookup_2 _ _ _ Hj).
Qed.

Lemma ensured_own d1 d2 j :
  contexts s1 !! d1 = Some (StreamContext j) -> contexts s1 !! d2 = Some (StreamContext j) -> d1 = d2.
Proof using Ha Hnone Hr.
  pose proof (a_own _ _ _ _ _ _ _ Ha) as Hown. unfold leaves in Hr.
  destruct r as [ctx|e]; [|destruct Hr as [-> _]; apply Hown].
  destruct Hr as (_ & -> & Hmd). rewrite !lookup_insert.
  assert (forall d' j, contexts s !! d' = Some (StreamContext j) -> (j < length (streams s))%nat) as Hlt.
  { intros d' j' Hj. destruct (a_context _ _ _ _ _ _ _ Ha d' _ Hj) as (n & _ & Hmd'). clear Ha Hmd Hown. destruct md; [done|].
    destruct Hmd' as (j0 & half & [= ->] & Hh & _). by eapply lookup_lt_Some. }
  assert (Some ctx = Some (StreamContext j) -> (j = length (streams s))%nat) as Hnew.
  { intros [= ->]. clear Ha Hown Hlt. destruct md; [done|]. by destruct Hmd as (? & [= ->] & _). }
  repeat case_decide; try congruence.
  - intros H1 H2. apply Hnew in H1. apply Hlt in H2. lia.
  - intros H1 H2. apply Hnew in H2. apply Hlt in H1. lia.
  - apply Hown.
Qed.

Lemma ensured_log p : p ∈ ps -> is_Some (contexts s1 !! destination p).
Proof using Ha Hr.
  pose proof (a_log _ _ _ _ _ _ _ Ha) as Hl. unfold leaves in Hr. intros Hp.
  destruct r as [ctx|e]; [|destruct Hr as [-> _]; by apply Hl].
  destruct Hr as (_ & -> & _). rewrite lookup_insert. case_decide; [by eexists|by apply Hl].
Qed.
End Ensured.

(** The context of a destination, old, new, or not to be had. *)
Lemma assoc_ensured k g ps i md w s link d r s1 :
  assoc_ok k g ps i md w s -> fresh_link link -> Address.wf d ->
  next_id s = id_of k (length g) -> ensure_context link d s = (r, s1) ->
  exists g', assoc_ok k g' ps i md w s1 /\ next_id s1 = id_of k (length g') /\
    (g' = g \/ exists told, g' = g ++ [(i, d, told)]) /\
    length g' = (length g + if decide (contexts s !! d = None) then 1 else 0)%nat /\
    forall ctx, r = Ok ctx -> contexts s1 !! d = Some ctx.
Proof.
  intros Ha Hfl Hd Hn Hens.
  destruct (ensure_effect _ _ _ _ _ Hfl Hens)
    as [(ctx & Hctx & -> & ->)|(Hnone & Em & Ed & En & told & extra & Es & Hextra & Hann & Hr)].
  { exists g. rewrite decide_False by congruence. split_and!; [done|done|by left|lia|congruence]. }
  exists (g ++ [(i, d, told)]). rewrite decide_True, length_app by done.
  rewrite En, Hn, id_of_succ. cbn [length]. rewrite Nat.add_1_r. rewrite Hn in Hann, Hr.
  split; [|split; [done|split; [right; by exists told|split; [done|]]]].
  2:{ intros ctx ->. destruct Hr as (_ & -> & _). apply lookup_insert_eq. }
  pose proof Ha as [Hm He Hc Hx Hst Hown Hl Hf Hs Hq]. rewrite Hm in Hextra, Hr.
  destruct (holds_announced _ _ _ _ _ _ _ Hc Hann Hd (id_of_range _ _)) as [Hc' He'].
  assert (owned k (g ++ [(i, d, told)]) i
          = owned k g i ++ if told then [(d, id_of k (length g))] else []) as Ho.
  { rewrite owned_snoc. destruct told; [by rewrite decide_True|by rewrite decide_False by naive_solver]. }
  split; rewrite ?Ho, ?Es; [congruence| |done|..].
  - apply Forall_app. split; [done|]. destruct told; [|constructor]. by apply Forall_singleton, He'.
  - by eapply ensured_context.
  - by eapply ensured_stream.
  - by eapply ensured_own.
  - by eapply ensured_log.
  - done.
  - rewrite Ed. destruct md; [|done]. eapply Forall2_impl; [exact Hs|].
    intros q x (n & Hgn & ->). exists n. split; [by apply lookup_app_l_Some|done].
  - intros Hmd. by rewrite (Hextra Hmd), app_nil_r, Hq.
Qed.

(** The two writes of a packet are one. *)
Lemma write_frame j a b s :
  mbind (write_stream j a) (fun _ => write_stream j b) s = write_stream j (a ++ b) s.
Proof.
  unfold mbind, write_stream. destruct (streams s !! j) as [half|] eqn:Ej; [|done].
  rewrite <-write_all_app. unfold mbind. destruct (write_all a half) as [[[]|e] half1]; [|done].
  simpl. rewrite list_lookup_insert_eq by (by eapply lookup_lt_Some).
  destruct (write_all b half1) as [r half2]. unfold with_streams. simpl. by rewrite list_insert_insert_eq.
Qed.

Lemma to_dest_snoc d ps p :
  to_dest d (ps ++ [p]) = to_dest d ps ++ if decide (destination p = d) then [p] else [].
Proof. unfold to_dest. by rewrite filter_app, filter_cons, filter_nil. Qed.

(** A frame goes to the stream of its destination, or fails. *)
Lemma assoc_framed k g ps i w s j p r s' :
  assoc_ok k g ps i Stream w s -> contexts s !! destination p = Some (StreamContext j) ->
  packet_ok p -> write_stream j (stream_frame p) s = (r, s') ->
  assoc_ok k g (ps ++ if is_ok r then [p] else []) i Stream w s' /\ next_id s' = next_id s.
Proof.
  intros [Hm He Hc Hx Hst Hown Hl Hf Hs Hq] Hctx Hp. unfold write_stream.
  destruct (Hx _ _ Hctx) as (n & Hgn & j' & h1 & [= <-] & Ej & Hh1). rewrite Ej.
  destruct (write_all _ h1) as [r' h2] eqn:Ew. intros [= <- <-]. split; [|done].
  assert (j < length (streams s))%nat as Hlt by by eapply lookup_lt_Some.
  split; simpl; try done.
  - intros d ctx Hd. destruct (Hx d ctx Hd) as (m & Hgm & j2 & h & -> & Hj2 & Hh).
    exists m. split; [done|]. exists j2. destruct (decide (j2 = j)) as [->|Hne].
    + assert (d = destination p) as -> by by eapply Hown. exists h2.
      assert (h = h1) as -> by congruence.
      split_and!; [done|by apply list_lookup_insert_eq|]. destruct r' as [[]|e]; simpl.
      * rewrite to_dest_snoc, decide_True by done. eapply holds_written; [|done|done].
        unfold stream_frame. intros [E _]%app_nil. apply (f_equal length) in E. by rewrite length_to_be in E.
      * rewrite app_nil_r. by eapply holds_failed.
    + exists h. rewrite list_lookup_insert_ne by done. split_and!; [done|done|].
      destruct (is_ok r'); [|by rewrite app_nil_r].
      rewrite to_dest_snoc, decide_False, app_nil_r; [done|]. intros <-. congruence.
  - intros j2 h _. destruct (decide (j2 = j)) as [->|Hne].
    + intros _. right. by exists (destination p).
    + rewrite list_lookup_insert_ne by done. by apply Hst.
  - intros q [Hq'|Hq']%elem_of_app; [by apply Hl|].
    destruct (is_ok r'); [|by apply elem_of_nil in Hq'].
    apply list_elem_of_singleton in Hq' as ->. by eexists.
  - intros _. apply Forall_app. split; [by apply Hf|]. destruct (is_ok r'); [|constructor].
    by apply Forall_singleton.
Qed.

(** The packet goes out over the context of its destination, or not at all. *)
Lemma assoc_out k g ps i md w s link p ctx r s' :
  assoc_ok k g ps i md w s -> contexts s !! destination p = Some ctx ->
  match ctx with
  | DatagramContext id => send_datagram link (to_be 2 id ++ data p)
  | StreamContext stream =>
      if len (data p) >? u16_max
      then mfail (Protocol (str "ShadowQuic UDP packet exceeds 65535 bytes"))
      else
        let* _ := write_stream stream (to_be 2 (len (data p))) in
        write_stream stream (data p)
  end s = (r, s') ->
  assoc_ok k g (ps ++ if is_ok r then [p] else []) i md w s' /\ next_id s' = next_id s.
Proof.
  intros Ha Hctx H. destruct (a_context _ _ _ _ _ _ _ Ha _ _ Hctx) as (n & Hgn & Hmd). destruct md.
  - subst ctx. unfold send_datagram in H. destruct (refuse link _); injection H as <- <-.
    { by rewrite app_nil_r. }
    split; [|done]. destruct Ha as [Hm He Hc Hx Hst Hown Hl Hf Hs Hq]. split; simpl; try done.
    + intros q [Hq'| ->%list_elem_of_singleton]%elem_of_app; [by apply Hl|by eexists].
    + apply Forall2_app; [done|]. constructor; [by exists n|constructor].
  - destruct Hmd as (j & half & -> & _). destruct (Z.gtb_spec (len (data p)) u16_max) as [Hlen|Hlen].
    { injection H as <- <-. by rewrite app_nil_r. }
    rewrite write_frame in H. by eapply assoc_framed.
Qed.

(** A send, whether it succeeds or fails. *)
Lemma assoc_send k g ps i md w s link p r s' :
  assoc_ok k g ps i md w s -> fresh_link link -> Address.wf (destination p) ->
  next_id s = id_of k (length g) -> send link p s = (r, s') ->
  exists g', assoc_ok k g' (ps ++ if is_ok r then [p] else []) i md w s' /\
    next_id s' = id_of k (length g') /\
    (g' = g \/ exists told, g' = g ++ [(i, destination p, told)]) /\
    length g' = (length g + if decide (contexts s !! destination p = None) then 1 else 0)%nat.
Proof.
  intros Ha Hfl Hwf Hn Hsend. unfold send, mbind at 1 in Hsend.
  destruct (ensure_context link (destination p) s) as [rc s1] eqn:Ec.
  destruct (assoc_ensured _ _ _ _ _ _ _ _ _ _ _ Ha Hfl Hwf Hn Ec) as (g' & Ha1 & Hn1 & Hg & Hlen & Hctx).
  exists g'. destruct rc as [ctx|e].
  - destruct (assoc_out _ _ _ _ _ _ _ _ _ _ _ _ Ha1 (Hctx ctx eq_refl) Hsend) as [Ha2 Hn2].
    rewrite Hn2. by split_and!.
  - injection Hsend as <- <-. rewrite app_nil_r. by split_and!.
Qed.
(** All associations of a connection. *)
Record shared_ok (k : Z) (modes : list UdpMode) (ctls : list SendHalf) (log : list Send)
    (g : Ledger) (st : Shared) : Prop := {
  s_next : next_udp_id st = id_of k (length g);
  s_ids : len g = ids_taken log;
  s_assoc i s : associations st !! i = Some s -> exists md c,
    modes !! i = Some md /\ ctls !! i = Some c /\
    assoc_ok k g (packets_of i log) i md (written c) (with_next s (next_udp_id st));
}.

Lemma ids_taken_snoc log x :
  ids_taken (log ++ [x]) = ids_taken log + if opens x then 1 else 0.
Proof.
  unfold ids_taken. rewrite filter_app, len_app, filter_cons, filter_nil.
  destruct (opens x); by rewrite ?decide_True, ?decide_False by done.
Qed.

Lemma opened_ok k modes ctls : uint 16 k -> shared_ok k modes ctls [] [] (opened k modes ctls).
Proof.
  intros Hk. split; try done.
  - simpl. unfold id_of. rewrite Z.add_0_r. symmetry. by apply wrap_small.
  - intros i s. simpl. intros (md & c & -> & Hmd & Hc)%lookup_zip_with_Some. exists md, c.
    split_and!; [done|done|]. split; simpl; try done.
    + exists []. rewrite !app_nil_r. split; [done|by left].
    + by intros p ?%elem_of_nil.
    + by destruct md.
Qed.

(** What a run of sends leaves. *)
Lemma traffic_ok k modes ctls log st :
  uint 16 k -> Forall (fun x => Address.wf (destination (packet x))) log ->
  traffic (opened k modes ctls) log st -> exists g, shared_ok k modes ctls log g st.
Proof.
  intros Hk Hwf Ht. remember (opened k modes ctls) as st0 eqn:E0.
  induction Ht as [st|link i p r s log st st' st'' Ht IH Hfl Ei Hs]; subst.
  { exists []. by apply opened_ok. }
  apply Forall_app in Hwf as [Hwf [Hp _]%Forall_cons]. simpl in Hp.
  destruct (IH Hwf eq_refl) as (g & [Hn Hids Ha]). set (x := {| via := i |}).
  unfold send_on in Hs. rewrite Ei in Hs.
  destruct (send link p _) as [r' s'] eqn:Es. injection Hs as -> <-.
  destruct (Ha i s Ei) as (md & c & Hmd & Hc & Hok).
  destruct (assoc_send _ _ _ _ _ _ _ _ _ _ _ Hok Hfl Hp Hn Es) as (g' & Hok' & Hn' & Hg' & Hlen).
  exists g'. cbn [with_next contexts] in Hlen. split; simpl; [done| |].
  - rewrite ids_taken_snoc, <-Hids. unfold len. rewrite Hlen. simpl.
    case_bool_decide; repeat case_decide; try done; lia.
  - intros j t Hj. rewrite packets_of_snoc. simpl. destruct (decide (i = j)) as [<-|Hne].
    + rewrite list_lookup_insert_eq in Hj by (by eapply lookup_lt_Some). injection Hj as <-.
      exists md, c. split_and!; [done|done|].
      destruct (is_ok r); [rewrite decide_True by done|rewrite decide_False by naive_solver];
        by destruct s'.
    + rewrite list_lookup_insert_ne in Hj by done. destruct (Ha j t Hj) as (md' & c' & H1 & H2 & H3).
      exists md', c'. split_and!; [done|done|]. rewrite decide_False, app_nil_r by naive_solver.
      assert (assoc_ok k g (packets_of j log) j md' (written c') (with_next t (next_id s'))) as H4
        by (destruct H3; by split).
      destruct Hg' as [->|[told ->]]; [done|]. apply assoc_grow; [done|naive_solver].
Qed.

(** ** Examples *)

(** A datagram and a stream association, whose sends alternate and name the
    same destinations; the sends to a host with too long a name fail. *)
Definition example_nowhere : Packet :=
  {| data := str "x";
     destination := {| Address.host := replicate 300 Byte.x61; Address.port := 1 |} |}.

Definition example_sends : list (nat * Packet) :=
  concat ((fun p => [(0%nat, p); (1%nat, example_nowhere); (1%nat, p)]) <$> example_packets).

(** A run of sends over associations that exist. *)
Fixpoint run_on (link : Link) (ps : list (nat * Packet)) (log : list Send) (st : Shared)
    : list Send * Shared :=
  match ps with
  | [] => (log, st)
  | (i, p) :: ps =>
      match associations st !! i with
      | None => run_on link ps log st
      | Some s =>
          let (r, st) := send_on i link p st in
          run_on link ps (log ++ [{| via := i; packet := p;
                                     opens := bool_decide (contexts s !! destination p = None);
                                     succeeded := is_ok r |}]) st
      end
  end.

Lemma run_on_traffic link ps log st st0 :
  fresh_link link -> traffic st0 log st ->
  traffic st0 (run_on link ps log st).1 (run_on link ps log st).2.
Proof.
  intros Hf. revert log st. induction ps as [|[i p] ps IH]; intros log st Ht; [done|]. simpl.
  destruct (associations st !! i) as [s|] eqn:Ei; [|by apply IH].
  destruct (send_on i link p st) as [r st1] eqn:Es. apply IH. by eapply traffic_snoc.
Qed.

Lemma run_on_packets (P : Packet -> Prop) link ps log st :
  Forall (fun x => P x.2) ps -> Forall (fun x => P (packet x)) log ->
  Forall (fun x => P (packet x)) (run_on link ps log st).1.
Proof.
  intros Hps. revert log st. induction Hps as [|[i p] ps Hp _ IH]; intros log st Hl; [done|]. simpl.
  destruct (associations st !! i); [|by apply IH]. destruct (send_on i link p st).
  apply IH, Forall_app. split; [done|]. by apply Forall_singleton.
Qed.

End SqShared.
