(* ===== verification/SqRelay.v ===== *)
(** * The relay of UDP over ShadowQuic

    From [ShadowQuicPacketConnection::send] on one end of a connection of
    [src/src/shadowquic/mod.rs] to [ShadowQuicPacketConnection::recv] on the
    other, by the invariant of the tasks that receive.  The sends of all associations of the connection alternate and may
    fail midway; datagrams may be lost and overtake each other, streams may be
    cut off; the tasks of the receiving end and its application interleave in
    any way. *)

From Stdlib Require Import ZArith Lia.
From stdpp Require Import base gmap list strings functions relations.
From S2P Require Import Prelude Error Net Address Channels SqWire SqUdp SqTasks SqShared.

#[local] Open Scope Z_scope.
#[local] Open Scope rust_scope.

Module SqRelay.
Import SqUdp SqShared.

(** ** What a run takes in and gives out *)

Definition openings (tr : list SqTasks.Event) : list RecvHalf :=
  omap (fun e => match e with SqTasks.Opened recv => Some recv | _ => None end) tr.

Definition arrivals (tr : list SqTasks.Event) : list bytes :=
  omap (fun e => match e with SqTasks.Arrived d => Some d | _ => None end) tr.

Definition incoming (tr : list SqTasks.Event) : list RecvHalf :=
  omap (fun e => match e with SqTasks.Incoming recv => Some recv | _ => None end) tr.

Definition taken (c : nat) (tr : list SqTasks.Event) : list Packet :=
  omap (fun e => match e with
                 | SqTasks.Took c' p => if decide (c' = c) then Some p else None
                 | _ => None
                 end) tr.

Lemma openings_snoc tr e :
  openings (tr ++ [e]) = openings tr ++ match e with SqTasks.Opened recv => [recv] | _ => [] end.
Proof. unfold openings at 1. rewrite omap_app. by destruct e. Qed.

Lemma arrivals_snoc tr e :
  arrivals (tr ++ [e]) = arrivals tr ++ match e with SqTasks.Arrived d => [d] | _ => [] end.
Proof. etrans; [apply omap_app|]. by destruct e. Qed.

Lemma incoming_snoc tr e :
  incoming (tr ++ [e]) = incoming tr ++ match e with SqTasks.Incoming recv => [recv] | _ => [] end.
Proof. unfold incoming at 1. rewrite omap_app. by destruct e. Qed.

Lemma taken_snoc c tr e :
  taken c (tr ++ [e])
  = taken c tr ++ match e with SqTasks.Took c' p => if decide (c' = c) then [p] else [] | _ => [] end.
Proof. etrans; [apply omap_app|]. destruct e as [| | |c' p|]; try done. simpl. by case_decide. Qed.

(** [recv] is what arrives of the control stream of the [i]-th association
    of [st], after the request [ctls !! i] that it begins with. *)
Definition control_of (ctls : list SendHalf) (st : Shared) (i : nat) (recv : RecvHalf) : Prop :=
  exists s c, associations st !! i = Some s /\ ctls !! i = Some c /\
    pending recv `prefix_of` drop (length (written c)) (written (control s)).

(** [recv] is what arrives of a unidirectional stream: the [x.2]-th of the
    [x.1]-th association. *)
Definition stream_of (st : Shared) (x : nat * nat) (recv : RecvHalf) : Prop :=
  exists s half, associations st !! x.1 = Some s /\ streams s !! x.2 = Some half /\
    pending recv `prefix_of` written half.

(** A run that takes in what [st] sent: the control streams of the
    associations [ns], the unidirectional streams [xs] and some of the
    datagrams, each once. *)
Record fed (ctls : list SendHalf) (st : Shared) (ns : list nat) (xs : list (nat * nat))
    (tr : list SqTasks.Event) : Prop := {
  f_control : Forall2 (control_of ctls st) ns (openings tr);
  f_opened_once : NoDup ns;
  f_stream : Forall2 (stream_of st) xs (incoming tr);
  f_stream_once : NoDup xs;
  f_datagram : arrivals tr ⊆+ concat (datagrams <$> associations st);
}.

(** *** What a relay promises *)

(** The association's channel is open: neither its owner nor the connection
    is gone. *)
Definition usable {Ch} (c : nat) (u : SqTasks.Udp Ch) : Prop :=
  closed (SqTasks.registry u) = false /\ is_Some (SqTasks.chans u !! c).

(** No task has a packet for the channel. *)
Definition settled {Ch} (c : nat) (u : SqTasks.Udp Ch) : Prop :=
  Forall (fun t => sender (SqTasks.d_route t) <> c) (SqTasks.sending u) /\
  Forall (fun t => sender (SqTasks.u_route t) = c ->
                   is_ok (stream_packet (SqTasks.u_recv t)).1 = false) (SqTasks.unis u).

(** The stream of an association to [d] has come in as a whole. *)
Definition came_whole (xs : list (nat * nat)) (tr : list SqTasks.Event) (i : nat) (s : Sender)
    (d : Address.Address) : Prop :=
  exists j half m recv, contexts s !! d = Some (StreamContext j) /\ streams s !! j = Some half /\
    xs !! m = Some (i, j) /\ incoming tr !! m = Some recv /\ pending recv = written half.

(** The control stream [c] came in as a whole, after its request [ctl], and
    has been read to its end. *)
Definition read_up {Ch} (ctl : SendHalf) (s : Sender) (tr : list SqTasks.Event)
    (u : SqTasks.Udp Ch) (c : nat) : Prop :=
  exists t recv, t ∈ SqTasks.controls u /\ SqTasks.c_chan t = c /\
    pending (SqTasks.c_recv t) = [] /\ openings tr !! c = Some recv /\
    pending recv = drop (length (written ctl)) (written (control s)).

(** The channel [c] relays the [i]-th association [s], which has sent [ps].
    What its application gets is what [handed] was sent, in the same order,
    with destinations in normal form.  A datagram association hands over each
    packet at most once, a stream association those to each destination in
    order and without a gap; and once everything has come in and been worked
    off, all of them.  A datagram, or a stream of which the id has come in,
    finds its route as soon as the control stream has been read. *)
Record relays {Ch} `{MC : Mpsc Ch Packet} (ctl : SendHalf) (s : Sender) (ps : list Packet)
    (xs : list (nat * nat)) (tr : list SqTasks.Event) (u : SqTasks.Udp Ch) (c i : nat) : Prop := {
  relays_handed : exists handed,
    taken c tr `prefix_of` SqTasks.received <$> handed /\
    (forall ch, SqTasks.chans u !! c = Some ch ->
       taken c tr ++ queued ch = SqTasks.received <$> handed) /\
    match mode s with
    | Datagram => handed ⊆+ ps
    | Stream => forall d, to_dest d handed `prefix_of` to_dest d ps
    end /\
    (usable c u -> settled c u ->
     match mode s with
     | Datagram => datagrams s ⊆+ arrivals tr -> handed ≡ₚ ps
     | Stream => forall d, came_whole xs tr i s d -> to_dest d handed = to_dest d ps
     end);
  relays_datagram f : read_up ctl s tr u c -> f ∈ datagrams s ->
    exists u', SqTasks.route_datagram f u = Some (Ok tt, u');
  relays_stream d j half recv : read_up ctl s tr u c ->
    contexts s !! d = Some (StreamContext j) -> streams s !! j = Some half ->
    pending recv `prefix_of` written half -> (2 <= length (pending recv))%nat ->
    exists u', SqTasks.route_stream recv u = Some (Ok tt, u');
}.

(** ** Lists *)

Lemma Forall2_inj {A B} (R : A -> B -> Prop) l l' k :
  (forall x y z, R x z -> R y z -> x = y) -> Forall2 R l k -> Forall2 R l' k -> l = l'.
Proof.
  intros Hinj H. revert l'. induction H as [|x y l k Hx _ IH]; intros l' H'; inversion H'; subst; [done|].
  f_equal; [by eapply Hinj|by apply IH].
Qed.

Lemma Forall2_compose {A B C} (P : A -> B -> Prop) (Q : B -> C -> Prop) (R : A -> C -> Prop) l k j :
  (forall x y z, P x y -> Q y z -> R x z) -> Forall2 P l k -> Forall2 Q k j -> Forall2 R l j.
Proof.
  intros HR H. revert j. induction H as [|x y l k Hx _ IH]; intros j Hj; inversion Hj; subst; constructor; eauto.
Qed.

Lemma Forall2_submseteq {A B} (R : A -> B -> Prop) l l' k k' :
  (forall x y z, R x z -> R y z -> x = y) -> Forall2 R l k -> Forall2 R l' k' -> k ⊆+ k' -> l ⊆+ l'.
Proof.
  intros Hinj Hl Hl' [k2 Hk]%submseteq_Permutation. apply Forall2_flip in Hl'.
  destruct (Permutation_Forall2 Hk Hl') as (l2 & Hp & H2%Forall2_flip).
  apply Forall2_app_inv_r in H2 as (a & b & Ha & _ & ->).
  rewrite (Forall2_inj R l a k Hinj Hl Ha), Hp. apply submseteq_inserts_r. done.
Qed.

Lemma lookup_snoc_Some' {A} (l : list A) x i y :
  (l ++ [x]) !! i = Some y -> l !! i = Some y \/ (i = length l /\ x = y).
Proof. intros [[_ ?]|[? ?]]%lookup_snoc_Some; auto. Qed.

(** ** The receiving end *)

Section Receiving.
Context {Ch : Type} `{MC : Mpsc Ch Packet}.
Context (k : Z) (modes : list UdpMode) (ctls : list SendHalf) (log : list Send) (st : Shared).
Context (g : Ledger) (Hst : shared_ok k modes ctls log g st) (Hmany : len g <= 65536).
Implicit Types u : SqTasks.Udp Ch.

Definition route_of (c : nat) (d : Address.Address) : IncomingUdpRoute :=
  {| sender := c; route_destination := SqWire.normalize d |}.

Lemma owned_ok i s : associations st !! i = Some s -> Forall entry_ok (owned k g i).
Proof. intros Hi. by destruct (s_assoc _ _ _ _ _ _ Hst i s Hi) as (md & c & _ & _ & [? ? ?]). Qed.

Lemma control_entry_nothing en y s' :
  control_entry {| pending := []; ending := en |} <> (Ok y, s').
Proof. intros E%control_entry_shrinks. simpl in E. lia. Qed.

Lemma entry_ok_reads e : entry_ok e -> reads control_entry (entry_bytes e) (SqWire.normalize e.1, e.2).
Proof.
  destruct e as [d id]. intros (Hd & [f Hf] & Hid). simpl in *. rewrite (entry_bytes_ok d id f Hf).
  by apply control_entry_reads.
Qed.

(** *** The registry *)

(** A control stream that has been read up to [todo]. *)
Definition reader_ok (ns : list nat) (ops : list RecvHalf) (reg : IncomingUdpRegistry)
    (t : SqTasks.ControlTask) : Prop :=
  exists i recv0 read todo l,
    ns !! SqTasks.c_chan t = Some i /\ ops !! SqTasks.c_chan t = Some recv0 /\
    read ++ todo `prefix_of` owned k g i /\
    pending recv0 = concat (entry_bytes <$> read ++ todo) ++ l /\
    pending (SqTasks.c_recv t) = concat (entry_bytes <$> todo) ++ l /\
    (l = [] \/ piece entry_bytes entry_ok l) /\ SqTasks.c_ids t = read.*2 /\
    forall d id, (d, id) ∈ read -> routes reg !! id = Some (route_of (SqTasks.c_chan t) d).

Record reg_ok (ns : list nat) (ops : list RecvHalf) (reg : IncomingUdpRegistry)
    (tasks : list SqTasks.ControlTask) : Prop := {
  r_routes id route : routes reg !! id = Some route -> exists c i d,
    ns !! c = Some i /\ (d, id) ∈ owned k g i /\ route = route_of c d;
  r_tasks t : t ∈ tasks -> reader_ok ns ops reg t;
  r_once : NoDup (SqTasks.c_chan <$> tasks);
}.

Lemma reader_grow ns ops reg t i recv :
  reader_ok ns ops reg t -> reader_ok (ns ++ [i]) (ops ++ [recv]) reg t.
Proof.
  intros (i0 & recv0 & rd & todo & l & Hi & Ho & H). exists i0, recv0, rd, todo, l.
  split; [by apply lookup_app_l_Some|]. split; [by apply lookup_app_l_Some|done].
Qed.

(** A new control stream. *)
Lemma reg_opened ns ops reg tasks i recv :
  reg_ok ns ops reg tasks -> length ns = length ops -> control_of ctls st i recv ->
  reg_ok (ns ++ [i]) (ops ++ [recv]) reg
    (tasks ++ [{| SqTasks.c_chan := length ns; SqTasks.c_recv := recv; SqTasks.c_ids := [] |}]).
Proof.
  intros [Hr Ht Ho] Hlen (s & c & Hs & Hc & Hp). split.
  - intros id route Hid. destruct (Hr id route Hid) as (c' & i' & d & Hi' & Hd). exists c', i', d.
    split; [by apply lookup_app_l_Some|done].
  - intros t [Hin| ->%list_elem_of_singleton]%elem_of_app; [by apply reader_grow, Ht|].
    destruct (s_assoc _ _ _ _ _ _ Hst i s Hs) as (md & c' & _ & Hc' & [_ He (l & Hw & Hl) _ _ _ _ _ _ _]).
    assert (c' = c) as -> by congruence. simpl in Hw. rewrite Hw, drop_app_length in Hp.
    destruct (frames_prefix entry_bytes entry_ok _ l _ He ltac:(tauto) Hp) as (todo & l' & Htodo & E & Hl').
    exists i, recv, [], todo, l'. simpl. split_and!; try done.
    + by apply list_lookup_middle.
    + rewrite Hlen. by apply list_lookup_middle.
    + by intros d id ?%elem_of_nil.
  - rewrite fmap_app. apply NoDup_app. split_and!; [done| |apply NoDup_singleton].
    intros x (t & -> & Hin)%list_elem_of_fmap. simpl. rewrite list_elem_of_singleton. intros E.
    destruct (Ht t Hin) as (i0 & recv0 & rd & todo & l & Hi & _). rewrite E in Hi.
    apply lookup_lt_Some in Hi. lia.
Qed.

(** Tasks other than [t] keep their routes when those of [t] change. *)
Lemma reader_other ns ops reg reg' tasks1 t tasks2 t' :
  NoDup ns -> reg_ok ns ops reg (tasks1 ++ t :: tasks2) -> t' ∈ tasks1 ++ tasks2 ->
  (forall id, routes reg' !! id = routes reg !! id \/
     exists i d, ns !! SqTasks.c_chan t = Some i /\ (d, id) ∈ owned k g i) ->
  reader_ok ns ops reg' t'.
Proof.
  intros Hnd [_ Ht Ho] Hin Hreg.
  assert (t' ∈ tasks1 ++ t :: tasks2) as Hin' by (rewrite elem_of_app in *; rewrite elem_of_cons; tauto).
  assert (SqTasks.c_chan t' <> SqTasks.c_chan t) as Hne.
  { rewrite fmap_app, fmap_cons in Ho. apply NoDup_app in Ho as (_ & H1 & H2).
    apply NoDup_cons in H2 as [H2 _]. intros E. rewrite elem_of_app in Hin. destruct Hin as [Hin|Hin].
    - apply (H1 (SqTasks.c_chan t')); [by apply list_elem_of_fmap_2|]. rewrite E. by left.
    - apply H2. rewrite <-E. by apply list_elem_of_fmap_2. }
  destruct (Ht t' Hin') as (i & recv0 & rd & todo & l & Hi & Hrecv & Hp & H1 & H2 & H3 & H4 & Hread).
  exists i, recv0, rd, todo, l. split_and!; try done. intros d id Hd.
  destruct (Hreg id) as [->|(i' & d' & Hi' & Hd')]; [by apply Hread|]. exfalso.
  destruct (owned_unique k g i i' d d' id Hmany) as [-> _]; [|done|].
  - apply (elem_of_prefix rd); [done|]. etrans; [by eexists|exact Hp].
  - by apply Hne, (NoDup_lookup ns _ _ i').
Qed.

Lemma reg_round ns ops tasks1 t tasks2 reg d id recv :
  NoDup ns -> Forall (fun i => is_Some (associations st !! i)) ns ->
  reg_ok ns ops reg (tasks1 ++ t :: tasks2) ->
  control_entry (SqTasks.c_recv t) = (Ok (d, id), recv) ->
  reg_ok ns ops (register id d (SqTasks.c_chan t) reg)
    (tasks1 ++ {| SqTasks.c_chan := SqTasks.c_chan t; SqTasks.c_recv := recv;
                  SqTasks.c_ids := SqTasks.c_ids t ++ [id] |} :: tasks2).
Proof.
  intros Hnd Hall Hok Hentry. pose proof Hok as [Hr Ht Ho].
  destruct (Ht t) as (i & recv0 & rd & todo & l & Hi & Hrecv & Hp & H1 & H2 & H3 & H4 & Hread).
  { apply elem_of_app. right. by left. }
  rewrite Forall_forall in Hall. destruct (Hall i) as [s Hs]; [by eapply list_elem_of_lookup_2|].
  pose proof (owned_ok i s Hs) as Hentries. destruct (SqTasks.c_recv t) as [pe en] eqn:Et. simpl in H2. subst pe.
  destruct todo as [|e todo].
  { by apply (piece_unread entry_bytes entry_ok _ (fun e => (SqWire.normalize e.1, e.2)) entry_ok_reads
      control_entry_stable control_entry_nothing) in Hentry. }
  assert (e ∈ owned k g i) as He by (apply (elem_of_prefix (rd ++ e :: todo)); [|done]; set_solver).
  pose proof (proj1 (Forall_forall _ _) Hentries e He) as Heok.
  rewrite (frames_read entry_bytes entry_ok _ (fun e => (SqWire.normalize e.1, e.2)) entry_ok_reads) in Hentry by done.
  injection Hentry as <- <- <-. destruct e as [d0 id0]. simpl in *. split.
  - intros x route. simpl. rewrite lookup_insert. case_decide as E; [|apply Hr]. subst x. intros [= <-].
    by exists (SqTasks.c_chan t), i, d0.
  - intros t' Hin.
    assert (t' = {| SqTasks.c_chan := SqTasks.c_chan t;
                    SqTasks.c_recv := {| pending := concat (entry_bytes <$> todo) ++ l; ending := en |};
                    SqTasks.c_ids := SqTasks.c_ids t ++ [id0] |} \/ t' ∈ tasks1 ++ tasks2) as [->|Hin']
      by (rewrite elem_of_app, elem_of_cons in Hin; rewrite elem_of_app; tauto).
    2:{ eapply reader_other; [done|exact Hok|done|]. intros x. simpl. rewrite lookup_insert.
        case_decide; [subst; right; eauto|by left]. }
    exists i, recv0, (rd ++ [(d0, id0)]), todo, l. simpl. rewrite <-app_assoc.
    split_and!; try done; [by rewrite H4, fmap_app|]. intros d' id'. rewrite elem_of_app, list_elem_of_singleton.
    rewrite lookup_insert. intros Hin2. case_decide as E; [subst id'|destruct Hin2; [by apply Hread|congruence]].
    destruct Hin2 as [Hin2|[= ->]]; [|done]. destruct (owned_unique k g i i d' d0 id0 Hmany) as [_ ->]; try done.
    apply (elem_of_prefix rd); [done|]. etrans; [by eexists|exact Hp].
  - rewrite fmap_app, fmap_cons in *. done.
Qed.

Lemma reg_ended ns ops tasks1 t tasks2 reg :
  NoDup ns -> reg_ok ns ops reg (tasks1 ++ t :: tasks2) ->
  reg_ok ns ops (remove (SqTasks.c_ids t) reg) (tasks1 ++ tasks2).
Proof.
  intros Hnd Hok. pose proof Hok as [Hr Ht Ho].
  destruct (Ht t) as (i & recv0 & rd & todo & l & Hi & Hrecv & Hp & H1 & H2 & H3 & H4 & Hread).
  { apply elem_of_app. right. by left. }
  split.
  - intros id route. simpl. rewrite foldl_delete_lookup. case_decide; [done|apply Hr].
  - intros t' Hin. eapply reader_other; [done|exact Hok|done|]. intros id. simpl.
    rewrite foldl_delete_lookup. case_decide as E; [right|by left]. rewrite H4 in E.
    apply list_elem_of_fmap in E as ([d id'] & -> & Hd). exists i, d. split; [done|].
    apply (elem_of_prefix rd); [done|]. etrans; [by eexists|exact Hp].
  - rewrite fmap_app, fmap_cons in Ho. rewrite fmap_app. apply NoDup_app in Ho as (Ha & Hb & [_ Hc]%NoDup_cons).
    apply NoDup_app. split_and!; try done. intros x Hx Hx2. apply (Hb x Hx). by right.
Qed.
(** *** The channels *)

(** [handed i] are the packets of the [i]-th association that have been put
    into the channel of its peer, [tk c] those taken from the channel. *)
Record chan_ok (ns : list nat) (handed tk : nat -> list Packet) (m : gmap nat Ch) : Prop := {
  h_alive c ch : m !! c = Some ch -> alive ch = true;
  h_queue c i ch : ns !! c = Some i -> m !! c = Some ch ->
    tk c ++ queued ch = SqTasks.received <$> handed i;
  h_taken c i : ns !! c = Some i -> tk c `prefix_of` SqTasks.received <$> handed i;
  h_new i : i ∉ ns -> handed i = [];
  h_fresh c : (length ns <= c)%nat -> m !! c = None /\ tk c = [];
}.

Lemma chan_opened ns handed tk m i :
  chan_ok ns handed tk m -> i ∉ ns -> chan_ok (ns ++ [i]) handed tk (<[length ns := channel 256]> m).
Proof.
  intros [Ha Hq Ht Hn Hf] Hi. destruct (channel_spec (Ch := Ch) 256) as (Eq & Ea & _).
  destruct (Hf (length ns) ltac:(lia)) as [_ Enil]. split.
  - intros c ch. rewrite lookup_insert. case_decide; [intros [= <-]; done|apply Ha].
  - intros c j ch [Hj|[-> ->]]%lookup_snoc_Some'; rewrite lookup_insert; case_decide as E.
    + subst c. apply lookup_lt_Some in Hj. lia.
    + by apply Hq.
    + intros [= <-]. by rewrite Enil, Eq, Hn.
    + done.
  - intros c j [Hj|[-> ->]]%lookup_snoc_Some'; [by apply Ht|]. rewrite Enil. apply prefix_nil.
  - intros j Hj. apply Hn. rewrite elem_of_app in Hj. tauto.
  - intros c. rewrite length_app. simpl. intros Hc. destruct (Hf c ltac:(lia)) as [Hm ?].
    rewrite lookup_insert_ne by lia. done.
Qed.

Lemma deliver_effect ns handed tk m c d l r m' :
  chan_ok ns handed tk m -> deliver (route_of c d) l m = Some (r, m') ->
  (exists e, r = Err e /\ m' = m /\ m !! c = None) \/
  (r = Ok tt /\ exists ch ch', m !! c = Some ch /\ m' = <[c := ch']> m /\ alive ch' = true /\
     queued ch' = queued ch ++ [{| data := l; destination := SqWire.normalize d |}]).
Proof.
  intros Hok. unfold deliver. simpl. destruct (m !! c) as [ch|] eqn:Ec.
  2:{ intros [= <- <-]. left. by eexists. }
  pose proof (h_alive _ _ _ _ Hok c ch Ec) as Ha.
  destruct (send_wait _ ch) as [[ok ch']|] eqn:Ew; [|done].
  apply send_wait_spec in Ew as (Hq & Ha' & _ & ->). rewrite Ha in *. intros [= <- <-]. right.
  split; [done|]. by exists ch, ch'.
Qed.

Lemma chan_delivered ns handed tk m c i p r m' :
  NoDup ns -> chan_ok ns handed tk m -> ns !! c = Some i ->
  deliver (route_of c (destination p)) (data p) m = Some (r, m') ->
  (exists e, r = Err e /\ m' = m /\ m !! c = None) \/
  (r = Ok tt /\ chan_ok ns (<[i := handed i ++ [p]]> handed) tk m' /\
     forall c', is_Some (m' !! c') <-> is_Some (m !! c')).
Proof.
  intros Hnd Hok Hi Hd.
  destruct (deliver_effect _ _ _ _ _ _ _ _ _ Hok Hd) as [?|(-> & ch & ch' & Hch & -> & Ha' & Hq')]; [by left|right].
  destruct Hok as [Ha Hq Ht Hn Hf]. split; [done|]. split.
  - split.
    + intros x y. rewrite lookup_insert. case_decide; [by intros [= <-]|apply Ha].
    + intros x j y Hj. destruct (decide (x = c)) as [->|Hne].
      * assert (j = i) as -> by congruence. rewrite lookup_insert_eq, fn_lookup_insert. intros [= <-].
        by rewrite Hq', app_assoc, (Hq c i ch Hi Hch), fmap_app.
      * rewrite lookup_insert_ne by done. intros Hy. rewrite fn_lookup_insert_ne; [by apply Hq|].
        intros <-. by apply Hne, (NoDup_lookup ns _ _ i).
    + intros x j Hj. destruct (decide (i = j)) as [<-|Hne].
      * rewrite fn_lookup_insert, fmap_app. by apply prefix_app_r, Ht.
      * rewrite fn_lookup_insert_ne by done. by apply Ht.
    + intros j Hj. rewrite fn_lookup_insert_ne; [by apply Hn|]. intros ->.
      by apply Hj, (list_elem_of_lookup_2 _ c).
    + intros x Hx. apply lookup_lt_Some in Hi. rewrite lookup_insert_ne by lia. by apply Hf.
  - intros c'. rewrite lookup_insert. case_decide; [|done]. subst. by rewrite Hch.
Qed.

Lemma chan_took ns handed tk tk' m c ch ch' p :
  chan_ok ns handed tk m -> m !! c = Some ch -> recv ch = Some (p, ch') ->
  tk' c = tk c ++ [p] -> (forall c', c' <> c -> tk' c' = tk c') ->
  chan_ok ns handed tk' (<[c := ch']> m).
Proof.
  intros [Ha Hq Ht Hn Hf] Hch Hr E1 E2. pose proof (recv_spec ch) as Hs. rewrite Hr in Hs.
  destruct Hs as (Eq & Ea & _). split.
  - intros x y. rewrite lookup_insert. case_decide; [|apply Ha]. subst. intros [= <-]. rewrite Ea. by eapply Ha.
  - intros x i y Hi. rewrite lookup_insert. case_decide as E.
    + subst x. intros [= <-]. rewrite E1, <-app_assoc. simpl. rewrite <-Eq. by apply Hq.
    + rewrite E2 by done. by apply Hq.
  - intros x i Hi. destruct (decide (x = c)) as [->|Hne]; [|rewrite E2 by done; by apply Ht].
    rewrite E1, <-(Hq c i ch Hi Hch), Eq. apply prefix_app. by exists (queued ch').
  - done.
  - intros x Hx. assert (x <> c) as Hne. { intros ->. destruct (Hf c Hx). congruence. }
    rewrite lookup_insert_ne, E2 by done. by apply Hf.
Qed.

Lemma chan_dropped ns handed tk m c :
  chan_ok ns handed tk m -> chan_ok ns handed tk (delete c m).
Proof.
  intros [Ha Hq Ht Hn Hf]. split; try done.
  - intros x y [_ Hx]%lookup_delete_Some. by eapply Ha.
  - intros x i y Hi [_ Hx]%lookup_delete_Some. by eapply Hq.
  - intros x Hx. destruct (Hf x Hx). rewrite lookup_delete_None. auto.
Qed.

(** *** Datagrams *)

(** [f] is a datagram that the association [x.1] sent for the packet [x.2]. *)
Definition from (x : nat * Packet) (f : bytes) : Prop :=
  modes !! x.1 = Some Datagram /\
  exists n, g !! n = Some (x.1, destination x.2, true) /\ f = to_be 2 (id_of k n) ++ data x.2.

Lemma ids_owned n i d : g !! n = Some (i, d, true) -> (d, id_of k n) ∈ owned k g i.
Proof. intros Hn. apply owned_elem. eauto. Qed.

Lemma from_inj x y f : from x f -> from y f -> x = y.
Proof.
  destruct x as [i p], y as [j q]. intros (_ & n & Hn & ->) (_ & m & Hm & E). cbn [fst snd] in *.
  apply app_inj_1 in E as [Eid Edata]; [|by rewrite !length_to_be].
  apply (f_equal from_be) in Eid. rewrite !from_to_be_small in Eid by apply id_of_range.
  pose proof (ids_owned _ _ _ Hn) as H1. pose proof (ids_owned _ _ _ Hm) as H2. rewrite Eid in H1.
  destruct (owned_unique _ _ _ _ _ _ _ Hmany H1 H2) as [-> Ed]. destruct p, q. simpl in *. by subst.
Qed.

(** The packets of an association among [l]. *)
Definition sel (i : nat) (l : list (nat * Packet)) : list Packet :=
  (filter (fun x => x.1 = i) l).*2.

Lemma sel_app i l l' : sel i (l ++ l') = sel i l ++ sel i l'.
Proof. unfold sel. by rewrite filter_app, fmap_app. Qed.

Lemma sel_cons i x l : sel i (x :: l) = (if decide (x.1 = i) then [x.2] else []) ++ sel i l.
Proof. unfold sel. rewrite filter_cons. by case_decide. Qed.

Lemma sel_one i x : sel i [x] = if decide (x.1 = i) then [x.2] else [].
Proof. rewrite sel_cons. by case_decide. Qed.

(** Nobody has dropped the association [i]. *)
Definition held (ns : list nat) (live : nat -> Prop) (i : nat) : Prop :=
  forall c, ns !! c = Some i -> live c.

(** [origin] are the packets whose datagrams have arrived, [sg] those that
    are on their way to a channel; the others are handed over, or lost with
    the connection or the association. *)
Record dgram_ok (ns : list nat) (handed : nat -> list Packet) (origin sg : list (nat * Packet))
    (arr : list bytes) (tasks : list SqTasks.DatagramTask) (closed : bool) (live : nat -> Prop)
    : Prop := {
  d_origin : Forall2 from origin arr;
  d_tasks : Forall2 (fun x t => exists c, ns !! c = Some x.1 /\ modes !! x.1 = Some Datagram /\
                                          t = SqTasks.task_of c x.2) sg tasks;
  d_all i : modes !! i = Some Datagram -> exists lost,
    handed i ++ sel i sg ++ lost ≡ₚ sel i origin /\
    (closed = false -> held ns live i -> lost = []);
}.

Lemma dgram_mono ns ns' handed handed' origin sg arr tasks closed closed' live live' :
  dgram_ok ns handed origin sg arr tasks closed live ->
  (forall c i, ns !! c = Some i -> ns' !! c = Some i) ->
  (forall i, modes !! i = Some Datagram -> handed' i = handed i) ->
  (closed' = false -> closed = false) ->
  (forall i, held ns' live' i -> held ns live i) ->
  dgram_ok ns' handed' origin sg arr tasks closed' live'.
Proof.
  intros [Ho Ht Ha] Hns Hh Hc Hl. split; [done| |].
  - eapply Forall2_impl; [exact Ht|]. intros x t (c & Hi & Hx). eauto.
  - intros i Hi. rewrite Hh by done. destruct (Ha i Hi) as (lost & Hp & Hlost). exists lost. auto.
Qed.

(** What the registry answers for the id of a destination. *)
Lemma wait_ours ns ops reg ctl n i d r :
  reg_ok ns ops reg ctl -> g !! n = Some (i, d, true) -> wait (id_of k n) reg = Some r ->
  (exists c, r = Ok (route_of c d) /\ ns !! c = Some i) \/ (exists e, r = Err e /\ closed reg = true).
Proof.
  intros Hreg Hn. unfold wait. destruct (routes reg !! id_of k n) as [route|] eqn:Er.
  - intros [= <-]. left. destruct (r_routes _ _ _ _ Hreg _ _ Er) as (c & j & d' & Hc & Hd' & ->).
    destruct (owned_unique _ _ _ _ _ _ _ Hmany (ids_owned _ _ _ Hn) Hd') as [-> ->]. eauto.
  - destruct (closed reg); [|done]. intros [= <-]. right. eauto.
Qed.

(** A datagram that finds the registry closed. *)
Lemma dgram_missed ns handed origin sg arr tasks live x f :
  dgram_ok ns handed origin sg arr tasks true live -> from x f ->
  dgram_ok ns handed (origin ++ [x]) sg (arr ++ [f]) tasks true live.
Proof.
  intros [Ho Ht Ha] Hx. split; [by apply Forall2_app; auto|done|]. intros i Hi.
  destruct (Ha i Hi) as (lost & Hp & Hlost). destruct (decide (x.1 = i)) as [E|E].
  - exists (lost ++ [x.2]). rewrite sel_app, sel_one, decide_True, <-Hp by done. split; [solve_Permutation|done].
  - exists lost. by rewrite sel_app, sel_one, decide_False, app_nil_r.
Qed.

Lemma dgram_arrived ns ops handed origin sg arr u live x f r u' :
  reg_ok ns ops (SqTasks.registry u) (SqTasks.controls u) ->
  dgram_ok ns handed origin sg arr (SqTasks.sending u) (closed (SqTasks.registry u)) live ->
  from x f -> SqTasks.route_datagram f u = Some (r, u') ->
  u' = SqTasks.with_sending u (SqTasks.chans u) (SqTasks.sending u') /\
  exists sg', dgram_ok ns handed (origin ++ [x]) sg' (arr ++ [f]) (SqTasks.sending u')
                (closed (SqTasks.registry u)) live.
Proof.
  intros Hreg Hok Hx Hr. pose proof Hok as [Ho Ht Ha]. pose proof Hx as (Hmd & n & Hn & Hf).
  unfold SqTasks.route_datagram in Hr. rewrite Hf, len_app, len_to_be in Hr.
  destruct (Z.ltb_spec (Z.of_nat 2 + len (data x.2)) 2) as [Hlt|_]; [pose proof (len_nonneg (data x.2)); lia|].
  rewrite take_app_exact, drop_app_exact in Hr by apply length_to_be.
  rewrite from_to_be_small in Hr by apply id_of_range.
  destruct (wait _ _) as [w|] eqn:Ew; [|done].
  destruct (wait_ours _ _ _ _ _ _ _ _ Hreg Hn Ew) as [(c & -> & Hc)|(e & -> & Hcl)]; injection Hr as <- <-.
  - split; [done|]. exists (sg ++ [x]). split; [by apply Forall2_app; auto| |].
    + apply Forall2_app; [done|]. constructor; [|constructor]. by exists c.
    + intros i Hi. destruct (Ha i Hi) as (lost & Hp & Hlost). exists lost. split; [|done].
      rewrite !sel_app, !sel_one. case_decide; [|by rewrite !app_nil_r]. rewrite <-Hp. solve_Permutation.
  - split; [by destruct u|]. exists sg. rewrite Hcl in *. by apply dgram_missed.
Qed.

(** A datagram that has been sent on, or could not be. *)
Lemma dgram_sent ns handed origin sg1 x sg2 arr tasks1 t tasks2 cl live :
  dgram_ok ns handed origin (sg1 ++ x :: sg2) arr (tasks1 ++ t :: tasks2) cl live ->
  length sg1 = length tasks1 ->
  dgram_ok ns (<[x.1 := handed x.1 ++ [x.2]]> handed) origin (sg1 ++ sg2) arr (tasks1 ++ tasks2) cl live /\
  (~ held ns live x.1 -> dgram_ok ns handed origin (sg1 ++ sg2) arr (tasks1 ++ tasks2) cl live).
Proof.
  intros [Ho Ht Ha] Hlen. apply Forall2_app_inv in Ht as [Ht1 Ht2]; [|done].
  apply Forall2_cons in Ht2 as [_ Ht2].
  split; [|intros Hno]; (split; [done|by apply Forall2_app|]); intros i Hi;
    destruct (Ha i Hi) as (lost & Hp & Hlost); rewrite sel_app, sel_cons in Hp; rewrite sel_app.
  - exists lost. split; [|done]. rewrite <-Hp. destruct (decide (x.1 = i)) as [<-|Hne].
    + rewrite fn_lookup_insert. solve_Permutation.
    + rewrite fn_lookup_insert_ne by done. solve_Permutation.
  - destruct (decide (x.1 = i)) as [<-|Hne].
    + exists (x.2 :: lost). split; [|done]. rewrite <-Hp. solve_Permutation.
    + exists lost. split; [|done]. rewrite <-Hp. solve_Permutation.
Qed.

(** *** Unidirectional streams *)

Lemma stream_context i s d j :
  associations st !! i = Some s -> contexts s !! d = Some (StreamContext j) ->
  modes !! i = Some Stream /\ Forall packet_ok (packets_of i log) /\ exists n half,
    g !! n = Some (i, d, true) /\ streams s !! j = Some half /\
    holds stream_frame packet_ok (to_be 2 (id_of k n)) (to_dest d (packets_of i log)) half.
Proof.
  intros Hi Hd. destruct (s_assoc _ _ _ _ _ _ Hst i s Hi) as (md & c & Hmd & _ & Ha).
  destruct Ha as [_ _ _ Hx _ _ _ Hf _ _]. simpl in Hx, Hf.
  destruct (Hx d _ Hd) as (n & Hn & H). destruct md; [done|]. split; [done|]. split; [by apply Hf|].
  destruct H as (j' & half & [= <-] & Hj & Hh). eauto.
Qed.

(** The packets that can be read from what arrives of a stream. *)
Definition carried (n : nat) (recv : RecvHalf) (sent : list Packet) : Prop :=
  ((length (pending recv) < 2)%nat /\ sent = []) \/
  exists l, pending recv = to_be 2 (id_of k n) ++ concat (stream_frame <$> sent) ++ l /\
    (l = [] \/ piece stream_frame packet_ok l).

Lemma stream_carried i j recv s :
  stream_of st (i, j) recv -> associations st !! i = Some s ->
  (length (pending recv) < 2)%nat \/
  exists d n sent l, contexts s !! d = Some (StreamContext j) /\ g !! n = Some (i, d, true) /\
    sent `prefix_of` to_dest d (packets_of i log) /\ Forall packet_ok sent /\
    pending recv = to_be 2 (id_of k n) ++ concat (stream_frame <$> sent) ++ l /\
    (l = [] \/ piece stream_frame packet_ok l).
Proof.
  intros (s' & half & Hs & Hj & [rest Hp]) Hi. simpl in *. assert (s' = s) as -> by congruence.
  destruct (decide (length (pending recv) < 2)%nat) as [|Hlen]; [by left|right].
  destruct (s_assoc _ _ _ _ _ _ Hst i s Hi) as (md & c & _ & _ & [_ _ _ _ Hstream _ _ _ _ Hquiet]).
  simpl in *. destruct md; [by rewrite Hquiet in Hj|].
  destruct (Hstream j half eq_refl Hj) as [Hshort|[d Hd]].
  { rewrite Hp, length_app in Hshort. lia. }
  destruct (stream_context i s d j Hi Hd) as (_ & Hf & n & half' & Hn & Hj' & (l & Hw & Hl)).
  assert (half' = half) as -> by congruence. rewrite Hp in Hw.
  assert (Forall packet_ok (to_dest d (packets_of i log))) as Hall.
  { apply Forall_forall. intros p [_ Hin]%list_elem_of_filter. by eapply Forall_forall. }
  assert (pending recv = to_be 2 (id_of k n) ++ drop 2 (pending recv)) as Hhead.
  { rewrite <-(take_drop 2 (pending recv)) at 1. f_equal.
    apply (f_equal (take 2)) in Hw. rewrite take_app_le in Hw by lia.
    by rewrite take_app_exact in Hw by apply length_to_be. }
  rewrite Hhead, <-app_assoc in Hw. apply app_inv_head in Hw.
  destruct (frames_prefix stream_frame packet_ok (to_dest d (packets_of i log)) l
    (drop 2 (pending recv)) Hall ltac:(tauto)) as (sent & l' & Hpre & Hdrop & Hl').
  { by exists rest. }
  exists d, n, sent, l'. split_and!; try done; [|by rewrite Hhead, Hdrop].
  destruct Hpre as [more Hmore]. rewrite Hmore in Hall. by apply Forall_app in Hall as [? _].
Qed.

(** A task that reads the stream of an association to a destination, with
    the packets that it has before it. *)
Definition uni_ok (ns : list nat) (y : nat * Address.Address * list Packet) (t : SqTasks.UniTask)
    : Prop :=
  exists c l s, ns !! c = Some y.1.1 /\ modes !! y.1.1 = Some Stream /\
    associations st !! y.1.1 = Some s /\ is_Some (contexts s !! y.1.2) /\
    SqTasks.u_route t = route_of c y.1.2 /\
    pending (SqTasks.u_recv t) = concat (stream_frame <$> y.2) ++ l /\
    (l = [] \/ piece stream_frame packet_ok l) /\ Forall packet_ok y.2 /\
    Forall (fun p => destination p = y.1.2) y.2.

Record stream_ok (ns : list nat) (xs : list (nat * nat)) (handed : nat -> list Packet)
    (ug : list (nat * Address.Address * list Packet)) (inc : list RecvHalf)
    (tasks : list SqTasks.UniTask) (closed : bool) (live : nat -> Prop) : Prop := {
  t_tasks : Forall2 (uni_ok ns) ug tasks;
  t_once : NoDup ug.*1;
  t_known i s p : modes !! i = Some Stream -> associations st !! i = Some s -> p ∈ handed i ->
    is_Some (contexts s !! destination p);
  t_new i s d j : associations st !! i = Some s -> contexts s !! d = Some (StreamContext j) ->
    (i, j) ∉ xs -> to_dest d (handed i) = [] /\ (i, d) ∉ ug.*1;
  t_sent i s d j m recv : associations st !! i = Some s ->
    contexts s !! d = Some (StreamContext j) -> xs !! m = Some (i, j) -> inc !! m = Some recv ->
    exists n sent todo lost, g !! n = Some (i, d, true) /\ carried n recv sent /\
      sent `prefix_of` to_dest d (packets_of i log) /\
      to_dest d (handed i) ++ todo ++ lost = sent /\
      ((i, d, todo) ∈ ug \/ (todo = [] /\ (i, d) ∉ ug.*1)) /\
      (closed = false -> held ns live i -> lost = []);
}.

Lemma stream_mono ns ns' xs handed handed' ug inc tasks closed closed' live live' :
  stream_ok ns xs handed ug inc tasks closed live ->
  (forall c i, ns !! c = Some i -> ns' !! c = Some i) ->
  (forall i, modes !! i = Some Stream -> handed' i = handed i) ->
  (closed' = false -> closed = false) ->
  (forall i, held ns' live' i -> held ns live i) ->
  stream_ok ns' xs handed' ug inc tasks closed' live'.
Proof.
  intros [Ht Ho Hk Hn Hs] Hns Hh Hc Hl. split; try done.
  - eapply Forall2_impl; [exact Ht|]. intros y t (c & l & s & Hi & Hy). exists c, l, s. auto.
  - intros i s p Hi Hsi. rewrite Hh by done. by eapply Hk.
  - intros i s d j Hi Hd. destruct (stream_context i s d j Hi Hd) as [Hmd _]. rewrite Hh by done. by eapply Hn.
  - intros i s d j m recv Hi Hd Hx Hr. destruct (stream_context i s d j Hi Hd) as [Hmd _].
    rewrite Hh by done. destruct (Hs i s d j m recv Hi Hd Hx Hr) as (n & sent & todo & lost & H).
    exists n, sent, todo, lost. naive_solver.
Qed.

(** A stream comes in, with the task that it leads to, if it does. *)
Lemma stream_extend ns xs handed ug inc tasks cl live i j recv more tasks' s :
  stream_ok ns xs handed ug inc tasks cl live -> (i, j) ∉ xs -> length xs = length inc ->
  associations st !! i = Some s ->
  Forall2 (uni_ok ns) more tasks' -> NoDup more.*1 ->
  (forall y, y ∈ more -> y.1.1 = i /\ contexts s !! y.1.2 = Some (StreamContext j)) ->
  (forall d, contexts s !! d = Some (StreamContext j) -> exists n sent todo lost,
     g !! n = Some (i, d, true) /\ carried n recv sent /\
     sent `prefix_of` to_dest d (packets_of i log) /\ todo ++ lost = sent /\
     ((i, d, todo) ∈ more \/ (todo = [] /\ more = [])) /\
     (cl = false -> held ns live i -> lost = [])) ->
  stream_ok ns (xs ++ [(i, j)]) handed (ug ++ more) (inc ++ [recv]) (tasks ++ tasks') cl live.
Proof.
  intros [Ht Ho Hk Hn Hs] Hx Hlen Hi Ht' Ho' Hmore Hnew.
  assert (forall i' s' d' j', associations st !! i' = Some s' ->
    contexts s' !! d' = Some (StreamContext j') -> (i', d') ∈ more.*1 -> (i', j') = (i, j)) as Hin.
  { intros i' s' d' j' Hi' Hd' (y & Ey & Hy)%list_elem_of_fmap. destruct (Hmore y Hy) as [E1 E2].
    rewrite <-Ey in E1, E2. simpl in E1, E2. subst i'. assert (s' = s) as -> by congruence. congruence. }
  split; try done.
  - by apply Forall2_app.
  - rewrite fmap_app. apply NoDup_app. split_and!; [done| |done]. intros [i' d] Hd.
    intros (y & Ey & Hy)%list_elem_of_fmap. destruct (Hmore y Hy) as [E1 E2].
    rewrite <-Ey in E1, E2. simpl in E1, E2. subst i'. by destruct (Hn i s d j Hi E2 Hx) as [_ Hno].
  - intros i' s' d' j' Hi' Hd' Hno. rewrite elem_of_app, list_elem_of_singleton in Hno.
    destruct (Hn i' s' d' j' Hi' Hd' ltac:(tauto)) as [E Hug]. split; [done|].
    rewrite fmap_app, elem_of_app. intros [|Hm]; [done|]. apply Hno. right. by eapply Hin.
  - intros i' s' d' j' m rc Hi' Hd' [Hm|[-> E]]%lookup_snoc_Some' Hrc.
    + assert (inc !! m = Some rc) as Hrc'.
      { apply lookup_snoc_Some' in Hrc as [|[-> _]]; [done|]. apply lookup_lt_Some in Hm. lia. }
      destruct (Hs i' s' d' j' m rc Hi' Hd' Hm Hrc') as (n & sent & todo & lost & H1 & H2 & H3 & H4 & H5 & H6).
      exists n, sent, todo, lost. split_and!; try done. rewrite fmap_app, !elem_of_app.
      destruct H5 as [|[-> H5]]; [by auto|]. right. split; [done|]. intros [|Hm']; [done|].
      rewrite (Hin i' s' d' j' Hi' Hd' Hm') in Hm. by apply Hx, (list_elem_of_lookup_2 _ m).
    + injection E as -> ->. assert (s' = s) as -> by congruence.
      assert (rc = recv) as -> by (rewrite Hlen, list_lookup_middle in Hrc by done; congruence).
      destruct (Hnew d' Hd') as (n & sent & todo & lost & H1 & H2 & H3 & H4 & H5 & H6).
      destruct (Hn i' s d' j' Hi' Hd' Hx) as [E Hug].
      exists n, sent, todo, lost. rewrite E. split_and!; try done. rewrite elem_of_app, fmap_app.
      destruct H5 as [|[-> ->]]; [by auto|]. right. simpl. by rewrite app_nil_r.
Qed.

(** A stream that is cut off before its id, or finds the registry closed. *)
Lemma stream_missed ns xs handed ug inc tasks cl live i j recv :
  stream_ok ns xs handed ug inc tasks cl live ->
  stream_of st (i, j) recv -> (i, j) ∉ xs -> length xs = length inc ->
  (length (pending recv) < 2)%nat \/ cl = true ->
  stream_ok ns (xs ++ [(i, j)]) handed ug (inc ++ [recv]) tasks cl live.
Proof.
  intros Hok Hstr Hx Hlen Hwhy. pose proof Hstr as (s & half & Hi & _). simpl in Hi.
  rewrite <-(app_nil_r ug), <-(app_nil_r tasks).
  eapply stream_extend; try done; [constructor|by intros y ?%elem_of_nil|]. intros d Hd.
  destruct (stream_context i s d j Hi Hd) as (_ & _ & n & h & Hn & _).
  destruct (stream_carried i j recv s Hstr Hi) as [Hshort|(d' & n' & sent & l & Hd' & Hn' & Hpre & Hp & Hl)].
  { exists n, [], [], []. split_and!; try done; [by left|apply prefix_nil|by right]. }
  destruct (s_assoc _ _ _ _ _ _ Hst i s Hi) as (md & c & _ & _ & [_ _ _ _ _ Hown _ _ _ _]).
  assert (d' = d) as -> by (by apply (Hown d' d j)).
  destruct Hwhy as [Hshort|Hcl].
  { destruct Hl as [Hl _]. rewrite Hl, length_app, length_to_be in Hshort. lia. }
  exists n', sent, [], sent. split_and!; try done; [by right; exists l|by right|congruence].
Qed.

Lemma stream_came ns ops xs handed ug inc u live i j recv r u' :
  reg_ok ns ops (SqTasks.registry u) (SqTasks.controls u) ->
  stream_ok ns xs handed ug inc (SqTasks.unis u) (closed (SqTasks.registry u)) live ->
  stream_of st (i, j) recv -> (i, j) ∉ xs -> length xs = length inc ->
  SqTasks.route_stream recv u = Some (r, u') ->
  u' = SqTasks.with_unis u (SqTasks.chans u) (SqTasks.unis u') /\
  exists ug', stream_ok ns (xs ++ [(i, j)]) handed ug' (inc ++ [recv]) (SqTasks.unis u')
                (closed (SqTasks.registry u)) live.
Proof.
  intros Hreg Hok Hstr Hx Hlen Hr. pose proof Hstr as (s & half & Hi & _). simpl in Hi.
  assert ((length (pending recv) < 2)%nat \/ closed (SqTasks.registry u) = true ->
    u = SqTasks.with_unis u (SqTasks.chans u) (SqTasks.unis u) /\
    exists ug', stream_ok ns (xs ++ [(i, j)]) handed ug' (inc ++ [recv]) (SqTasks.unis u)
                (closed (SqTasks.registry u)) live) as Hskip.
  { intros Hwhy. split; [by destruct u|]. exists ug. by apply stream_missed. }
  unfold SqTasks.route_stream in Hr.
  destruct (stream_carried i j recv s Hstr Hi)
    as [Hshort|(d & n & sent & l & Hd & Hn & Hpre & Hpok & Hp & Hl)].
  - unfold quic_read_exact, fill_exact in Hr. rewrite decide_False in Hr by lia.
    destruct (ending recv); injection Hr as _ <-; apply Hskip; auto.
  - destruct recv as [pe en]. cbn [pending] in Hp. subst pe. rewrite quic_read_exact_app in Hr by apply length_to_be.
    rewrite from_to_be_small in Hr by apply id_of_range.
    destruct (wait _ _) as [w|] eqn:Ew; [|done].
    destruct (wait_ours _ _ _ _ _ _ _ _ Hreg Hn Ew) as [(c & -> & Hc)|(e & -> & Hcl)];
      injection Hr as _ <-; [|apply Hskip; auto].
    destruct (stream_context i s d j Hi Hd) as (Hmd & _). split; [done|]. exists (ug ++ [(i, d, sent)]).
    eapply stream_extend; try done.
    + constructor; [|constructor]. exists c, l, s. simpl. split_and!; try done.
      apply Forall_forall. intros p Hp. apply (elem_of_prefix _ _ _ Hp) in Hpre.
      by apply list_elem_of_filter in Hpre as [? _].
    + apply NoDup_singleton.
    + by intros y ->%list_elem_of_singleton.
    + intros d' Hd'. destruct (s_assoc _ _ _ _ _ _ Hst i s Hi) as (md & c' & _ & _ & [_ _ _ _ _ Hown _ _ _ _]).
      assert (d' = d) as -> by (by apply (Hown d' d j)).
      exists n, sent, sent, []. rewrite app_nil_r. split_and!; try done; [by right; exists l|].
      left. by apply list_elem_of_singleton.
Qed.

Lemma NoDup_fst_eq {A B} (l : list (A * B)) a b b' :
  NoDup l.*1 -> (a, b) ∈ l -> (a, b') ∈ l -> b = b'.
Proof.
  intros Hnd [x Hx]%list_elem_of_lookup [y Hy]%list_elem_of_lookup.
  assert (x = y) as ->; [|congruence].
  apply (NoDup_lookup l.*1 x y a Hnd); rewrite list_lookup_fmap; [by rewrite Hx|by rewrite Hy].
Qed.

(** A task ends: there is nothing left, or nobody to take it. *)
Lemma stream_gone ns xs handed ug1 y ug2 inc tasks1 t tasks2 cl live :
  stream_ok ns xs handed (ug1 ++ y :: ug2) inc (tasks1 ++ t :: tasks2) cl live ->
  length ug1 = length tasks1 -> y.2 = [] \/ ~ held ns live y.1.1 ->
  stream_ok ns xs handed (ug1 ++ ug2) inc (tasks1 ++ tasks2) cl live.
Proof.
  intros [Ht Ho Hk Hn Hs] Hlen Hwhy. apply Forall2_app_inv in Ht as [Ht1 Ht2]; [|done].
  apply Forall2_cons in Ht2 as [_ Ht2].
  assert (y ∈ ug1 ++ y :: ug2) as Hy by (apply elem_of_app; right; by left).
  assert (forall x, x ∈ (ug1 ++ ug2).*1 -> x ∈ (ug1 ++ y :: ug2).*1) as Hsub.
  { intros x. rewrite !fmap_app, fmap_cons, !elem_of_app, elem_of_cons. tauto. }
  assert ((y.1 ∉ (ug1 ++ ug2).*1) /\ NoDup ((ug1 ++ ug2).*1)) as [Hout Hnd].
  { rewrite fmap_app, fmap_cons, <-Permutation_middle in Ho. rewrite fmap_app. by apply NoDup_cons. }
  split; [by apply Forall2_app|done|done| |].
  - intros i s d j Hi Hd Hx. destruct (Hn i s d j Hi Hd Hx) as [E Hno]. split; [done|]. intros ?. by apply Hno, Hsub.
  - intros i s d j m recv Hi Hd Hx Hr.
    destruct (Hs i s d j m recv Hi Hd Hx Hr) as (n & sent & todo & lost & H1 & H2 & H3 & H4 & H5 & H6).
    destruct (decide ((i, d) = y.1)) as [E|E].
    + assert (todo = y.2) as ->.
      { destruct H5 as [H5|[-> H5]]; [|destruct H5; rewrite E; by apply list_elem_of_fmap_2].
        apply (NoDup_fst_eq _ (i, d) _ _ Ho H5). by rewrite E, <-surjective_pairing. }
      exists n, sent, [], (y.2 ++ lost). split_and!; try done.
      * right. by rewrite E.
      * intros Hc Hl. destruct Hwhy as [->|Hno]; [by apply H6|]. destruct Hno. by rewrite <-E.
    + exists n, sent, todo, lost. split_and!; try done. destruct H5 as [H5|[-> H5]].
      * left. rewrite elem_of_app, elem_of_cons in H5. rewrite elem_of_app.
        destruct H5 as [?|[<-|?]]; auto. by destruct E.
      * right. split; [done|]. intros ?. by apply H5, Hsub.
Qed.

(** A task hands over a packet and goes on. *)
Lemma stream_handed ns xs handed ug1 i d p todo ug2 inc tasks1 t tasks2 recv cl live :
  stream_ok ns xs handed (ug1 ++ (i, d, p :: todo) :: ug2) inc (tasks1 ++ t :: tasks2) cl live ->
  length ug1 = length tasks1 ->
  (forall l, pending (SqTasks.u_recv t) = concat (stream_frame <$> p :: todo) ++ l ->
     pending recv = concat (stream_frame <$> todo) ++ l) ->
  stream_ok ns xs (<[i := handed i ++ [p]]> handed) (ug1 ++ (i, d, todo) :: ug2) inc
    (tasks1 ++ {| SqTasks.u_route := SqTasks.u_route t; SqTasks.u_recv := recv |} :: tasks2) cl live.
Proof.
  intros [Ht Ho Hk Hn Hs] Hlen Hrecv. apply Forall2_app_inv in Ht as [Ht1 Ht2]; [|done].
  apply Forall2_cons in Ht2 as [Hty Ht2].
  destruct Hty as (c & l & s0 & Hc & Hmd & Hs0 & Hctx & Hroute & Hp & Hl & Hpok & Hdest). simpl in *.
  apply Forall_cons in Hpok as [_ Hpok]. apply Forall_cons in Hdest as [Hd0 Hdest].
  assert ((ug1 ++ (i, d, todo) :: ug2).*1 = (ug1 ++ (i, d, p :: todo) :: ug2).*1) as Efst
    by by rewrite !fmap_app, !fmap_cons.
  assert ((i, d) ∈ (ug1 ++ (i, d, p :: todo) :: ug2).*1) as Hy.
  { rewrite fmap_app, fmap_cons. apply elem_of_app. right. by left. }
  assert (forall i' d', (i', d') <> (i, d) ->
    to_dest d' (<[i := handed i ++ [p]]> handed i') = to_dest d' (handed i')) as Hother.
  { intros i' d' Hne. destruct (decide (i = i')) as [<-|E]; [|by rewrite fn_lookup_insert_ne].
    rewrite fn_lookup_insert, to_dest_snoc, decide_False, app_nil_r; [done|]. congruence. }
  split; rewrite ?Efst; try done.
  - apply Forall2_app; [done|]. constructor; [|done]. exists c, l, s0. simpl. split_and!; auto.
  - intros i' s q Hi' Hsi Hq. destruct (decide (i = i')) as [<-|E].
    + rewrite fn_lookup_insert, elem_of_app, list_elem_of_singleton in Hq.
      destruct Hq as [Hq| ->]; [by eapply Hk|]. rewrite Hd0. congruence.
    + rewrite fn_lookup_insert_ne in Hq by done. by eapply Hk.
  - intros i' s d' j Hi' Hd' Hx. destruct (Hn i' s d' j Hi' Hd' Hx) as [E Hno]. split; [|done].
    rewrite Hother; [done|]. congruence.
  - intros i' s d' j m rc Hi' Hd' Hx Hr.
    destruct (Hs i' s d' j m rc Hi' Hd' Hx Hr) as (n & sent & todo' & lost & H1 & H2 & H3 & H4 & H5 & H6).
    destruct (decide ((i', d') = (i, d))) as [E|E].
    + injection E as -> ->. assert (todo' = p :: todo) as ->.
      { destruct H5 as [H5|[_ H5]]; [|done]. apply (NoDup_fst_eq _ (i, d) _ _ Ho H5).
        apply elem_of_app. right. by left. }
      exists n, sent, todo, lost. split_and!; try done.
      * rewrite fn_lookup_insert, to_dest_snoc, decide_True, <-app_assoc by done. exact H4.
      * left. apply elem_of_app. right. by left.
    + exists n, sent, todo', lost. rewrite Hother by done. split_and!; try done.
      destruct H5 as [H5|H5]; [left|by right]. rewrite elem_of_app, elem_of_cons in *.
      destruct H5 as [?|[[= -> -> ->]|?]]; auto. done.
Qed.

(** *** The whole state *)

Definition live u (c : nat) : Prop := is_Some (SqTasks.chans u !! c).

Definition inv (ns : list nat) (xs : list (nat * nat)) (ops : list RecvHalf) (arr : list bytes)
    (inc : list RecvHalf) (tk : nat -> list Packet) u : Prop :=
  SqTasks.next_chan u = length ns /\
  reg_ok ns ops (SqTasks.registry u) (SqTasks.controls u) /\
  exists handed origin sg ug,
    chan_ok ns handed tk (SqTasks.chans u) /\
    dgram_ok ns handed origin sg arr (SqTasks.sending u) (closed (SqTasks.registry u)) (live u) /\
    stream_ok ns xs handed ug inc (SqTasks.unis u) (closed (SqTasks.registry u)) (live u).

Lemma chan_ext ns handed tk tk' m :
  chan_ok ns handed tk m -> (forall c, tk' c = tk c) -> chan_ok ns handed tk' m.
Proof. intros [Ha Hq Ht Hn Hf] E. split; intros; rewrite ?E; eauto. Qed.

Lemma inv_start : inv [] [] [] [] [] (fun _ => []) (SqTasks.no_udp (Ch := Ch)).
Proof.
  split; [done|]. split; [split; [done|by intros t ?%elem_of_nil|constructor]|].
  exists (fun _ => []), [], [], []. split_and!; split; try done; try constructor.
  - intros i _. exists []. done.
  - by intros i s p _ _ ?%elem_of_nil.
  - done.
  - by intros ?%elem_of_nil.
Qed.

Lemma inv_opened ns xs ops arr inc tk u i recv :
  inv ns xs ops arr inc tk u -> length ns = length ops -> i ∉ ns -> control_of ctls st i recv ->
  inv (ns ++ [i]) xs (ops ++ [recv]) arr inc tk (SqTasks.associated recv u).
Proof.
  intros (Hn & Hreg & handed & origin & sg & ug & Hc & Hd & Hs) Hlen Hi Hctl.
  assert (forall c j, ns !! c = Some j -> (ns ++ [i]) !! c = Some j) as Hgrow
    by (intros c j; apply lookup_app_l_Some).
  assert (forall j, held (ns ++ [i]) (live (SqTasks.associated recv u)) j -> held ns (live u) j) as Hheld.
  { intros j Hj c Hcj. specialize (Hj c (Hgrow c j Hcj)). unfold live in *. simpl in Hj.
    apply lookup_lt_Some in Hcj. by rewrite lookup_insert_ne in Hj by lia. }
  split; [simpl; rewrite length_app, Hn; simpl; lia|]. split; [simpl; rewrite Hn; by apply reg_opened|].
  exists handed, origin, sg, ug. simpl. split_and!.
  - rewrite Hn. by apply chan_opened.
  - by eapply dgram_mono.
  - by eapply stream_mono.
Qed.

Lemma inv_control ns xs ops arr inc tk u l1 t l2 :
  inv ns xs ops arr inc tk u -> NoDup ns -> Forall (fun i => is_Some (associations st !! i)) ns ->
  SqTasks.controls u = l1 ++ t :: l2 ->
  inv ns xs ops arr inc tk (SqTasks.control_round t l1 l2 u).
Proof.
  intros (Hn & Hreg & Hrest) Hnd Hall E. rewrite E in Hreg. unfold SqTasks.control_round.
  destruct (control_entry (SqTasks.c_recv t)) as [[[d id]|e] recv] eqn:Ec; (split; [done|]; split; [|done]).
  - by apply reg_round.
  - by apply reg_ended.
Qed.

Lemma inv_arrived ns xs ops arr inc tk u x f r u' :
  inv ns xs ops arr inc tk u -> from x f -> SqTasks.route_datagram f u = Some (r, u') ->
  inv ns xs ops (arr ++ [f]) inc tk u'.
Proof.
  intros (Hn & Hreg & handed & origin & sg & ug & Hc & Hd & Hs) Hx Hr.
  destruct (dgram_arrived _ _ _ _ _ _ _ _ _ _ _ _ Hreg Hd Hx Hr) as [E [sg' Hd']]. rewrite E. rewrite E in Hd'.
  split; [done|]. split; [done|]. by exists handed, (origin ++ [x]), sg', ug.
Qed.

(** A datagram or a stream that misses its route. *)
Lemma inv_missed_datagram ns xs ops arr inc tk u x f :
  inv ns xs ops arr inc tk u -> from x f -> closed (SqTasks.registry u) = true ->
  inv ns xs ops (arr ++ [f]) inc tk u.
Proof.
  intros (Hn & Hreg & handed & origin & sg & ug & Hc & Hd & Hs) Hx Hcl. rewrite Hcl in Hd.
  split; [done|]. split; [done|]. exists handed, (origin ++ [x]), sg, ug. rewrite Hcl in *.
  split_and!; [done|by apply dgram_missed|done].
Qed.

Lemma inv_missed_stream ns xs ops arr inc tk u x recv :
  inv ns xs ops arr inc tk u -> x ∉ xs -> length xs = length inc -> stream_of st x recv ->
  closed (SqTasks.registry u) = true -> inv ns (xs ++ [x]) ops arr (inc ++ [recv]) tk u.
Proof.
  intros (Hn & Hreg & handed & origin & sg & ug & Hc & Hd & Hs) Hx Hlen Hstr Hcl. destruct x as [i j].
  split; [done|]. split; [done|]. exists handed, origin, sg, ug. split_and!; [done..|].
  apply stream_missed; auto.
Qed.

Lemma inv_sent ns xs ops arr inc tk u l1 t l2 r u' :
  inv ns xs ops arr inc tk u -> NoDup ns -> SqTasks.sending u = l1 ++ t :: l2 ->
  SqTasks.send_routed t l1 l2 u = Some (r, u') -> inv ns xs ops arr inc tk u'.
Proof.
  intros (Hn & Hreg & handed & origin & sg & ug & Hc & Hd & Hs) Hnd E Hr. rewrite E in Hd.
  pose proof (d_tasks _ _ _ _ _ _ _ _ Hd) as Ht.
  apply Forall2_app_inv_r in Ht as (sg1 & sg2' & H1 & H2 & ->).
  apply Forall2_cons_inv_r in H2 as (x & sg2 & (c & Hcx & Hmd & ->) & H2 & ->).
  apply Forall2_length in H1. unfold SqTasks.send_routed in Hr. cbn [SqTasks.task_of SqTasks.d_route SqTasks.d_data] in Hr.
  destruct (deliver _ _ _) as [[r' m]|] eqn:Ed; [|done]. injection Hr as <- <-.
  destruct (dgram_sent _ _ _ _ _ _ _ _ _ _ _ _ Hd H1) as [Hok Hlost].
  destruct (chan_delivered _ _ _ _ _ _ _ _ _ Hnd Hc Hcx Ed) as [(e & -> & -> & Hnone)|(-> & Hc' & Hiff)].
  - split; [done|]. split; [done|]. exists handed, origin, (sg1 ++ sg2), ug. split_and!; [done| |done].
    apply Hlost. intros Hheld. destruct (Hheld c Hcx). congruence.
  - split; [done|]. split; [done|]. exists (<[x.1 := handed x.1 ++ [x.2]]> handed), origin, (sg1 ++ sg2), ug.
    simpl. split_and!; [done| |].
    + eapply dgram_mono; try done. intros i Hi c' Hc1. by apply Hiff, Hi.
    + eapply stream_mono; try done.
      * intros i Hi. rewrite fn_lookup_insert_ne; [done|]. congruence.
      * intros i Hi c' Hc1. by apply Hiff, Hi.
Qed.

Lemma inv_came ns xs ops arr inc tk u x recv r u' :
  inv ns xs ops arr inc tk u -> x ∉ xs -> length xs = length inc -> stream_of st x recv ->
  SqTasks.route_stream recv u = Some (r, u') -> inv ns (xs ++ [x]) ops arr (inc ++ [recv]) tk u'.
Proof.
  intros (Hn & Hreg & handed & origin & sg & ug & Hc & Hd & Hs) Hx Hlen Hstr Hr. destruct x as [i j].
  destruct (stream_came _ _ _ _ _ _ _ _ _ _ _ _ _ Hreg Hs Hstr Hx Hlen Hr) as [E [ug' Hs']]. rewrite E. rewrite E in Hs'.
  split; [done|]. split; [done|]. by exists handed, origin, sg, ug'.
Qed.

Lemma stream_packet_nothing en y s' :
  stream_packet {| pending := []; ending := en |} <> (Ok y, s').
Proof. unfold stream_packet, mbind, quic_read_exact, fill_exact. simpl. by destruct en. Qed.

Lemma inv_stream ns xs ops arr inc tk u l1 t l2 u' :
  inv ns xs ops arr inc tk u -> NoDup ns -> SqTasks.unis u = l1 ++ t :: l2 ->
  SqTasks.stream_round t l1 l2 u = Some u' -> inv ns xs ops arr inc tk u'.
Proof.
  intros (Hn & Hreg & handed & origin & sg & ug & Hc & Hd & Hs) Hnd E Hr. rewrite E in Hs.
  pose proof (t_tasks _ _ _ _ _ _ _ _ Hs) as Ht.
  apply Forall2_app_inv_r in Ht as (ug1 & ug2' & H1 & H2 & ->).
  apply Forall2_cons_inv_r in H2 as ([[i d] todo] & ug2 & Hy & H2 & ->).
  apply Forall2_length in H1.
  destruct Hy as (c & l & s & Hcx & Hmd & Hsi & _ & Hroute & Hp & Hl & Hpok & Hdest). cbn [fst snd] in *.
  unfold SqTasks.stream_round in Hr. destruct (SqTasks.u_recv t) as [pe en] eqn:Et. simpl in Hp. subst pe.
  destruct todo as [|p todo].
  - destruct (stream_packet _) as [[x|e] rest] eqn:Ep.
    { by apply (piece_unread stream_frame packet_ok _ data stream_packet_reads stream_packet_stable
        stream_packet_nothing) in Ep. }
    injection Hr as <-. split; [done|]. split; [done|]. exists handed, origin, sg, (ug1 ++ ug2).
    split_and!; [done|done|]. eapply stream_gone; [exact Hs|done|by left].
  - apply Forall_cons in Hpok as [Hpk _]. apply Forall_cons in Hdest as [Hpd _].
    rewrite (frames_read stream_frame packet_ok _ data stream_packet_reads) in Hr by done.
    destruct (deliver _ _ _) as [[r m]|] eqn:Ed; [|done]. rewrite Hroute, <-Hpd in Ed.
    destruct (chan_delivered _ _ _ _ _ _ _ _ _ Hnd Hc Hcx Ed) as [(e & -> & -> & Hnone)|(-> & Hc' & Hiff)];
      injection Hr as <-; (split; [done|]; split; [done|]).
    + exists handed, origin, sg, (ug1 ++ ug2). split_and!; [done|done|].
      eapply stream_gone; [exact Hs|done|right]. intros Hheld. destruct (Hheld c Hcx) as [y Hy].
      simpl in Hy. by rewrite Hnone in Hy.
    + exists (<[i := handed i ++ [p]]> handed), origin, sg, (ug1 ++ (i, d, todo) :: ug2). simpl. split_and!; [done| |].
      * eapply dgram_mono; try done; [intros j Hj; rewrite fn_lookup_insert_ne; [done|congruence]|].
        intros j Hj c' Hc1. by apply Hiff, Hj.
      * eapply stream_mono; [eapply stream_handed; [exact Hs|done|]|done..|].
        -- intros l'. rewrite Et. cbn [pending]. intros E1%app_inv_head. by subst l'.
        -- intros j Hj c' Hc1. by apply Hiff, Hj.
Qed.

Lemma inv_took ns xs ops arr inc tk tk' u c p u' :
  inv ns xs ops arr inc tk u -> SqTasks.recv_packet c u = Some (Ok p, u') ->
  tk' c = tk c ++ [p] -> (forall c', c' <> c -> tk' c' = tk c') -> inv ns xs ops arr inc tk' u'.
Proof.
  intros (Hn & Hreg & handed & origin & sg & ug & Hc & Hd & Hs) Hr E1 E2. unfold SqTasks.recv_packet in Hr.
  destruct (SqTasks.chans u !! c) as [ch|] eqn:Ech; [|done].
  destruct (recv ch) as [[q ch']|] eqn:Er; [|by destruct (SqTasks.senders c u)]. injection Hr as -> <-.
  assert (forall j, held ns (live (SqTasks.with_sending u (<[c:=ch']> (SqTasks.chans u)) (SqTasks.sending u))) j ->
    held ns (live u) j) as Hheld.
  { intros j Hj c' Hc'. specialize (Hj c' Hc'). unfold live in *. simpl in Hj. rewrite lookup_insert in Hj.
    case_decide; [subst; by eexists|done]. }
  split; [done|]. split; [done|]. exists handed, origin, sg, ug. simpl. split_and!.
  - by eapply chan_took.
  - by eapply dgram_mono.
  - by eapply stream_mono.
Qed.

Lemma inv_dropped ns xs ops arr inc tk u c :
  inv ns xs ops arr inc tk u -> inv ns xs ops arr inc tk (SqTasks.dropped c u).
Proof.
  intros (Hn & Hreg & handed & origin & sg & ug & Hc & Hd & Hs).
  assert (forall j, held ns (live (SqTasks.dropped c u)) j -> held ns (live u) j) as Hheld.
  { intros j Hj c' Hc'. specialize (Hj c' Hc'). unfold live in *. simpl in Hj.
    destruct Hj as [y [_ Hy]%lookup_delete_Some]. by eexists. }
  split; [done|]. split; [done|]. exists handed, origin, sg, ug. simpl. split_and!.
  - by apply chan_dropped.
  - by eapply dgram_mono.
  - by eapply stream_mono.
Qed.

Lemma inv_closed ns xs ops arr inc tk u :
  inv ns xs ops arr inc tk u -> inv ns xs ops arr inc tk (SqTasks.closed_udp u).
Proof.
  intros (Hn & [Hr Ht Ho] & handed & origin & sg & ug & Hc & Hd & Hs). split; [done|].
  split; [by split|]. exists handed, origin, sg, ug. simpl. split_and!; [done| |].
  - by eapply dgram_mono.
  - by eapply stream_mono.
Qed.

Lemma fed_snoc ns xs tr e :
  fed ctls st ns xs (tr ++ [e]) -> exists ns0 xs0, fed ctls st ns0 xs0 tr /\
  match e with
  | SqTasks.Opened recv => xs = xs0 /\ exists i, ns = ns0 ++ [i] /\ (i ∉ ns0) /\ control_of ctls st i recv
  | SqTasks.Incoming recv => ns = ns0 /\ exists x, xs = xs0 ++ [x] /\ (x ∉ xs0) /\ stream_of st x recv
  | SqTasks.Arrived f => ns = ns0 /\ xs = xs0 /\ f ∈ concat (datagrams <$> associations st)
  | _ => ns = ns0 /\ xs = xs0
  end.
Proof.
  intros [H1 H2 H3 H4 H5]. rewrite openings_snoc in H1. rewrite incoming_snoc in H3.
  rewrite arrivals_snoc in H5.
  assert (forall A (l : list A) x, NoDup (l ++ [x]) -> NoDup l /\ x ∉ l) as Hsnoc.
  { intros A l x Hnd. apply NoDup_app in Hnd as (? & Hd & _). split; [done|].
    intros Hin. apply (Hd x Hin). by left. }
  destruct e; rewrite ?app_nil_r in H1; rewrite ?app_nil_r in H3; rewrite ?app_nil_r in H5.
  - apply Forall2_app_inv_r in H1 as (ns0 & b & Ha & Hb & ->).
    apply Forall2_cons_inv_r in Hb as (i & b' & Hi & Hb & ->). apply Forall2_nil_inv_r in Hb as ->.
    destruct (Hsnoc _ _ _ H2) as [? ?]. exists ns0, xs. split; [by split|]. eauto.
  - exists ns, xs. split; [split; try done|].
    + etrans; [|exact H5]. by apply submseteq_inserts_r.
    + split_and!; try done. eapply elem_of_submseteq; [|exact H5]. apply elem_of_app. right. by left.
  - apply Forall2_app_inv_r in H3 as (xs0 & b & Ha & Hb & ->).
    apply Forall2_cons_inv_r in Hb as (x & b' & Hx & Hb & ->). apply Forall2_nil_inv_r in Hb as ->.
    destruct (Hsnoc _ _ _ H4) as [? ?]. exists ns, xs0. split; [by split|]. eauto.
  - by exists ns, xs.
  - by exists ns, xs.
Qed.

Lemma datagram_from f : f ∈ concat (datagrams <$> associations st) -> exists x, from x f.
Proof.
  intros (ds & Hds & Hf)%list_elem_of_In%in_concat. apply list_elem_of_In in Hds, Hf.
  apply list_elem_of_fmap in Hds as (s & -> & [i Hi]%list_elem_of_lookup).
  destruct (s_assoc _ _ _ _ _ _ Hst i s Hi) as (md & c & Hmd & _ & [_ _ _ _ _ _ _ _ Hs _]). simpl in Hs.
  destruct md; [|rewrite Hs in Hf; by apply elem_of_nil in Hf].
  apply list_elem_of_lookup in Hf as [m Hm]. destruct (Forall2_lookup_r _ _ _ _ _ Hs Hm) as (p & _ & n & Hn & ->).
  exists (i, p). split; [done|]. by exists n.
Qed.

Lemma fed_known ns xs tr : fed ctls st ns xs tr -> Forall (fun i => is_Some (associations st !! i)) ns.
Proof.
  intros [Hc _ _ _ _]. apply Forall_forall. intros i [x Hx]%list_elem_of_lookup.
  destruct (Forall2_lookup_l _ _ _ _ _ Hc Hx) as (recv & _ & s & c & Hs & _). by eexists.
Qed.

Lemma run_inv tr u ns xs :
  SqTasks.run tr SqTasks.no_udp u -> fed ctls st ns xs tr ->
  inv ns xs (openings tr) (arrivals tr) (incoming tr) (fun c => taken c tr) u.
Proof.
  intros Hrun. remember SqTasks.no_udp as u0 eqn:E0. revert ns xs.
  induction Hrun as [u0|tr e u0 u u' _ IH Ht]; intros ns xs Hfed.
  { subst u0. destruct Hfed as [H1 _ H3 _ _]. inversion H1; inversion H3; subst. apply inv_start. }
  destruct (fed_snoc _ _ _ _ Hfed) as (ns0 & xs0 & Hfed0 & He).
  specialize (IH E0 ns0 xs0 Hfed0). pose proof (fed_known _ _ _ Hfed0) as Hall.
  pose proof (f_opened_once _ _ _ _ _ Hfed0) as Hnd.
  pose proof (Forall2_length _ _ _ (f_control _ _ _ _ _ Hfed0)) as Hlen1.
  pose proof (Forall2_length _ _ _ (f_stream _ _ _ _ _ Hfed0)) as Hlen2.
  rewrite openings_snoc, arrivals_snoc, incoming_snoc.
  assert (forall ns xs ops arr inc v, (forall c p, e <> SqTasks.Took c p) ->
    inv ns xs ops arr inc (fun c => taken c tr) v ->
    inv ns xs ops arr inc (fun c => taken c (tr ++ [e])) v) as Hsame.
  { intros n x o a i v Hno (Hn & Hreg & handed & origin & sg & ug & Hc & Hrest).
    split; [done|]. split; [done|]. exists handed, origin, sg, ug. split; [|done].
    eapply chan_ext; [exact Hc|]. intros c. rewrite taken_snoc.
    destruct e; try by rewrite app_nil_r. by destruct (Hno chan p). }
  destruct Ht as [recv u|l1 t l2 u E|f r u u' E|l1 t l2 r u u' Es E|recv r u u' E|l1 t l2 u u' Eu E
    |c p u u' E|c e u u' E|c u|u|e u Hl Hcl|u]; cbv iota in He |- *; rewrite ?app_nil_r.
  - destruct He as (-> & i & -> & Hi & Hctl). apply Hsame; [done|]. by apply inv_opened.
  - destruct He as [-> ->]. apply Hsame; [done|]. by apply inv_control.
  - destruct He as (-> & -> & Hf). apply Hsame; [done|]. destruct (datagram_from f Hf) as [x Hx].
    by eapply inv_arrived.
  - destruct He as [-> ->]. apply Hsame; [done|]. by eapply inv_sent.
  - destruct He as (-> & x & -> & Hx & Hstr). apply Hsame; [done|]. by eapply inv_came.
  - destruct He as [-> ->]. apply Hsame; [done|]. by eapply inv_stream.
  - destruct He as [-> ->]. eapply inv_took; [exact IH|exact E|..].
    + by rewrite taken_snoc, decide_True.
    + intros c' Hne. by rewrite taken_snoc, decide_False, app_nil_r.
  - destruct He as [-> ->]. apply Hsame; [done|]. unfold SqTasks.recv_packet in E.
    repeat case_match; simplify_eq. done.
  - destruct He as [-> ->]. apply Hsame; [done|]. by apply inv_dropped.
  - destruct He as [-> ->]. apply Hsame; [done|]. by apply inv_closed.
  - destruct e as [|f|recv| |]; try done; rewrite !app_nil_r.
    + destruct He as (-> & -> & Hf). apply Hsame; [done|]. destruct (datagram_from f Hf) as [x Hx].
      by eapply inv_missed_datagram.
    + destruct He as (-> & x & -> & Hx & Hstr). apply Hsame; [done|]. by apply inv_missed_stream.
  - destruct He as [-> ->]. by apply Hsame.
Qed.

(** *** What it comes to *)

Lemma concat_imap_Forall2 {A B C} (R : B -> C -> Prop) (F : nat -> A -> list B) (G : A -> list C) l :
  (forall i x, l !! i = Some x -> Forall2 R (F i x) (G x)) ->
  Forall2 R (concat (imap F l)) (concat (G <$> l)).
Proof.
  revert F. induction l as [|x l IH]; intros F H; [constructor|]. rewrite imap_cons. simpl.
  apply Forall2_app; [by apply (H 0%nat)|]. apply IH. intros i y Hi. by apply (H (S i)).
Qed.

Lemma sel_concat {A} (h : nat -> nat) (F : nat -> A -> list (nat * Packet)) l i x :
  (forall a b, h a = h b -> a = b) -> (forall j y, Forall (fun p => p.1 = h j) (F j y)) ->
  l !! i = Some x -> sel (h i) (concat (imap F l)) = (F i x).*2.
Proof.
  intros Hinj. revert h Hinj F i.
  assert (forall (a b : nat) (ps : list (nat * Packet)), Forall (fun p => p.1 = a) ps ->
    sel b ps = if decide (a = b) then ps.*2 else []) as Hsel.
  { intros a b ps H. induction H as [|p ps Hp _ IH]; [by case_decide|].
    rewrite sel_cons, IH, Hp. by case_decide. }
  induction l as [|y l IH]; intros h Hinj F i HF Hi; [done|]. rewrite imap_cons. simpl.
  rewrite sel_app, (Hsel (h 0%nat)) by apply HF. destruct i as [|i].
  - injection Hi as ->. rewrite decide_True by done. clear IH.
    assert (forall (F : nat -> A -> list (nat * Packet)) h', (forall j, h' j <> h 0%nat) ->
      (forall j y, Forall (fun p => p.1 = h' j) (F j y)) -> sel (h 0%nat) (concat (imap F l)) = []) as Hno.
    { clear -Hsel. induction l as [|z l IH]; intros F h' Hne HF; [done|]. rewrite imap_cons. simpl.
      rewrite sel_app, (Hsel (h' 0%nat)), decide_False by auto. apply (IH _ (h' ∘ S)); intros j; [apply Hne|].
      intros w. apply (HF (S j) w). }
    rewrite (Hno _ (h ∘ S)); [by rewrite app_nil_r| |].
    + intros j E%Hinj. done.
    + intros j w. apply (HF (S j) w).
  - rewrite decide_False by (intros E%Hinj; done). simpl.
    apply (IH (h ∘ S)) with (F := F ∘ S) (i := i);
      [intros a b E%Hinj; by injection E|intros j w; apply (HF (S j) w)|done].
Qed.

(** The packets that were sent in datagrams, with their associations. *)
Definition in_datagrams : list (nat * Packet) :=
  concat (imap (fun i s => match mode s with
                           | Datagram => pair i <$> packets_of i log
                           | Stream => []
                           end) (associations st)).

Lemma mode_modes i s : associations st !! i = Some s -> modes !! i = Some (mode s).
Proof.
  intros Hi. destruct (s_assoc _ _ _ _ _ _ Hst i s Hi) as (md & c & Hmd & _ & Ha).
  pose proof (a_mode _ _ _ _ _ _ _ Ha) as E. simpl in E. by rewrite E.
Qed.

Lemma datagrams_of i s :
  associations st !! i = Some s ->
  match mode s with
  | Datagram => Forall2 from (pair i <$> packets_of i log) (datagrams s)
  | Stream => datagrams s = []
  end.
Proof.
  intros Hi. pose proof (mode_modes i s Hi) as Hmode.
  destruct (s_assoc _ _ _ _ _ _ Hst i s Hi) as (md & c & Hmd & _ & [Hm _ _ _ _ _ _ _ Hs _]).
  simpl in Hm, Hs. subst md. destruct (mode s); [|done]. apply Forall2_fmap_l.
  eapply Forall2_impl; [exact Hs|]. intros p f (n & Hn & ->). split; [done|]. by exists n.
Qed.

Lemma in_datagrams_from : Forall2 from in_datagrams (concat (datagrams <$> associations st)).
Proof.
  apply concat_imap_Forall2. intros i s Hi. pose proof (datagrams_of i s Hi) as H.
  destruct (mode s); [done|]. rewrite H. constructor.
Qed.

Lemma sel_in_datagrams i s :
  associations st !! i = Some s -> mode s = Datagram -> sel i in_datagrams = packets_of i log.
Proof.
  intros Hi Hm. unfold in_datagrams.
  rewrite (sel_concat id _ _ i s); [|done| |done].
  - rewrite Hm, <-list_fmap_compose. apply list_fmap_id.
  - intros j y. destruct (mode y); [|constructor]. apply Forall_fmap, Forall_true. done.
Qed.

Lemma sel_submseteq i l l' : l ⊆+ l' -> sel i l ⊆+ sel i l'.
Proof.
  intros [z Hz]%submseteq_Permutation. unfold sel. rewrite Hz, filter_app, fmap_app.
  by apply submseteq_inserts_r.
Qed.

Lemma sel_pairs i ps : sel i (pair i <$> ps) = ps.
Proof. induction ps as [|p ps IH]; [done|]. rewrite fmap_cons, sel_cons, decide_True by done. simpl. by rewrite IH. Qed.

Section Conclusion.
Context (ns : list nat) (xs : list (nat * nat)) (tr : list SqTasks.Event) (u : SqTasks.Udp Ch).
Context (Hfed : fed ctls st ns xs tr).
Context (c i : nat) (s : Sender) (Hc : ns !! c = Some i) (Hs : associations st !! i = Some s).

(** A datagram association. *)
Lemma datagrams_delivered handed origin sg :
  dgram_ok ns handed origin sg (arrivals tr) (SqTasks.sending u) (closed (SqTasks.registry u)) (live u) ->
  mode s = Datagram ->
  handed i ⊆+ packets_of i log /\
  (usable c u -> settled c u -> datagrams s ⊆+ arrivals tr -> handed i ≡ₚ packets_of i log).
Proof.
  intros [Ho Ht Ha] Hm. pose proof (mode_modes i s Hs) as Hmd. rewrite Hm in Hmd.
  destruct (Ha i Hmd) as (lost & Hp & Hlost).
  assert (sel i origin ⊆+ packets_of i log) as Hsub.
  { rewrite <-(sel_in_datagrams i s Hs Hm). apply sel_submseteq.
    eapply (Forall2_submseteq from); [exact from_inj|exact Ho|exact in_datagrams_from|].
    apply (f_datagram _ _ _ _ _ Hfed). }
  assert (handed i ⊆+ sel i origin) as Hhanded by (rewrite <-Hp; by apply submseteq_inserts_r).
  split; [by etrans|]. intros [Hopen Hlive] [Hset _] Hall. apply (anti_symm submseteq); [by etrans|].
  rewrite Hlost, app_nil_r in Hp; [|done|].
  2:{ intros c' Hc'. by rewrite (NoDup_lookup ns c' c i (f_opened_once _ _ _ _ _ Hfed) Hc' Hc). }
  assert (sel i sg = []) as Enil.
  { unfold sel. rewrite filter_none; [done|]. intros x Hx E.
    apply list_elem_of_lookup in Hx as [m Hx].
    destruct (Forall2_lookup_l _ _ _ _ _ Ht Hx) as (t & Htm & c' & Hc' & _ & ->).
    rewrite Forall_forall in Hset. apply (Hset _ (list_elem_of_lookup_2 _ _ _ Htm)). simpl.
    rewrite E in Hc'. by apply (NoDup_lookup ns c' c i (f_opened_once _ _ _ _ _ Hfed)). }
  rewrite Enil, app_nil_r in Hp. rewrite Hp. rewrite <-(sel_pairs i (packets_of i log)) at 1.
  apply sel_submseteq. pose proof (datagrams_of i s Hs) as Hds. rewrite Hm in Hds.
  by eapply (Forall2_submseteq from); [exact from_inj|exact Hds|exact Ho|].
Qed.

(** A stream association. *)
Lemma streams_delivered handed ug :
  stream_ok ns xs handed ug (incoming tr) (SqTasks.unis u) (closed (SqTasks.registry u)) (live u) ->
  mode s = Stream ->
  (forall d, to_dest d (handed i) `prefix_of` to_dest d (packets_of i log)) /\
  (usable c u -> settled c u -> forall d, came_whole xs tr i s d ->
     to_dest d (handed i) = to_dest d (packets_of i log)).
Proof.
  intros [Ht _ Hk Hn Hsent] Hm. pose proof (mode_modes i s Hs) as Hmd. rewrite Hm in Hmd. split.
  - intros d. destruct (contexts s !! d) as [ctx|] eqn:Ed.
    + destruct (s_assoc _ _ _ _ _ _ Hst i s Hs) as (md & ctl & Hmd' & _ & [_ _ _ Hx _ _ _ _ _ _]).
      simpl in Hx. destruct (Hx d ctx Ed) as (n & _ & Hctx). assert (md = Stream) as -> by congruence.
      destruct Hctx as (j & half & -> & _). destruct (decide ((i, j) ∈ xs)) as [Hin|Hno].
      * apply list_elem_of_lookup in Hin as [m Hxm].
        destruct (Forall2_lookup_l _ _ _ _ _ (f_stream _ _ _ _ _ Hfed) Hxm) as (recv & Hr & _).
        destruct (Hsent i s d j m recv Hs Ed Hxm Hr) as (n' & sent & todo & lost & _ & _ & Hpre & <- & _).
        by eapply prefix_app_l.
      * destruct (Hn i s d j Hs Ed Hno) as [-> _]. apply prefix_nil.
    + unfold to_dest at 1. rewrite filter_none; [apply prefix_nil|]. intros p Hp <-. destruct (Hk i s p Hmd Hs Hp). congruence.
  - intros [Hopen Hlive] [_ Hset] d (j & half & m & recv & Hd & Hj & Hxm & Hr & Hwhole).
    destruct (Hsent i s d j m recv Hs Hd Hxm Hr) as (n & sent & todo & lost & Hgn & Hcar & Hpre & Heq & Hin & Hlost).
    destruct (stream_context i s d j Hs Hd) as (_ & Hf & n' & half' & Hgn' & Hj' & (l' & Hw & Hl')).
    assert (half' = half) as -> by congruence.
    assert (Forall packet_ok (to_dest d (packets_of i log))) as Hall.
    { apply Forall_forall. intros p [_ Hp]%list_elem_of_filter. by eapply Forall_forall. }
    destruct Hcar as [[Hshort ->]|(l & Hl & Hpiece)].
    { rewrite Hwhole, Hw, length_app, length_to_be in Hshort. lia. }
    rewrite Hwhole, Hw in Hl. apply app_inj_1 in Hl as [_ Hl]; [|by rewrite !length_to_be].
    rewrite <-(frames_whole stream_frame packet_ok _ data stream_packet_reads stream_packet_stable
      stream_packet_nothing sent _ l l' Hall Hpre Hpiece (eq_sym Hl)).
    rewrite Hlost, app_nil_r in Heq; [|done|].
    2:{ intros c' Hc'. by rewrite (NoDup_lookup ns c' c i (f_opened_once _ _ _ _ _ Hfed) Hc' Hc). }
    destruct Hin as [Hin|[-> _]]; [|by rewrite app_nil_r in Heq].
    apply list_elem_of_lookup in Hin as [q Hq].
    destruct (Forall2_lookup_l _ _ _ _ _ Ht Hq) as (t & Htq & c' & l2 & s' & Hc' & _ & _ & _ & Hroute & Hp & _ & Hpok & _).
    cbn [fst snd] in *. destruct todo as [|p todo]; [by rewrite app_nil_r in Heq|]. exfalso.
    rewrite Forall_forall in Hset. specialize (Hset _ (list_elem_of_lookup_2 _ _ _ Htq)).
    rewrite Hroute in Hset. specialize (Hset (NoDup_lookup ns c' c i (f_opened_once _ _ _ _ _ Hfed) Hc' Hc)).
    destruct (SqTasks.u_recv t) as [pe en]. cbn [pending] in Hp. subst pe.
    apply Forall_cons in Hpok as [Hpok _].
    by rewrite (frames_read stream_frame packet_ok _ data stream_packet_reads) in Hset by done.
Qed.

(** A control stream that has been read has registered everything. *)
Lemma read_registered ctl n d :
  reg_ok ns (openings tr) (SqTasks.registry u) (SqTasks.controls u) -> ctls !! i = Some ctl ->
  read_up ctl s tr u c -> g !! n = Some (i, d, true) ->
  routes (SqTasks.registry u) !! id_of k n = Some (route_of c d).
Proof.
  intros Hreg Hctl (t & recv & Hin & Hchan & Hempty & Hrecv & Hwhole) Hn.
  destruct (r_tasks _ _ _ _ Hreg t Hin) as (i' & recv0 & rd & todo & l & Hi' & Hrecv0 & Hpre & H1 & H2 & Hl & _ & Hread).
  rewrite Hchan in *. assert (i' = i) as -> by congruence. assert (recv0 = recv) as -> by congruence.
  pose proof (owned_ok i s Hs) as Hok. rewrite Hempty in H2. symmetry in H2. apply app_nil in H2 as [H2 ->].
  assert (todo = []) as ->.
  { destruct todo as [|e todo]; [done|exfalso].
    assert (entry_ok e) as He.
    { rewrite Forall_forall in Hok. apply Hok. eapply elem_of_prefix; [|exact Hpre]. set_solver. }
    pose proof (frames_read entry_bytes entry_ok _ (fun e => (SqWire.normalize e.1, e.2)) entry_ok_reads
      e todo [] None He) as Hr. rewrite H2 in Hr. by apply control_entry_nothing in Hr. }
  rewrite app_nil_r in Hpre. rewrite (app_nil_r rd) in H1.
  destruct (s_assoc _ _ _ _ _ _ Hst i s Hs) as (md & ctl' & _ & Hctl' & [_ _ (l' & Hw & _) _ _ _ _ _ _ _]).
  assert (ctl' = ctl) as -> by congruence. simpl in Hw. rewrite Hw, drop_app_length, H1 in Hwhole.
  apply (frames_whole entry_bytes entry_ok _ (fun e => (SqWire.normalize e.1, e.2)) entry_ok_reads
    control_entry_stable control_entry_nothing) in Hwhole; [|done|done|by left].
  apply Hread. rewrite Hwhole. by apply ids_owned.
Qed.

Lemma inv_relays ctl :
  SqTasks.run tr SqTasks.no_udp u -> ctls !! i = Some ctl ->
  relays ctl s (packets_of i log) xs tr u c i.
Proof.
  intros Hrun Hctl. destruct (run_inv tr u ns xs Hrun Hfed) as (_ & Hreg & handed & origin & sg & ug & Hch & Hd & Hst').
  split.
  - exists (handed i). split; [by apply (h_taken _ _ _ _ Hch)|]. split; [intros ch; by apply (h_queue _ _ _ _ Hch)|].
    destruct (mode s) eqn:Em; [by eapply datagrams_delivered|by eapply streams_delivered].
  - intros f Hup Hf. pose proof (datagrams_of i s Hs) as Hds.
    destruct (mode s); [|rewrite Hds in Hf; by apply elem_of_nil in Hf].
    apply list_elem_of_lookup in Hf as [m Hf]. destruct (Forall2_lookup_r _ _ _ _ _ Hds Hf) as (x & Hx & _ & n & Hn & ->).
    rewrite list_lookup_fmap in Hx. apply fmap_Some in Hx as (p & _ & ->). cbn [fst snd] in *. eexists.
    eapply SqTasks.route_routed; [apply id_of_range|]. by eapply read_registered.
  - intros d j half recv Hup Hctx Hj Hpre Hlen.
    destruct (stream_carried i j recv s) as [Hshort|(d' & n & sent & l & _ & Hn & _ & _ & Hp & _)]; [by exists s, half|done|lia|].
    unfold SqTasks.route_stream. destruct recv as [pe en]. cbn [pending] in Hp. subst pe.
    rewrite quic_read_exact_app by apply length_to_be. rewrite from_to_be_small by apply id_of_range.
    unfold wait. rewrite (read_registered ctl n d' Hreg Hctl Hup Hn). by eexists.
Qed.
End Conclusion.
End Receiving.

End SqRelay.
