(* ===== verification/SqServer.v ===== *)
(** * The ShadowQuic and SunnyQUIC server

    The server of [src/src/shadowquic/mod.rs]: authentication (JLS from the
    handshake, SunnyQUIC from a stream) and the tasks that a connection
    spawns for its streams and datagrams.  The connection is a state that its
    tasks change one at a time; a task that waits has no step. *)

From Stdlib Require Import ZArith Lia.
From stdpp Require Import base gmap list strings relations.
From S2P Require Import Prelude Error Float Text Net Address Channels Congestion Transport SqWire SqUdp SqTasks.

#[local] Open Scope Z_scope.
#[local] Open Scope rust_scope.

Module SqServer.

Definition STREAM_ERROR_CODE : Z := 0x100.
Definition SUNNY_AUTH_ERROR_CODE : Z := 263.
Definition SUNNY_AUTH_TIMEOUT : Z := 3200 * 1000000.

Record User := { name : bytes; password : bytes }.

Inductive CongestionConfig :=
| ConfigBbr
| ConfigBrutal (bytes_per_second : Z) (disable_loss_compensation : bool).

Inductive ServerAuthentication :=
| Jls
| Sunny (users : gmap bytes bytes).

(** ** SunnyQUIC credentials *)

(** SHA-256 of [ring]. *)
Class Digest := {
  sha256 : bytes -> bytes;
  sha256_length l : length (sha256 l) = 32%nat;
}.

Section Credentials.
Context `{DG : Digest}.

(** [sunny_credential]: the digest copied into 64 zero bytes. *)
Definition sunny_credential (username password : bytes) : bytes :=
  let input := username ++ str ":" ++ password in
  let digest := sha256 input in
  digest ++ drop (length digest) (replicate 64 Byte.x00).

(** [sunny_users]: a later user with the same credential replaces an earlier
    one. *)
Definition sunny_users (users : list User) : gmap bytes bytes :=
  foldl (fun m u => <[sunny_credential (name u) (password u) := name u]> m) ∅ users.

Lemma length_credential u p : length (sunny_credential u p) = 64%nat.
Proof.
  unfold sunny_credential. rewrite length_app, length_drop, length_replicate, sha256_length. lia.
Qed.

Lemma sunny_users_snoc us u :
  sunny_users (us ++ [u])
  = <[sunny_credential (name u) (password u) := name u]> (sunny_users us).
Proof. unfold sunny_users. by rewrite foldl_app. Qed.

Lemma sunny_users_lookup_last us c :
  sunny_users us !! c
  = name <$> last (filter (fun u => sunny_credential (name u) (password u) = c) us).
Proof.
  induction us as [|u us IH] using rev_ind; [done|].
  rewrite sunny_users_snoc, filter_app, filter_cons. simpl. case_decide as E.
  - subst c. rewrite lookup_insert_eq. change (filter _ []) with (@nil User). by rewrite last_snoc.
  - rewrite lookup_insert_ne by done. by rewrite filter_nil, app_nil_r.
Qed.

(** What the table holds comes from a configured user. *)
Lemma sunny_users_sound us c n :
  sunny_users us !! c = Some n ->
  exists u, u ∈ us /\ name u = n /\ sunny_credential (name u) (password u) = c.
Proof.
  rewrite sunny_users_lookup_last. intros (u & Hu & ->)%fmap_Some.
  apply last_Some_elem_of in Hu as [Hc Hu]%list_elem_of_filter. by exists u.
Qed.

(** A configured credential is found, as the last user that has it. *)
Lemma last_user us u c :
  u ∈ us -> sunny_credential (name u) (password u) = c ->
  exists us1 v us2, us = us1 ++ v :: us2 /\
    sunny_credential (name v) (password v) = c /\
    Forall (fun w => sunny_credential (name w) (password w) <> c) us2 /\
    sunny_users us !! c = Some (name v).
Proof.
  intros Hu Hc. induction us as [|w us IH] using rev_ind; [by apply elem_of_nil in Hu|].
  rewrite sunny_users_snoc. destruct (decide (sunny_credential (name w) (password w) = c)) as [E|E].
  - exists us, w, []. rewrite <-E, lookup_insert_eq. by split_and!.
  - apply elem_of_app in Hu as [Hu|Hu].
    2: { apply list_elem_of_singleton in Hu as ->. done. }
    destruct (IH Hu) as (us1 & v & us2 & -> & Hv & Hl & Hk). exists us1, v, (us2 ++ [w]).
    rewrite lookup_insert_ne by done. split_and!; try done.
    + by rewrite <-app_assoc.
    + apply Forall_app. split; [done|]. by apply Forall_singleton.
Qed.
End Credentials.

(** ** Congestion *)

Section Congestion.
Context {Ctl Rtt Pacing Metrics : Type} `{CT : Controllers Ctl Rtt Pacing Metrics}.

Definition apply_congestion (now : Z) (connection : Congestion.Connection Ctl)
    (congestion : CongestionConfig) (h : list (Congestion.SwitchState Ctl))
    : Result unit * list (Congestion.SwitchState Ctl) :=
  let '(configured, h) :=
    match congestion with
    | ConfigBbr => Congestion.configure_connection_bbr now connection h
    | ConfigBrutal bytes_per_second disable_loss_compensation =>
        Congestion.configure_connection_brutal_with_options now connection bytes_per_second
          disable_loss_compensation h
    end in
  (if configured then Ok tt else Err CongestionControl, h).
End Congestion.

(** ** Admission of a connection *)

(** The handshake data that the TLS adapter exposes. *)
Record HandshakeData := { jls_authenticated : option bool; jls_user : option bytes }.

(** What [handshake_data] gives: nothing, data of another type, or the
    adapter's. *)
Inductive Handshake := NoData | OtherData | Data (d : HandshakeData).

(** The first part of [serve_connection]: the user of a JLS connection, or
    the reason for closing it. *)
Definition admission (authentication : ServerAuthentication) (handshake : Handshake)
    : Result bytes * option (Z * bytes) :=
  match authentication with
  | Jls =>
      match handshake with
      | Data d =>
          if bool_decide (jls_authenticated d = Some true) then (Ok (default [] (jls_user d)), None)
          else (Err JlsAuthenticationFailed, Some (0, str "JLS authentication failed"))
      | OtherData => (Err JlsAuthenticationFailed, Some (0, str "JLS authentication failed"))
      | NoData => (Err JlsAuthenticationFailed, Some (0, str "JLS authentication missing"))
      end
  | Sunny _ => (Ok [], None)
  end.

(** The rate the window task is spawned with. *)
Definition send_rate (congestion : Congestion.CongestionKind) : Z :=
  match congestion with
  | Congestion.Brutal bytes_per_second => bytes_per_second
  | Congestion.Bbr => 0
  end.

(** ** A connection and its tasks *)

Inductive Accepted :=
| AcceptedStream (stream : SendHalf * RecvHalf) (destination : Address.Address) (user : bytes)
    (source : Net.SocketAddr)
| AcceptedPacket (chan : nat) (mode : SqUdp.UdpMode) (control : SendHalf)
    (destination : Address.Address) (user : bytes) (source : Net.SocketAddr).

Definition accepted_user (a : Accepted) : bytes :=
  match a with AcceptedStream _ _ u _ | AcceptedPacket _ _ _ _ u _ => u end.

Definition accepted_source (a : Accepted) : Net.SocketAddr :=
  match a with AcceptedStream _ _ _ src | AcceptedPacket _ _ _ _ _ src => src end.

(** The state that the tasks of a connection share.  [auth_state] is the
    value of the watch channel, [inl] a user and [inr] a refusal.
    [presented] is the history of the credentials that were read. *)
Record Conn (Ch Ac : Type) := {
  auth_state : option (bytes + bytes);
  presented : list bytes;
  udp : SqTasks.Udp Ch;
  accepted : Ac;
  closed_with : option (Z * bytes);
  resets : list Z;
  replies : list bytes;
}.
Arguments auth_state {Ch Ac} _.
Arguments presented {Ch Ac} _.
Arguments udp {Ch Ac} _.
Arguments accepted {Ch Ac} _.
Arguments closed_with {Ch Ac} _.
Arguments resets {Ch Ac} _.
Arguments replies {Ch Ac} _.

(** What the statistics reply carries; the round-trip time is in
    nanoseconds. *)
Record Stats := { lost_packets : Z; sent_packets : Z; rtt : Z; current_mtu : Z }.

(** What the QUIC library answers to a request for the statistics: the
    statistics, and the error of [finish], if it fails. *)
Record Extension := { path_stats : Stats; finish_failed : option bytes }.

Definition stats_response (s : Stats) : bytes :=
  [Byte.x00] ++ to_be 4 26 ++ to_be 8 (lost_packets s) ++ to_be 8 (sent_packets s)
  ++ F64.to_be_bytes (F64.mul (F64.as_secs_f64 (rtt s)) (F64.of_int 1000))
  ++ to_be 2 (current_mtu s).

(** The length field counts what follows it. *)
Lemma stats_response_framed s :
  exists payload, stats_response s = [Byte.x00] ++ to_be 4 (len payload) ++ payload.
Proof.
  exists (drop 5 (stats_response s)). unfold stats_response.
  change [Byte.x00] with (to_be 1 0). unfold F64.to_be_bytes. done.
Qed.

Section Connection.
Context {Ch Ac : Type} `{MC : Mpsc Ch SqUdp.Packet} `{MA : Mpsc Ac Accepted}.
(** The authentication in force when the connection came, the user of a JLS
    connection, and the peer. *)
Variable authentication : ServerAuthentication.
Variable user : bytes.
Variable source : Net.SocketAddr.
Implicit Types s : Conn Ch Ac.

(** [wait_for_sunny_auth]: [None] while the watch holds nothing. *)
Definition wait_for_sunny_auth s : option (Result bytes) :=
  match authentication with
  | Jls => Some (Ok [])
  | Sunny _ =>
      match auth_state s with
      | Some (inl username) => Some (Ok username)
      | Some (inr message) => Some (Err (Protocol message))
      | None => None
      end
  end.

(** What ends a round of [wait_for_sunny_auth]: the watch has changed, or
    [SUNNY_AUTH_TIMEOUT] has passed, or the sender is gone. *)
Inductive WatchEvent :=
| WatchChanged (value : option (bytes + bytes))
| Elapsed
| SenderGone.

(** The loop of [wait_for_sunny_auth] on the value it borrows; [None] while
    it waits. *)
Fixpoint wait_loop (value : option (bytes + bytes)) (events : list WatchEvent)
    : option (Result bytes) :=
  match authentication, value, events with
  | Jls, _, _ => Some (Ok [])
  | Sunny _, Some (inl username), _ => Some (Ok username)
  | Sunny _, Some (inr message), _ => Some (Err (Protocol message))
  | Sunny _, None, [] => None
  | Sunny _, None, WatchChanged value :: events => wait_loop value events
  | Sunny _, None, Elapsed :: _ =>
      Some (Err (Protocol (str "SunnyQUIC authentication timed out")))
  | Sunny _, None, SenderGone :: _ => Some (Err Closed)
  end.

(** The loop returns what [wait_for_sunny_auth] gives, whatever happens
    next; and while that is nothing, it ends with the timeout. *)
Lemma wait_loop_refines s events :
  match wait_for_sunny_auth s with
  | Some r => wait_loop (auth_state s) events = Some r
  | None => wait_loop (auth_state s) (Elapsed :: events)
            = Some (Err (Protocol (str "SunnyQUIC authentication timed out")))
  end.
Proof.
  unfold wait_for_sunny_auth. destruct events as [|ev events]; cbn [wait_loop];
    by destruct authentication, (auth_state s) as [[]|].
Qed.

Definition with_auth s (credential : bytes) (st : bytes + bytes) (c : option (Z * bytes))
    : Conn Ch Ac :=
  {| auth_state := Some st; presented := presented s ++ [credential]; udp := udp s;
     accepted := accepted s; closed_with := match c with Some _ => c | None => closed_with s end;
     resets := resets s; replies := replies s |}.
Definition with_accepted s (a : Ac) : Conn Ch Ac :=
  {| auth_state := auth_state s; presented := presented s; udp := udp s; accepted := a;
     closed_with := closed_with s; resets := resets s; replies := replies s |}.
Definition with_reset s (code : Z) : Conn Ch Ac :=
  {| auth_state := auth_state s; presented := presented s; udp := udp s; accepted := accepted s;
     closed_with := closed_with s; resets := resets s ++ [code]; replies := replies s |}.
Definition with_reply s (r : bytes) : Conn Ch Ac :=
  {| auth_state := auth_state s; presented := presented s; udp := udp s; accepted := accepted s;
     closed_with := closed_with s; resets := resets s; replies := replies s ++ [r] |}.
Definition with_udp s (u : SqTasks.Udp Ch) : Conn Ch Ac :=
  {| auth_state := auth_state s; presented := presented s; udp := u; accepted := accepted s;
     closed_with := closed_with s; resets := resets s; replies := replies s |}.

(** The user an accepted item is tagged with. *)
Definition tag (authenticated_user : bytes) : bytes :=
  if bool_decide (authenticated_user = []) then user else authenticated_user.

(** [SQ_AUTHENTICATE]. *)
Definition on_authenticate (recv : RecvHalf) s : Result unit * Conn Ch Ac :=
  match authentication with
  | Jls => (Ok tt, with_reset s STREAM_ERROR_CODE)
  | Sunny users =>
      match quic_read_exact 64 recv with
      | (Err e, _) => (Err e, s)
      | (Ok credential, _) =>
          match users !! credential with
          | Some username => (Ok tt, with_auth s credential (inl username) None)
          | None =>
              (Err (Protocol (str "SunnyQUIC authentication failed")),
               with_auth s credential (inr (str "invalid SunnyQUIC credentials"))
                 (Some (SUNNY_AUTH_ERROR_CODE, str "authentication failed")))
          end
      end
  end.

(** [SQ_CONNECT], once the connection is authenticated. *)
Definition on_connect (authenticated_user : bytes) (send : SendHalf) (recv : RecvHalf) s
    : option (Result unit * Conn Ch Ac) :=
  match SqWire.decode_address recv with
  | (Err e, _) => Some (Err e, s)
  | (Ok destination, recv) =>
      match send_wait (AcceptedStream (send, recv) destination (tag authenticated_user) source)
              (accepted s) with
      | None => None
      | Some (true, a) => Some (Ok tt, with_accepted s a)
      | Some (false, a) => Some (Err Closed, with_accepted s a)
      end
  end.

(** [SQ_ASSOCIATE_OVER_DATAGRAM] and [SQ_ASSOCIATE_OVER_STREAM]: the
    association is handed over and its control stream becomes a task. *)
Definition on_associate (mode : SqUdp.UdpMode) (authenticated_user : bytes)
    (send : SendHalf) (recv : RecvHalf) s : option (Result unit * Conn Ch Ac) :=
  match SqWire.decode_address recv with
  | (Err e, _) => Some (Err e, s)
  | (Ok destination, recv) =>
      let chan := SqTasks.next_chan (udp s) in
      match send_wait (AcceptedPacket chan mode send destination (tag authenticated_user) source)
              (accepted s) with
      | None => None
      | Some (false, a) => Some (Err Closed, with_accepted s a)
      | Some (true, a) =>
          Some (Ok tt, with_udp (with_accepted s a) (SqTasks.associated recv (udp s)))
      end
  end.

(** [handle_extension]. *)
Definition handle_extension (ext : Extension) (send : SendHalf) (recv : RecvHalf) s
    : Result unit * Conn Ch Ac :=
  match quic_read_exact 8 recv with
  | (Err e, _) => (Err e, s)
  | (Ok extension, recv) =>
      match quic_read_exact 1 recv with
      | (Err e, _) => (Err e, s)
      | (Ok opcode, _) =>
          if negb (from_be extension =? SqWire.SQ_EXTENSION_CONNECTION)
             || negb (bool_decide (opcode = [SqWire.SQ_EXTENSION_GET_STATS]))
          then (Ok tt, with_reset s STREAM_ERROR_CODE)
          else match write_all (stats_response (path_stats ext)) send with
               | (Err e, _) => (Err e, s)
               | (Ok _, half) =>
                   (match finish_failed ext with Some e => Err (Protocol e) | None => Ok tt end,
                    with_reply s (written half))
               end
      end
  end.

(** [handle_bi_stream]; [None] while it waits for authentication or for
    room in the channel of accepted items. *)
Definition handle_bi_stream (ext : Extension) (send : SendHalf) (recv : RecvHalf) s
    : option (Result unit * Conn Ch Ac) :=
  match quic_read_exact 1 recv with
  | (Err e, _) => Some (Err e, s)
  | (Ok opcode, recv) =>
      let authenticated k :=
        match wait_for_sunny_auth s with
        | None => None
        | Some (Err e) => Some (Err e, s)
        | Some (Ok authenticated_user) => k authenticated_user
        end in
      if decide (opcode = [SqWire.SQ_AUTHENTICATE]) then Some (on_authenticate recv s)
      else if decide (opcode = [SqWire.SQ_CONNECT]) then
        authenticated (fun u => on_connect u send recv s)
      else if decide (opcode = [SqWire.SQ_ASSOCIATE_OVER_DATAGRAM]) then
        authenticated (fun u => on_associate SqUdp.Datagram u send recv s)
      else if decide (opcode = [SqWire.SQ_ASSOCIATE_OVER_STREAM]) then
        authenticated (fun u => on_associate SqUdp.Stream u send recv s)
      else if decide (opcode = [SqWire.SQ_EXTENSION]) then
        authenticated (fun _ => Some (handle_extension ext send recv s))
      else Some (Ok tt, with_reset s STREAM_ERROR_CODE)
  end.

(** The task of a datagram, up to its route. *)
Definition on_datagram (datagram : bytes) s : option (Result unit * Conn Ch Ac) :=
  match wait_for_sunny_auth s with
  | None => None
  | Some (Err e) => Some (Err e, s)
  | Some (Ok _) =>
      match SqTasks.route_datagram datagram (udp s) with
      | None => None
      | Some (r, u) => Some (r, with_udp s u)
      end
  end.

(** The task of a unidirectional stream, up to its route. *)
Definition on_uni_stream (recv : RecvHalf) s : option (Result unit * Conn Ch Ac) :=
  match wait_for_sunny_auth s with
  | None => None
  | Some (Err e) => Some (Err e, s)
  | Some (Ok _) =>
      match SqTasks.route_stream recv (udp s) with
      | None => None
      | Some (r, u) => Some (r, with_udp s u)
      end
  end.

(** ** Steps *)

(** What happens to a connection: a bidirectional stream is handled, with
    the control stream of the association that it opens, if it does; or
    something of the UDP tasks. *)
Inductive Event :=
| Bi (recv : RecvHalf) (opens : option RecvHalf)
| Udp (e : SqTasks.Event).

(** The control stream of an association that is new in [s']. *)
Definition opened_by s s' : option RecvHalf :=
  if decide (SqTasks.next_chan (udp s') = SqTasks.next_chan (udp s)) then None
  else SqTasks.c_recv <$> last (SqTasks.controls (udp s')).

(** A datagram or stream is dropped unseen when the authentication was
    refused. *)
Definition seen s (e : SqTasks.Event) : SqTasks.Event :=
  match wait_for_sunny_auth s with Some (Ok _) => e | _ => SqTasks.Inner end.

(** Steps of the UDP tasks by themselves, without the peer. *)
Definition inner (e : SqTasks.Event) : bool :=
  match e with SqTasks.Took _ _ | SqTasks.Inner => true | _ => false end.

(** What the tasks of a connection and the users of its associations do. *)
Inductive task : Event -> Conn Ch Ac -> Conn Ch Ac -> Prop :=
| task_bi ext send recv r s s' :
    handle_bi_stream ext send recv s = Some (r, s') -> task (Bi recv (opened_by s s')) s s'
| task_datagram d r s s' :
    on_datagram d s = Some (r, s') -> task (Udp (seen s (SqTasks.Arrived d))) s s'
| task_uni recv r s s' :
    on_uni_stream recv s = Some (r, s') -> task (Udp (seen s (SqTasks.Incoming recv))) s s'
| task_late e s :
    SqTasks.looks e = true -> SqUdp.closed (SqTasks.registry (udp s)) = true -> task (Udp (seen s e)) s s
| task_udp e u s :
    inner e = true -> SqTasks.turn e (udp s) u -> task (Udp e) s (with_udp s u).

Definition task_step s s' : Prop := exists e, task e s s'.

(** The connection by itself: its tasks, and the application that takes what
    was handed over. *)
Inductive step : Conn Ch Ac -> Conn Ch Ac -> Prop :=
| step_task s s' : task_step s s' -> step s s'
| step_take a ac s : Channels.recv (accepted s) = Some (a, ac) -> step s (with_accepted s ac).

Definition reachable : Conn Ch Ac -> Conn Ch Ac -> Prop := rtc step.

(** Steps with what happens in them. *)
Inductive run : list Event -> Conn Ch Ac -> Conn Ch Ac -> Prop :=
| run_start s : run [] s s
| run_task tr e s s' s'' : run tr s s' -> task e s' s'' -> run (tr ++ [e]) s s''
| run_take tr a ac s s' :
    run tr s s' -> Channels.recv (accepted s') = Some (a, ac) -> run tr s (with_accepted s' ac).

(** A run of the connection and its application is a sequence of steps. *)
Lemma run_reachable tr s s' : run tr s s' -> reachable s s'.
Proof.
  induction 1 as [s|tr e s s' s'' _ IH Ht|tr a ac s s' _ IH Hr]; [done|..]; (eapply rtc_r; [exact IH|]).
  - apply step_task. by exists e.
  - by eapply step_take.
Qed.

(** A connection as [serve_connection] starts it. *)
Definition initial (ac : Ac) : Conn Ch Ac :=
  {| auth_state := None; presented := []; udp := SqTasks.no_udp; accepted := ac;
     closed_with := None; resets := []; replies := [] |}.
End Connection.

(** ** From an incoming connection to its tasks *)

Section Incoming.
Context {Ctl Rtt Pacing Metrics : Type} `{CT : Controllers Ctl Rtt Pacing Metrics}.
Context {Ch Ac : Type} `{MC : Mpsc Ch SqUdp.Packet} `{MA : Mpsc Ac Accepted}.

(** A connection that serves: its user, the windows it was given at once,
    and the state its tasks start from. *)
Record Serving := {
  serving_user : bytes;
  windows : Transport.Windows;
  tasks : Conn Ch Ac;
}.

(** [serve_connection] up to its loop: the result, and the close it issued. *)
Definition serve_connection (authentication : ServerAuthentication) (handshake : Handshake)
    (connection : Congestion.Connection Ctl) (stats : Transport.PathStats)
    (h : list (Congestion.SwitchState Ctl)) (ac : Ac) : Result Serving * option (Z * bytes) :=
  match admission authentication handshake with
  | (Err e, closing) => (Err e, closing)
  | (Ok user, _) =>
      match Congestion.connection_congestion_kind connection h with
      | None => (Err CongestionControl, None)
      | Some kind =>
          (Ok {| serving_user := user;
                 windows := Transport.update_connection_windows stats (send_rate kind) 0
                              Transport.SEND_WINDOW Transport.CONNECTION_RECEIVE_WINDOW;
                 tasks := initial ac |}, None)
      end
  end.

(** The task that [bind_inner] spawns for an incoming connection, under the
    configuration read when it came: the congestion control is applied, and
    only then is the connection served. *)
Definition on_incoming (now : Z) (congestion : CongestionConfig)
    (authentication : ServerAuthentication) (handshake : Handshake)
    (connection : Congestion.Connection Ctl) (stats : Transport.PathStats)
    (h : list (Congestion.SwitchState Ctl)) (ac : Ac)
    : Result Serving * option (Z * bytes) * list (Congestion.SwitchState Ctl) :=
  match apply_congestion now connection congestion h with
  | (Err e, h) => (Err e, Some (0, str "congestion control failed"), h)
  | (Ok _, h) => (serve_connection authentication handshake connection stats h ac, h)
  end.

(** Who a connection is served for, as far as the handshake decides it. *)
Lemma on_incoming_user now congestion authentication handshake connection stats
    (h h' : list (Congestion.SwitchState Ctl)) (ac : Ac) v closing :
  on_incoming now congestion authentication handshake connection stats h ac
  = (Ok v, closing, h') ->
  tasks v = initial ac /\
  match authentication with
  | Jls => exists d, handshake = Data d /\ jls_authenticated d = Some true /\
             serving_user v = default [] (jls_user d)
  | Sunny _ => serving_user v = []
  end.
Proof.
  unfold on_incoming. destruct (apply_congestion _ _ _ _) as [[[]|e] h1]; [|done].
  unfold serve_connection, admission.
  destruct authentication as [|us]; [destruct handshake as [| |d]; [done..|]; case_bool_decide|];
    try done; destruct (Congestion.connection_congestion_kind _ _); try done;
    intros [= <- <- <-]; split; eauto.
Qed.

Definition kind_of_config (c : CongestionConfig) : Congestion.CongestionKind :=
  match c with
  | ConfigBbr => Congestion.Bbr
  | ConfigBrutal rate _ => Congestion.Brutal rate
  end.

Lemma apply_congestion_ok now connection congestion (h h' : list (Congestion.SwitchState Ctl)) c :
  Congestion.congestion connection = Congestion.Switchable c ->
  is_Some (h !! Congestion.state c) ->
  apply_congestion now connection congestion h = (Ok tt, h') ->
  Congestion.connection_congestion_kind connection h' = Some (kind_of_config congestion).
Proof.
  intros Hc [st Hst]. unfold apply_congestion, Congestion.configure_connection_bbr,
    Congestion.configure_connection_brutal_with_options, Congestion.connection_congestion_kind.
  rewrite !Congestion.congestion_state_same, Hc. simpl. unfold Congestion.kind.
  destruct congestion as [|rate dis]; [|destruct (rate =? 0); [done|]]; intros [= <-];
    unfold Congestion.set_bbr, Congestion.set_brutal, Congestion.locked;
    by rewrite list_lookup_alter_eq, Hst.
Qed.

(** C15: a ShadowQuic server serves a connection only if the handshake says
    that JLS authenticated it, and then for the user the handshake names;
    the connection runs the configured congestion control, its windows are
    at least the configured ones, and every other connection is closed with
    a reason.  A SunnyQUIC connection starts without any authentication. *)
Theorem incoming_served now congestion authentication handshake connection stats
    (h : list (Congestion.SwitchState Ctl)) (ac : Ac) c
    (Hconn : Congestion.congestion connection = Congestion.Switchable c)
    (Hlive : is_Some (h !! Congestion.state c))
    (Hstats : Transport.stats_wf stats)
    (Hrate : uint 64 (send_rate (kind_of_config congestion))) :
  match on_incoming now congestion authentication handshake connection stats h ac with
  | (Ok v, closing, h') =>
      closing = None /\
      match authentication with
      | Jls => exists d, handshake = Data d /\ jls_authenticated d = Some true /\
                 serving_user v = default [] (jls_user d)
      | Sunny _ => serving_user v = [] /\ auth_state (tasks v) = None
      end /\
      Congestion.connection_congestion_kind connection h' = Some (kind_of_config congestion) /\
      Transport.SEND_WINDOW <= Transport.send_window (windows v) /\
      Transport.CONNECTION_RECEIVE_WINDOW <= Transport.receive_window (windows v) /\
      tasks v = initial ac
  | (Err _, closing, _) => is_Some closing
  end.
Proof.
  unfold on_incoming. pose proof (apply_congestion_ok now connection congestion h) as Hk.
  destruct (apply_congestion now connection congestion h) as [[[]|e] h']; [|by eexists].
  specialize (Hk h' c Hconn Hlive eq_refl). unfold serve_connection, admission.
  pose proof (Transport.update_windows_bounds stats (send_rate (kind_of_config congestion)) 0
    Transport.SEND_WINDOW Transport.CONNECTION_RECEIVE_WINDOW Hstats Hrate
    ltac:(done) ltac:(done) ltac:(done)) as (_ & _ & Hs & Hr & _).
  change (Transport.CONNECTION_RECEIVE_WINDOW `min` Transport.VARINT_MAX)
    with Transport.CONNECTION_RECEIVE_WINDOW in Hr.
  destruct authentication as [|us].
  - destruct handshake as [| |d]; [by eexists..|]. case_bool_decide as Hj; [|by eexists].
    rewrite Hk. split_and!; try done. by exists d.
  - rewrite Hk. by split_and!.
Qed.
End Incoming.

(** ** What a task can do *)

Section Effects.
Context {Ch Ac : Type} `{MC : Mpsc Ch SqUdp.Packet} `{MA : Mpsc Ac Accepted}.
Variable authentication : ServerAuthentication.
Variable user : bytes.
Variable source : Net.SocketAddr.
Implicit Types s : Conn Ch Ac.

Lemma queued_send x (a b : Ac) ok y :
  send_wait x a = Some (ok, b) -> y ∈ queued b -> y ∈ queued a \/ y = x.
Proof.
  intros (-> & _)%send_wait_spec. destruct ok; [|by left].
  rewrite elem_of_app, list_elem_of_singleton. tauto.
Qed.

(** An item is handed over for the authenticated user and the peer. *)
Definition hands_over s s' : Prop :=
  forall a, a ∈ queued (accepted s') -> a ∈ queued (accepted s) \/
    (accepted_source a = source /\ exists u,
       wait_for_sunny_auth authentication s = Some (Ok u) /\ accepted_user a = tag user u).

(** Authentication is left alone, or a credential is presented. *)
Definition authenticates s s' : Prop :=
  (auth_state s' = auth_state s /\ presented s' = presented s) \/
  exists users c, authentication = Sunny users /\ presented s' = presented s ++ [c] /\
    forall u, auth_state s' = Some (inl u) -> users !! c = Some u.

Lemma effect_none s s' :
  accepted s' = accepted s -> auth_state s' = auth_state s -> presented s' = presented s ->
  hands_over s s' /\ authenticates s s'.
Proof. intros Ha Es Ep. split; [intros a; rewrite Ha; by left|by left]. Qed.

Lemma effect_sent s s' x ok ac u :
  send_wait x (accepted s) = Some (ok, ac) -> accepted s' = ac ->
  auth_state s' = auth_state s -> presented s' = presented s ->
  wait_for_sunny_auth authentication s = Some (Ok u) ->
  accepted_source x = source -> accepted_user x = tag user u ->
  hands_over s s' /\ authenticates s s'.
Proof.
  intros Hw <- Es Ep Hu Hsrc Hus. split; [|by left]. intros a Ha.
  destruct (queued_send _ _ _ _ _ Hw Ha) as [| ->]; [by left|right]. eauto.
Qed.

Lemma on_authenticate_effect recv s r s' :
  on_authenticate authentication recv s = (r, s') -> hands_over s s' /\ authenticates s s'.
Proof.
  unfold on_authenticate. destruct authentication as [|users] eqn:Ea.
  { intros [= <- <-]. by apply effect_none. }
  destruct (quic_read_exact 64 recv) as [[c|e] recv']; [|intros [= <- <-]; by apply effect_none].
  destruct (users !! c) as [u|] eqn:Eu; intros [= <- <-]; (split; [by left|right]);
    exists users, c; rewrite Ea; split_and!; try done. by intros v [= <-].
Qed.

Lemma on_associate_effect mode u snd rcv s r s' :
  wait_for_sunny_auth authentication s = Some (Ok u) ->
  on_associate user source mode u snd rcv s = Some (r, s') ->
  hands_over s s' /\ authenticates s s'.
Proof.
  intros Hu. unfold on_associate.
  destruct (SqWire.decode_address rcv) as [[d|e] rcv']; [|intros [= <- <-]; by apply effect_none].
  destruct (send_wait _ _) as [[[] ac]|] eqn:Ew; [| |done]; intros [= <- <-];
    by eapply (effect_sent _ _ _ _ _ u Ew).
Qed.

Lemma handle_bi_stream_effect stats snd rcv s r s' :
  handle_bi_stream authentication user source stats snd rcv s = Some (r, s') ->
  hands_over s s' /\ authenticates s s'.
Proof.
  unfold handle_bi_stream.
  destruct (quic_read_exact 1 rcv) as [[op|e] rcv']; [|intros [= <- <-]; by apply effect_none].
  cbv zeta. case_decide; [intros [= E]; by eapply on_authenticate_effect|].
  case_decide; [|case_decide; [|case_decide; [|case_decide]]].
  all: try (destruct (wait_for_sunny_auth authentication s) as [[u|e]|] eqn:Hu;
    [|intros [= <- <-]; by apply effect_none|done]).
  - unfold on_connect. destruct (SqWire.decode_address rcv') as [[d|e] rcv2];
      [|intros [= <- <-]; by apply effect_none].
    destruct (send_wait _ _) as [[[] ac]|] eqn:Ew; [| |done]; intros [= <- <-];
      by eapply (effect_sent _ _ _ _ _ u Ew).
  - by apply on_associate_effect.
  - by apply on_associate_effect.
  - unfold handle_extension. repeat case_match; intros [= <- <-]; by apply effect_none.
  - intros [= <- <-]. by apply effect_none.
Qed.

Lemma task_step_effect s s' :
  task_step authentication user source s s' -> hands_over s s' /\ authenticates s s'.
Proof.
  intros [e Hs]. destruct Hs as [stats snd rcv r s s' E|d r s s' E|rcv r s s' E|e s _ _|e u s _ _].
  - by eapply handle_bi_stream_effect.
  - revert E. unfold on_datagram. repeat case_match; intros; simplify_eq; by apply effect_none.
  - revert E. unfold on_uni_stream. repeat case_match; intros; simplify_eq; by apply effect_none.
  - by apply effect_none.
  - by apply effect_none.
Qed.
End Effects.

(** ** Authentication of a SunnyQUIC connection *)

Section SunnySafety.
Context {Ch Ac : Type} `{MC : Mpsc Ch SqUdp.Packet} `{MA : Mpsc Ac Accepted}.
Variable users : gmap bytes bytes.
Variable source : Net.SocketAddr.
Implicit Types s : Conn Ch Ac.

Abbreviation sunny_step := (step (Sunny users) [] source).

(** A credential of [u] has been presented. *)
Definition authorised s (u : bytes) : Prop :=
  exists c, c ∈ presented s /\ users !! c = Some u.

(** Nothing of the proxy is in use. *)
Definition quiet s : Prop :=
  SqTasks.chans (udp s) = ∅ /\ SqTasks.controls (udp s) = [] /\ SqTasks.sending (udp s) = [] /\
  SqTasks.unis (udp s) = [] /\ SqUdp.routes (SqTasks.registry (udp s)) = ∅ /\ replies s = [].

Record inv (ac0 : Ac) s : Prop := {
  inv_state u : auth_state s = Some (inl u) -> authorised s u;
  inv_accepted a : a ∈ queued (accepted s) ->
    a ∈ queued ac0 \/ authorised s (accepted_user a);
  inv_quiet : (forall u, ~ authorised s u) -> quiet s;
}.

Lemma wait_authorised ac0 s u :
  inv ac0 s -> wait_for_sunny_auth (Sunny users) s = Some (Ok u) -> authorised s u.
Proof.
  intros Hi. unfold wait_for_sunny_auth.
  destruct (auth_state s) as [[v|m]|] eqn:E; intros [= <-]. by apply (inv_state _ _ Hi).
Qed.

(** Steps after which someone is authorised need only keep the first two
    clauses. *)
Lemma inv_authorised ac0 s s' u :
  inv ac0 s -> authorised s u -> presented s' = presented s -> auth_state s' = auth_state s ->
  (forall a, a ∈ queued (accepted s') -> a ∈ queued (accepted s) \/ accepted_user a = u) ->
  inv ac0 s'.
Proof.
  intros [H1 H2 H3] Hu Ep Ea Hq. assert (forall v, authorised s' v <-> authorised s v) as Ha
    by (intros v; unfold authorised; by rewrite Ep).
  split.
  - intros v. rewrite Ea, Ha. apply H1.
  - intros a Hin. rewrite Ha. destruct (Hq a Hin) as [Hold| ->]; [by apply H2|by right].
  - intros Hn. exfalso. by apply (Hn u), Ha.
Qed.

(** Steps that leave authentication and hand nothing over. *)
Lemma inv_frame ac0 s s' :
  inv ac0 s -> presented s' = presented s -> auth_state s' = auth_state s ->
  (forall a, a ∈ queued (accepted s') -> a ∈ queued (accepted s)) ->
  (quiet s -> quiet s') -> inv ac0 s'.
Proof.
  intros [H1 H2 H3] Ep Ea Hq Hquiet. assert (forall v, authorised s' v <-> authorised s v) as Ha
    by (intros v; unfold authorised; by rewrite Ep).
  split.
  - intros v. rewrite Ea, Ha. apply H1.
  - intros a Hin. rewrite Ha. by apply H2, Hq.
  - intros Hn. apply Hquiet, H3. intros v Hv. by apply (Hn v), Ha.
Qed.

Lemma tag_nil u : tag [] u = u.
Proof. unfold tag. case_bool_decide; by subst. Qed.

(** An item handed over for a user that [Hw] authorises. *)
Ltac hand_over Hi Hw :=
  destruct (send_wait _ _) as [[[] ?]|] eqn:Ew; [| |done]; intros [= <- <-];
  apply (inv_authorised _ _ _ _ Hi Hw); try done; intros y Hy;
  destruct (queued_send _ _ _ _ _ Ew Hy) as [| ->]; simpl; rewrite ?tag_nil; auto.

Lemma on_authenticate_inv ac0 recv s r s' :
  inv ac0 s -> on_authenticate (Sunny users) recv s = (r, s') -> inv ac0 s'.
Proof.
  intros Hi. unfold on_authenticate.
  destruct (quic_read_exact 64 recv) as [[c|e] recv']; [|by intros [= <- <-]].
  assert (forall st cl v, authorised s v -> authorised (with_auth s c st cl) v) as Hmono.
  { intros st cl v (x & Hx & Hv). exists x. split; [|done]. simpl. apply elem_of_app. by left. }
  destruct Hi as [H1 H2 H3].
  destruct (users !! c) as [u|] eqn:Eu; intros [= <- <-]; split; simpl.
  - intros v [= <-]. exists c. split; [|done]. simpl. apply elem_of_app. right.
    by apply list_elem_of_singleton.
  - intros a Ha. destruct (H2 a Ha) as [|]; [by left|right; by apply Hmono].
  - intros Hn. exfalso. apply (Hn u). exists c. split; [|done]. simpl. apply elem_of_app. right.
    by apply list_elem_of_singleton.
  - done.
  - intros a Ha. destruct (H2 a Ha) as [|]; [by left|right; by apply Hmono].
  - intros Hn. apply (H3 (fun v Hv => Hn v (Hmono _ _ v Hv))).
Qed.

Lemma handle_bi_stream_inv ac0 stats snd rcv s r s' :
  inv ac0 s -> handle_bi_stream (Sunny users) [] source stats snd rcv s = Some (r, s') ->
  inv ac0 s'.
Proof.
  intros Hi. unfold handle_bi_stream.
  destruct (quic_read_exact 1 rcv) as [[op|e] rcv']; [|by intros [= <- <-]]. cbv zeta.
  pose proof (wait_authorised ac0 s) as Hw.
  case_decide; [intros [= E]; by eapply on_authenticate_inv|].
  case_decide; [|case_decide; [|case_decide; [|case_decide]]].
  all: try (destruct (wait_for_sunny_auth (Sunny users) s) as [[u|e]|];
    [specialize (Hw u Hi eq_refl)|by intros [= <- <-]|done]).
  - unfold on_connect. destruct (SqWire.decode_address rcv') as [[d|e] rcv2]; [|by intros [= <- <-]].
    hand_over Hi Hw.
  - unfold on_associate. destruct (SqWire.decode_address rcv') as [[d|e] rcv2]; [|by intros [= <- <-]].
    hand_over Hi Hw.
  - unfold on_associate. destruct (SqWire.decode_address rcv') as [[d|e] rcv2]; [|by intros [= <- <-]].
    hand_over Hi Hw.
  - unfold handle_extension. destruct (quic_read_exact 8 rcv') as [[x|e] r1]; [|by intros [= <- <-]].
    destruct (quic_read_exact 1 r1) as [[y|e] r2]; [|by intros [= <- <-]].
    destruct (negb _ || negb _);
      [|destruct (write_all _ snd) as [[[]|e] half]; [|by intros [= <- <-]]];
      intros [= <- <-]; apply (inv_authorised _ _ _ u Hi Hw); auto.
  - intros [= <- <-]. by apply (inv_frame _ _ _ Hi).
Qed.

Lemma sq_datagram_inv ac0 d s r s' :
  inv ac0 s -> on_datagram (Sunny users) d s = Some (r, s') -> inv ac0 s'.
Proof.
  intros Hi. unfold on_datagram. pose proof (wait_authorised ac0 s) as Hw.
  destruct (wait_for_sunny_auth (Sunny users) s) as [[u|e]|];
    [specialize (Hw u Hi eq_refl)|by intros [= <- <-]|done].
  destruct (SqTasks.route_datagram _ _) as [[r1 m]|]; [|done]. intros [= <- <-].
  apply (inv_authorised _ _ _ u Hi Hw); auto.
Qed.

Lemma on_uni_stream_inv ac0 rcv s r s' :
  inv ac0 s -> on_uni_stream (Sunny users) rcv s = Some (r, s') -> inv ac0 s'.
Proof.
  intros Hi. unfold on_uni_stream. pose proof (wait_authorised ac0 s) as Hw.
  destruct (wait_for_sunny_auth (Sunny users) s) as [[u|e]|];
    [specialize (Hw u Hi eq_refl)|by intros [= <- <-]|done].
  destruct (SqTasks.route_stream _ _) as [[r1 m]|]; [|done]. intros [= <- <-].
  apply (inv_authorised _ _ _ u Hi Hw); auto.
Qed.

(** The UDP tasks by themselves start nothing. *)
Lemma turn_quiet e u s :
  inner e = true -> SqTasks.turn e (udp s) u -> quiet s -> quiet (with_udp s u).
Proof.
  intros He Ht (Hc & Hl & Hse & Hu & Hr & Hre). unfold quiet. simpl.
  destruct Ht as [recv v|l1 t l2 v E|d r v v' E|l1 t l2 r v v' Es E|recv r v v' E|l1 t l2 v v' Eu E
    |chan p v v' E|chan e v v' E|chan v|v|e v Hlo Hcl|v]; try done.
  - rewrite Hl in E. by destruct l1.
  - rewrite Hse in Es. by destruct l1.
  - rewrite Hu in Eu. by destruct l1.
  - unfold SqTasks.recv_packet in E. by rewrite Hc in E.
  - unfold SqTasks.recv_packet in E. by rewrite Hc in E.
  - simpl. by rewrite Hc, delete_empty.
Qed.

Lemma sq_task_inv ac0 s s' : inv ac0 s -> task_step (Sunny users) [] source s s' -> inv ac0 s'.
Proof.
  intros Hi [e Hs]. destruct Hs as [stats snd rcv r s s' E|d r s s' E|rcv r s s' E|e s _ _|e u s He Ht].
  - by eapply handle_bi_stream_inv.
  - by eapply sq_datagram_inv.
  - by eapply on_uni_stream_inv.
  - done.
  - apply (inv_frame _ _ _ Hi); auto. by eapply turn_quiet.
Qed.

Lemma sq_step_inv ac0 s s' : inv ac0 s -> sunny_step s s' -> inv ac0 s'.
Proof.
  intros Hi Hs. destruct Hs as [s1 s2 Ht|a ac s1 E]; [by apply (sq_task_inv ac0 s1)|].
  apply (inv_frame _ _ _ Hi); auto. simpl. pose proof (recv_spec (accepted s1)) as Hr.
  rewrite E in Hr. destruct Hr as (-> & _). intros x Hx. by right.
Qed.

Lemma sq_reachable_inv ac s : reachable (Sunny users) [] source (initial ac) s -> inv ac s.
Proof.
  intros Hr. assert (inv ac (initial ac)) as Hi.
  { split; simpl; [done|by left|done]. }
  induction Hr as [s|s1 s2 s3 Hs _ IH]; [done|]. apply IH. by eapply sq_step_inv.
Qed.

(** C5: a SunnyQUIC connection proxies nothing before authentication.  In
    every state that a connection can reach, whatever streams and datagrams
    the peer sends and however the tasks interleave, everything handed over
    is for a user whose credential the peer has presented; and as long as no
    valid credential was presented there are no associations, routes, relayed
    streams or statistics replies at all. *)
Theorem sunny_auth_safety ac s
    (Hreach : reachable (Sunny users) [] source (initial ac) s) :
  (forall a, a ∈ queued (accepted s) -> a ∈ queued ac \/
     exists c, c ∈ presented s /\ users !! c = Some (accepted_user a)) /\
  ((forall c, c ∈ presented s -> users !! c = None) ->
     SqTasks.chans (udp s) = ∅ /\ SqTasks.controls (udp s) = [] /\
     SqTasks.sending (udp s) = [] /\ SqTasks.unis (udp s) = [] /\
     SqUdp.routes (SqTasks.registry (udp s)) = ∅ /\ replies s = []).
Proof.
  apply sq_reachable_inv in Hreach as [_ H2 H3]. split; [exact H2|].
  intros Hn. apply H3. intros u (c & Hc & Hu). specialize (Hn c Hc). congruence.
Qed.
End SunnySafety.

(** ** Credentials and accounts *)

(** The table maps a credential to the last configured user whose name
    and password hash to it; since the name and the password are joined by a
    colon that either may contain, two users with different names can share
    a credential, and the earlier is then served under the later's name. *)
Theorem sunny_users_ambiguous `{DG : Digest} (us : list User) :
  (forall c, sunny_users us !! c
             = name <$> last (filter (fun u => sunny_credential (name u) (password u) = c) us)) /\
  let a := {| name := str "a"; password := str "b:c" |} in
  let ab := {| name := str "a:b"; password := str "c" |} in
  sunny_users (us ++ [a; ab]) !! sunny_credential (name a) (password a) = Some (name ab).
Proof.
  split; [apply sunny_users_lookup_last|]. cbv zeta.
  rewrite (cons_middle _ us [_]), app_assoc, sunny_users_snoc. apply lookup_insert_eq.
Qed.

(** ** Examples *)

(** A digest that keeps the first 32 bytes. *)
#[global] Program Instance prefix_digest : Digest := {|
  sha256 l := take 32 (l ++ replicate 32 Byte.x00);
|}.
Next Obligation. intros l. cbv beta. rewrite length_take, length_app, length_replicate. lia. Qed.

Definition example_users : list User := [{| name := str "alice"; password := str "secret" |}].

Definition example_source : Net.SocketAddr :=
  {| Net.ip := Net.V4 [127; 0; 0; 1]; Net.port := 40000; Net.scope_id := 0 |}.

Definition example_extension : Extension :=
  {| path_stats := {| lost_packets := 1; sent_packets := 2; rtt := 20000000; current_mtu := 1300 |};
     finish_failed := None |}.

Definition example_initial : Conn (ListChannel.Chan SqUdp.Packet) (ListChannel.Chan Accepted) :=
  initial (channel 256).

Definition example_login : RecvHalf :=
  {| pending := SqWire.SQ_AUTHENTICATE :: sunny_credential (str "alice") (str "secret");
     ending := None |}.

Definition example_next : Conn (ListChannel.Chan SqUdp.Packet) (ListChannel.Chan Accepted) :=
  match handle_bi_stream (Sunny (sunny_users example_users)) [] example_source example_extension
          (open_send [] Closed) example_login example_initial with
  | Some (_, s) => s
  | None => example_initial
  end.

Lemma sunny_auth_safety_witness :
  auth_state example_next = Some (inl (str "alice")) /\
  forall a, a ∈ queued (accepted example_next) -> a ∈ queued (accepted example_initial) \/
     exists c, c ∈ presented example_next /\
       sunny_users example_users !! c = Some (accepted_user a).
Proof.
  split; [vm_compute; reflexivity|].
  refine (proj1 (sunny_auth_safety (sunny_users example_users) example_source (channel 256)
    example_next _)).
  apply rtc_once, step_task. eexists. refine (task_bi _ _ _ example_extension (open_send [] Closed) example_login (Ok tt)
    _ _ _). vm_compute. reflexivity.
Defined.

Lemma incoming_served_witness :
  let conn : Congestion.Connection Congestion.Counting.Ctl :=
    {| Congestion.congestion := Congestion.Switchable Congestion.example_handle;
       Congestion.rtt := 5 |} in
  let d := {| jls_authenticated := Some true; jls_user := Some (str "alice") |} in
  Congestion.connection_congestion_kind conn
    (on_incoming 1 (ConfigBrutal 1000 false) Jls (Data d) conn
       {| Transport.path_rtt := 50000000; Transport.path_cwnd := 12000;
       Transport.path_current_mtu := 1400 |}
       (Congestion.build 0 1200 []).2 (channel 4 : ListChannel.Chan Accepted)
       (Ch := ListChannel.Chan SqUdp.Packet)).2
  = Some (Congestion.Brutal 1000).
Proof.
  intros conn d.
  refine (proj1 (proj2 (proj2 (incoming_served (Ch := ListChannel.Chan SqUdp.Packet) 1
    (ConfigBrutal 1000 false) Jls (Data d) conn
    {| Transport.path_rtt := 50000000; Transport.path_cwnd := 12000;
       Transport.path_current_mtu := 1400 |}
    (Congestion.build 0 1200 []).2 (channel 4 : ListChannel.Chan Accepted)
    Congestion.example_handle _ _ _ _)))).
  - reflexivity.
  - eexists. reflexivity.
  - apply (bool_decide_eq_true_1 _). vm_compute. reflexivity.
  - vm_compute. split; congruence.
Defined.

End SqServer.
