(* ===== verification/SqReceiver.v ===== *)
(** * The receiver task of a SunnyQUIC client

    [spawn_client_udp_receiver] of [src/src/shadowquic/mod.rs] with the tasks
    around it: the control streams of the client's associations
    ([handle_udp_control_stream], spawned by [Client::associate]) and the
    unidirectional streams that the receiver spawns a task for.  The receiver
    itself awaits the handler of a datagram before it turns to the next event,
    which the relation [loop] keeps apart from everything else that happens
    ([others]). *)

From Stdlib Require Import ZArith Lia.
From stdpp Require Import base gmap list strings relations.
From S2P Require Import Prelude Error Address Channels SqWire SqUdp SqTasks.

#[local] Open Scope Z_scope.

Module SqReceiver.
Import SqUdp.

(** [inbox] are the datagrams and [uni_inbox] the streams that the
    connection holds for the task, [handling] the datagram whose handler it
    awaits before the route is there, [spawned] the stream tasks that wait for
    their route.  When the route is there, the datagram is the one task in
    [sending] of [udp]. *)
Record Receiver (Ch : Type) := {
  inbox : list bytes;
  handling : option bytes;
  uni_inbox : list RecvHalf;
  spawned : list RecvHalf;
  udp : SqTasks.Udp Ch;
}.
Arguments inbox {Ch} _.
Arguments handling {Ch} _.
Arguments uni_inbox {Ch} _.
Arguments spawned {Ch} _.
Arguments udp {Ch} _.

Section Task.
Context {Ch : Type} `{MC : Mpsc Ch Packet}.
Implicit Types r : Receiver Ch.

(** The task awaits no handler. *)
Definition idle r : Prop := handling r = None /\ SqTasks.sending (udp r) = [].

(** The arm of [read_datagram()] up to the await of its handler. *)
Definition take_datagram (d : bytes) (rest : list bytes) r : Receiver Ch :=
  {| inbox := rest; handling := Some d; uni_inbox := uni_inbox r; spawned := spawned r;
     udp := udp r |}.

(** The handler has its route, or has returned; an error is only logged. *)
Definition handled (u : SqTasks.Udp Ch) r : Receiver Ch :=
  {| inbox := inbox r; handling := None; uni_inbox := uni_inbox r; spawned := spawned r;
     udp := u |}.

(** The arm of [accept_uni()]: the stream gets a task of its own. *)
Definition accept_uni (stream : RecvHalf) (rest : list RecvHalf) r : Receiver Ch :=
  {| inbox := inbox r; handling := handling r; uni_inbox := rest;
     spawned := spawned r ++ [stream]; udp := udp r |}.

Inductive loop : Receiver Ch -> Receiver Ch -> Prop :=
| loop_take d rest r : idle r -> inbox r = d :: rest -> loop r (take_datagram d rest r)
| loop_routed d e u r :
    handling r = Some d -> SqTasks.route_datagram d (udp r) = Some (e, u) -> loop r (handled u r)
| loop_sent t e u r :
    handling r = None -> SqTasks.sending (udp r) = [t] ->
    SqTasks.send_routed t [] [] (udp r) = Some (e, u) -> loop r (handled u r)
| loop_uni stream rest r :
    idle r -> uni_inbox r = stream :: rest -> loop r (accept_uni stream rest r).

Definition with_tasks r (sp : list RecvHalf) (u : SqTasks.Udp Ch) : Receiver Ch :=
  {| inbox := inbox r; handling := handling r; uni_inbox := uni_inbox r; spawned := sp;
     udp := u |}.

(** What happens beside the task: the network brings datagrams and streams,
    [Client::associate] spawns the reader of a control stream, the other
    tasks take their turns, and the application receives. *)
Inductive others : SqTasks.Event -> Receiver Ch -> Receiver Ch -> Prop :=
| others_datagram d r :
    others (SqTasks.Arrived d) r
      {| inbox := inbox r ++ [d]; handling := handling r; uni_inbox := uni_inbox r;
         spawned := spawned r; udp := udp r |}
| others_stream s r :
    others (SqTasks.Incoming s) r
      {| inbox := inbox r; handling := handling r; uni_inbox := uni_inbox r ++ [s];
         spawned := spawned r; udp := udp r |}
| others_associate recv r :
    others (SqTasks.Opened recv) r (with_tasks r (spawned r) (SqTasks.associated recv (udp r)))
| others_control l1 t l2 r :
    SqTasks.controls (udp r) = l1 ++ t :: l2 ->
    others SqTasks.Inner r (with_tasks r (spawned r) (SqTasks.control_round t l1 l2 (udp r)))
| others_route s l1 l2 e u r :
    spawned r = l1 ++ s :: l2 -> SqTasks.route_stream s (udp r) = Some (e, u) ->
    others SqTasks.Inner r (with_tasks r (l1 ++ l2) u)
| others_turn t l1 l2 u r :
    SqTasks.unis (udp r) = l1 ++ t :: l2 -> SqTasks.stream_round t l1 l2 (udp r) = Some u ->
    others SqTasks.Inner r (with_tasks r (spawned r) u)
| others_took chan p u r :
    SqTasks.recv_packet chan (udp r) = Some (Ok p, u) ->
    others (SqTasks.Took chan p) r (with_tasks r (spawned r) u)
| others_ended chan e u r :
    SqTasks.recv_packet chan (udp r) = Some (Err e, u) ->
    others SqTasks.Inner r (with_tasks r (spawned r) u)
| others_drop chan r :
    others SqTasks.Inner r (with_tasks r (spawned r) (SqTasks.dropped chan (udp r))).

(** A client connection before it has any association. *)
Definition start : Receiver Ch :=
  {| inbox := []; handling := None; uni_inbox := []; spawned := []; udp := SqTasks.no_udp |}.

(** The task and everything beside it, with what the network brings and the
    application gets. *)
Inductive run : list SqTasks.Event -> Receiver Ch -> Receiver Ch -> Prop :=
| run_start r : run [] r r
| run_loop tr r r' r'' : run tr r r' -> loop r' r'' -> run tr r r''
| run_others tr e r r' r'' : run tr r r' -> others e r' r'' -> run (tr ++ [e]) r r''.

(** ** Delivery *)

(** The datagrams the task has before it, the one it awaits first. *)
Definition ahead r : list bytes := option_list (handling r) ++ inbox r.

(** [d] is a datagram of [p] for the channel [chan], as the registry stands. *)
Definition carries (reg : IncomingUdpRegistry) (chan : nat) (p : Packet) (d : bytes) : Prop :=
  forall u : SqTasks.Udp Ch, SqTasks.registry u = reg ->
    SqTasks.route_datagram d u
    = Some (Ok tt, SqTasks.with_sending u (SqTasks.chans u)
                     (SqTasks.sending u ++ [SqTasks.task_of chan p])).

(** What is left to do while the task works off the datagrams of [ps] for a
    channel that held [q0] before. *)
Definition working (chan : nat) (q0 : list Packet) (reg : IncomingUdpRegistry) (ps : list Packet)
    r : Prop :=
  SqTasks.registry (udp r) = reg /\ exists done now todo ch,
    ps = done ++ option_list now ++ todo /\
    SqTasks.sending (udp r) = SqTasks.task_of chan <$> option_list now /\
    (now = None \/ handling r = None) /\ Forall2 (carries reg chan) todo (ahead r) /\
    SqTasks.chans (udp r) !! chan = Some ch /\ alive ch = true /\
    queued ch = q0 ++ (SqTasks.received <$> done) /\ (length q0 + length ps <= capacity ch)%nat.

Lemma deliver_room chan p (m : gmap nat Ch) ch :
  m !! chan = Some ch -> alive ch = true -> (length (queued ch) < capacity ch)%nat ->
  exists ch', deliver {| sender := chan; route_destination := SqWire.normalize (destination p) |}
                (data p) m = Some (Ok tt, <[chan := ch']> m) /\
    alive ch' = true /\ queued ch' = queued ch ++ [SqTasks.received p] /\ capacity ch' = capacity ch.
Proof using.
  intros Hch Ha Hroom. unfold deliver. simpl. rewrite Hch.
  destruct (send_wait _ ch) as [[ok ch']|] eqn:Ew.
  2: { unfold send_wait in Ew. by rewrite Ha, bool_decide_true in Ew. }
  pose proof Ew as (Hq & Ha' & Hc & Hok)%send_wait_spec. rewrite Ha in *. subst ok.
  by exists ch'.
Qed.

(** The channel takes the datagram that is being sent. *)
Lemma sent_on chan p u q0 done todo (ch : Ch) :
  SqTasks.chans u !! chan = Some ch -> alive ch = true -> queued ch = q0 ++ (SqTasks.received <$> done) ->
  (length q0 + length (done ++ p :: todo) <= capacity ch)%nat ->
  exists ch', SqTasks.send_routed (SqTasks.task_of chan p) [] [] u
              = Some (Ok tt, SqTasks.with_sending u (<[chan := ch']> (SqTasks.chans u)) []) /\
    alive ch' = true /\ queued ch' = q0 ++ (SqTasks.received <$> done ++ [p]) /\ capacity ch' = capacity ch.
Proof using.
  intros Hch Ha Hq Hroom. rewrite length_app in Hroom. simpl in Hroom.
  destruct (deliver_room chan p (SqTasks.chans u) ch) as (ch' & Hdel & Ha' & Hq' & Hc'); [done|done| |].
  { rewrite Hq, length_app, length_fmap. lia. }
  exists ch'. unfold SqTasks.send_routed. cbn [SqTasks.task_of SqTasks.d_route SqTasks.d_data]. rewrite Hdel.
  split_and!; [done..| |done]. by rewrite Hq', Hq, fmap_app, <-app_assoc.
Qed.

Lemma loop_working chan q0 reg ps r r' :
  working chan q0 reg ps r -> loop r r' -> working chan q0 reg ps r'.
Proof using.
  intros (Hreg & dn & nw & todo & ch & Hps & Hs & Hnw & Hd & Hch & Ha & Hq & Hroom) Hl.
  unfold ahead in Hd.
  destruct Hl as [d rest r [Hn Hi] Hin|d e u r Hh Hm|t e u r Hh Ht Hm|s rest r _ Hu].
  - rewrite Hi in Hs. destruct nw; [done|]. split; [done|]. rewrite Hn, Hin in Hd.
    exists dn, None, todo, ch. unfold ahead. simpl. by split_and!; auto.
  - rewrite Hh in Hd. cbn [option_list app] in Hd. destruct Hnw as [->|]; [|congruence].
    inversion Hd as [|p ? todo' ? Hp Hrest]; subst. rewrite Hp in Hm by done. simplify_eq.
    split; [done|]. exists dn, (Some p), todo', ch. unfold ahead. simpl. rewrite Hs.
    by split_and!; auto.
  - rewrite Ht in Hs. destruct nw as [p|]; [|done]. injection Hs as ->. simpl in Hps. subst ps.
    destruct (sent_on chan p (udp r) q0 dn todo ch) as (ch' & Hsend & Ha' & Hq' & Hc'); try done.
    rewrite Hsend in Hm. injection Hm as <- <-. split; [done|].
    exists (dn ++ [p]), None, todo, ch'. unfold ahead. simpl. rewrite lookup_insert_eq.
    rewrite Hh in Hd. rewrite <-app_assoc, Hc'. by split_and!; auto.
  - split; [done|]. by exists dn, nw, todo, ch.
Qed.

(** The turns left. *)
Definition turns r : nat :=
  3 * length (inbox r) + 2 * length (option_list (handling r)) +
  length (SqTasks.sending (udp r)) + length (uni_inbox r).

Lemma loop_turns chan q0 reg ps r r' :
  working chan q0 reg ps r -> loop r r' -> (turns r' < turns r)%nat.
Proof using.
  intros (_ & dn & nw & todo & ch & _ & Hs & Hnw & Hd & _) Hl. unfold ahead in Hd.
  destruct Hl as [d rest r [Hn Hi] Hin|d e u r Hh Hm|t e u r Hh Ht Hm|s rest r _ Hu]; unfold turns; simpl.
  - rewrite Hn, Hin. simpl. lia.
  - rewrite Hh in *. cbn [option_list app] in Hd. destruct Hnw as [->|]; [|congruence].
    destruct e as [e|e].
    + assert (length (SqTasks.sending u) <= S (length (SqTasks.sending (udp r))))%nat; [|simpl; lia].
      revert Hm. unfold SqTasks.route_datagram. repeat case_match; intros; simplify_eq; simpl.
      rewrite length_app. simpl. lia.
    + assert (u = udp r) as ->; [|simpl; lia].
      revert Hm. unfold SqTasks.route_datagram. repeat case_match; intros; by simplify_eq.
  - rewrite Ht, Hh. unfold SqTasks.send_routed in Hm. case_match; [|done]. case_match. simplify_eq.
    simpl. lia.
  - rewrite Hu. simpl. lia.
Qed.

(** The task is stuck only when its work is done. *)
Lemma loop_enabled chan q0 reg ps r :
  working chan q0 reg ps r ->
  (exists r', loop r r') \/ (ahead r = [] /\ SqTasks.sending (udp r) = []).
Proof using.
  intros (Hreg & dn & nw & todo & ch & Hps & Hs & Hnw & Hd & Hch & Ha & Hq & Hroom).
  unfold ahead in *. destruct (handling r) as [d|] eqn:Hh; [left|destruct nw as [p|]].
  - cbn [option_list app] in Hd. inversion Hd as [|p ? todo' ? Hp Hrest]; subst.
    eexists. eapply loop_routed; [done|]. by apply Hp.
  - left. subst ps. destruct (sent_on chan p (udp r) q0 dn todo ch) as (ch' & Hsend & _); try done.
    eexists. eapply loop_sent; [done|exact Hs|exact Hsend].
  - destruct (inbox r) as [|d rest] eqn:Hi; [by right|left].
    eexists. apply (loop_take d rest); [by split|done].
Qed.

Lemma loop_run k : forall r r' chan q0 reg ps,
  working chan q0 reg ps r -> nsteps loop k r r' ->
  working chan q0 reg ps r' /\ (k + turns r' <= turns r)%nat.
Proof using.
  induction k as [|k IH]; intros r r' chan q0 reg ps Hw Hs; inversion Hs as [|? ? r1 ? H1 H2]; subst.
  { split; [done|lia]. }
  pose proof (loop_turns _ _ _ _ _ _ Hw H1). destruct (IH r1 r' chan q0 reg ps) as [? ?]; [|done|].
  - by eapply loop_working.
  - split; [done|lia].
Qed.

(** C16: the receiver task of a SunnyQUIC client works off the datagrams of an
    association.  Suppose the peer has sent packets over a datagram
    association, the client has read the control stream of it to the end, the
    task awaits nothing and has exactly those datagrams before it, in order,
    and the association's channel has room for all the packets.  Then, run by
    itself, the task delivers the packets, in order, to the association: it is
    not stuck before it has, and it is done after a bounded number of turns. *)
Theorem client_receives k ctl ps s bytes chan reg0 (r : Receiver Ch) ch
    (Hsends : sends (new_sender Datagram k ctl) ps s) (Hk : uint 16 k)
    (Hwf : Forall Address.wf (order ps)) (Hmany : len (order ps) <= 65536)
    (Hcontrol : written (control s) = written ctl ++ bytes)
    (Hregistry : SqTasks.registry (udp r) = (control_loop (S (length bytes)) chan
                   {| pending := bytes; ending := None |} reg0 []).1.1)
    (Hinbox : inbox r = datagrams s) (Hidle : idle r)
    (Hchan : SqTasks.chans (udp r) !! chan = Some ch) (Halive : alive ch = true)
    (Hroom : (length (queued ch) + length ps <= capacity ch)%nat) :
  (forall n r', nsteps loop n r r' -> (n <= 3 * length ps + length (uni_inbox r))%nat) /\
  (forall r', rtc loop r r' ->
     (exists r'', loop r' r'') \/
     (inbox r' = [] /\ idle r' /\ exists ch', SqTasks.chans (udp r') !! chan = Some ch' /\
        queued ch' = queued ch ++ (SqTasks.received <$> ps))).
Proof using.
  destruct Hidle as [Hidle Hnone]. destruct (datagrams_routed k ctl ps s chan reg0 Hsends Hk Hwf Hmany)
    as (bytes' & Hb & Hroute).
  rewrite Hcontrol in Hb. apply app_inv_head in Hb as <-.
  destruct (control_loop _ chan _ reg0 []) as [[reg ids] e]. simpl in Hregistry.
  destruct Hroute as [_ Hroute].
  assert (working chan (queued ch) reg ps r) as Hw.
  { split; [done|]. exists [], None, ps, ch. simpl. rewrite app_nil_r. split_and!; auto.
    unfold ahead. rewrite Hidle, Hinbox. simpl. eapply Forall2_impl; [exact Hroute|].
    intros p d (id & Hid & -> & Hr) u Hu. apply SqTasks.route_routed; [done|]. by rewrite Hu. }
  assert (length (inbox r) = length ps) as Hlen
    by (rewrite Hinbox; symmetry; by eapply Forall2_length).
  split.
  - intros n r' Hn. destruct (loop_run n r r' _ _ _ _ Hw Hn) as [_ Hle].
    unfold turns in Hle. rewrite Hidle, Hlen, Hnone in Hle. simpl in Hle. lia.
  - intros r' [n Hn]%rtc_nsteps. destruct (loop_run n r r' _ _ _ _ Hw Hn) as [Hw' _].
    destruct (loop_enabled _ _ _ _ _ Hw') as [?|[Hah Hse]]; [by left|right].
    unfold ahead in Hah. destruct (handling r') eqn:Hh; [done|]. simpl in Hah.
    destruct Hw' as (_ & dn & nw & todo & ch' & -> & Hs & _ & Hd & Hch' & _ & Hq & _).
    unfold ahead in Hd. rewrite Hh, Hah in Hd. inversion Hd; subst. rewrite Hse in Hs.
    destruct nw; [done|]. rewrite app_nil_r. split_and!; try done. by exists ch'.
Qed.

(** ** Stalls *)

Lemma stream_round_registry t l1 l2 (u u' : SqTasks.Udp Ch) :
  SqTasks.stream_round t l1 l2 u = Some u' -> SqTasks.registry u' = SqTasks.registry u.
Proof using. unfold SqTasks.stream_round. repeat case_match; intros; by simplify_eq. Qed.

Lemma route_stream_registry s (u u' : SqTasks.Udp Ch) e :
  SqTasks.route_stream s u = Some (e, u') -> SqTasks.registry u' = SqTasks.registry u.
Proof using. unfold SqTasks.route_stream. repeat case_match; intros; by simplify_eq. Qed.

Lemma recv_packet_registry chan (u u' : SqTasks.Udp Ch) e :
  SqTasks.recv_packet chan u = Some (e, u') -> SqTasks.registry u' = SqTasks.registry u.
Proof using. unfold SqTasks.recv_packet. repeat case_match; intros; by simplify_eq. Qed.

Lemma others_frame e a b :
  others e a b ->
  handling b = handling a /\
  closed (SqTasks.registry (udp b)) = closed (SqTasks.registry (udp a)) /\
  inbox a `prefix_of` inbox b /\ uni_inbox a `prefix_of` uni_inbox b.
Proof using.
  intros Ho. destruct Ho as [d a|s a|recv a|l1 t l2 a Ec|s l1 l2 e u a Es Er|t l1 l2 u a Et Er
    |chan p u a Er|chan e u a Er|chan a]; simpl; split_and!; try done; try by apply prefix_app_r.
  - unfold SqTasks.control_round. by destruct (control_entry _) as [[[d id]|e] recv].
  - by erewrite route_stream_registry.
  - by erewrite stream_round_registry.
  - by erewrite recv_packet_registry.
  - by erewrite recv_packet_registry.
Qed.

Lemma loop_stalled d a b :
  2 <= len d -> handling a = Some d -> closed (SqTasks.registry (udp a)) = false ->
  routes (SqTasks.registry (udp a)) !! from_be (take 2 d) = None -> ~ loop a b.
Proof using.
  intros Hd Hh Hc Hn Hl.
  destruct Hl as [d' rest a [Hn' _] Hi|d' e u a Hh' Hm|t e u a Hh' Ht Hm|s rest a [Hn' _] Hu];
    try congruence.
  rewrite Hh in Hh'. injection Hh' as <-. revert Hm.
  unfold SqTasks.route_datagram, wait. rewrite Hn, Hc.
  by rewrite (proj2 (Z.ltb_ge _ _)) by lia.
Qed.

(** C20: the receiver task stands still on a datagram without a route.  As
    long as no control stream registers the id of the datagram that it
    awaits, whatever else happens, it takes neither another datagram nor
    another stream: everything that arrives stays queued behind. *)
Theorem client_receiver_stalls d (r r' : Receiver Ch)
    (Hd : 2 <= len d) (Hhandling : handling r = Some d)
    (Hopen : closed (SqTasks.registry (udp r)) = false)
    (Hnone : routes (SqTasks.registry (udp r)) !! from_be (take 2 d) = None)
    (Hrun : rtc (fun a b => (loop a b \/ exists e, others e a b) /\
                            routes (SqTasks.registry (udp b)) !! from_be (take 2 d) = None) r r') :
  handling r' = Some d /\ inbox r `prefix_of` inbox r' /\ uni_inbox r `prefix_of` uni_inbox r'.
Proof using.
  induction Hrun as [r|r1 r2 r3 [[Hl|[e Ho]] Hn] _ IH]; [done|..].
  - by apply loop_stalled with (d := d) in Hl.
  - destruct (others_frame _ _ _ Ho) as (Hh & Hc & Hi & Hu).
    destruct IH as (H1 & H2 & H3); [congruence|congruence|done|].
    split_and!; [done|by etrans|by etrans].
Qed.
End Task.

(** ** Examples *)

Definition example_udp (reg : IncomingUdpRegistry) : SqTasks.Udp (ListChannel.Chan Packet) :=
  {| SqTasks.registry := reg; SqTasks.chans := {[ 0%nat := channel 256 ]}; SqTasks.next_chan := 1;
     SqTasks.controls := []; SqTasks.sending := []; SqTasks.unis := [] |}.

Definition example_receiver (reg : IncomingUdpRegistry) : Receiver (ListChannel.Chan Packet) :=
  {| inbox := datagrams (example_sender Datagram example_packets); handling := None;
     uni_inbox := []; spawned := []; udp := example_udp reg |}.

Lemma client_receives_witness :
  let bytes := drop 2 (written (control (example_sender Datagram example_packets))) in
  let r := example_receiver (control_loop (S (length bytes)) 0
             {| pending := bytes; ending := None |} default_registry []).1.1 in
  length (inbox r) = 3%nat /\
  (forall r', rtc loop r r' ->
    (exists r'', loop r' r'') \/
    (inbox r' = [] /\ idle r' /\ exists ch', SqTasks.chans (udp r') !! 0%nat = Some ch' /\
       queued ch' = queued (channel 256 : ListChannel.Chan Packet) ++ (SqTasks.received <$> example_packets))).
Proof.
  intros bytes r. split; [vm_compute; reflexivity|].
  refine (proj2 (client_receives 65535 (open_send (str "hi") Closed) example_packets
    (example_sender Datagram example_packets) bytes 0 default_registry r (channel 256)
    (example_sends Datagram) _ example_packets_wf _ _ _ _ _ _ _ _)).
  - split; done.
  - vm_compute. congruence.
  - reflexivity.
  - reflexivity.
  - reflexivity.
  - split; reflexivity.
  - reflexivity.
  - reflexivity.
  - simpl. lia.
Defined.

Definition example_stalled (rest : list bytes) : Receiver (ListChannel.Chan Packet) :=
  {| inbox := rest; handling := Some (str "late"); uni_inbox := []; spawned := [];
     udp := example_udp default_registry |}.

Lemma client_receiver_stalls_witness :
  let r := example_stalled [] in
  let r' := example_stalled [str "next"] in
  handling r' = Some (str "late") /\ inbox r `prefix_of` inbox r' /\
  uni_inbox r `prefix_of` uni_inbox r'.
Proof.
  intros r r'. refine (client_receiver_stalls (str "late") r r' _ _ _ _ _).
  - vm_compute. congruence.
  - reflexivity.
  - reflexivity.
  - reflexivity.
  - apply rtc_once. split; [right; eexists; exact (others_datagram (str "next") r)|reflexivity].
Defined.

End SqReceiver.
