(* ===== verification/SqClient.v ===== *)
(** * The ShadowQuic and SunnyQUIC client

    The client of [src/src/shadowquic/mod.rs]: how a connection is
    authenticated and cached, how streams and associations are opened on it,
    and that a SunnyQUIC server takes what the client sends. *)

From Stdlib Require Import ZArith Lia.
From stdpp Require Import base gmap list strings.
From S2P Require Import Prelude Error Text Net Address Channels Congestion SqWire SqUdp SqServer.

#[local] Open Scope Z_scope.
#[local] Open Scope rust_scope.

Module SqClient.

Inductive ClientAuthentication :=
| Jls
| Sunny (credential : bytes).

(** An established connection, known by a number; [receiving] says that a
    task reads its datagrams and unidirectional streams. *)
Record ClientConnection := { id : nat; receiving : bool }.

Record Client := {
  congestion : SqServer.CongestionConfig;
  authentication : ClientAuthentication;
  connection : option ClientConnection;
}.

Section Client.
Context {Ctl Rtt Pacing Metrics : Type} `{CT : Controllers Ctl Rtt Pacing Metrics}.

(** What happens when the client needs a connection. *)
Record Attempt := {
  close_reason : nat -> option ConnectionError;
  connect_error : option bytes;
  connecting : option ConnectionError;
  new_id : nat;
  at_time : Z;
  quic : Congestion.Connection Ctl;
  handshake : SqServer.Handshake;
  auth_stream : ConnectionError + SendHalf;
  finish_error : option bytes;
}.

(** The client with the controllers of its connections. *)
Record State := {
  client : Client;
  controllers : list (Congestion.SwitchState Ctl);
}.

(** The check of the handshake: only data that says otherwise fails it. *)
Definition check_jls (h : SqServer.Handshake) : Result unit :=
  match h with
  | SqServer.Data d =>
      if bool_decide (SqServer.jls_authenticated d = Some true) then Ok tt
      else Err JlsAuthenticationFailed
  | _ => Ok tt
  end.

(** The authentication stream of SunnyQUIC. *)
Definition send_credential (credential : bytes) : M SendHalf unit :=
  let* _ := write_all [SqWire.SQ_AUTHENTICATE] in
  write_all credential.

Definition authenticate (env : Attempt) (a : ClientAuthentication) : Result unit :=
  match a with
  | Jls => check_jls (handshake env)
  | Sunny credential =>
      match auth_stream env with
      | inl e => Err (Connection e)
      | inr send =>
          let? _ := (send_credential credential send).1 in
          match finish_error env with
          | Some e => Err (Protocol e)
          | None => Ok tt
          end
      end
  end.

(** [Client::connection_state] when the cache has no healthy connection. *)
Definition establish (env : Attempt) : M State ClientConnection := fun self =>
  match connect_error env, connecting env with
  | Some e, _ => (Err (Connect e), self)
  | None, Some e => (Err (Connection e), self)
  | None, None =>
      let (applied, h) := SqServer.apply_congestion (at_time env) (quic env)
                            (congestion (client self)) (controllers self) in
      let configured := {| client := client self; controllers := h |} in
      match applied with
      | Err e => (Err e, configured)
      | Ok _ =>
          match authenticate env (authentication (client self)) with
          | Err e => (Err e, configured)
          | Ok _ =>
              let c := {| id := new_id env;
                          receiving := match authentication (client self) with
                                       | Sunny _ => true
                                       | Jls => false
                                       end |} in
              (Ok c, {| client := {| congestion := congestion (client self);
                                     authentication := authentication (client self);
                                     connection := Some c |};
                        controllers := h |})
          end
      end
  end.

(** [Client::connection_state]. *)
Definition connection_state (env : Attempt) : M State ClientConnection := fun self =>
  match connection (client self) with
  | Some c => match close_reason env (id c) with
              | None => (Ok c, self)
              | Some _ => establish env self
              end
  | None => establish env self
  end.

(** [Client::connect] on an open stream. *)
Definition request_connect (destination : Address.Address) : M SendHalf unit :=
  let* request := mlift (SqWire.encode_connect destination) in
  let* _ := write_all request in
  flush.

(** [Client::associate] on an open stream. *)
Definition request_associate (destination : Address.Address) (over_stream : bool)
    : M SendHalf unit :=
  let* _ := write_all [if over_stream then SqWire.SQ_ASSOCIATE_OVER_STREAM
                       else SqWire.SQ_ASSOCIATE_OVER_DATAGRAM] in
  let* address := mlift (SqWire.encode_address destination) in
  let* _ := write_all address in
  flush.

Definition connect (env : Attempt) (open_bi : nat -> ConnectionError + (SendHalf * RecvHalf))
    (destination : Address.Address) : M State (SendHalf * RecvHalf) :=
  let* c := connection_state env in
  mlift
    match open_bi (id c) with
    | inl e => Err (Connection e)
    | inr (send, recv) =>
        match request_connect destination send with
        | (Err e, _) => Err e
        | (Ok _, send) => Ok (send, recv)
        end
    end.

(** [Client::associate]: the association continues ids at [next_udp_id];
    its control stream starts after the request, and the peer's control
    stream is read by a task that registers in the client's registry. *)
Definition associate (env : Attempt) (open_bi : nat -> ConnectionError + (SendHalf * RecvHalf))
    (next_udp_id : Z) (destination : Address.Address) (over_stream : bool)
    : M State (SqUdp.Sender * RecvHalf) :=
  let* c := connection_state env in
  mlift
    match open_bi (id c) with
    | inl e => Err (Connection e)
    | inr (send, recv) =>
        match request_associate destination over_stream send with
        | (Err e, _) => Err e
        | (Ok _, send) =>
            Ok (SqUdp.new_sender (if over_stream then SqUdp.Stream else SqUdp.Datagram)
                  next_udp_id send, recv)
        end
    end.

(** [Client::congestion_kind]; [quic_of] is the QUIC connection of a cached
    one. *)
Definition congestion_kind (quic_of : nat -> Congestion.Connection Ctl) (self : State)
    : option Congestion.CongestionKind :=
  match connection (client self) with
  | Some c => Congestion.connection_congestion_kind (quic_of (id c)) (controllers self)
  | None => None
  end.

(** The receiver task is spawned exactly for SunnyQUIC. *)
Lemma receiving_sunny env self c self' :
  establish env self = (Ok c, self') ->
  receiving c = true <-> exists credential, authentication (client self) = Sunny credential.
Proof.
  unfold establish. destruct (connect_error env); [done|]. destruct (connecting env); [done|].
  destruct (SqServer.apply_congestion _ _ _ _) as [[u|e] h]; [|done].
  destruct (authenticate env (authentication (client self))); [|done]. intros [= <- <-]. simpl.
  destruct (authentication (client self)); split; [done|by intros []|by eauto|done].
Qed.
End Client.

(** ** The client against the server *)

Section EndToEnd.
Context `{DG : SqServer.Digest}.
Context {Ch Ac : Type} `{MC : Mpsc Ch SqUdp.Packet} `{MA : Mpsc Ac SqServer.Accepted}.

(** The server's task on the authentication stream. *)
Lemma login_handled (users : gmap bytes bytes) user source stats credential name snd e e' rest
    (s : SqServer.Conn Ch Ac) :
  length credential = 64%nat -> users !! credential = Some name ->
  SqServer.handle_bi_stream (SqServer.Sunny users) user source stats snd
    {| pending := written (send_credential credential (open_send [] e)).2 ++ rest; ending := e' |} s
  = Some (Ok tt, SqServer.with_auth s credential (inl name) None).
Proof.
  intros Hl Hu. unfold SqServer.handle_bi_stream.
  change (written (send_credential credential (open_send [] e)).2)
    with ([SqWire.SQ_AUTHENTICATE] ++ credential).
  rewrite <-app_assoc, quic_read_exact_app by done. cbv zeta. rewrite decide_True by done.
  unfold SqServer.on_authenticate. rewrite quic_read_exact_app by done. by rewrite Hu.
Qed.

(** A SunnyQUIC client gets its streams through.  When the server's
    table holds the client's credential, the stream that the client opens
    first authenticates the connection as that user, and a stream it then
    opens to a destination is handed over for that user, to that destination
    in normal form, positioned at the first application byte. *)
Lemma client_served us username password name source stats snd dest frame payload e e'
    ending1 ending2 (s : SqServer.Conn Ch Ac)
    (Huser : SqServer.sunny_users us !! SqServer.sunny_credential username password = Some name)
    (Hwf : Address.wf dest) (Henc : SqWire.encode_address dest = Ok frame)
    (Halive : alive (SqServer.accepted s) = true)
    (Hroom : (length (queued (SqServer.accepted s)) < capacity (SqServer.accepted s))%nat) :
  let users := SqServer.sunny_users us in
  let login := (send_credential (SqServer.sunny_credential username password) (open_send [] e)).2 in
  let request := (request_connect dest (open_send [] e)).2 in
  exists s1 s2,
    SqServer.handle_bi_stream (SqServer.Sunny users) [] source stats snd
      {| pending := written login; ending := ending1 |} s = Some (Ok tt, s1) /\
    SqServer.wait_for_sunny_auth (SqServer.Sunny users) s1 = Some (Ok name) /\
    SqServer.handle_bi_stream (SqServer.Sunny users) [] source stats (open_send [] e')
      {| pending := written request ++ payload; ending := ending2 |} s1 = Some (Ok tt, s2) /\
    queued (SqServer.accepted s2) = queued (SqServer.accepted s) ++
      [SqServer.AcceptedStream (open_send [] e', {| pending := payload; ending := ending2 |})
         (SqWire.normalize dest) name source].
Proof.
  intros users login request.
  pose proof (login_handled users [] source stats _ name snd e ending1 [] s
    (SqServer.length_credential username password) Huser) as Hlogin.
  rewrite app_nil_r in Hlogin. fold login in Hlogin.
  assert (written request = [SqWire.SQ_CONNECT] ++ frame) as Hreq.
  { unfold request, request_connect, SqWire.encode_connect. by rewrite Henc. }
  set (s1 := SqServer.with_auth s _ (inl name) None) in *.
  assert (exists ac, send_wait (SqServer.AcceptedStream
    (open_send [] e', {| pending := payload; ending := ending2 |}) (SqWire.normalize dest)
    name source) (SqServer.accepted s1) = Some (true, ac)) as [ac Hac].
  { unfold send_wait. simpl. rewrite Halive, bool_decide_true by done. eauto. }
  exists s1, (SqServer.with_accepted s1 ac). split_and!; [exact Hlogin|done| |].
  - unfold SqServer.handle_bi_stream. rewrite Hreq, <-app_assoc, quic_read_exact_app by done.
    cbv zeta. rewrite decide_False, decide_True by done. simpl SqServer.wait_for_sunny_auth.
    cbv iota beta. unfold SqServer.on_connect.
    rewrite (SqWire.encode_decode dest frame Hwf Henc). rewrite SqServer.tag_nil.
    fold s1. by rewrite Hac.
  - by apply send_wait_spec in Hac as (Hq & _).
Qed.
End EndToEnd.

End SqClient.
