(* ===== verification/SqEnds.v ===== *)
(** * The two ends of a ShadowQuic connection

    A client and a server of [src/src/shadowquic/mod.rs] composed for UDP: what
    one end sends ([SqShared]) reaches the applications of the other, through
    the server's connection ([SqServer]) and the client's receiver task
    ([SqReceiver]). *)

From Stdlib Require Import ZArith Lia.
From stdpp Require Import base gmap list strings relations.
From S2P Require Import Prelude Error Net Address Channels SqWire SqUdp SqTasks SqShared SqServer SqReceiver SqClient SqRelay.

#[local] Open Scope Z_scope.
#[local] Open Scope rust_scope.

Module SqEnds.
Import SqUdp SqShared SqRelay.

(** ** From the client to the server *)

(** What the tasks for UDP see of a run of the server. *)
Definition udp_event (e : SqServer.Event) : SqTasks.Event :=
  match e with
  | SqServer.Bi _ (Some recv) => SqTasks.Opened recv
  | SqServer.Bi _ None => SqTasks.Inner
  | SqServer.Udp e => e
  end.

(** The streams that opened associations. *)
Definition openers (tr : list SqServer.Event) : list RecvHalf :=
  omap (fun e => match e with SqServer.Bi recv (Some _) => Some recv | _ => None end) tr.

(** The requests of [Client::associate]: a destination, and whether the
    association is to use streams. *)
Definition mode_of (x : Address.Address * bool) : UdpMode := if x.2 then Stream else Datagram.

Definition control_stream (e : Error) (x : Address.Address * bool) : SendHalf :=
  (SqClient.request_associate x.1 x.2 (open_send [] e)).2.

(** A run of the server that takes in what a client sent: each of its
    streams at most once and perhaps cut off, and some of its datagrams. *)
Record from_client (st : Shared) (ns : list nat) (xs : list (nat * nat)) (tr : list SqServer.Event)
    : Prop := {
  fc_control : Forall2 (fun i recv => exists s, associations st !! i = Some s /\
                 pending recv `prefix_of` written (control s)) ns (openers tr);
  fc_control_once : NoDup ns;
  fc_stream : Forall2 (stream_of st) xs (incoming (udp_event <$> tr));
  fc_stream_once : NoDup xs;
  fc_datagram : arrivals (udp_event <$> tr) ⊆+ concat (datagrams <$> associations st);
}.

(** What the server reads of a request for an association. *)
Definition request_mode (opcode : bytes) : M RecvHalf UdpMode :=
  if decide (opcode = [SqWire.SQ_ASSOCIATE_OVER_DATAGRAM]) then mret Datagram
  else if decide (opcode = [SqWire.SQ_ASSOCIATE_OVER_STREAM]) then mret Stream
  else mfail Closed.

Definition read_request : M RecvHalf (UdpMode * Address.Address) :=
  let* opcode := quic_read_exact 1 in
  let* mode := request_mode opcode in
  let* destination := SqWire.decode_address in
  mret (mode, destination).

Lemma read_request_stable : stable read_request.
Proof.
  unfold read_request, request_mode, SqWire.decode_address, SqWire.read_host, SqWire.read_byte, quic_read_exact.
  repeat first [apply mbind_stable; [|intros]|case_decide|case_match]; eauto with consumes.
Qed.

Lemma request_written e x f :
  Address.wf x.1 -> SqWire.encode_address x.1 = Ok f ->
  reads read_request (written (control_stream e x)) (mode_of x, SqWire.normalize x.1).
Proof.
  intros Hwf Hf.
  assert (written (control_stream e x)
          = [if x.2 then SqWire.SQ_ASSOCIATE_OVER_STREAM else SqWire.SQ_ASSOCIATE_OVER_DATAGRAM] ++ f) as ->.
  { unfold control_stream, SqClient.request_associate, mlift. unfold mbind. rewrite Hf. by destruct x.2. }
  eapply reads_bind; [by apply reads_quic_exact|]. rewrite <-(app_nil_l f).
  eapply reads_bind; [|rewrite <-(app_nil_r f); eapply reads_bind; [by apply SqWire.encode_decode|]; apply reads_ret].
  unfold mode_of. by destruct x.2.
Qed.

Section Server.
Context {Ch Ac : Type} `{MC : Mpsc Ch Packet} `{MA : Mpsc Ac SqServer.Accepted}.
Variable authentication : SqServer.ServerAuthentication.
Variable user : bytes.
Variable source : Net.SocketAddr.
Implicit Types s : SqServer.Conn Ch Ac.

(** The association that an item hands over: its channel, mode and
    destination. *)
Definition hands (a : SqServer.Accepted) : option (nat * UdpMode * Address.Address) :=
  match a with
  | SqServer.AcceptedPacket c md _ d _ _ => Some (c, md, d)
  | SqServer.AcceptedStream _ _ _ _ => None
  end.

Lemma associate_udp md u snd rcv s r s' :
  SqServer.on_associate user source md u snd rcv s = Some (r, s') ->
  (SqServer.udp s' = SqServer.udp s /\ queued (SqServer.accepted s') = queued (SqServer.accepted s)) \/
  exists d rest a, SqWire.decode_address rcv = (Ok d, rest) /\
    SqServer.udp s' = SqTasks.associated rest (SqServer.udp s) /\
    queued (SqServer.accepted s') = queued (SqServer.accepted s) ++ [a] /\
    hands a = Some (SqTasks.next_chan (SqServer.udp s), md, d).
Proof.
  unfold SqServer.on_associate. destruct (SqWire.decode_address rcv) as [[d|e] rest]; [|intros [= <- <-]; by left].
  destruct (send_wait _ _) as [[[] ac]|] eqn:Ew; [| |done]; intros [= <- <-];
    apply send_wait_spec in Ew as (Hq & _); [right|left; done].
  eexists d, rest, _. by split_and!.
Qed.

(** A bidirectional stream opens an association, or leaves UDP alone. *)
Lemma bi_udp stats snd rcv s r s' :
  SqServer.handle_bi_stream authentication user source stats snd rcv s = Some (r, s') ->
  (SqServer.udp s' = SqServer.udp s /\
   forall a, a ∈ queued (SqServer.accepted s') -> a ∈ queued (SqServer.accepted s) \/ hands a = None) \/
  exists md d rest a, read_request rcv = (Ok (md, d), rest) /\
    SqServer.udp s' = SqTasks.associated rest (SqServer.udp s) /\
    queued (SqServer.accepted s') = queued (SqServer.accepted s) ++ [a] /\
    hands a = Some (SqTasks.next_chan (SqServer.udp s), md, d).
Proof.
  unfold SqServer.handle_bi_stream, read_request. unfold mbind at 1.
  destruct (quic_read_exact 1 rcv) as [[op|e] rcv']; [|intros [= <- <-]; left; auto]. cbv zeta.
  case_decide as H1.
  { unfold SqServer.on_authenticate. repeat case_match; intros; simplify_eq/=; left; auto. }
  case_decide as H2.
  { destruct (SqServer.wait_for_sunny_auth _ s) as [[u|e]|]; [|intros [= <- <-]; left; auto|done].
    unfold SqServer.on_connect. destruct (SqWire.decode_address rcv') as [[d|e] rest]; [|intros [= <- <-]; left; auto].
    destruct (send_wait _ _) as [[[] ac]|] eqn:Ew; [| |done]; intros [= <- <-]; left; (split; [done|]);
      intros a Ha; destruct (SqServer.queued_send _ _ _ _ _ Ew Ha) as [| ->]; auto. }
  assert (forall md, request_mode op rcv' = (Ok md, rcv') ->
    forall u, SqServer.on_associate user source md u snd rcv' s = Some (r, s') ->
    (SqServer.udp s' = SqServer.udp s /\
     forall a, a ∈ queued (SqServer.accepted s') -> a ∈ queued (SqServer.accepted s) \/ hands a = None) \/
    exists md d rest a, (let* mode := request_mode op in let* destination := SqWire.decode_address in
                         mret (mode, destination)) rcv' = (Ok (md, d), rest) /\
      SqServer.udp s' = SqTasks.associated rest (SqServer.udp s) /\
      queued (SqServer.accepted s') = queued (SqServer.accepted s) ++ [a] /\
      hands a = Some (SqTasks.next_chan (SqServer.udp s), md, d)) as Hassoc.
  { intros md Hmd u [[E1 E2]|(d & rest & a & Hd & H)]%associate_udp.
    - left. split; [done|]. rewrite E2. auto.
    - right. exists md, d, rest, a. split; [|done]. rewrite (mbind_ok _ _ _ _ _ Hmd). by rewrite (mbind_ok _ _ _ _ _ Hd). }
  case_decide as H3.
  { destruct (SqServer.wait_for_sunny_auth _ s) as [[u|e]|]; [|intros [= <- <-]; left; auto|done].
    apply Hassoc. unfold request_mode. by rewrite decide_True. }
  case_decide as H4.
  { destruct (SqServer.wait_for_sunny_auth _ s) as [[u|e]|]; [|intros [= <- <-]; left; auto|done].
    apply Hassoc. unfold request_mode. by rewrite decide_False, decide_True. }
  clear Hassoc. case_decide.
  { destruct (SqServer.wait_for_sunny_auth _ s) as [[u|e]|]; [|intros [= <- <-]; left; auto|done].
    unfold SqServer.handle_extension. repeat case_match; intros; simplify_eq/=; left; auto. }
  intros [= <- <-]. left. auto.
Qed.

Lemma turn_next e (u u' : SqTasks.Udp Ch) :
  SqTasks.turn e u u' -> SqServer.inner e = true -> SqTasks.next_chan u' = SqTasks.next_chan u.
Proof.
  intros Ht He. destruct Ht as [recv u|l1 t l2 u E|f r u u' E|l1 t l2 r u u' Es E|recv r u u' E|l1 t l2 u u' Eu E
    |c p u u' E|c e u u' E|c u|u|e u Hl Hcl|u]; try done; revert E;
    unfold SqTasks.control_round, SqTasks.send_routed, SqTasks.stream_round, SqTasks.recv_packet;
    repeat case_match; intros; by simplify_eq.
Qed.

Lemma openers_snoc tr e :
  openers (tr ++ [e]) = openers tr ++ match e with SqServer.Bi recv (Some _) => [recv] | _ => [] end.
Proof. unfold openers at 1. rewrite omap_app. by destruct e as [recv [rest|]|e]. Qed.

(** A run of the server as its UDP tasks see it. *)
Record seen_by_udp (tr : list SqServer.Event) s : Prop := {
  u_run : SqTasks.run (udp_event <$> tr) SqTasks.no_udp (SqServer.udp s);
  u_openers : Forall2 (fun recv rest => exists x, read_request recv = (Ok x, rest))
                (openers tr) (openings (udp_event <$> tr));
  u_next : SqTasks.next_chan (SqServer.udp s) = length (openers tr);
  u_items a c md d : a ∈ queued (SqServer.accepted s) -> hands a = Some (c, md, d) ->
    exists recv rest, openers tr !! c = Some recv /\ read_request recv = (Ok (md, d), rest);
}.

(** Steps that are turns of the UDP tasks and hand over no association. *)
Lemma seen_turn tr e s s' :
  seen_by_udp tr s -> (forall recv rest, e <> SqServer.Bi recv (Some rest)) ->
  SqTasks.turn (udp_event e) (SqServer.udp s) (SqServer.udp s') ->
  (forall recv, udp_event e <> SqTasks.Opened recv) ->
  SqTasks.next_chan (SqServer.udp s') = SqTasks.next_chan (SqServer.udp s) ->
  (forall a, a ∈ queued (SqServer.accepted s') -> a ∈ queued (SqServer.accepted s) \/ hands a = None) ->
  seen_by_udp (tr ++ [e]) s'.
Proof.
  intros [H1 H2 H3 H4] Hno Ht Hno' Hnext Hitems.
  assert (openers (tr ++ [e]) = openers tr) as Eo.
  { rewrite openers_snoc. destruct e as [recv [rest|]|e]; [by destruct (Hno recv rest)|apply app_nil_r..]. }
  split; rewrite ?fmap_app, ?Eo.
  - by eapply SqTasks.run_snoc.
  - simpl. rewrite openings_snoc. destruct (udp_event e) as [recv| | | |]; [by destruct (Hno' recv)|by rewrite app_nil_r..].
  - congruence.
  - intros a c md d Ha Hh. destruct (Hitems a Ha) as [Hold|Hn]; [by eapply H4|congruence].
Qed.

Lemma seen_run tr ac s :
  SqServer.run authentication user source tr (SqServer.initial ac) s -> queued ac = [] ->
  seen_by_udp tr s.
Proof.
  intros Hrun Hac. remember (SqServer.initial ac) as s0 eqn:E0.
  induction Hrun as [s0|tr e s0 s s' Hrun IH Ht|tr a ac' s0 s Hrun IH Hr]; subst.
  - split; [constructor|constructor|done|]. simpl. rewrite Hac. by intros a c md d ?%elem_of_nil.
  - specialize (IH eq_refl). destruct Ht as [stats snd rcv r s s' E|d r s s' E|rcv r s s' E|e s Hl Hcl|e u s He Ht].
    + apply bi_udp in E as [[Eu Hitems]|(md & d & rest & a & Hreq & Eu & Hq & Hh)].
      * assert (SqServer.opened_by s s' = None) as -> by (unfold SqServer.opened_by; by rewrite Eu, decide_True).
        apply (seen_turn tr _ s s' IH); try done; rewrite Eu; [apply SqTasks.turn_none|done].
      * assert (SqServer.opened_by s s' = Some rest) as ->.
        { unfold SqServer.opened_by. rewrite Eu. rewrite decide_False by (simpl; lia). simpl. by rewrite last_snoc. }
        destruct IH as [H1 H2 H3 H4]. split; rewrite ?fmap_app, ?openers_snoc; simpl.
        -- eapply SqTasks.run_snoc; [done|]. rewrite Eu. apply SqTasks.turn_opened.
        -- rewrite openings_snoc. simpl. apply Forall2_app; [done|]. constructor; [by eexists|constructor].
        -- rewrite Eu. simpl. rewrite H3, length_app. simpl. lia.
        -- intros a' c' md' d'. rewrite Hq. intros [Ha| ->%list_elem_of_singleton]%elem_of_app Hh'.
           ++ destruct (H4 a' c' md' d' Ha Hh') as (recv & rest' & Hrc & Hrd). exists recv, rest'.
              split; [by apply lookup_app_l_Some|done].
           ++ rewrite Hh in Hh'. injection Hh' as <- <- <-. exists rcv, rest. rewrite H3.
              split; [by apply list_lookup_middle|done].
    + revert E. unfold SqServer.on_datagram, SqServer.seen.
      destruct (SqServer.wait_for_sunny_auth authentication s) as [[v|e]|]; [|intros [= <- <-]|done].
      * destruct (SqTasks.route_datagram d (SqServer.udp s)) as [[r' u]|] eqn:Er; [|done]. intros [= <- <-].
        apply (seen_turn tr _ s _ IH); try done; [by eapply SqTasks.turn_arrived| |by left].
        revert Er. unfold SqTasks.route_datagram. repeat case_match; intros; by simplify_eq.
      * apply (seen_turn tr _ s s IH); try done; [apply SqTasks.turn_none|by left].
    + revert E. unfold SqServer.on_uni_stream, SqServer.seen.
      destruct (SqServer.wait_for_sunny_auth authentication s) as [[v|e]|]; [|intros [= <- <-]|done].
      * destruct (SqTasks.route_stream rcv (SqServer.udp s)) as [[r' u]|] eqn:Er; [|done]. intros [= <- <-].
        apply (seen_turn tr _ s _ IH); try done; [by eapply SqTasks.turn_incoming| |by left].
        revert Er. unfold SqTasks.route_stream. repeat case_match; intros; by simplify_eq.
      * apply (seen_turn tr _ s s IH); try done; [apply SqTasks.turn_none|by left].
    + apply (seen_turn tr _ s s IH); try done; unfold SqServer.seen; simpl.
      * destruct (SqServer.wait_for_sunny_auth _ s) as [[?|?]|]; [by apply SqTasks.turn_late|apply SqTasks.turn_none..].
      * destruct (SqServer.wait_for_sunny_auth _ s) as [[?|?]|], e; done.
      * by left.
    + apply (seen_turn tr _ s _ IH); try done; [by simpl; intros recv ->|by eapply turn_next|by left].
  - specialize (IH eq_refl). destruct IH as [H1 H2 H3 H4]. split; try done. intros a' c md d Ha.
    apply H4. pose proof (recv_spec (SqServer.accepted s)) as Hs. rewrite Hr in Hs. destruct Hs as (-> & _). by right.
Qed.
End Server.

(** What the server reads of a request is the request, and what follows is
    the control stream. *)
Lemma request_of_client e requests log g st i s recv y rest :
  shared_ok 0 (mode_of <$> requests) (control_stream e <$> requests) log g st ->
  Forall (fun x => Address.wf x.1 /\ is_ok (SqWire.encode_address x.1) = true) requests ->
  associations st !! i = Some s -> pending recv `prefix_of` written (control s) ->
  read_request recv = (Ok y, rest) ->
  control_of (control_stream e <$> requests) st i rest /\
  exists x, requests !! i = Some x /\ y = (mode_of x, SqWire.normalize x.1).
Proof.
  intros Hst Hreq Hi [more Hmore] Hrd.
  destruct (s_assoc _ _ _ _ _ _ Hst i s Hi) as (md & c & _ & Hc & [_ _ (l & Hw & _) _ _ _ _ _ _ _]).
  simpl in Hw. pose proof Hc as Hc'. rewrite list_lookup_fmap in Hc'. apply fmap_Some in Hc' as (x & Hx & ->).
  destruct (Forall_lookup_1 _ _ _ _ Hreq Hx) as [Hwf Henc].
  destruct (SqWire.encode_address x.1) as [f|] eqn:Ef; [|done].
  set (tail := concat (entry_bytes <$> owned 0 g i) ++ l) in Hw.
  destruct recv as [pe en], rest as [pe' en']. simpl in Hmore.
  apply (read_request_stable _ _ _ _ _ more) in Hrd. rewrite <-Hmore, Hw in Hrd.
  rewrite (request_written e x f Hwf Ef) in Hrd. injection Hrd as <- Ht <-. split; [|by exists x].
  exists s, (control_stream e x). split_and!; try done. rewrite Hw, drop_app_length. simpl. by exists more.
Qed.

(** C7: UDP over ShadowQuic and SunnyQUIC from a client to its server.  A
    client opens associations on a connection and sends over them, in any
    order, with any of the sends failing midway.  Of its streams each may be
    cut off, of its datagrams some may be lost and others overtaken.  However
    the server's tasks, other streams of the client and the application
    interleave, every association that the server opened relays its own
    packets, each once, in order where streams are used, and none is missing
    when everything has come in and been worked off, as long as the connection
    takes at most 65536 ids; and an association is handed over with the mode
    and the destination that the client asked for. *)
Theorem server_relays {Ch Ac} `{MC : Mpsc Ch Packet} `{MA : Mpsc Ac SqServer.Accepted}
    authentication user source e requests log st (ac : Ac) tr (s : SqServer.Conn Ch Ac) ns xs
    (Hrequests : Forall (fun x => Address.wf x.1 /\ is_ok (SqWire.encode_address x.1) = true) requests)
    (Htraffic : traffic (opened 0 (mode_of <$> requests) (control_stream e <$> requests)) log st)
    (Hwf : Forall (fun x => Address.wf (destination (packet x))) log)
    (Hmany : ids_taken log <= 65536) (Hac : queued ac = [])
    (Hrun : SqServer.run authentication user source tr (SqServer.initial ac) s)
    (Hpeer : from_client st ns xs tr) :
  (forall c i x sd, ns !! c = Some i -> requests !! i = Some x -> associations st !! i = Some sd ->
     relays (control_stream e x) sd (packets_of i log) xs (udp_event <$> tr) (SqServer.udp s) c i) /\
  (forall a c md d, a ∈ queued (SqServer.accepted s) -> hands a = Some (c, md, d) ->
     exists i x, ns !! c = Some i /\ requests !! i = Some x /\ md = mode_of x /\
       d = SqWire.normalize x.1).
Proof.
  destruct (traffic_ok 0 _ _ _ _ ltac:(split; done) Hwf Htraffic) as [g Hst].
  rewrite <-(s_ids _ _ _ _ _ _ Hst) in Hmany.
  destruct (seen_run authentication user source tr ac s Hrun Hac) as [Hudp Hopen _ Hitems].
  destruct Hpeer as [H1 H2 H3 H4 H5].
  assert (fed (control_stream e <$> requests) st ns xs (udp_event <$> tr)) as Hfed.
  { split; try done. eapply Forall2_compose; [|exact H1|exact Hopen].
    intros i recv rest (sd & Hsd & Hpre) [y Hy]. by eapply request_of_client. }
  split.
  - intros c i x sd Hc Hx Hsd. apply (inv_relays 0 _ _ _ _ g Hst Hmany ns xs _ _ Hfed c i sd Hc Hsd _ Hudp).
    by rewrite list_lookup_fmap, Hx.
  - intros a c md d Ha Hh. destruct (Hitems a c md d Ha Hh) as (recv & rest & Hrecv & Hrd).
    destruct (Forall2_lookup_r _ _ _ _ _ H1 Hrecv) as (i & Hi & sd & Hsd & Hpre).
    destruct (request_of_client _ _ _ _ _ _ _ _ _ _ Hst Hrequests Hsd Hpre Hrd) as [_ (x & Hx & E)].
    injection E as -> ->. by exists i, x.
Qed.

(** ** From the server to the client *)

(** [tr'] is what the tasks of a client have seen of the run [tr]: all of it
    but the datagrams and streams that the receiver task has yet to take, and
    the streams whose tasks wait for a route. *)
Record seen_by_client {Ch} (tr tr' : list SqTasks.Event) (r : SqReceiver.Receiver Ch) : Prop := {
  v_openings : openings tr' = openings tr;
  v_taken c : taken c tr' = taken c tr;
  v_arrivals : arrivals tr = arrivals tr' ++ SqReceiver.ahead r;
  v_incoming : incoming tr ≡ₚ incoming tr' ++ SqReceiver.spawned r ++ SqReceiver.uni_inbox r;
}.

Section Client.
Context {Ch : Type} `{MC : Mpsc Ch Packet}.
Implicit Types r : SqReceiver.Receiver Ch.

(** The events of a run that grows on either side. *)
Ltac seen :=
  split; intros; rewrite ?openings_snoc, ?arrivals_snoc, ?incoming_snoc, ?taken_snoc, ?app_nil_r.

(** A step of the other tasks, which the receiver task does not see. *)
Lemma client_beside tr tr' e r u :
  SqTasks.run tr' SqTasks.no_udp (SqReceiver.udp r) -> seen_by_client tr tr' r ->
  match e with SqTasks.Arrived _ | SqTasks.Incoming _ => False | _ => True end ->
  SqTasks.turn e (SqReceiver.udp r) u ->
  exists tr'', SqTasks.run tr'' SqTasks.no_udp u /\
    seen_by_client (tr ++ [e]) tr'' (SqReceiver.with_tasks r (SqReceiver.spawned r) u).
Proof.
  intros Hu [H1 H2 H3 H4] He Ht. exists (tr' ++ [e]). split; [by eapply SqTasks.run_snoc|].
  destruct e as [recv|d|recv|c p|]; try done; seen; try done; by rewrite ?H1, ?H2.
Qed.

(** The tasks of a client take the turns of [SqTasks.turn]. *)
Lemma client_loop tr tr' r r' :
  SqTasks.run tr' SqTasks.no_udp (SqReceiver.udp r) -> seen_by_client tr tr' r -> SqReceiver.loop r r' ->
  exists tr'', SqTasks.run tr'' SqTasks.no_udp (SqReceiver.udp r') /\ seen_by_client tr tr'' r'.
Proof.
  intros Hu [H1 H2 H3 H4] Hl. unfold SqReceiver.ahead in H3.
  destruct Hl as [d rest r [Hn Hi] Hin|d e u r Hh Hm|t e u r Hh Ht Hm|s rest r [Hn Hi] Hun].
  - exists tr'. split; [done|]. rewrite Hn, Hin in H3. by split.
  - exists (tr' ++ [SqTasks.Arrived d]). split; [eapply SqTasks.run_snoc; [done|by eapply SqTasks.turn_arrived]|].
    rewrite Hh in H3. seen; try done. rewrite <-app_assoc. exact H3.
  - exists (tr' ++ [SqTasks.Inner]). split.
    + eapply SqTasks.run_snoc; [done|]. by apply (SqTasks.turn_sent [] t [] e).
    + rewrite Hh in H3. by seen.
  - exists tr'. split; [done|]. split; try done. simpl. rewrite H4, Hun. by rewrite <-(app_assoc (SqReceiver.spawned r)).
Qed.

Lemma client_others tr tr' e r r' :
  SqTasks.run tr' SqTasks.no_udp (SqReceiver.udp r) -> seen_by_client tr tr' r -> SqReceiver.others e r r' ->
  exists tr'', SqTasks.run tr'' SqTasks.no_udp (SqReceiver.udp r') /\ seen_by_client (tr ++ [e]) tr'' r'.
Proof.
  intros Hu Hseen Ho. pose proof Hseen as [H1 H2 H3 H4].
  destruct Ho as [d r|s r|recv r|l1 t l2 r Ec|s l1 l2 e u r Es Er|t l1 l2 u r Et Er
    |chan p u r Er|chan e u r Er|chan r].
  - exists tr'. split; [done|]. seen; try done. unfold SqReceiver.ahead in *. simpl. by rewrite H3, !app_assoc.
  - exists tr'. split; [done|]. seen; try done. rewrite H4. simpl. by rewrite <-!app_assoc.
  - by apply (client_beside tr tr'); [..|apply SqTasks.turn_opened].
  - by apply (client_beside tr tr'); [..|apply SqTasks.turn_control].
  - exists (tr' ++ [SqTasks.Incoming s]). split; [eapply SqTasks.run_snoc; [done|by eapply SqTasks.turn_incoming]|].
    seen; try done. simpl. rewrite H4, Es. rewrite <-(Permutation_middle l1 l2 s). by rewrite <-(app_assoc _ [s]).
  - by apply (client_beside tr tr'); [..|eapply SqTasks.turn_stream].
  - by apply (client_beside tr tr'); [..|apply SqTasks.turn_took].
  - by apply (client_beside tr tr'); [..|eapply SqTasks.turn_ended].
  - by apply (client_beside tr tr'); [..|apply SqTasks.turn_dropped].
Qed.

Lemma client_run tr r :
  SqReceiver.run tr SqReceiver.start r ->
  exists tr', SqTasks.run tr' SqTasks.no_udp (SqReceiver.udp r) /\ seen_by_client tr tr' r.
Proof.
  intros Hrun. remember SqReceiver.start as r0 eqn:E0.
  induction Hrun as [r0|tr r0 r r' Hrun IH Hl|tr e r0 r r' Hrun IH Ho]; subst.
  - exists []. split; [constructor|]. by split.
  - destruct (IH eq_refl) as (tr' & Hu & Hs). by eapply client_loop.
  - destruct (IH eq_refl) as (tr' & Hu & Hs). by eapply client_others.
Qed.
End Client.

(** C8: UDP over SunnyQUIC from the server to its client.  The server sends
    over the associations of the connection in any order, with any of the
    sends failing midway; streams may be cut off, datagrams lost and
    overtaken.  However the client's receiver task, the tasks beside it and
    the application interleave, an association relays its own packets, as on
    the server, of what the receiver task has got to: of the datagrams those
    that came before the ones it still has ahead, and of the streams those
    whose tasks have found their route or failed. *)
Theorem client_relays {Ch} `{MC : Mpsc Ch Packet} modes ctls log st tr (r : SqReceiver.Receiver Ch) ns xs
    (Htraffic : traffic (opened 0 modes ctls) log st)
    (Hwf : Forall (fun x => Address.wf (destination (packet x))) log)
    (Hmany : ids_taken log <= 65536)
    (Hrun : SqReceiver.run tr SqReceiver.start r) (Hpeer : fed ctls st ns xs tr) :
  exists tr' xs', seen_by_client tr tr' r /\ xs' ⊆+ xs /\ Forall2 (stream_of st) xs' (incoming tr') /\
    forall c i ctl sd, ns !! c = Some i -> ctls !! i = Some ctl -> associations st !! i = Some sd ->
      relays ctl sd (packets_of i log) xs' tr' (SqReceiver.udp r) c i.
Proof.
  destruct (traffic_ok 0 _ _ _ _ ltac:(split; done) Hwf Htraffic) as [g Hst].
  rewrite <-(s_ids _ _ _ _ _ _ Hst) in Hmany.
  destruct (client_run tr r Hrun) as (tr' & Hudp & Hseen). destruct Hpeer as [H1 H2 H3 H4 H5].
  pose proof Hseen as [V1 V2 V3 V4].
  pose proof H3 as H3f%Forall2_flip. destruct (Permutation_Forall2 V4 H3f) as (xs0 & Hp & H3'%Forall2_flip).
  apply Forall2_app_inv_r in H3' as (xs' & rest & H3' & _ & ->).
  assert (xs' ⊆+ xs) as Hxs by (rewrite Hp; by apply submseteq_inserts_r).
  exists tr', xs'. split_and!; try done. intros c i ctl sd Hc Hctl Hsd.
  assert (fed ctls st ns xs' tr') as Hfed.
  2: exact (inv_relays 0 _ _ _ _ g Hst Hmany ns xs' tr' _ Hfed c i sd Hc Hsd ctl Hudp Hctl).
  split; try done.
  - by rewrite V1.
  - rewrite Hp in H4. by apply NoDup_app in H4 as [? _].
  - etrans; [|exact H5]. rewrite V3. by apply submseteq_inserts_r.
Qed.
(** ** Examples *)

Abbreviation ExChan := (ListChannel.Chan Packet).
Abbreviation ExUdp := (SqTasks.Udp ExChan).

(** Turns of the UDP tasks by number: the control stream, datagram or stream
    task that goes on, or the channel whose owner receives. *)
Inductive Order := ReadControl (n : nat) | SendOn (n : nat) | ReadStream (n : nat) | Take (c : nat).

Definition obey (o : Order) (u : ExUdp) : option (SqTasks.Event * ExUdp) :=
  match o with
  | ReadControl n =>
      t ← SqTasks.controls u !! n;
      Some (SqTasks.Inner, SqTasks.control_round t (take n (SqTasks.controls u)) (drop (S n) (SqTasks.controls u)) u)
  | SendOn n =>
      t ← SqTasks.sending u !! n;
      '(_, u) ← SqTasks.send_routed t (take n (SqTasks.sending u)) (drop (S n) (SqTasks.sending u)) u;
      Some (SqTasks.Inner, u)
  | ReadStream n =>
      t ← SqTasks.unis u !! n;
      u ← SqTasks.stream_round t (take n (SqTasks.unis u)) (drop (S n) (SqTasks.unis u)) u;
      Some (SqTasks.Inner, u)
  | Take c =>
      match SqTasks.recv_packet c u with
      | Some (Ok p, u) => Some (SqTasks.Took c p, u)
      | _ => None
      end
  end.

Lemma obey_turn o u e u' : obey o u = Some (e, u') -> SqTasks.turn e u u' /\ SqServer.inner e = true.
Proof.
  destruct o as [n|n|n|c]; simpl.
  - intros (t & Ht & [= <- <-])%bind_Some. split; [|done]. apply SqTasks.turn_control. symmetry. by apply take_drop_middle.
  - intros (t & Ht & ([r u1] & Hs & [= <- <-])%bind_Some)%bind_Some. split; [|done].
    eapply SqTasks.turn_sent; [|exact Hs]. symmetry. by apply take_drop_middle.
  - intros (t & Ht & (u1 & Hs & [= <- <-])%bind_Some)%bind_Some. split; [|done].
    eapply SqTasks.turn_stream; [|exact Hs]. symmetry. by apply take_drop_middle.
  - destruct (SqTasks.recv_packet c u) as [[[p|er] u1]|] eqn:E; try done. intros [= <- <-].
    split; [by apply SqTasks.turn_took|done].
Qed.

(** What the server is to do next. *)
Inductive Command :=
| Serve (recv : RecvHalf)
| Datagram_in (d : bytes)
| Uni_in (recv : RecvHalf)
| Turn (o : Order).

Abbreviation ExConn := (SqServer.Conn ExChan (ListChannel.Chan SqServer.Accepted)).

Definition perform (x : Command) (s : ExConn) : option (SqServer.Event * ExConn) :=
  let auth := SqServer.Jls in
  match x with
  | Serve recv =>
      '(_, s') ← SqServer.handle_bi_stream auth (str "alice") SqServer.example_source
                   SqServer.example_extension (open_send [] Closed) recv s;
      Some (SqServer.Bi recv (SqServer.opened_by s s'), s')
  | Datagram_in d =>
      '(_, s') ← SqServer.on_datagram auth d s;
      Some (SqServer.Udp (SqServer.seen auth s (SqTasks.Arrived d)), s')
  | Uni_in recv =>
      '(_, s') ← SqServer.on_uni_stream auth recv s;
      Some (SqServer.Udp (SqServer.seen auth s (SqTasks.Incoming recv)), s')
  | Turn o => '(e, u) ← obey o (SqServer.udp s); Some (SqServer.Udp e, SqServer.with_udp s u)
  end.

Fixpoint performed (xs : list Command) (tr : list SqServer.Event) (s : ExConn)
    : option (list SqServer.Event * ExConn) :=
  match xs with
  | [] => Some (tr, s)
  | x :: xs => '(e, s) ← perform x s; performed xs (tr ++ [e]) s
  end.

Lemma perform_task x s e s' :
  perform x s = Some (e, s') ->
  SqServer.task SqServer.Jls (str "alice") SqServer.example_source e s s'.
Proof.
  destruct x as [recv|d|recv|o]; simpl.
  - intros ([r s1] & H & [= <- <-])%bind_Some. by eapply SqServer.task_bi.
  - intros ([r s1] & H & [= <- <-])%bind_Some. by eapply SqServer.task_datagram.
  - intros ([r s1] & H & [= <- <-])%bind_Some. by eapply SqServer.task_uni.
  - intros ([e1 u] & [Ht Hi]%obey_turn & [= <- <-])%bind_Some. by apply SqServer.task_udp.
Qed.

Lemma performed_run xs : forall tr s0 s tr' s',
  SqServer.run SqServer.Jls (str "alice") SqServer.example_source tr s0 s ->
  performed xs tr s = Some (tr', s') ->
  SqServer.run SqServer.Jls (str "alice") SqServer.example_source tr' s0 s'.
Proof.
  induction xs as [|x xs IH]; intros tr s0 s tr' s' Hr; simpl; [by intros [= <- <-]|].
  intros ([e s1] & Hx%perform_task & Hrest)%bind_Some. eapply IH; [|exact Hrest]. by eapply SqServer.run_task.
Qed.

(** A datagram and a stream association of one connection; their sends
    alternate, and some fail. *)
Definition example_requests : list (Address.Address * bool) :=
  [({| Address.host := str "example.com"; Address.port := 53 |}, false);
   ({| Address.host := str "1.1.1.1"; Address.port := 53 |}, true)].

Definition example_sent : list Send * Shared :=
  run_on example_link SqShared.example_sends []
    (opened 0 (mode_of <$> example_requests) (control_stream Closed <$> example_requests)).

(** A control stream and a stream that arrive as a whole. *)
Definition whole_control (st : Shared) (i : nat) : RecvHalf :=
  {| pending := default [] ((fun s => written (control s)) <$> associations st !! i); ending := None |}.
Definition whole_stream (st : Shared) (x : nat * nat) : RecvHalf :=
  {| pending := default [] (s ← associations st !! x.1; written <$> streams s !! x.2); ending := None |}.

Definition some {A} (x : option A) : bool := match x with Some _ => true | None => false end.

Lemma whole_controls_arrive st ns :
  forallb (fun i => some (associations st !! i)) ns = true ->
  Forall2 (fun i recv => exists s, associations st !! i = Some s /\
             pending recv `prefix_of` written (control s)) ns (whole_control st <$> ns).
Proof.
  induction ns as [|i ns IH]; simpl; [constructor|]. intros [H1 H2]%andb_prop. constructor; [|by apply IH].
  unfold whole_control. simpl. destruct (associations st !! i) as [s|]; [|done]. by exists s.
Qed.

Lemma whole_streams_arrive st xs :
  forallb (fun x => some (s ← associations st !! x.1; streams s !! x.2)) xs = true ->
  Forall2 (stream_of st) xs (whole_stream st <$> xs).
Proof.
  induction xs as [|x xs IH]; simpl; [constructor|]. intros [H1 H2]%andb_prop. constructor; [|by apply IH].
  unfold stream_of, whole_stream. simpl. destruct (associations st !! x.1) as [s|]; [|done]. simpl in *.
  destruct (streams s !! x.2) as [half|] eqn:E; [|done]. by exists s, half.
Qed.

Definition example_datagram (n : nat) : bytes :=
  default [] (s ← associations example_sent.2 !! 0%nat; datagrams s !! n).

(** The second association is opened first, the datagrams overtake each
    other, and one of them is lost. *)
Definition example_commands : list Command :=
  [Serve (whole_control example_sent.2 1); Serve (whole_control example_sent.2 0);
   Turn (ReadControl 1); Turn (ReadControl 1); Datagram_in (example_datagram 2);
   Turn (ReadControl 0); Uni_in (whole_stream example_sent.2 (1, 0)%nat); Turn (ReadStream 0);
   Datagram_in (example_datagram 1); Turn (SendOn 1); Turn (Take 0); Turn (ReadControl 0);
   Turn (SendOn 0); Uni_in (whole_stream example_sent.2 (1, 1)%nat); Turn (ReadStream 0); Turn (ReadStream 1);
   Turn (Take 1); Turn (Take 0)].

Definition example_served : list SqServer.Event * ExConn :=
  default ([], SqServer.example_initial) (performed example_commands [] SqServer.example_initial).

Lemma example_traffic e requests :
  traffic (opened 0 (mode_of <$> requests) (control_stream e <$> requests))
    (run_on example_link SqShared.example_sends []
      (opened 0 (mode_of <$> requests) (control_stream e <$> requests))).1
    (run_on example_link SqShared.example_sends []
      (opened 0 (mode_of <$> requests) (control_stream e <$> requests))).2.
Proof. apply run_on_traffic; [intros half [= <-]; reflexivity|constructor]. Qed.

Lemma example_sends_wf st :
  Forall (fun x => Address.wf (destination (packet x))) (run_on example_link SqShared.example_sends [] st).1.
Proof.
  apply (run_on_packets (fun p => Address.wf (destination p))); [|by apply Forall_nil].
  unfold SqShared.example_sends. simpl.
  repeat (apply Forall_cons; split; [split_and!; [done|vm_compute; congruence..]|]). by apply Forall_nil.
Qed.

Lemma server_relays_witness :
  let tr := example_served.1 in
  let s := example_served.2 in
  data <$> taken 0 (udp_event <$> tr) = [str "one"; str "three"] /\
  data <$> taken 1 (udp_event <$> tr) = [str "two"] /\
  forall c i x sd, [1; 0]%nat !! c = Some i -> example_requests !! i = Some x ->
    associations example_sent.2 !! i = Some sd ->
    relays (control_stream Closed x) sd (packets_of i example_sent.1) [(1, 0); (1, 1)]%nat
      (udp_event <$> tr) (SqServer.udp s) c i.
Proof.
  intros tr s. split; [vm_compute; reflexivity|]. split; [vm_compute; reflexivity|].
  refine (proj1 (server_relays SqServer.Jls (str "alice") SqServer.example_source Closed
    example_requests example_sent.1 example_sent.2 (channel 256) tr s [1; 0]%nat [(1, 0); (1, 1)]%nat
    _ _ _ _ _ _ _)).
  - repeat (apply Forall_cons; split; [split; [split_and!; [done|vm_compute; congruence..]|reflexivity]|]).
    by apply Forall_nil.
  - apply example_traffic.
  - apply example_sends_wf.
  - vm_compute. congruence.
  - reflexivity.
  - apply (performed_run example_commands [] SqServer.example_initial SqServer.example_initial);
      [constructor|vm_compute; reflexivity].
  - split.
    + replace (openers tr) with (whole_control example_sent.2 <$> [1; 0]%nat) by (vm_compute; reflexivity).
      apply whole_controls_arrive. vm_compute. reflexivity.
    + by apply (bool_decide_eq_true_1 _).
    + replace (incoming (udp_event <$> tr)) with (whole_stream example_sent.2 <$> [(1, 0); (1, 1)]%nat)
        by (vm_compute; reflexivity).
      apply whole_streams_arrive. vm_compute. reflexivity.
    + by apply (bool_decide_eq_true_1 _).
    + apply (bool_decide_eq_true_1 _). vm_compute. reflexivity.
Defined.

(** What the client is to do next: the receiver task takes its turn, the
    network brings something, a stream task looks for its route, or another
    task goes on. *)
Inductive ClientCommand :=
| Loop
| Net_datagram (d : bytes)
| Net_stream (recv : RecvHalf)
| Associated (recv : RecvHalf)
| Route (n : nat)
| Beside (o : Order).

Abbreviation ExReceiver := (SqReceiver.Receiver ExChan).

Definition loop_turn (r : ExReceiver) : option ExReceiver :=
  match SqReceiver.handling r with
  | Some d => '(_, u) ← SqTasks.route_datagram d (SqReceiver.udp r); Some (SqReceiver.handled u r)
  | None =>
      match SqTasks.sending (SqReceiver.udp r), SqReceiver.inbox r, SqReceiver.uni_inbox r with
      | [t], _, _ =>
          '(_, u) ← SqTasks.send_routed t [] [] (SqReceiver.udp r); Some (SqReceiver.handled u r)
      | [], d :: rest, _ => Some (SqReceiver.take_datagram d rest r)
      | [], [], recv :: rest => Some (SqReceiver.accept_uni recv rest r)
      | _, _, _ => None
      end
  end.

Lemma loop_turn_loop r r' : loop_turn r = Some r' -> SqReceiver.loop r r'.
Proof.
  unfold loop_turn. destruct (SqReceiver.handling r) as [d|] eqn:Eh.
  { intros ([e u] & H & [= <-])%bind_Some. by eapply SqReceiver.loop_routed. }
  destruct (SqTasks.sending _) as [|t [|? ?]] eqn:Es; [|..|done].
  - destruct (SqReceiver.inbox r) as [|d rest] eqn:Ei.
    + destruct (SqReceiver.uni_inbox r) as [|recv rest] eqn:Eu; [done|]. intros [= <-]. by apply SqReceiver.loop_uni.
    + intros [= <-]. by apply SqReceiver.loop_take.
  - intros ([e u] & H & [= <-])%bind_Some. by eapply SqReceiver.loop_sent.
Qed.

Definition beside (o : Order) (r : ExReceiver) : option (SqTasks.Event * ExReceiver) :=
  match o with
  | SendOn _ => None
  | _ => '(e, u) ← obey o (SqReceiver.udp r);
         Some (e, SqReceiver.with_tasks r (SqReceiver.spawned r) u)
  end.

Definition execute (x : ClientCommand) (r : ExReceiver) : option (list SqTasks.Event * ExReceiver) :=
  match x with
  | Loop => r ← loop_turn r; Some ([], r)
  | Net_datagram d =>
      Some ([SqTasks.Arrived d],
            {| SqReceiver.inbox := SqReceiver.inbox r ++ [d]; SqReceiver.handling := SqReceiver.handling r;
               SqReceiver.uni_inbox := SqReceiver.uni_inbox r; SqReceiver.spawned := SqReceiver.spawned r;
               SqReceiver.udp := SqReceiver.udp r |})
  | Net_stream recv =>
      Some ([SqTasks.Incoming recv],
            {| SqReceiver.inbox := SqReceiver.inbox r; SqReceiver.handling := SqReceiver.handling r;
               SqReceiver.uni_inbox := SqReceiver.uni_inbox r ++ [recv];
               SqReceiver.spawned := SqReceiver.spawned r; SqReceiver.udp := SqReceiver.udp r |})
  | Associated recv =>
      Some ([SqTasks.Opened recv],
            SqReceiver.with_tasks r (SqReceiver.spawned r) (SqTasks.associated recv (SqReceiver.udp r)))
  | Route n =>
      recv ← SqReceiver.spawned r !! n;
      '(_, u) ← SqTasks.route_stream recv (SqReceiver.udp r);
      Some ([SqTasks.Inner],
            SqReceiver.with_tasks r (take n (SqReceiver.spawned r) ++ drop (S n) (SqReceiver.spawned r)) u)
  | Beside o => '(e, r) ← beside o r; Some ([e], r)
  end.

Lemma beside_others o r e r' : beside o r = Some (e, r') -> SqReceiver.others e r r'.
Proof.
  destruct o as [n|n|n|c]; simpl; try done.
  - intros ([e1 u] & (t & Ht & [= <- <-])%bind_Some & [= <- <-])%bind_Some. apply SqReceiver.others_control.
    symmetry. by apply take_drop_middle.
  - intros ([e1 u] & (t & Ht & (u1 & H & [= <- <-])%bind_Some)%bind_Some & [= <- <-])%bind_Some.
    eapply SqReceiver.others_turn; [|exact H]. symmetry. by apply take_drop_middle.
  - destruct (SqTasks.recv_packet c _) as [[[p|er] u]|] eqn:E; try done. intros [= <- <-].
    by apply SqReceiver.others_took.
Qed.

Lemma execute_run x tr r0 r es r' :
  SqReceiver.run tr r0 r -> execute x r = Some (es, r') -> SqReceiver.run (tr ++ es) r0 r'.
Proof.
  intros Hr. destruct x as [|d|recv|recv|n|o]; simpl.
  - intros (r1 & H%loop_turn_loop & [= <- <-])%bind_Some. rewrite app_nil_r. by eapply SqReceiver.run_loop.
  - intros [= <- <-]. eapply SqReceiver.run_others; [done|apply SqReceiver.others_datagram].
  - intros [= <- <-]. eapply SqReceiver.run_others; [done|apply SqReceiver.others_stream].
  - intros [= <- <-]. eapply SqReceiver.run_others; [done|apply SqReceiver.others_associate].
  - intros (recv & Hn & ([e u] & H & [= <- <-])%bind_Some)%bind_Some.
    eapply SqReceiver.run_others; [done|]. eapply SqReceiver.others_route; [|exact H].
    symmetry. by apply take_drop_middle.
  - intros ([e r1] & H%beside_others & [= <- <-])%bind_Some. by eapply SqReceiver.run_others.
Qed.

Fixpoint executed (xs : list ClientCommand) (tr : list SqTasks.Event) (r : ExReceiver)
    : option (list SqTasks.Event * ExReceiver) :=
  match xs with
  | [] => Some (tr, r)
  | x :: xs => '(es, r) ← execute x r; executed xs (tr ++ es) r
  end.

Lemma executed_run xs : forall tr r0 r tr' r',
  SqReceiver.run tr r0 r -> executed xs tr r = Some (tr', r') -> SqReceiver.run tr' r0 r'.
Proof.
  induction xs as [|x xs IH]; intros tr r0 r tr' r' Hr; simpl; [by intros [= <- <-]|].
  intros ([es r1] & Hx & Hrest)%bind_Some. eapply IH; [|exact Hrest]. by eapply execute_run.
Qed.

(** The server sends over the same associations, on its halves of their
    control streams. *)
Definition example_halves : list SendHalf := [open_send [] Closed; open_send [] Closed].

Definition example_answers : list Send * Shared :=
  run_on example_link SqShared.example_sends [] (opened 0 [Datagram; Stream] example_halves).

Lemma whole_controls_of ctls st ns :
  Forall (fun c => written c = []) ctls ->
  forallb (fun i => some (associations st !! i) && some (ctls !! i)) ns = true ->
  Forall2 (control_of ctls st) ns (whole_control st <$> ns).
Proof.
  intros Hc. induction ns as [|i ns IH]; simpl; [constructor|]. intros [H1 H2]%andb_prop.
  constructor; [|by apply IH]. unfold control_of, whole_control. simpl.
  destruct (associations st !! i) as [s|]; [|done]. destruct (ctls !! i) as [c|] eqn:E; [|done].
  exists s, c. by rewrite (Forall_lookup_1 _ _ _ _ Hc E).
Qed.

(** The second datagram comes first and waits for the control stream; the
    first waits behind it. *)
Definition example_client_commands : list ClientCommand :=
  let datagram n := default [] (s ← associations example_answers.2 !! 0%nat; datagrams s !! n) in
  [Associated (whole_control example_answers.2 0); Associated (whole_control example_answers.2 1);
   Net_datagram (datagram 1%nat); Loop; Net_datagram (datagram 0%nat);
   Beside (ReadControl 0); Beside (ReadControl 0); Loop; Loop; Loop; Loop; Loop;
   Net_stream (whole_stream example_answers.2 (1, 0)%nat); Loop; Beside (ReadControl 1); Route 0;
   Beside (ReadStream 0); Net_datagram (datagram 2%nat); Beside (ReadStream 0);
   Beside (Take 0); Beside (Take 0); Beside (Take 1)].

Definition example_received : list SqTasks.Event * ExReceiver :=
  default ([], SqReceiver.start) (executed example_client_commands [] SqReceiver.start).

Lemma client_relays_witness :
  let tr := example_received.1 in
  let r := example_received.2 in
  data <$> taken 0 tr = [str "two"; str "one"] /\ data <$> taken 1 tr = [str "one"] /\
  length (SqReceiver.inbox r) = 1%nat /\
  exists tr' xs', seen_by_client tr tr' r /\ xs' ⊆+ [(1, 0)]%nat /\
    Forall2 (stream_of example_answers.2) xs' (incoming tr') /\
    forall c i ctl sd, [0; 1]%nat !! c = Some i -> example_halves !! i = Some ctl ->
      associations example_answers.2 !! i = Some sd ->
      relays ctl sd (packets_of i example_answers.1) xs' tr' (SqReceiver.udp r) c i.
Proof.
  intros tr r. do 3 (split; [vm_compute; reflexivity|]).
  refine (client_relays [Datagram; Stream] example_halves example_answers.1 example_answers.2 tr r
    [0; 1]%nat [(1, 0)]%nat _ _ _ _ _).
  - apply run_on_traffic; [intros half [= <-]; reflexivity|constructor].
  - apply example_sends_wf.
  - vm_compute. congruence.
  - apply (executed_run example_client_commands [] SqReceiver.start SqReceiver.start);
      [constructor|vm_compute; reflexivity].
  - split.
    + replace (openings tr) with (whole_control example_answers.2 <$> [0; 1]%nat) by (vm_compute; reflexivity).
      apply whole_controls_of; [by repeat constructor|]. vm_compute. reflexivity.
    + by apply (bool_decide_eq_true_1 _).
    + replace (incoming tr) with (whole_stream example_answers.2 <$> [(1, 0)]%nat) by (vm_compute; reflexivity).
      apply whole_streams_arrive. vm_compute. reflexivity.
    + by apply (bool_decide_eq_true_1 _).
    + apply (bool_decide_eq_true_1 _). vm_compute. reflexivity.
Defined.
End SqEnds.
