(* ===== verification/SqConfig.v ===== *)
(** * Construction and configuration of ShadowQuic and SunnyQUIC endpoints

    The constructors of [src/src/shadowquic/mod.rs] ([Client::new],
    [Client::new_sunny], [Server::bind], [Server::bind_sunny] with the
    builders of their TLS configurations) and the updates of a running
    server.  rustls, rcgen and the QUIC adapter are parameters ([Tls]); the
    sockets are those of [Socket]. *)

From Stdlib Require Import ZArith Lia.
From stdpp Require Import base gmap list strings relations.
From S2P Require Import Prelude Error Net Address Channels Congestion Transport Socket SqWire SqUdp Hy2Server SqServer SqClient.

#[local] Open Scope Z_scope.
#[local] Open Scope rust_scope.

Module SqConfig.

(** ** Options *)

Record ClientOptions := {
  client_server : Net.SocketAddr;
  client_server_name : bytes;
  username : bytes;
  password : bytes;
  client_congestion : SqServer.CongestionConfig;
  client_zero_rtt : bool;
}.

Record SunnyClientOptions := {
  sunny_server : Net.SocketAddr;
  sunny_server_name : bytes;
  credential : bytes;
  ca_certificates : list bytes;
  sunny_client_congestion : SqServer.CongestionConfig;
  sunny_client_zero_rtt : bool;
}.

Record ServerOptions := {
  listen : Net.SocketAddr;
  users : list SqServer.User;
  server_name : option bytes;
  jls_upstream_addr : option bytes;
  jls_rate_limit : Z;
  congestion : SqServer.CongestionConfig;
  zero_rtt : bool;
}.

Record SunnyServerOptions := {
  sunny_listen : Net.SocketAddr;
  sunny_users : list SqServer.User;
  certificate_chain : list bytes;
  private_key : bytes;
  sunny_congestion : SqServer.CongestionConfig;
  sunny_zero_rtt : bool;
}.

(** ** TLS *)

(** The builder calls on [JlsServerConfig::default()]. *)
Inductive JlsSetting :=
| Enable (b : bool)
| RateLimit (n : Z)
| UpstreamAddr (address : bytes)
| ServerName (name : bytes)
| AddUser (password name : bytes).

(** The settings of a rustls server or client configuration. *)
Record ServerTls := {
  certificates : list bytes;
  key : Hy2Server.PrivateKeyDer;
  alpn_protocols : list bytes;
  max_early_data_size : Z;
  jls_config : list JlsSetting;
}.

(** The trust anchors: the ones that are built in, and added ones. *)
Inductive Root := TLS_SERVER_ROOTS | Added (certificate : bytes).

Record ClientTls := {
  roots : list Root;
  client_alpn_protocols : list bytes;
  enable_early_data : bool;
  client_jls_config : option (bytes * bytes);
}.

(** The answers of rcgen, ring, rustls and the QUIC adapter; [Some] is the
    reason for a refusal. *)
Record Tls := {
  generate_simple_self_signed : list bytes -> bytes + (bytes * bytes);
  any_supported_type : Hy2Server.PrivateKeyDer -> option bytes;
  with_single_cert : list bytes -> Hy2Server.PrivateKeyDer -> option bytes;
  quic_server : ServerTls -> option bytes;
  quic_client : ClientTls -> option bytes;
  add_root : bytes -> option bytes;
}.

Record ServerConfig := { server_tls : ServerTls; server_transport : list Transport.Setting }.
Record ClientConfig := { client_tls : ClientTls; client_transport : list Transport.Setting }.

Abbreviation Endpoint := (Socket.Endpoint ServerConfig ClientConfig).

(** [map_err] of a refusal into an error of the crate. *)
Definition refused (f : bytes -> Error) (e : option bytes) : Result unit :=
  match e with Some e => Err (f e) | None => Ok tt end.

Definition io (r : IoError + Endpoint) : Result Endpoint :=
  match r with inl e => Err (Io e) | inr e => Ok e end.

Definition obind {A B} (r : Outcome (Result A)) (k : A -> Outcome (Result B)) : Outcome (Result B) :=
  match r with
  | Panics => Panics
  | Returns (Err e) => Returns (Err e)
  | Returns (Ok a) => k a
  end.

(** A server: its endpoint, the channel of accepted items, whether the
    accept task runs, and what new connections are given. *)
Record Server (Ac : Type) := {
  endpoint : Endpoint;
  incoming : Ac;
  accept_task : bool;
  server_congestion : SqServer.CongestionConfig;
  server_authentication : SqServer.ServerAuthentication;
}.
Arguments endpoint {Ac} _.
Arguments incoming {Ac} _.
Arguments accept_task {Ac} _.
Arguments server_congestion {Ac} _.
Arguments server_authentication {Ac} _.

Section Config.
Variable tls : Tls.

(** The users of [options] as JLS users, after the other settings. *)
Definition build_jls (options : ServerOptions) : list JlsSetting :=
  [Enable true; RateLimit (jls_rate_limit options)]
  ++ match jls_upstream_addr options with Some a => [UpstreamAddr a] | None => [] end
  ++ match server_name options with Some n => [ServerName n] | None => [] end
  ++ ((fun u => AddUser (SqServer.password u) (SqServer.name u)) <$> users options).

Definition early_data (zero_rtt : bool) : Z := if zero_rtt then u32_max else 0.

Definition build_server_config (options : ServerOptions) : Result ServerConfig :=
  let? certificate :=
    match generate_simple_self_signed tls [str "localhost"] with
    | inl error => Err (QuicTls (str "generate ephemeral certificate: " ++ error))
    | inr certificate => Ok certificate
    end in
  let certificates := [certificate.1] in
  let private_key := Hy2Server.Pkcs8 certificate.2 in
  let? _ := refused Error.Tls (with_single_cert tls certificates private_key) in
  let config := {| certificates := certificates; key := private_key;
                   alpn_protocols := [str "h3"];
                   max_early_data_size := early_data (zero_rtt options);
                   jls_config := build_jls options |} in
  let? _ := refused QuicTls (quic_server tls config) in
  Ok {| server_tls := config; server_transport := Transport.shadowquic_transport_config |}.

(** [detect_private_key]: the loop over the three encodings. *)
Definition detect_private_key (key : bytes) : Outcome (Result Hy2Server.PrivateKeyDer) :=
  match Hy2Server.first_supported (any_supported_type tls)
          [Hy2Server.Pkcs8 key; Hy2Server.Pkcs1 key; Hy2Server.Sec1 key] None with
  | inl candidate => Returns (Ok candidate)
  | inr (Some error) => Returns (Err (Error.Tls error))
  | inr None => Panics
  end.

Definition build_sunny_server_config (certificate_chain : list bytes) (private_key : bytes)
    (zero_rtt : bool) : Outcome (Result ServerConfig) :=
  obind (detect_private_key private_key) (fun private_key =>
  Returns
    (let? _ := refused Error.Tls (with_single_cert tls certificate_chain private_key) in
     let config := {| certificates := certificate_chain; key := private_key;
                      alpn_protocols := [str "h3"];
                      max_early_data_size := early_data zero_rtt; jls_config := [] |} in
     let? _ := refused QuicTls (quic_server tls config) in
     Ok {| server_tls := config; server_transport := Transport.shadowquic_transport_config |})).

(** ** Servers *)

Section Servers.
Context `{DG : SqServer.Digest} {Ac : Type} `{MA : Mpsc Ac SqServer.Accepted}.

Definition bind_inner (os : Socket.Os) (listen : Net.SocketAddr) (config : ServerConfig)
    (congestion : SqServer.CongestionConfig) (authentication : SqServer.ServerAuthentication)
    : Result (Server Ac) :=
  let? endpoint := io (Socket.bind_endpoint os listen (Some config)).1 in
  Ok {| endpoint := endpoint; incoming := channel 256; accept_task := true;
        server_congestion := congestion; server_authentication := authentication |}.

Definition bind (os : Socket.Os) (options : ServerOptions) : Result (Server Ac) :=
  let? config := build_server_config options in
  bind_inner os (listen options) config (congestion options) SqServer.Jls.

Definition bind_sunny (os : Socket.Os) (options : SunnyServerOptions)
    : Outcome (Result (Server Ac)) :=
  obind (build_sunny_server_config (certificate_chain options) (private_key options)
           (sunny_zero_rtt options)) (fun config =>
  Returns (bind_inner os (sunny_listen options) config (sunny_congestion options)
             (SqServer.Sunny (SqServer.sunny_users (sunny_users options))))).

Definition with_congestion (self : Server Ac) (c : SqServer.CongestionConfig) : Server Ac :=
  {| endpoint := endpoint self; incoming := incoming self; accept_task := accept_task self;
     server_congestion := c; server_authentication := server_authentication self |}.
Definition with_authentication (self : Server Ac) (a : SqServer.ServerAuthentication)
    : Server Ac :=
  {| endpoint := endpoint self; incoming := incoming self; accept_task := accept_task self;
     server_congestion := server_congestion self; server_authentication := a |}.
Definition with_endpoint (self : Server Ac) (e : Endpoint) : Server Ac :=
  {| endpoint := e; incoming := incoming self; accept_task := accept_task self;
     server_congestion := server_congestion self;
     server_authentication := server_authentication self |}.

(** [Server::update_config]: the congestion is stored before the
    configuration is built. *)
Definition update_config (options : ServerOptions) : M (Server Ac) unit := fun self =>
  let self := with_congestion self (congestion options) in
  match build_server_config options with
  | Err e => (Err e, self)
  | Ok config =>
      (Ok tt, with_endpoint self (Socket.set_server_config (endpoint self) (Some config)))
  end.

(** [Server::update_sunny_config]. *)
Definition update_sunny_config (options : SunnyServerOptions) (self : Server Ac)
    : Outcome (Result unit * Server Ac) :=
  match build_sunny_server_config (certificate_chain options) (private_key options)
          (sunny_zero_rtt options) with
  | Panics => Panics
  | Returns (Err e) => Returns (Err e, self)
  | Returns (Ok config) =>
      let self := with_congestion self (sunny_congestion options) in
      let self := with_authentication self
                    (SqServer.Sunny (SqServer.sunny_users (sunny_users options))) in
      Returns (Ok tt, with_endpoint self
                        (Socket.set_server_config (endpoint self) (Some config)))
  end.

(** [Server::local_addr]. *)
Definition local_addr (no_address : IoError) (self : Server Ac) : Result Net.SocketAddr :=
  match Socket.bound (Socket.socket (endpoint self)) with
  | Some a => Ok a
  | None => Err (Io no_address)
  end.

(** [Server::close]: the endpoint is closed, and when it is idle the accept
    task is stopped. *)
Definition close (self : Server Ac) : Server Ac :=
  {| endpoint := Socket.close_endpoint (endpoint self) 0 (str "server closed");
     incoming := incoming self; accept_task := false;
     server_congestion := server_congestion self;
     server_authentication := server_authentication self |}.
End Servers.

(** ** Clients *)

(** [Client] with its endpoint and peer; the rest is [SqClient.Client]. *)
Record ClientHandle := {
  client_endpoint : Endpoint;
  peer : Net.SocketAddr;
  peer_name : bytes;
  inner : SqClient.Client;
}.

Definition from_endpoint (endpoint : Endpoint) (server : Net.SocketAddr) (server_name : bytes)
    (congestion : SqServer.CongestionConfig) (authentication : SqClient.ClientAuthentication)
    : ClientHandle :=
  {| client_endpoint := endpoint; peer := server; peer_name := server_name;
     inner := {| SqClient.congestion := congestion; SqClient.authentication := authentication;
                 SqClient.connection := None |} |}.

(** The unspecified address of the server's family, with any port. *)
Definition bind_address (server : Net.SocketAddr) : Net.SocketAddr :=
  {| Net.ip := match Net.ip server with
               | Net.V4 _ => Net.V4 (replicate 4 0)
               | Net.V6 _ => Net.V6 (replicate 8 0)
               end;
     Net.port := 0; Net.scope_id := 0 |}.

(** The tail that both constructors share: the endpoint of the family of
    the server, with the client's configuration. *)
Definition open_client (os : Socket.Os) (config : ClientTls) (server : Net.SocketAddr)
    : Result Endpoint :=
  let? _ := refused QuicTls (quic_client tls config) in
  let? endpoint := io (Socket.bind_endpoint os (bind_address server) None).1 in
  Ok (Socket.set_default_client_config endpoint
        {| client_tls := config; client_transport := Transport.shadowquic_transport_config |}).

Definition new (os : Socket.Os) (options : ClientOptions) : Result ClientHandle :=
  if bool_decide (client_server_name options = [])
  then Err (InvalidServerName (client_server_name options))
  else
    let config := {| roots := [TLS_SERVER_ROOTS]; client_alpn_protocols := [str "h3"];
                     enable_early_data := client_zero_rtt options;
                     client_jls_config := Some (password options, username options) |} in
    let? endpoint := open_client os config (client_server options) in
    Ok (from_endpoint endpoint (client_server options) (client_server_name options)
          (client_congestion options) SqClient.Jls).

(** [roots.add] for every certificate, up to the first refused. *)
Fixpoint add_roots (store : list Root) (certificates : list bytes) : Result (list Root) :=
  match certificates with
  | [] => Ok store
  | certificate :: certificates =>
      let? _ := refused Error.Tls (add_root tls certificate) in
      add_roots (store ++ [Added certificate]) certificates
  end.

Definition new_sunny (os : Socket.Os) (options : SunnyClientOptions) : Result ClientHandle :=
  if bool_decide (sunny_server_name options = [])
  then Err (InvalidServerName (sunny_server_name options))
  else
    let store := if bool_decide (ca_certificates options = []) then [TLS_SERVER_ROOTS] else [] in
    let? store := add_roots store (ca_certificates options) in
    let config := {| roots := store; client_alpn_protocols := [str "h3"];
                     enable_early_data := sunny_client_zero_rtt options;
                     client_jls_config := None |} in
    let? endpoint := open_client os config (sunny_server options) in
    Ok (from_endpoint endpoint (sunny_server options) (sunny_server_name options)
          (sunny_client_congestion options) (SqClient.Sunny (credential options))).

(** [Client::local_addr] and [Client::close]. *)
Definition client_local_addr (no_address : IoError) (self : ClientHandle) : Result Net.SocketAddr :=
  match Socket.bound (Socket.socket (client_endpoint self)) with
  | Some a => Ok a
  | None => Err (Io no_address)
  end.

Definition client_close (self : ClientHandle) : ClientHandle :=
  {| client_endpoint := Socket.close_endpoint (client_endpoint self) 0 (str "client closed");
     peer := peer self; peer_name := peer_name self; inner := inner self |}.
End Config.

(** ** Lemmas *)

Section Lemmas.
Context `{DG : SqServer.Digest} {Ac : Type} `{MA : Mpsc Ac SqServer.Accepted}.
Variable tls : Tls.

(** Finding the encoding of the key never panics. *)
Lemma detect_private_key_returns key :
  exists r, detect_private_key tls key = Returns r /\
    match r with Ok k => any_supported_type tls k = None | Err _ => True end.
Proof.
  change (detect_private_key tls key)
    with (Hy2Server.detect_private_key (any_supported_type tls) key).
  rewrite Hy2Server.detect_private_key_first. eexists. split; [done|]. repeat (case_match; simplify_eq); done.
Qed.

(** Neither does building the configuration. *)
Lemma build_sunny_returns chain key zero_rtt :
  exists r, build_sunny_server_config tls chain key zero_rtt = Returns r /\
    match r with
    | Ok c => certificates (server_tls c) = chain /\
              max_early_data_size (server_tls c) = early_data zero_rtt /\
              any_supported_type tls (SqConfig.key (server_tls c)) = None /\
              with_single_cert tls chain (SqConfig.key (server_tls c)) = None /\
              quic_server tls (server_tls c) = None
    | Err _ => True
    end.
Proof.
  unfold build_sunny_server_config. destruct (detect_private_key_returns key) as (r & -> & Hf).
  destruct r as [k|e]; simpl; [|by eexists].
  destruct (with_single_cert tls chain k) eqn:Ec; simpl; [by eexists|].
  destruct (quic_server tls _) eqn:Eq; simpl; [by eexists|].
  eexists. split; [done|]. done.
Qed.

(** A failed update of a ShadowQuic server is not atomic: the new
    congestion control stays in force although the rest of the update was
    refused. *)
Lemma update_config_not_atomic options e (s : Server Ac)
    (Hfail : build_server_config tls options = Err e) :
  update_config tls options s = (Err e, with_congestion s (congestion options)).
Proof. unfold update_config. by rewrite Hfail. Qed.
End Lemmas.

End SqConfig.
