(* ===== verification/SunnyQuic.v ===== *)
(** * SunnyQUIC

    [src/src/sunnyquic/mod.rs], the public client and server of SunnyQUIC:
    wrappers of the ShadowQuic ones that compute the client's credential and
    keep the server's options for renewals of its certificate. *)

From Stdlib Require Import ZArith Lia.
From stdpp Require Import base gmap list strings relations.
From S2P Require Import Prelude Error Net Address Channels Congestion Transport Socket SqWire SqUdp Hy2Server SqServer SqClient SqConfig.

#[local] Open Scope Z_scope.
#[local] Open Scope rust_scope.

Module SunnyQuic.

Record ClientOptions := {
  server : Net.SocketAddr;
  server_name : bytes;
  username : bytes;
  password : bytes;
  ca_certificates : list bytes;
  client_congestion : SqServer.CongestionConfig;
  client_zero_rtt : bool;
}.

Record ServerOptions := {
  listen : Net.SocketAddr;
  users : list SqServer.User;
  certificate_chain : list bytes;
  private_key : bytes;
  congestion : SqServer.CongestionConfig;
  zero_rtt : bool;
}.

Record Client := { client : SqConfig.ClientHandle }.

Record Server (Ac : Type) := { inner : SqConfig.Server Ac; options : ServerOptions }.
Arguments inner {Ac} _.
Arguments options {Ac} _.

Section Wrappers.
Context `{DG : SqServer.Digest} {Ac : Type} `{MA : Mpsc Ac SqServer.Accepted}.
Variable tls : SqConfig.Tls.

(** [Client::new]. *)
Definition new (os : Socket.Os) (options : ClientOptions) : Result Client :=
  let credential := SqServer.sunny_credential (username options) (password options) in
  let? inner := SqConfig.new_sunny tls os
    {| SqConfig.sunny_server := server options;
       SqConfig.sunny_server_name := server_name options;
       SqConfig.credential := credential;
       SqConfig.ca_certificates := ca_certificates options;
       SqConfig.sunny_client_congestion := client_congestion options;
       SqConfig.sunny_client_zero_rtt := client_zero_rtt options |} in
  Ok {| client := inner |}.

(** [Client::connect], [Client::associate] and [Client::congestion_kind] on
    the state of the wrapped client, [Client::local_addr] and
    [Client::close]. *)
Section Delegation.
Context {Ctl Rtt Pacing Metrics : Type} `{CT : Controllers Ctl Rtt Pacing Metrics}.

Definition connect (env : SqClient.Attempt)
    (open_bi : nat -> ConnectionError + (SendHalf * RecvHalf)) (destination : Address.Address)
    : M SqClient.State (SendHalf * RecvHalf) := SqClient.connect env open_bi destination.

Definition associate (env : SqClient.Attempt)
    (open_bi : nat -> ConnectionError + (SendHalf * RecvHalf)) (next_udp_id : Z)
    (destination : Address.Address) (over_stream : bool)
    : M SqClient.State (SqUdp.Sender * RecvHalf) :=
  SqClient.associate env open_bi next_udp_id destination over_stream.

Definition congestion_kind (quic_of : nat -> Congestion.Connection Ctl) (self : SqClient.State)
    : option Congestion.CongestionKind := SqClient.congestion_kind quic_of self.
End Delegation.

Definition client_local_addr (no_address : IoError) (self : Client) : Result Net.SocketAddr :=
  SqConfig.client_local_addr no_address (client self).

Definition client_close (self : Client) : Client :=
  {| client := SqConfig.client_close (client self) |}.

(** The options that the wrapper passes on. *)
Definition inner_options (options : ServerOptions) : SqConfig.SunnyServerOptions :=
  {| SqConfig.sunny_listen := listen options;
     SqConfig.sunny_users := users options;
     SqConfig.certificate_chain := certificate_chain options;
     SqConfig.private_key := private_key options;
     SqConfig.sunny_congestion := congestion options;
     SqConfig.sunny_zero_rtt := zero_rtt options |}.

(** [Server::bind]. *)
Definition bind (os : Socket.Os) (options : ServerOptions) : Outcome (Result (Server Ac)) :=
  SqConfig.obind (SqConfig.bind_sunny tls os (inner_options options)) (fun inner =>
  Returns (Ok {| inner := inner; options := options |})).

(** [Server::update_certificate]: the options of [bind] with another
    certificate and key. *)
Definition update_certificate (chain : list bytes) (key : bytes) (self : Server Ac)
    : Outcome (Result unit * Server Ac) :=
  let options' := {| listen := listen (options self); users := users (options self);
                     certificate_chain := chain; private_key := key;
                     congestion := congestion (options self);
                     zero_rtt := zero_rtt (options self) |} in
  match SqConfig.update_sunny_config tls (inner_options options') (inner self) with
  | Panics => Panics
  | Returns (r, inner) => Returns (r, {| inner := inner; options := options self |})
  end.

(** [Server::local_addr] and [Server::close]. *)
Definition local_addr (no_address : IoError) (self : Server Ac) : Result Net.SocketAddr :=
  SqConfig.local_addr no_address (inner self).

Definition close (self : Server Ac) : Server Ac :=
  {| inner := SqConfig.close (inner self); options := options self |}.

(** ** Properties *)

(** What an update that returns does. *)
Lemma update_certificate_returns chain key (s : Server Ac) :
  exists r s', update_certificate chain key s = Returns (r, s') /\
    options s' = options s /\
    match r with
    | Err _ => s' = s
    | Ok _ => exists c,
        inner s' = {| SqConfig.endpoint := Socket.set_server_config
                                             (SqConfig.endpoint (inner s)) (Some c);
                      SqConfig.incoming := SqConfig.incoming (inner s);
                      SqConfig.accept_task := SqConfig.accept_task (inner s);
                      SqConfig.server_congestion := congestion (options s);
                      SqConfig.server_authentication :=
                        SqServer.Sunny (SqServer.sunny_users (users (options s))) |} /\
        SqConfig.certificates (SqConfig.server_tls c) = chain /\
        SqConfig.any_supported_type tls (SqConfig.key (SqConfig.server_tls c)) = None
    end.
Proof using.
  unfold update_certificate, SqConfig.update_sunny_config. cbv zeta.
  destruct (SqConfig.build_sunny_returns tls chain key (zero_rtt (options s))) as (r & Hr & Hc).
  cbn [SqConfig.certificate_chain SqConfig.private_key SqConfig.sunny_zero_rtt inner_options
       certificate_chain private_key zero_rtt]. rewrite Hr.
  destruct r as [c|e].
  - destruct Hc as (H1 & H2 & H3 & _). eexists _, _. split_and!; [done..|]. by exists c.
  - eexists _, _. split_and!; [done..|]. by destruct s.
Qed.

(** A renewal of the certificate, whether it succeeds or not. *)
Definition renewal (s s' : Server Ac) : Prop :=
  exists chain key r, update_certificate chain key s = Returns (r, s').

(** What stays of a server through all renewals. *)
Definition bound_as (opts : ServerOptions) (sock : Socket.UdpSocket) (s : Server Ac) : Prop :=
  options s = opts /\ Socket.socket (SqConfig.endpoint (inner s)) = sock /\
  SqConfig.server_congestion (inner s) = congestion opts /\
  SqConfig.server_authentication (inner s) = SqServer.Sunny (SqServer.sunny_users (users opts)).

Lemma bind_bound_as os opts s :
  bind os opts = Returns (Ok s) ->
  bound_as opts (Socket.socket (SqConfig.endpoint (inner s))) s.
Proof using.
  unfold bind, SqConfig.bind_sunny, SqConfig.bind_inner.
  destruct (SqConfig.build_sunny_server_config _ _ _ _) as [[c|e]|]; simpl; try done.
  destruct (Socket.bind_endpoint _ _ _) as [[e|ep] log]; simpl; [done|]. by intros [= <-].
Qed.

Lemma renewals_bound_as opts sock s s' :
  bound_as opts sock s -> rtc renewal s s' -> bound_as opts sock s'.
Proof using.
  intros Hb Hr. induction Hr as [s|s1 s2 s3 (chain & key & r & Hu) _ IH]; [done|]. apply IH.
  destruct (update_certificate_returns chain key s1) as (r' & s' & Hu' & Ho & Hr).
  rewrite Hu in Hu'. injection Hu' as <- <-. destruct Hb as (H1 & H2 & H3 & H4).
  destruct r as [[]|e]; [|by subst]. destruct Hr as (c & Hi & _).
  unfold bound_as. rewrite Hi, Ho, H1. simpl. by rewrite H2.
Qed.

(** C19: renewing the certificate of a SunnyQUIC server is safe at any time.
    After any sequence of renewals, failed ones included, the server has the
    users, the congestion control and the socket it was bound with, and a
    further renewal returns: it either leaves the server as it was, or puts
    the new chain in force with a key that the crypto provider supports. *)
Theorem update_certificate_atomic os opts (s0 s : Server Ac) chain key
    (Hbind : bind os opts = Returns (Ok s0)) (Hrun : rtc renewal s0 s) :
  bound_as opts (Socket.socket (SqConfig.endpoint (inner s0))) s /\
  exists r s', update_certificate chain key s = Returns (r, s') /\
    bound_as opts (Socket.socket (SqConfig.endpoint (inner s0))) s' /\
    match r with
    | Err _ => s' = s
    | Ok _ => exists c, Socket.server_config (SqConfig.endpoint (inner s')) = Some c /\
                SqConfig.certificates (SqConfig.server_tls c) = chain /\
                SqConfig.any_supported_type tls (SqConfig.key (SqConfig.server_tls c)) = None
    end.
Proof using.
  pose proof (renewals_bound_as _ _ _ _ (bind_bound_as _ _ _ Hbind) Hrun) as Hb.
  split; [done|]. destruct (update_certificate_returns chain key s) as (r & s' & Hu & Ho & Hr).
  exists r, s'. split_and!; [done| |].
  - apply (renewals_bound_as _ _ _ _ Hb). apply rtc_once. by exists chain, key, r.
  - destruct r; [|done]. destruct Hr as (c & Hi & Hc). exists c. by rewrite Hi.
Qed.

(** The credential that a client was built with. *)
Lemma new_credential os copts c :
  new os copts = Ok c ->
  SqClient.authentication (SqConfig.inner (client c))
  = SqClient.Sunny (SqServer.sunny_credential (username copts) (password copts)).
Proof using.
  unfold new, SqConfig.new_sunny. cbv zeta. case_bool_decide; [done|].
  destruct (SqConfig.add_roots _ _ _); simpl; [|done].
  destruct (SqConfig.open_client _ _ _ _); simpl; [|done]. by intros [= <-].
Qed.

(** C18: a SunnyQUIC client is served by every server that has its user.
    When the client was built with the name and password of one of the users
    a server was bound with, then at any time, renewals of the certificate
    included, the stream that the client opens first authenticates its
    connection, and a stream it then opens to a destination is handed over
    for the last of the configured users with that credential, to that
    destination in normal form, positioned at the first application byte. *)
Theorem sunny_client_served {Ch} `{MC : Mpsc Ch SqUdp.Packet} os os' copts sopts (c : Client)
    (s0 s : Server Ac) credential source stats snd dest frame payload e e' ending1 ending2
    (conn : SqServer.Conn Ch Ac)
    (Hclient : new os copts = Ok c) (Hbind : bind os' sopts = Returns (Ok s0))
    (Hrun : rtc renewal s0 s)
    (Huser : {| SqServer.name := username copts; SqServer.password := password copts |}
             ∈ users sopts)
    (Hcred : SqClient.authentication (SqConfig.inner (client c)) = SqClient.Sunny credential)
    (Hwf : Address.wf dest) (Henc : SqWire.encode_address dest = Ok frame)
    (Halive : alive (SqServer.accepted conn) = true)
    (Hroom : (length (queued (SqServer.accepted conn)) < capacity (SqServer.accepted conn))%nat) :
  let serve := SqServer.handle_bi_stream (SqConfig.server_authentication (inner s)) [] source stats in
  let login := (SqClient.send_credential credential (open_send [] e)).2 in
  let request := (SqClient.request_connect dest (open_send [] e)).2 in
  exists us1 u us2 conn1 conn2, users sopts = us1 ++ u :: us2 /\
    SqServer.sunny_credential (SqServer.name u) (SqServer.password u) = credential /\
    Forall (fun v => SqServer.sunny_credential (SqServer.name v) (SqServer.password v)
                     <> credential) us2 /\
    serve snd {| pending := written login; ending := ending1 |} conn = Some (Ok tt, conn1) /\
    serve (open_send [] e') {| pending := written request ++ payload; ending := ending2 |} conn1
      = Some (Ok tt, conn2) /\
    queued (SqServer.accepted conn2) = queued (SqServer.accepted conn) ++
      [SqServer.AcceptedStream (open_send [] e', {| pending := payload; ending := ending2 |})
         (SqWire.normalize dest) (SqServer.name u) source].
Proof using.
  intros serve login request. unfold serve, login. clear serve login.
  rewrite (new_credential _ _ _ Hclient) in Hcred. injection Hcred as <-.
  destruct (renewals_bound_as _ _ _ _ (bind_bound_as _ _ _ Hbind) Hrun) as (_ & _ & _ & ->).
  destruct (SqServer.last_user (users sopts) _ _ Huser eq_refl)
    as (us1 & u & us2 & Hus & Hc & Hlast & Hlook).
  destruct (SqClient.client_served (users sopts) (username copts) (password copts)
    (SqServer.name u) source stats snd dest frame payload e e' ending1 ending2 conn
    Hlook Hwf Henc Halive Hroom) as (c1 & c2 & H1 & _ & H2 & H3).
  by exists us1, u, us2, c1, c2.
Qed.
End Wrappers.

(** ** Examples *)

Definition example_address : Net.SocketAddr :=
  {| Net.ip := Net.V6 [0; 0; 0; 0; 0; 0; 0; 0]; Net.port := 443; Net.scope_id := 0 |}.

(** A system that grants four MiB of buffers, and a TLS stack that takes
    PKCS#8 keys only. *)
Definition example_os : Socket.Os :=
  {| Socket.new_socket d := inr {| Socket.domain := d; Socket.only_v6 := true;
                                   Socket.bound := None; Socket.send_buffer := 212992;
                                   Socket.recv_buffer := 212992 |};
     Socket.only_v6_error := None; Socket.bind_error _ _ := None; Socket.assigned a := a;
     Socket.state_error := None; Socket.set_send_error := None; Socket.set_recv_error := None;
     Socket.granted n := Z.min n 4194304; Socket.get_send_error := None;
     Socket.get_recv_error := None; Socket.endpoint_error := None |}.

Definition example_tls : SqConfig.Tls :=
  {| SqConfig.generate_simple_self_signed _ := inr (str "cert", str "key");
     SqConfig.any_supported_type k :=
       match k with Hy2Server.Pkcs8 _ => None | _ => Some (str "unsupported") end;
     SqConfig.with_single_cert chain _ :=
       if bool_decide (chain = []) then Some (str "no certificate") else None;
     SqConfig.quic_server _ := None; SqConfig.quic_client _ := None;
     SqConfig.add_root _ := None |}.

Definition example_server_options : ServerOptions :=
  {| listen := example_address; users := SqServer.example_users;
     certificate_chain := [str "old"]; private_key := str "key";
     congestion := SqServer.ConfigBrutal 1000 false; zero_rtt := false |}.

Definition example_client_options : ClientOptions :=
  {| server := example_address; server_name := str "example.com"; username := str "alice";
     password := str "secret"; ca_certificates := [];
     client_congestion := SqServer.ConfigBbr; client_zero_rtt := false |}.

Definition example_bound : SqConfig.ServerConfig -> Server (ListChannel.Chan SqServer.Accepted) :=
  fun c =>
  {| inner := {| SqConfig.endpoint :=
                   {| Socket.socket := {| Socket.domain := Socket.IPV6; Socket.only_v6 := false;
                                          Socket.bound := Some example_address;
                                          Socket.send_buffer := 4194304;
                                          Socket.recv_buffer := 4194304 |};
                      Socket.server_config := Some c; Socket.client_config := None;
                      Socket.close_reason := None |};
                 SqConfig.incoming := channel 256; SqConfig.accept_task := true;
                 SqConfig.server_congestion := SqServer.ConfigBrutal 1000 false;
                 SqConfig.server_authentication :=
                   SqServer.Sunny (SqServer.sunny_users SqServer.example_users) |};
     options := example_server_options |}.

Definition example_config (chain : list bytes) : SqConfig.ServerConfig :=
  {| SqConfig.server_tls :=
       {| SqConfig.certificates := chain; SqConfig.key := Hy2Server.Pkcs8 (str "key");
          SqConfig.alpn_protocols := [str "h3"]; SqConfig.max_early_data_size := 0;
          SqConfig.jls_config := [] |};
     SqConfig.server_transport := Transport.shadowquic_transport_config |}.

Lemma example_binds :
  bind example_tls example_os example_server_options
  = Returns (Ok (example_bound (example_config [str "old"]))).
Proof. vm_compute. reflexivity. Qed.

(** A renewal without certificates fails, one with a certificate succeeds. *)
Lemma example_renewals :
  rtc (renewal example_tls) (example_bound (example_config [str "old"]))
    (example_bound (example_config [str "new"])).
Proof.
  apply rtc_l with (y := example_bound (example_config [str "old"])).
  - exists [], (str "key"), (Err (Error.Tls (str "no certificate"))). vm_compute. reflexivity.
  - apply rtc_once. exists [str "new"], (str "key"), (Ok tt). vm_compute. reflexivity.
Qed.

Lemma update_certificate_atomic_witness :
  bound_as example_server_options
    (Socket.socket (SqConfig.endpoint (inner (example_bound (example_config [str "old"])))))
    (example_bound (example_config [str "new"])).
Proof.
  exact (proj1 (update_certificate_atomic example_tls example_os example_server_options
    (example_bound (example_config [str "old"])) (example_bound (example_config [str "new"]))
    [str "newer"] (str "key") example_binds example_renewals)).
Defined.

Definition example_client : Client :=
  {| client :=
       {| SqConfig.client_endpoint :=
            {| Socket.socket := {| Socket.domain := Socket.IPV6; Socket.only_v6 := false;
                 Socket.bound := Some (SqConfig.bind_address example_address);
                 Socket.send_buffer := 4194304; Socket.recv_buffer := 4194304 |};
               Socket.server_config := None;
               Socket.client_config :=
                 Some {| SqConfig.client_tls :=
                           {| SqConfig.roots := [SqConfig.TLS_SERVER_ROOTS];
                              SqConfig.client_alpn_protocols := [str "h3"];
                              SqConfig.enable_early_data := false;
                              SqConfig.client_jls_config := None |};
                         SqConfig.client_transport := Transport.shadowquic_transport_config |};
               Socket.close_reason := None |};
          SqConfig.peer := example_address; SqConfig.peer_name := str "example.com";
          SqConfig.inner :=
            {| SqClient.congestion := SqServer.ConfigBbr;
               SqClient.authentication :=
                 SqClient.Sunny (SqServer.sunny_credential (str "alice") (str "secret"));
               SqClient.connection := None |} |} |}.

Lemma sunny_client_served_witness :
  exists u (conn2 : SqServer.Conn (ListChannel.Chan SqUdp.Packet)
                      (ListChannel.Chan SqServer.Accepted)),
    u ∈ SqServer.example_users /\
    queued (SqServer.accepted conn2) = queued (SqServer.accepted SqServer.example_initial) ++
      [SqServer.AcceptedStream (open_send [] Closed, {| pending := str "GET /"; ending := None |})
         (SqWire.normalize {| Address.host := str "1.1.1.1"; Address.port := 53 |})
         (SqServer.name u) SqServer.example_source].
Proof.
  destruct (sunny_client_served example_tls example_os example_os example_client_options
    example_server_options example_client (example_bound (example_config [str "old"]))
    (example_bound (example_config [str "new"]))
    (SqServer.sunny_credential (str "alice") (str "secret")) SqServer.example_source
    SqServer.example_extension (open_send [] Closed)
    {| Address.host := str "1.1.1.1"; Address.port := 53 |}
    [SqWire.SQ_IPV4; Byte.x01; Byte.x01; Byte.x01; Byte.x01; Byte.x00; Byte.x35]
    (str "GET /") Closed Closed None None SqServer.example_initial)
    as (us1 & u & us2 & conn1 & conn2 & Hus & _ & _ & _ & _ & H).
  - vm_compute. reflexivity.
  - exact example_binds.
  - exact example_renewals.
  - apply list_elem_of_singleton. reflexivity.
  - reflexivity.
  - split_and!; [done|reflexivity|simpl; unfold u16_max; lia..].
  - reflexivity.
  - reflexivity.
  - simpl. lia.
  - exists u, conn2. split; [|exact H].
    change SqServer.example_users with (users example_server_options).
    rewrite Hus. apply elem_of_app. right. apply elem_of_cons. by left.
Defined.

End SunnyQuic.
