(* ===== verification/SqEndpoint.v ===== *)
(** * A running ShadowQuic or SunnyQUIC server

    The accept task that [bind_inner] of [src/src/shadowquic/mod.rs] spawns,
    the connections it serves, [Server::accept], the updates of the
    configuration and [Server::close], as one step relation: connections come
    and authenticate, their tasks interleave, and the application takes what
    was handed over, in any order.  The connections share the channel of
    accepted items and the controllers; each keeps the configuration that was
    read when it came. *)

From Stdlib Require Import ZArith Lia.
From stdpp Require Import base gmap list strings relations.
From S2P Require Import Prelude Error Net Address Channels Congestion Transport Socket SqWire SqUdp Hy2Server SqServer SqClient SqConfig SunnyQuic.

#[local] Open Scope Z_scope.

Module SqEndpoint.

(** A connection whose handshake is awaited, with the configuration that the
    accept task read for it. *)
Record Pending := {
  pending_congestion : SqServer.CongestionConfig;
  pending_authentication : SqServer.ServerAuthentication;
  pending_source : Net.SocketAddr;
}.

(** A connection that is served, with its handshake. *)
Record Live (Ch Ac : Type) := {
  authentication : SqServer.ServerAuthentication;
  handshake : SqServer.Handshake;
  user : bytes;
  source : Net.SocketAddr;
  conn : SqServer.Conn Ch Ac;
}.
Arguments authentication {Ch Ac} _.
Arguments handshake {Ch Ac} _.
Arguments user {Ch Ac} _.
Arguments source {Ch Ac} _.
Arguments conn {Ch Ac} _.

(** The server and its tasks; [delivered] is the history of what
    [Server::accept] returned. *)
Record State (Ctl Ch Ac : Type) := {
  server : SqConfig.Server Ac;
  pending : list Pending;
  live : list (Live Ch Ac);
  controllers : list (Congestion.SwitchState Ctl);
  delivered : list SqServer.Accepted;
}.
Arguments server {Ctl Ch Ac} _.
Arguments pending {Ctl Ch Ac} _.
Arguments live {Ctl Ch Ac} _.
Arguments controllers {Ctl Ch Ac} _.
Arguments delivered {Ctl Ch Ac} _.

Section Server.
Context {Ctl Rtt Pacing Metrics : Type} `{CT : Controllers Ctl Rtt Pacing Metrics}.
Context {Ch Ac : Type} `{MC : Mpsc Ch SqUdp.Packet} `{MA : Mpsc Ac SqServer.Accepted}.
(** The updates of the configuration that the server offers. *)
Variable update : SqConfig.Server Ac -> SqConfig.Server Ac -> Prop.
Implicit Types e : State Ctl Ch Ac.

Definition with_incoming (s : SqConfig.Server Ac) (ac : Ac) : SqConfig.Server Ac :=
  {| SqConfig.endpoint := SqConfig.endpoint s; SqConfig.incoming := ac;
     SqConfig.accept_task := SqConfig.accept_task s;
     SqConfig.server_congestion := SqConfig.server_congestion s;
     SqConfig.server_authentication := SqConfig.server_authentication s |}.

Definition with_server e (s : SqConfig.Server Ac) : State Ctl Ch Ac :=
  {| server := s; pending := pending e; live := live e; controllers := controllers e;
     delivered := delivered e |}.

(** One round of the accept task: the configuration is read and the
    connection gets a task. *)
Definition accept_round (source : Net.SocketAddr) e : State Ctl Ch Ac :=
  {| server := server e;
     pending := pending e ++
       [{| pending_congestion := SqConfig.server_congestion (server e);
           pending_authentication := SqConfig.server_authentication (server e);
           pending_source := source |}];
     live := live e; controllers := controllers e; delivered := delivered e |}.

(** What is left when a task goes away, because the handshake failed or the
    connection is refused, or when the QUIC library builds a controller for
    a connection. *)
Definition without_pending e (ps : list Pending) (h : list (Congestion.SwitchState Ctl))
    : State Ctl Ch Ac :=
  {| server := server e; pending := ps; live := live e; controllers := h;
     delivered := delivered e |}.

(** The handshake is done ([incoming.await] gave a connection). *)
Definition connected (now : Z) (p : Pending) (ps : list Pending) (hs : SqServer.Handshake)
    (connection : Congestion.Connection Ctl) (stats : Transport.PathStats) e : State Ctl Ch Ac :=
  let '(served, _, h) :=
    SqServer.on_incoming (Ch := Ch) now (pending_congestion p) (pending_authentication p) hs
      connection stats (controllers e) (SqConfig.incoming (server e)) in
  match served with
  | Err _ => without_pending e ps h
  | Ok v =>
      {| server := server e; pending := ps;
         live := live e ++
           [{| authentication := pending_authentication p; handshake := hs;
               user := SqServer.serving_user v; source := pending_source p;
               conn := SqServer.tasks v |}];
         controllers := h; delivered := delivered e |}
  end.

(** A task of a connection has taken [c] to [c']. *)
Definition progressed (l1 l2 : list (Live Ch Ac)) (c : Live Ch Ac) (c' : SqServer.Conn Ch Ac) e
    : State Ctl Ch Ac :=
  {| server := with_incoming (server e) (SqServer.accepted c'); pending := pending e;
     live := l1 ++ {| authentication := authentication c; handshake := handshake c;
                      user := user c; source := source c; conn := c' |} :: l2;
     controllers := controllers e; delivered := delivered e |}.

(** [Server::accept]: the next item, or [Closed] when all senders are gone;
    [None] while it waits. *)
Definition accept (senders : bool) e : option (Result SqServer.Accepted * State Ctl Ch Ac) :=
  match recv (SqConfig.incoming (server e)) with
  | Some (a, ac) =>
      Some (Ok a, {| server := with_incoming (server e) ac; pending := pending e; live := live e;
                     controllers := controllers e; delivered := delivered e ++ [a] |})
  | None => if senders then None else Some (Err Closed, e)
  end.

Inductive step : State Ctl Ch Ac -> State Ctl Ch Ac -> Prop :=
| step_incoming source e :
    SqConfig.accept_task (server e) = true ->
    Socket.close_reason (SqConfig.endpoint (server e)) = None ->
    step e (accept_round source e)
| step_built now mtu e :
    step e (without_pending e (pending e) (Congestion.build now mtu (controllers e)).2)
| step_handshake_failed l1 p l2 e :
    pending e = l1 ++ p :: l2 -> step e (without_pending e (l1 ++ l2) (controllers e))
| step_connected now l1 p l2 hs connection stats e :
    pending e = l1 ++ p :: l2 -> step e (connected now p (l1 ++ l2) hs connection stats e)
| step_connection l1 c l2 c' e :
    live e = l1 ++ c :: l2 ->
    SqServer.task_step (authentication c) (user c) (source c)
      (SqServer.with_accepted (conn c) (SqConfig.incoming (server e))) c' ->
    step e (progressed l1 l2 c c' e)
| step_accept senders r e e' : accept senders e = Some (r, e') -> step e e'
| step_update s e : update (server e) s -> step e (with_server e s)
| step_close e : step e (with_server e (SqConfig.close (server e))).

(** A server as it was bound. *)
Definition start (s : SqConfig.Server Ac) : State Ctl Ch Ac :=
  {| server := s; pending := []; live := []; controllers := []; delivered := [] |}.

(** ** Attribution *)

(** What the handshake and the history of a connection say about the user of
    an item. *)
Definition vouches (c : Live Ch Ac) (u : bytes) : Prop :=
  match authentication c with
  | SqServer.Jls =>
      exists d, handshake c = SqServer.Data d /\ SqServer.jls_authenticated d = Some true /\
        u = default [] (SqServer.jls_user d)
  | SqServer.Sunny users =>
      exists credential, credential ∈ SqServer.presented (conn c) /\ users !! credential = Some u
  end.

Definition attributed (cs : list (Live Ch Ac)) (a : SqServer.Accepted) : Prop :=
  exists c, c ∈ cs /\ source c = SqServer.accepted_source a /\
    vouches c (SqServer.accepted_user a).

(** The user that a connection is served for is vouched for. *)
Definition live_ok (c : Live Ch Ac) : Prop :=
  match authentication c with
  | SqServer.Jls => vouches c (user c)
  | SqServer.Sunny _ =>
      user c = [] /\ forall u, SqServer.auth_state (conn c) = Some (inl u) -> vouches c u
  end.

Section Invariant.
(** A condition on the authentication that the updates keep. *)
Variable allowed : SqServer.ServerAuthentication -> Prop.
Hypothesis update_allowed : forall s s', update s s' ->
  allowed (SqConfig.server_authentication s) -> allowed (SqConfig.server_authentication s').
Hypothesis update_incoming : forall s s', update s s' -> SqConfig.incoming s' = SqConfig.incoming s.

Record inv e : Prop := {
  inv_server : allowed (SqConfig.server_authentication (server e));
  inv_pending p : p ∈ pending e -> allowed (pending_authentication p);
  inv_live c : c ∈ live e -> allowed (authentication c) /\ live_ok c;
  inv_items a : a ∈ delivered e \/ a ∈ queued (SqConfig.incoming (server e)) ->
    attributed (live e) a;
}.

(** A step of a connection keeps what is vouched for, and vouches for what
    it hands over. *)
Lemma progress_ok c c' ac :
  live_ok c ->
  SqServer.task_step (authentication c) (user c) (source c)
    (SqServer.with_accepted (conn c) ac) c' ->
  let c1 := {| authentication := authentication c; handshake := handshake c; user := user c;
               source := source c; conn := c' |} in
  live_ok c1 /\ (forall u, vouches c u -> vouches c1 u) /\
  forall a, a ∈ queued (SqServer.accepted c') -> a ∈ queued ac \/
    (source c = SqServer.accepted_source a /\ vouches c1 (SqServer.accepted_user a)).
Proof using.
  intros Hok [Hover Hauth]%SqServer.task_step_effect c1. destruct c as [auth hs us src cn].
  unfold live_ok, vouches in *. simpl in *. destruct auth as [|users].
  - split_and!; [done|done|]. intros a Ha. destruct (Hover a Ha) as [|(Hs & u & Hw & ->)];
      [by left|right]. split; [done|]. injection Hw as <-. done.
  - destruct Hok as [-> Hok].
    assert (forall u, SqServer.wait_for_sunny_auth (SqServer.Sunny users)
              (SqServer.with_accepted cn ac) = Some (Ok u) ->
            SqServer.auth_state cn = Some (inl u)) as Hwait.
    { intros u. simpl. by destruct (SqServer.auth_state cn) as [[]|]; intros; simplify_eq. }
    assert (forall u, (exists cr, cr ∈ SqServer.presented cn /\ users !! cr = Some u) ->
            exists cr, cr ∈ SqServer.presented c' /\ users !! cr = Some u) as Hmono.
    { intros u (cr & Hcr & Hu). exists cr. split; [|done].
      destruct Hauth as [[_ ->]|(? & ? & _ & -> & _)]; [done|]. apply elem_of_app. by left. }
    split_and!; [done| |done|].
    + intros u Hu. destruct Hauth as [[Ha _]|(us & cr & [= <-] & Hp & Hcr)].
      * apply Hmono, Hok. exact (eq_trans (eq_sym Ha) Hu).
      * exists cr. split; [|by apply Hcr]. rewrite Hp. apply elem_of_app. right.
        by apply list_elem_of_singleton.
    + intros a Ha. destruct (Hover a Ha) as [|(Hs & u & Hw & ->)]; [by left|right].
      split; [done|]. rewrite SqServer.tag_nil. by apply Hmono, Hok, Hwait.
Qed.

Lemma attributed_mono cs cs' a :
  (forall c, c ∈ cs -> exists c', c' ∈ cs' /\ source c' = source c /\
     forall u, vouches c u -> vouches c' u) ->
  attributed cs a -> attributed cs' a.
Proof using.
  intros Hcs (c & Hc & Hs & Hv). destruct (Hcs c Hc) as (c' & Hc' & Hs' & Hv').
  exists c'. split_and!; [done|congruence|by apply Hv'].
Qed.

(** Steps that add connections at most, and no items. *)
Lemma inv_more e e' :
  inv e -> SqConfig.server_authentication (server e') = SqConfig.server_authentication (server e) ->
  SqConfig.incoming (server e') = SqConfig.incoming (server e) -> delivered e' = delivered e ->
  (forall p, p ∈ pending e' -> allowed (pending_authentication p)) ->
  (exists cs, live e' = live e ++ cs /\ forall c, c ∈ cs -> allowed (authentication c) /\ live_ok c) ->
  inv e'.
Proof using.
  intros [H1 H2 H3 H4] Ea Ei Ed Hp (cs & El & Hcs). split; [by rewrite Ea|done| |].
  - intros c. rewrite El. intros [Hc|Hc]%elem_of_app; auto.
  - intros a. rewrite Ed, Ei, El. intros Ha. apply (attributed_mono (live e)); [|by apply H4].
    intros c Hc. exists c. split_and!; try done. apply elem_of_app. by left.
Qed.

Lemma connected_inv now l1 p l2 hs connection stats e :
  pending e = l1 ++ p :: l2 -> inv e ->
  inv (connected now p (l1 ++ l2) hs connection stats e).
Proof using.
  intros Hp Hi. assert (forall q, q ∈ l1 ++ l2 -> allowed (pending_authentication q)) as Hrest.
  { intros q Hq. apply (inv_pending _ Hi). rewrite Hp, elem_of_app, elem_of_cons.
    apply elem_of_app in Hq. tauto. }
  assert (allowed (pending_authentication p)) as Hallowed.
  { apply (inv_pending _ Hi). rewrite Hp. apply elem_of_app. right. by left. }
  unfold connected. destruct (SqServer.on_incoming _ _ _ _ _ _ _ _) as [[[v|err] cl] h] eqn:E.
  - apply SqServer.on_incoming_user in E as [Ht Hu].
    apply (inv_more _ _ Hi); try done. simpl. eexists. split; [done|].
    intros c ->%list_elem_of_singleton. split; [done|]. unfold live_ok, vouches. simpl.
    destruct (pending_authentication p) as [|us]; [done|]. split; [done|]. by rewrite Ht.
  - apply (inv_more _ _ Hi); try done. exists []. rewrite app_nil_r. split; [done|].
    by intros c ?%elem_of_nil.
Qed.

Lemma progressed_inv l1 c l2 c' e :
  live e = l1 ++ c :: l2 -> inv e ->
  SqServer.task_step (authentication c) (user c) (source c)
    (SqServer.with_accepted (conn c) (SqConfig.incoming (server e))) c' ->
  inv (progressed l1 l2 c c' e).
Proof using.
  intros Hl Hi Ht. destruct Hi as [H1 H2 H3 H4].
  assert (c ∈ live e) as Hc by (rewrite Hl; apply elem_of_app; right; by left).
  destruct (H3 c Hc) as [Hal Hok]. destruct (progress_ok _ _ _ Hok Ht) as (Hok' & Hv & Hitems).
  split; simpl; [done|done| |].
  - intros x. rewrite elem_of_app, elem_of_cons. intros [Hx|[->|Hx]]; [|by split|];
      apply H3; rewrite Hl, elem_of_app, elem_of_cons; auto.
  - intros a Ha. set (cs := l1 ++ _ :: l2).
    assert (attributed (live e) a -> attributed cs a) as Hmono.
    { apply attributed_mono. intros x. rewrite Hl, elem_of_app, elem_of_cons. unfold cs.
      setoid_rewrite elem_of_app. setoid_rewrite elem_of_cons.
      intros [Hx|[->|Hx]]; [by exists x; auto| |by exists x; auto].
      eexists. split; [right; by left|done]. }
    destruct Ha as [Ha|Ha]; [by apply Hmono, H4; left|].
    destruct (Hitems a Ha) as [Hold|[Hs Hnew]]; [by apply Hmono, H4; right|].
    eexists. split; [unfold cs; apply elem_of_app; right; by left|by split].
Qed.

Lemma endpoint_step_inv e e' : inv e -> step e e' -> inv e'.
Proof using update_allowed update_incoming.
  intros Hi Hs. destruct Hs as [src e Ht Ho|now mtu e|l1 p l2 e Hp|now l1 p l2 hs cn st e Hp|l1 c l2 c' e Hl Ht
    |senders r e e' Ha|s e Hu|e].
  - apply (inv_more _ _ Hi); try done; [|exists []; rewrite app_nil_r; by split; [|intros c ?%elem_of_nil]].
    simpl. intros p [Hp| ->%list_elem_of_singleton]%elem_of_app; [by apply (inv_pending _ Hi)|].
    apply (inv_server _ Hi).
  - apply (inv_more _ _ Hi); try done; [by apply (inv_pending _ Hi)|].
    exists []. rewrite app_nil_r. by split; [|intros c ?%elem_of_nil].
  - apply (inv_more _ _ Hi); try done; [|exists []; rewrite app_nil_r; by split; [|intros c ?%elem_of_nil]].
    simpl. intros q Hq. apply (inv_pending _ Hi). rewrite Hp, elem_of_app, elem_of_cons.
    apply elem_of_app in Hq. tauto.
  - by apply connected_inv.
  - by apply progressed_inv.
  - unfold accept in Ha. pose proof (recv_spec (SqConfig.incoming (server e))) as Hr.
    destruct (recv _) as [[a ac]|]; [|by destruct senders; simplify_eq]. injection Ha as <- <-.
    destruct Hr as (Hq & _). destruct Hi as [H1 H2 H3 H4]. split; simpl; try done.
    intros x Hx. apply H4. rewrite Hq, elem_of_cons. rewrite elem_of_app in Hx.
    setoid_rewrite list_elem_of_singleton in Hx. tauto.
  - destruct Hi as [H1 H2 H3 H4]. split; simpl; try done; [by eapply update_allowed|].
    rewrite (update_incoming _ _ Hu). done.
  - by destruct Hi as [H1 H2 H3 H4].
Qed.

Lemma endpoint_inv s e :
  allowed (SqConfig.server_authentication s) -> queued (SqConfig.incoming s) = [] ->
  rtc step (start s) e -> inv e.
Proof using update_allowed update_incoming.
  intros Ha Hq Hr. assert (inv (start s)) as Hi.
  { split; simpl; [done|by intros p ?%elem_of_nil|by intros c ?%elem_of_nil|].
    rewrite Hq. by intros a [?%elem_of_nil|?%elem_of_nil]. }
  revert Hi. induction Hr as [e|e1 e2 e3 Hs _ IH]; [done|]. intros Hi. apply IH.
  by eapply endpoint_step_inv.
Qed.
End Invariant.
End Server.

(** ** Attribution of what a server hands over *)

Section Attribution.
Context {Ctl Rtt Pacing Metrics : Type} `{CT : Controllers Ctl Rtt Pacing Metrics}.
Context {Ch Ac : Type} `{MC : Mpsc Ch SqUdp.Packet} `{MA : Mpsc Ac SqServer.Accepted}.
Context `{DG : SqServer.Digest}.
Variable tls : SqConfig.Tls.

(** The update that a SunnyQUIC server bound with [opts] offers. *)
Definition sunny_update (opts : SunnyQuic.ServerOptions) (s s' : SqConfig.Server Ac) : Prop :=
  SunnyQuic.renewal tls {| SunnyQuic.inner := s; SunnyQuic.options := opts |}
    {| SunnyQuic.inner := s'; SunnyQuic.options := opts |}.

(** The update that a ShadowQuic server offers. *)
Definition jls_update (s s' : SqConfig.Server Ac) : Prop :=
  exists options r, SqConfig.update_config tls options s = (r, s').

Lemma sunny_update_keeps opts s s' :
  sunny_update opts s s' -> SqConfig.incoming s' = SqConfig.incoming s /\
  (SqConfig.server_authentication s
     = SqServer.Sunny (SqServer.sunny_users (SunnyQuic.users opts)) ->
   SqConfig.server_authentication s'
     = SqServer.Sunny (SqServer.sunny_users (SunnyQuic.users opts))).
Proof using.
  intros (chain & key & r & Hu).
  destruct (SunnyQuic.update_certificate_returns tls chain key
    {| SunnyQuic.inner := s; SunnyQuic.options := opts |}) as (r' & t & Hu' & _ & Ht).
  rewrite Hu in Hu'. injection Hu' as <- <-. simpl in Ht. destruct r; [|by injection Ht as ->].
  by destruct Ht as (c & -> & _).
Qed.

Lemma bind_fresh os listen config congestion auth (s : SqConfig.Server Ac) :
  SqConfig.bind_inner os listen config congestion auth = Ok s ->
  queued (SqConfig.incoming s) = [] /\ SqConfig.server_authentication s = auth.
Proof using.
  unfold SqConfig.bind_inner. destruct (SqConfig.io _); simpl; [|done]. intros [= <-]. simpl.
  split; [|done]. apply channel_spec.
Qed.

(** C3: a SunnyQUIC server hands over nothing without a configured user.
    Whatever connections come, however their tasks, renewals of the
    certificate and the application interleave: every item that
    [Server::accept] has returned or will return was requested on a
    connection from the address it is attributed to, on which the peer has
    presented the credential of a user the server was bound with, and it is
    attributed to that user. *)
Theorem sunny_server_attribution os opts (s0 : SunnyQuic.Server Ac) (e : State Ctl Ch Ac)
    (Hbind : SunnyQuic.bind tls os opts = Returns (Ok s0))
    (Hrun : rtc (step (sunny_update opts)) (start (SunnyQuic.inner s0)) e) :
  forall a, a ∈ delivered e \/ a ∈ queued (SqConfig.incoming (server e)) ->
  exists c u, c ∈ live e /\ source c = SqServer.accepted_source a /\
    u ∈ SunnyQuic.users opts /\ SqServer.name u = SqServer.accepted_user a /\
    SqServer.sunny_credential (SqServer.name u) (SqServer.password u)
      ∈ SqServer.presented (conn c).
Proof using.
  set (table := SqServer.Sunny (SqServer.sunny_users (SunnyQuic.users opts))).
  assert (queued (SqConfig.incoming (SunnyQuic.inner s0)) = [] /\
          SqConfig.server_authentication (SunnyQuic.inner s0) = table) as [Hq Ha].
  { revert Hbind. unfold SunnyQuic.bind, SqConfig.bind_sunny.
    destruct (SqConfig.build_sunny_server_config _ _ _ _) as [[c|x]|]; simpl; try done.
    destruct (SqConfig.bind_inner _ _ _ _ _) as [s|] eqn:E; simpl; [|done].
    intros [= <-]. by apply bind_fresh in E. }
  assert (inv (fun a => a = table) e) as [_ _ Hlive Hitems].
  { eapply (endpoint_inv (sunny_update opts)); [|..|exact Hrun]; [..|done|done].
    - intros s s' Hu. by apply sunny_update_keeps in Hu as [_ Hu].
    - intros s s' Hu. by apply sunny_update_keeps in Hu as [Hu _]. }
  intros a Hin. destruct (Hitems a Hin) as (c & Hc & Hs & Hv). destruct (Hlive c Hc) as [Ec _].
  unfold vouches in Hv. rewrite Ec in Hv. destruct Hv as (cr & Hcr & Hu).
  apply SqServer.sunny_users_sound in Hu as (u & Hu & Hn & <-). by exists c, u.
Qed.

(** C4: a ShadowQuic server hands over nothing without JLS.  Every item that
    [Server::accept] has returned or will return comes from a connection,
    from the address it is attributed to, whose handshake says that JLS
    authenticated it, and is attributed to the user the handshake names. *)
Theorem jls_server_attribution os opts (s0 : SqConfig.Server Ac) (e : State Ctl Ch Ac)
    (Hbind : SqConfig.bind tls os opts = Ok s0)
    (Hrun : rtc (step jls_update) (start s0) e) :
  forall a, a ∈ delivered e \/ a ∈ queued (SqConfig.incoming (server e)) ->
  exists c d, c ∈ live e /\ source c = SqServer.accepted_source a /\
    handshake c = SqServer.Data d /\ SqServer.jls_authenticated d = Some true /\
    SqServer.accepted_user a = default [] (SqServer.jls_user d).
Proof using.
  assert (queued (SqConfig.incoming s0) = [] /\
          SqConfig.server_authentication s0 = SqServer.Jls) as [Hq Ha].
  { revert Hbind. unfold SqConfig.bind.
    destruct (SqConfig.build_server_config _ _); simpl; [|done]. by intros ?%bind_fresh. }
  assert (inv (fun a => a = SqServer.Jls) e) as [_ _ Hlive Hitems].
  { eapply (endpoint_inv jls_update); [|..|exact Hrun]; [..|done|done];
      intros s s' (options & r & Hu); revert Hu; unfold SqConfig.update_config;
      destruct (SqConfig.build_server_config _ _); by intros [= <- <-]. }
  intros a Hin. destruct (Hitems a Hin) as (c & Hc & Hs & Hv). destruct (Hlive c Hc) as [Ec _].
  unfold vouches in Hv. rewrite Ec in Hv. destruct Hv as (d & Hd & Hj & Hu). by exists c, d.
Qed.
End Attribution.

(** ** Examples *)

Section ExampleRun.
Variable update : SqConfig.Server (ListChannel.Chan SqServer.Accepted) ->
  SqConfig.Server (ListChannel.Chan SqServer.Accepted) -> Prop.

Definition ExampleState : Type :=
  State Congestion.Counting.Ctl (ListChannel.Chan SqUdp.Packet) (ListChannel.Chan SqServer.Accepted).

(** What happens in an example run. *)
Inductive Event :=
| Arrives
| Builds
| Connects (hs : SqServer.Handshake)
| Sends (stream : RecvHalf)
| Accepts.

Definition example_quic : Congestion.Connection Congestion.Counting.Ctl :=
  {| Congestion.congestion := Congestion.Switchable Congestion.example_handle;
     Congestion.rtt := 5 |}.

Definition example_path : Transport.PathStats :=
  {| Transport.path_rtt := 50000000; Transport.path_cwnd := 12000;
     Transport.path_current_mtu := 1400 |}.

Definition after (ev : Event) (e : ExampleState) : option ExampleState :=
  match ev with
  | Arrives =>
      if SqConfig.accept_task (server e)
      then match Socket.close_reason (SqConfig.endpoint (server e)) with
           | None => Some (accept_round SqServer.example_source e)
           | Some _ => None
           end
      else None
  | Builds => Some (without_pending e (pending e) (Congestion.build 0 1200 (controllers e)).2)
  | Connects hs =>
      match pending e with
      | p :: ps => Some (connected 1 p ps hs example_quic example_path e)
      | [] => None
      end
  | Sends stream =>
      match live e with
      | [c] =>
          match SqServer.handle_bi_stream (authentication c) (user c) (source c)
                  SqServer.example_extension (open_send [] Closed) stream
                  (SqServer.with_accepted (conn c) (SqConfig.incoming (server e))) with
          | Some (_, c') => Some (progressed [] [] c c' e)
          | None => None
          end
      | _ => None
      end
  | Accepts => snd <$> accept true e
  end.

Definition run_example (evs : list Event) (e : ExampleState) : option ExampleState :=
  foldl (fun o ev => o ≫= after ev) (Some e) evs.

Lemma after_step ev e e' : after ev e = Some e' -> step update e e'.
Proof using.
  destruct ev as [| |hs|stream|]; cbn [after].
  - destruct (SqConfig.accept_task _) eqn:Et; [|done].
    destruct (Socket.close_reason _) eqn:Ec; [done|]. intros [= <-]. by apply step_incoming.
  - intros [= <-]. exact (step_built update 0 1200 e).
  - destruct (pending e) as [|p ps] eqn:Ep; [done|]. intros [= <-].
    by apply (step_connected _ _ [] p ps).
  - destruct (live e) as [|c [|]] eqn:El; try done.
    destruct (SqServer.handle_bi_stream _ _ _ _ _ _ _) as [[r c']|] eqn:Eh; [|done].
    intros [= <-]. apply step_connection; [done|]. eexists. by eapply SqServer.task_bi.
  - intros ([r e1] & Ha & ->)%fmap_Some. by eapply step_accept.
Qed.

Lemma run_example_steps evs e e' : run_example evs e = Some e' -> rtc (step update) e e'.
Proof using.
  revert e'. induction evs as [|ev evs IH] using rev_ind; intros e'; unfold run_example.
  { by intros [= <-]. }
  rewrite foldl_app. simpl. intros (e1 & H1 & H2)%bind_Some.
  eapply rtc_r; [by apply IH|by eapply after_step].
Qed.
End ExampleRun.

Definition example_request : RecvHalf :=
  {| Error.pending := [SqWire.SQ_CONNECT; SqWire.SQ_IPV4; Byte.x01; Byte.x01; Byte.x01; Byte.x01;
                 Byte.x00; Byte.x35];
     ending := None |}.

Definition example_accepted : SqServer.Accepted :=
  SqServer.AcceptedStream (open_send [] Closed, {| Error.pending := []; ending := None |})
    {| Address.host := str "1.1.1.1"; Address.port := 53 |} (str "alice") SqServer.example_source.

Definition sunny_start : ExampleState :=
  start (SunnyQuic.inner (SunnyQuic.example_bound (SunnyQuic.example_config [str "old"]))).

Definition sunny_end : ExampleState :=
  default sunny_start (run_example
    [Builds; Arrives; Connects SqServer.NoData; Sends SqServer.example_login;
     Sends example_request; Accepts] sunny_start).

Lemma sunny_server_attribution_witness :
  delivered sunny_end = [example_accepted] /\
  exists c u, c ∈ live sunny_end /\ source c = SqServer.example_source /\
    u ∈ SqServer.example_users /\ SqServer.name u = str "alice" /\
    SqServer.sunny_credential (SqServer.name u) (SqServer.password u)
      ∈ SqServer.presented (conn c).
Proof.
  assert (delivered sunny_end = [example_accepted]) as Hd by (vm_compute; reflexivity).
  split; [exact Hd|].
  refine (sunny_server_attribution SunnyQuic.example_tls SunnyQuic.example_os
    SunnyQuic.example_server_options (SunnyQuic.example_bound (SunnyQuic.example_config [str "old"]))
    sunny_end SunnyQuic.example_binds _ example_accepted _).
  - apply (run_example_steps _ [Builds; Arrives; Connects SqServer.NoData;
      Sends SqServer.example_login; Sends example_request; Accepts]). vm_compute. reflexivity.
  - left. rewrite Hd. apply list_elem_of_singleton. reflexivity.
Defined.

Definition example_jls_options : SqConfig.ServerOptions :=
  {| SqConfig.listen := SunnyQuic.example_address; SqConfig.users := SqServer.example_users;
     SqConfig.server_name := Some (str "example.com"); SqConfig.jls_upstream_addr := None;
     SqConfig.jls_rate_limit := 1000; SqConfig.congestion := SqServer.ConfigBbr;
     SqConfig.zero_rtt := true |}.

Definition example_jls_server : SqConfig.Server (ListChannel.Chan SqServer.Accepted) :=
  match SqConfig.bind SunnyQuic.example_tls SunnyQuic.example_os example_jls_options with
  | Ok s => s
  | Err _ => SunnyQuic.inner (SunnyQuic.example_bound (SunnyQuic.example_config []))
  end.

Definition example_handshake : SqServer.HandshakeData :=
  {| SqServer.jls_authenticated := Some true; SqServer.jls_user := Some (str "alice") |}.

Definition jls_end : ExampleState :=
  default sunny_start (run_example
    [Builds; Arrives; Connects (SqServer.Data example_handshake); Sends example_request; Accepts]
    (start example_jls_server)).

Lemma jls_server_attribution_witness :
  delivered jls_end = [example_accepted] /\
  exists c d, c ∈ live jls_end /\ source c = SqServer.example_source /\
    handshake c = SqServer.Data d /\ SqServer.jls_authenticated d = Some true /\
    str "alice" = default [] (SqServer.jls_user d).
Proof.
  assert (delivered jls_end = [example_accepted]) as Hd by (vm_compute; reflexivity).
  split; [exact Hd|].
  refine (jls_server_attribution SunnyQuic.example_tls SunnyQuic.example_os example_jls_options
    example_jls_server jls_end _ _ example_accepted _).
  - vm_compute. reflexivity.
  - apply (run_example_steps _ [Builds; Arrives; Connects (SqServer.Data example_handshake);
      Sends example_request; Accepts]). vm_compute. reflexivity.
  - left. rewrite Hd. apply list_elem_of_singleton. reflexivity.
Defined.
End SqEndpoint.
