(* ===== verification/H3Coding.v ===== *)
(** * Buffers and variable integers of the HTTP/3 library

    The library that the repository carries for the authentication exchange
    of Hysteria2: [vendor/h3/src/proto/coding.rs] and
    [vendor/h3/src/proto/varint.rs].  A [Buf] is the bytes it still has and
    is left where a failing read stopped; what is written to a [BufMut] is
    the bytes that are appended.  The library's variable integers are proved
    to be those of the crate. *)

From Stdlib Require Import ZArith Lia.
From stdpp Require Import base gmap list strings.
From S2P Require Import Prelude Error VarInt.

#[local] Open Scope Z_scope.

Module H3Coding.

(** ** Fallible reads from a buffer *)

Inductive Res (E A : Type) :=
| RetOk (a : A)
| RetErr (e : E).
Arguments RetOk {E A} a.
Arguments RetErr {E A} e.

#[global] Instance Res_eq_dec {E A} `{EqDecision E, EqDecision A} : EqDecision (Res E A).
Proof. solve_decision. Defined.

Definition Dec (E A : Type) : Type := bytes -> Res E A * bytes.

Definition dret {E A} (a : A) : Dec E A := fun buf => (RetOk a, buf).
Definition dfail {E A} (e : E) : Dec E A := fun buf => (RetErr e, buf).
Definition dbind {E A B} (c : Dec E A) (k : A -> Dec E B) : Dec E B :=
  fun buf => match c buf with
             | (RetOk a, buf) => k a buf
             | (RetErr e, buf) => (RetErr e, buf)
             end.

(** [map_err], and the conversion of errors that [?] performs. *)
Definition map_err {E F A} (f : E -> F) (c : Dec E A) : Dec F A :=
  fun buf => match c buf with
             | (RetOk a, buf) => (RetOk a, buf)
             | (RetErr e, buf) => (RetErr (f e), buf)
             end.

Declare Scope buf_scope.
Delimit Scope buf_scope with buf.
Notation "'let%' x ':=' c 'in' k" := (dbind c (fun x => k))
  (at level 10, x pattern, c at level 200, k at level 200) : buf_scope.

(** [UnexpectedEnd(n)]. *)
Inductive UnexpectedEnd := UnexpectedEndAt (n : Z).

#[global] Instance UnexpectedEnd_eq_dec : EqDecision UnexpectedEnd.
Proof. solve_decision. Defined.

(** [buf.get::<u8>()]. *)
Definition get_u8 : Dec UnexpectedEnd byte := fun buf =>
  match buf with
  | [] => (RetErr (UnexpectedEndAt 1), [])
  | b :: buf => (RetOk b, buf)
  end.

(** ** Variable integers *)

(** [VarInt::MAX]. *)
Definition MAX : Z := Z.shiftl 1 62 - 1.

(** [VarInt::size], which panics on a malformed value. *)
Definition size (x : Z) : Outcome Z :=
  if x <? 2 ^ 6 then Returns 1
  else if x <? 2 ^ 14 then Returns 2
  else if x <? 2 ^ 30 then Returns 4
  else if x <? 2 ^ 62 then Returns 8
  else Panics.

Definition encoded_size (first : byte) : Z := 2 ^ Z.shiftr (bz first) 6.

(** The arms of [VarInt::decode] that read [n] more bytes. *)
Definition decode_tail (n : nat) (missing : Z) (buf0 : byte) : Dec UnexpectedEnd Z := fun r =>
  if len r <? Z.of_nat n then (RetErr (UnexpectedEndAt missing), r)
  else (RetOk (from_be (buf0 :: take n r)), drop n r).

(** [VarInt::decode], also [buf.get_var()]. *)
Definition decode : Dec UnexpectedEnd Z := fun r =>
  match r with
  | [] => (RetErr (UnexpectedEndAt 0), [])
  | first :: r =>
      let tag := Z.shiftr (bz first) 6 in
      let buf0 := zb (Z.land (bz first) 63) in
      if tag =? 0 then (RetOk (bz buf0), r)
      else if tag =? 1 then decode_tail 1 1 buf0 r
      else if tag =? 2 then decode_tail 3 2 buf0 r
      else decode_tail 7 3 buf0 r
  end.

(** [VarInt::encode], the bytes it puts. *)
Definition encode (x : Z) : Outcome bytes :=
  if x <? 2 ^ 6 then Returns [zb x]
  else if x <? 2 ^ 14 then Returns (to_be 2 (Z.lor (Z.shiftl 1 14) (wrap 16 x)))
  else if x <? 2 ^ 30 then Returns (to_be 4 (Z.lor (Z.shiftl 2 30) (wrap 32 x)))
  else if x <? 2 ^ 62 then Returns (to_be 8 (Z.lor (Z.shiftl 3 62) x))
  else Panics.

(** [VarInt::from_u64]; [None] is [VarIntBoundsExceeded]. *)
Definition from_u64 (x : Z) : option Z := if x <? 2 ^ 62 then Some x else None.

(** [buf.write_var(x)]: [VarInt::from_u64(x).unwrap().encode(buf)]. *)
Definition write_var (x : Z) : Outcome bytes :=
  match from_u64 x with Some x => encode x | None => Panics end.

(** ** Lemmas on buffers *)
#[local] Open Scope buf_scope.

Lemma dbind_ok {E A B} (c : Dec E A) (k : A -> Dec E B) buf a buf' :
  c buf = (RetOk a, buf') -> dbind c k buf = k a buf'.
Proof. unfold dbind. by intros ->. Qed.

Lemma dbind_err {E A B} (c : Dec E A) (k : A -> Dec E B) buf e buf' :
  c buf = (RetErr e, buf') -> dbind c k buf = (RetErr e, buf').
Proof. unfold dbind. by intros ->. Qed.

Lemma dbind_ok_inv {E A B} (c : Dec E A) (k : A -> Dec E B) buf b buf' :
  dbind c k buf = (RetOk b, buf') ->
  exists a buf1, c buf = (RetOk a, buf1) /\ k a buf1 = (RetOk b, buf').
Proof. unfold dbind. destruct (c buf) as [[a|e] s1]; intros; simplify_eq. eauto. Qed.

Lemma map_err_ok {E F A} (f : E -> F) (c : Dec E A) buf a buf' :
  map_err f c buf = (RetOk a, buf') <-> c buf = (RetOk a, buf').
Proof. unfold map_err. destruct (c buf) as [[]?]; naive_solver. Qed.

(** A decoder that reads [a] from the bytes [l], whatever follows them. *)
Definition decodes {E A} (c : Dec E A) (l : bytes) (a : A) : Prop :=
  forall rest, c (l ++ rest) = (RetOk a, rest).

Lemma decodes_bind {E A B} (c : Dec E A) (k : A -> Dec E B) l1 l2 a b :
  decodes c l1 a -> decodes (k a) l2 b -> decodes (dbind c k) (l1 ++ l2) b.
Proof. intros H1 H2 rest. rewrite <-app_assoc. by erewrite dbind_ok by apply H1. Qed.

Lemma decodes_map_err {E F A} (f : E -> F) (c : Dec E A) l a :
  decodes c l a -> decodes (map_err f c) l a.
Proof. intros H rest. by apply map_err_ok. Qed.

Lemma decodes_ret {E A} (a : A) : decodes (@dret E A a) [] a.
Proof. done. Qed.

(** A read never lengthens the buffer: it leaves a suffix of it. *)
Definition advances {E A} (c : Dec E A) : Prop :=
  forall buf r buf', c buf = (r, buf') -> buf' `suffix_of` buf.

Lemma advances_bind {E A B} (c : Dec E A) (k : A -> Dec E B) :
  advances c -> (forall a, advances (k a)) -> advances (dbind c k).
Proof.
  intros Hc Hk buf r buf'. unfold dbind. destruct (c buf) as [[a|e] b1] eqn:Hc1.
  - intros H. etrans; [eapply Hk, H|eapply Hc, Hc1].
  - intros [= <- <-]. eapply Hc, Hc1.
Qed.

Lemma advances_map_err {E F A} (f : E -> F) (c : Dec E A) :
  advances c -> advances (map_err f c).
Proof.
  intros Hc buf r buf'. unfold map_err. destruct (c buf) as [[a|e] b1] eqn:Hc1;
    intros [= <- <-]; eapply Hc, Hc1.
Qed.

Lemma advances_get_u8 : advances get_u8.
Proof. intros [|b buf] r buf' [= <- <-]; [done|]. by exists [b]. Qed.

Lemma advances_decode_tail n m b : advances (decode_tail n m b).
Proof.
  intros buf r buf'. unfold decode_tail. case_match; intros [= <- <-]; [done|].
  apply suffix_drop.
Qed.

Lemma advances_decode : advances decode.
Proof.
  intros [|first buf] r buf'; unfold decode; [by intros [= <- <-]|].
  assert (forall t, t `suffix_of` buf -> t `suffix_of` first :: buf) as Hs
    by (intros; by apply suffix_cons_r).
  repeat (case_match; [first [by intros [= <- <-]; apply Hs
    | by intros Hd%advances_decode_tail; apply Hs]|]).
  intros Hd%advances_decode_tail; by apply Hs.
Qed.

(** ** Lemmas on variable integers *)

Lemma zb_lor_high k t y : 8 <= t -> zb (Z.lor (Z.shiftl k t) y) = zb y.
Proof.
  intros Ht. apply bz_inj. rewrite !bz_zb. change 256 with (2 ^ 8).
  rewrite <-!Z.land_ones by lia. apply Z.bits_inj'. intros n Hn.
  rewrite !Z.land_spec, Z.lor_spec, Z.shiftl_spec by done.
  destruct (decide (n < 8)).
  - by rewrite (Z.testbit_neg_r k) by lia.
  - rewrite Z.ones_spec_high by lia. by rewrite !andb_false_r.
Qed.

Lemma to_be_lor_high m k s x :
  8 * Z.of_nat m <= s -> to_be m (Z.lor (Z.shiftl k s) x) = to_be m x.
Proof.
  induction m as [|m IH]; [done|]. intros Hs. cbn [to_be]. rewrite IH by lia. f_equal.
  rewrite Z.shiftr_lor, Z.shiftr_shiftl_l by lia. apply zb_lor_high. lia.
Qed.

Lemma to_be_tagged m k x :
  0 <= k -> to_be (S m) (Z.lor (Z.shiftl k (8 * Z.of_nat m + 6)) x)
  = zb (Z.lor (x / 256 ^ Z.of_nat m) (k * 64)) :: to_be m x.
Proof.
  intros Hk. cbn [to_be]. rewrite to_be_lor_high by lia. f_equal. f_equal.
  rewrite Z.shiftr_lor, Z.shiftr_shiftl_l, Z.lor_comm by lia.
  rewrite Z.shiftr_div_pow2, Z.pow_mul_r by lia. f_equal.
  rewrite Z.shiftl_mul_pow2 by lia.
  by replace (8 * Z.of_nat m + 6 - 8 * Z.of_nat m) with 6 by lia.
Qed.

Lemma encode_agrees x :
  0 <= x -> encode x = match VarInt.encode x with Ok l => Returns l | Err _ => Panics end.
Proof.
  intros Hx. destruct (decide (x <= VarInt.MAX)) as [HM|HM].
  2: { unfold encode, VarInt.encode. destruct (x >? VarInt.MAX) eqn:E; [|lia].
       unfold VarInt.MAX in HM. rewrite Z.shiftl_1_l in HM.
       repeat (rewrite (proj2 (Z.ltb_ge _ _)) by lia). done. }
  destruct (VarInt.encode_shape x) as (k & Hk & He & Hlt & ->); [done|].
  unfold VarInt.MAX in HM. rewrite Z.shiftl_1_l in HM. unfold encode.
  unfold VarInt.encoded_length in He.
  assert (k = 0 \/ k = 1 \/ k = 2 \/ k = 3) as [-> | [-> | [-> | ->]]] by lia;
    repeat case_match; try lia; f_equal.
  - change (256 ^ (2 ^ 0 - 1)) with 1. by rewrite Z.div_1_r, Z.lor_0_r.
  - rewrite wrap_small by (unfold uint; lia). apply (to_be_tagged 1 1); lia.
  - rewrite wrap_small by (unfold uint; lia). apply (to_be_tagged 3 2); lia.
  - apply (to_be_tagged 7 3); lia.
Qed.

Lemma decode_agrees data :
  match VarInt.decode_varint data with
  | Ok (v, n) => decode data = (RetOk v, drop (Z.to_nat n) data)
  | Err _ => exists n rest, decode data = (RetErr (UnexpectedEndAt n), rest)
  end.
Proof.
  destruct data as [|first r]; [by eexists _, _|]. unfold VarInt.decode_varint, decode.
  rewrite len_cons. cbn [drop]. rewrite drop_0.
  destruct (VarInt.first_byte_split first) as (k & Hk & Hl & Hlow & Hb). rewrite Hl.
  change (Z.land (bz first) 63) with (VarInt.low_bits first).
  assert (Z.shiftr (bz first) 6 = k) as ->.
  { rewrite Z.shiftr_div_pow2, Hb by lia. change (2 ^ 6) with 64.
    rewrite Z.div_add_l, Z.div_small by lia. lia. }
  assert (bz (zb (VarInt.low_bits first)) = VarInt.low_bits first) as Hz
    by (apply bz_zb_small; lia).
  assert (forall n m, (n <= 7)%nat ->
    if 1 + len r <? Z.of_nat (S n) then
      exists p rest, decode_tail n m (zb (VarInt.low_bits first)) r
                     = (RetErr (UnexpectedEndAt p), rest)
    else decode_tail n m (zb (VarInt.low_bits first)) r
      = (RetOk (foldl VarInt.shift_in (VarInt.low_bits first) (take n r)),
         drop n r)) as Htail.
  { intros n m Hn. unfold decode_tail. pose proof (len_nonneg r).
    destruct (Z.ltb_spec (1 + len r) (Z.of_nat (S n))), (Z.ltb_spec (len r) (Z.of_nat n));
      try lia; [by eexists _, _|].
    rewrite VarInt.foldl_shift_in by (done || rewrite length_take; lia).
    by rewrite from_be_cons, Hz. }
  assert (k = 0 \/ k = 1 \/ k = 2 \/ k = 3) as [-> | [-> | [-> | ->]]] by lia; simpl Z.eqb;
    cbn iota.
  - pose proof (len_nonneg r). change (2 ^ 0) with 1.
    destruct (Z.ltb_spec (1 + len r) 1); [lia|]. simpl. by rewrite Hz.
  - specialize (Htail 1%nat 1 ltac:(lia)). by destruct (1 + len r <? _).
  - specialize (Htail 3%nat 2 ltac:(lia)). by destruct (1 + len r <? _).
  - specialize (Htail 7%nat 3 ltac:(lia)). by destruct (1 + len r <? _).
Qed.

Lemma write_var_ok x : 0 <= x <= MAX -> write_var x = Returns (VarInt.encoded x).
Proof.
  intros Hx. unfold write_var, from_u64.
  rewrite (proj2 (Z.ltb_lt _ _)) by (change MAX with (2 ^ 62 - 1) in Hx; lia).
  by rewrite encode_agrees, (VarInt.encode_encoded x Hx) by lia.
Qed.

Lemma decodes_varint x : 0 <= x <= MAX -> decodes decode (VarInt.encoded x) x.
Proof.
  intros Hx rest. assert (VarInt.encode x = Ok (VarInt.encoded x)) as He
    by (by apply VarInt.encode_encoded).
  pose proof (decode_agrees (VarInt.encoded x ++ rest)) as H.
  rewrite (VarInt.decode_encode _ _ rest (proj1 Hx) He) in H.
  by rewrite H, drop_app_exact by (unfold len; lia).
Qed.

Lemma size_encoded x : 0 <= x <= MAX -> size x = Returns (len (VarInt.encoded x)).
Proof.
  intros Hx. rewrite (VarInt.len_encode x) by (lia || by apply VarInt.encode_encoded).
  unfold size, VarInt.encoded_length. unfold MAX in Hx. rewrite Z.shiftl_1_l in Hx.
  repeat case_match; lia || done.
Qed.

(** The variable integers of the HTTP/3 library are those of the crate:
    both encoders put the same bytes and refuse the same values (the library
    by a panic), and both decoders read the same value from the same bytes
    of a buffer, or both report that it is too short. *)
Theorem varints_agree (x : Z) (data : bytes) (Hx : 0 <= x) :
  encode x = match VarInt.encode x with Ok l => Returns l | Err _ => Panics end /\
  match VarInt.decode_varint data with
  | Ok (v, n) => decode data = (RetOk v, drop (Z.to_nat n) data)
  | Err _ => exists n rest, decode data = (RetErr (UnexpectedEndAt n), rest)
  end.
Proof. split; [by apply encode_agrees|apply decode_agrees]. Qed.

Lemma varints_agree_witness :
  encode 15293 = Returns [Byte.x7b; Byte.xbd] /\
  decode [Byte.x7b; Byte.xbd; Byte.x01] = (RetOk 15293, [Byte.x01]).
Proof.
  destruct (varints_agree 15293 [Byte.x7b; Byte.xbd; Byte.x01] ltac:(lia)) as [H1 H2].
  split; [exact H1|exact H2].
Defined.

End H3Coding.
