(* ===== verification/QpackInt.v ===== *)
(** * Prefixed integers of QPACK

    [vendor/h3/src/qpack/prefix_int.rs]: an integer shares its first byte
    with flags and continues in groups of seven bits.  The code asserts that
    [size], the number of bits that the integer has in the first byte, is at
    most 8, and every caller passes a constant from 3 to 8. *)

From Stdlib Require Import ZArith Lia.
From stdpp Require Import base gmap list strings.
From S2P Require Import Prelude Error VarInt H3Coding.

#[local] Open Scope Z_scope.

Module QpackInt.
Import H3Coding.
#[local] Open Scope buf_scope.

Inductive Error :=
| Overflow
| UnexpectedEnd.

#[global] Instance Error_eq_dec : EqDecision Error.
Proof. solve_decision. Defined.

(** [impl From<coding::UnexpectedEnd> for Error]. *)
Definition from_end (_ : H3Coding.UnexpectedEnd) : Error := UnexpectedEnd.

Definition MAX_POWER : Z := 9 * 7.

(** [0xFF >> (8 - size)], which is [!(0xFF << size) as u8]. *)
Definition mask (size : Z) : Z := Z.shiftr 0xFF (8 - size).

(** The loop of [decode], on the bytes that follow the first one. *)
Fixpoint decode_loop (value power : Z) (buf : bytes) : Res Error Z * bytes :=
  match buf with
  | [] => (RetErr UnexpectedEnd, [])
  | b :: buf =>
      let value := wrap 64 (value + wrap 64 (Z.shiftl (Z.land (bz b) 127) power)) in
      let power := power + 7 in
      if Z.land (bz b) 128 =? 0 then (RetOk value, buf)
      else if power >=? MAX_POWER then (RetErr Overflow, buf)
      else decode_loop value power buf
  end.

Definition decode (size : Z) : Dec Error (Z * Z) :=
  let% b := map_err from_end get_u8 in
  let flags := wrap 8 (Z.shiftr (bz b) size) in
  let first := Z.land (bz b) (mask size) in
  if first <? mask size then dret (flags, first)
  else
    let% value := decode_loop (mask size) 0 in
    dret (flags, value).

(** The loop of [encode].  Its ten rounds are enough for 64 bits. *)
Fixpoint encode_loop (fuel : nat) (remaining : Z) : bytes :=
  match fuel with
  | O => []
  | S fuel =>
      if remaining >=? 128
      then zb (remaining mod 128 + 128) :: encode_loop fuel (remaining / 128)
      else [zb remaining]
  end.

Definition encode (size flags value : Z) : bytes :=
  let mask := Z.land (Z.lnot (Z.shiftl 0xFF size)) 0xFF in
  let flags := wrap 8 (Z.shiftl flags size) in
  if value <? mask then [zb (Z.lor flags value)]
  else zb (Z.lor mask flags) :: encode_loop 10 (value - mask).

(** ** Bits of a byte *)

Lemma low7 b : Z.land (bz b) 127 = bz b mod 128.
Proof. by destruct b. Qed.

Lemma high1 b : (Z.land (bz b) 128 =? 0) = (bz b <? 128).
Proof. by destruct b. Qed.

Lemma cases_1_8 size : 1 <= size <= 8 ->
  size = 1 \/ size = 2 \/ size = 3 \/ size = 4 \/ size = 5 \/ size = 6 \/ size = 7 \/ size = 8.
Proof. lia. Qed.

Lemma mask_pow size : 1 <= size <= 8 -> mask size = 2 ^ size - 1.
Proof. by intros [-> | [-> | [-> | [-> | [-> | [-> | [-> | ->]]]]]]]%cases_1_8. Qed.

Lemma mask_encode size :
  1 <= size <= 8 -> Z.land (Z.lnot (Z.shiftl 0xFF size)) 0xFF = mask size.
Proof. by intros [-> | [-> | [-> | [-> | [-> | [-> | [-> | ->]]]]]]]%cases_1_8. Qed.

Lemma mask_range size : 1 <= size <= 8 -> 1 <= mask size <= 255.
Proof.
  by intros [-> | [-> | [-> | [-> | [-> | [-> | [-> | ->]]]]]]]%cases_1_8.
Qed.

(** Flags above [size] bits and an integer below them share a byte. *)
Lemma join_byte size flags v :
  1 <= size <= 8 -> 0 <= flags < 2 ^ (8 - size) -> 0 <= v <= mask size ->
  bz (zb (Z.lor (wrap 8 (Z.shiftl flags size)) v)) = flags * 2 ^ size + v.
Proof.
  intros Hs Hf Hv. rewrite mask_pow in Hv by done.
  assert (0 < 2 ^ size) by lia.
  assert (2 ^ (8 - size) * 2 ^ size = 256) as Hp
    by (rewrite <-Z.pow_add_r by lia; by replace (8 - size + size) with 8 by lia).
  rewrite Z.shiftl_mul_pow2, wrap_small by (unfold uint; nia).
  assert (Z.land (flags * 2 ^ size) v = 0) as Hland.
  { rewrite <-(Z.mod_small v (2 ^ size)) by lia.
    rewrite <-Z.land_ones, (Z.land_comm v), Z.land_assoc, Z.land_ones by lia.
    by rewrite Z.mod_mul, Z.land_0_l by lia. }
  rewrite <-Z.lxor_lor, <-Z.add_nocarry_lxor by done. apply bz_zb_small. nia.
Qed.

Lemma split_byte size b flags v :
  1 <= size <= 8 -> 0 <= flags < 2 ^ (8 - size) -> 0 <= v <= mask size ->
  bz b = flags * 2 ^ size + v ->
  wrap 8 (Z.shiftr (bz b) size) = flags /\ Z.land (bz b) (mask size) = v.
Proof.
  intros Hs Hf Hv ->. rewrite mask_pow in * by done. assert (0 < 2 ^ size) by lia. split.
  - rewrite Z.shiftr_div_pow2, Z.div_add_l, Z.div_small by lia.
    rewrite Z.add_0_r. apply wrap_small. unfold uint.
    assert (2 ^ (8 - size) <= 2 ^ 8) by (apply Z.pow_le_mono_r; lia). lia.
  - replace (2 ^ size - 1) with (Z.ones size) by (rewrite Z.ones_equiv; lia).
    rewrite Z.land_ones by lia.
    rewrite Z.add_comm, Z.mod_add by lia. apply Z.mod_small. lia.
Qed.

(** ** The loops *)

Lemma decode_loop_encode fuel : forall remaining value power rest,
  0 <= power < MAX_POWER -> (7 | power) ->
  0 <= remaining < 2 ^ (63 - power) -> Z.max 1 remaining < 128 ^ Z.of_nat fuel ->
  0 <= value -> value + remaining * 2 ^ power < 2 ^ 64 ->
  decode_loop value power (encode_loop fuel remaining ++ rest)
  = (RetOk (value + remaining * 2 ^ power), rest).
Proof.
  unfold MAX_POWER.
  induction fuel as [|fuel IH]; intros r v p rest Hp Hd Hr Hf Hv Hsum.
  { change (128 ^ Z.of_nat 0) with 1 in Hf. lia. }
  assert (1 <= 2 ^ p) by (apply (Z.pow_le_mono_r 2 0); lia).
  cbn [encode_loop]. rewrite Z.geb_leb. destruct (Z.leb_spec 128 r).
  - cbn [app decode_loop]. rewrite low7, high1.
    pose proof (Z.mod_pos_bound r 128 ltac:(lia)).
    pose proof (Z.div_mod r 128 ltac:(lia)) as Hdm.
    assert (0 < r / 128) by (apply Z.div_str_pos; lia).
    rewrite bz_zb_small by lia. rewrite (proj2 (Z.ltb_ge _ _)) by lia.
    assert (p + 7 < 63) as Hp7.
    { destruct Hd as [q ->]. assert (q <> 8) by (intros ->; lia). lia. }
    rewrite Z.geb_leb. unfold MAX_POWER. rewrite (proj2 (Z.leb_gt _ _)) by lia.
    replace ((r mod 128 + 128) mod 128) with (r mod 128)
      by (rewrite <-(Z.mul_1_l 128) at 3; rewrite Z.mod_add by lia; by rewrite Z.mod_mod by lia).
    rewrite Z.shiftl_mul_pow2 by lia.
    rewrite (wrap_small 64 (_ * _)) by (unfold uint; nia).
    rewrite wrap_small by (unfold uint; nia).
    assert (2 ^ (63 - p) = 128 * 2 ^ (63 - (p + 7))) as Hpow.
    { change 128 with (2 ^ 7). rewrite <-Z.pow_add_r by lia. f_equal. lia. }
    assert (2 ^ (p + 7) = 2 ^ p * 128) as Hpow7 by (rewrite Z.pow_add_r by lia; done).
    rewrite Nat2Z.inj_succ, Z.pow_succ_r in Hf by lia.
    rewrite IH; [|lia| | |nia|nia|nia].
    + do 2 f_equal. nia.
    + destruct Hd as [q ->]. exists (q + 1). lia.
    + nia.
  - cbn [app decode_loop]. rewrite low7, high1, bz_zb_small by lia.
    rewrite (proj2 (Z.ltb_lt _ _)), (Z.mod_small r) by lia.
    rewrite Z.shiftl_mul_pow2, (wrap_small 64 (_ * _)) by (unfold uint; nia || lia).
    by rewrite wrap_small by (unfold uint; nia).
Qed.

(** Integers that need a tenth group are refused. *)
Lemma decode_loop_overflow fuel : forall remaining value power rest,
  0 <= power < MAX_POWER -> (7 | power) ->
  2 ^ (63 - power) <= remaining -> remaining < 128 ^ Z.of_nat fuel ->
  exists rest', decode_loop value power (encode_loop fuel remaining ++ rest)
    = (RetErr Overflow, rest').
Proof.
  unfold MAX_POWER. induction fuel as [|fuel IH]; intros r v p rest Hp Hd Hr Hf.
  { change (128 ^ Z.of_nat 0) with 1 in Hf.
    assert (1 <= 2 ^ (63 - p)) by (apply (Z.pow_le_mono_r 2 0); lia). lia. }
  assert (p <= 56) as Hp56 by (destruct Hd as [q ->]; lia).
  assert (2 ^ 7 <= 2 ^ (63 - p)) by (apply Z.pow_le_mono_r; lia).
  cbn [encode_loop]. rewrite Z.geb_leb, (proj2 (Z.leb_le _ _)) by lia.
  pose proof (Z.mod_pos_bound r 128 ltac:(lia)).
  cbn [app decode_loop]. rewrite high1, bz_zb_small by lia.
  rewrite (proj2 (Z.ltb_ge _ _)) by lia. rewrite Z.geb_leb. unfold MAX_POWER.
  destruct (Z.leb_spec (9 * 7) (p + 7)); [by eexists|].
  rewrite Nat2Z.inj_succ, Z.pow_succ_r in Hf by lia.
  assert (2 ^ (63 - p) = 2 ^ (63 - (p + 7)) * 128) as Hpow.
  { change 128 with (2 ^ 7). rewrite <-Z.pow_add_r by lia. f_equal. lia. }
  apply IH; [lia| | |].
  - destruct Hd as [q ->]. exists (q + 1). lia.
  - apply Z.div_le_lower_bound; lia.
  - apply Z.div_lt_upper_bound; lia.
Qed.

Lemma decode_loop_bound : forall buf value power v rest,
  0 <= power < MAX_POWER -> (7 | power) -> 0 <= value -> value + 2 ^ 63 < 2 ^ 64 + 2 ^ power ->
  decode_loop value power buf = (RetOk v, rest) -> value <= v < value + 2 ^ 63 - 2 ^ power + 1.
Proof.
  unfold MAX_POWER. induction buf as [|b buf IH]; intros v p w rest Hp Hd Hv Hs; [done|].
  cbn [decode_loop]. rewrite low7, high1, Z.geb_leb. unfold MAX_POWER.
  pose proof (bz_range b). pose proof (Z.mod_pos_bound (bz b) 128 ltac:(lia)).
  assert (p <= 56) as Hp56 by (destruct Hd as [q ->]; lia).
  assert (1 <= 2 ^ p) by (apply (Z.pow_le_mono_r 2 0); lia).
  assert (2 ^ (p + 7) = 2 ^ p * 128) as Hpow7 by (rewrite Z.pow_add_r by lia; done).
  assert (2 ^ (p + 7) <= 2 ^ 63) by (apply Z.pow_le_mono_r; lia).
  rewrite Z.shiftl_mul_pow2, (wrap_small 64 (_ * _)) by (unfold uint; nia || lia).
  rewrite wrap_small by (unfold uint; nia).
  destruct (Z.ltb_spec (bz b) 128).
  { intros [= <- <-]. nia. }
  destruct (Z.leb_spec (9 * 7) (p + 7)); [done|].
  intros Hl. apply IH in Hl; [nia|lia| |nia|nia].
  destruct Hd as [q ->]. exists (q + 1). lia.
Qed.

Lemma advances_decode_loop value power : advances (decode_loop value power).
Proof.
  intros buf. revert value power. induction buf as [|b buf IH]; intros v p r buf';
    cbn [decode_loop]; [by intros [= <- <-]|].
  repeat case_match; first [intros [= <- <-]; by apply suffix_cons_r
    | intros Hl%IH; by apply suffix_cons_r].
Qed.

Lemma advances_decode_int size : advances (decode size).
Proof.
  apply advances_bind; [apply advances_map_err, advances_get_u8|]. intros b.
  cbv beta zeta. case_match; [by intros ??? [= <- <-]|].
  apply advances_bind; [apply advances_decode_loop|]. by intros ???? [= <- <-].
Qed.

(** ** The codec *)

Lemma encode_first_ok size flags value :
  1 <= size <= 8 -> 0 <= flags < 2 ^ (8 - size) -> 0 <= value < 2 ^ 64 ->
  exists b t, encode size flags value = b :: t /\
    bz b = flags * 2 ^ size + Z.min value (mask size) /\
    t = (if value <? mask size then [] else encode_loop 10 (value - mask size)).
Proof.
  intros Hs Hf Hv. unfold encode. rewrite mask_encode by done.
  pose proof (mask_range size Hs).
  destruct (Z.ltb_spec value (mask size)); eexists _, _; (split; [done|]); split; try done.
  - rewrite join_byte by lia. lia.
  - rewrite Z.lor_comm, join_byte by lia. lia.
Qed.

Lemma decodes_int size flags value :
  1 <= size <= 8 -> 0 <= flags < 2 ^ (8 - size) -> 0 <= value < 2 ^ 63 + mask size ->
  decodes (decode size) (encode size flags value) (flags, value).
Proof.
  intros Hs Hf Hv rest. pose proof (mask_range size Hs).
  destruct (encode_first_ok size flags value) as (b & t & -> & Hb & ->); [done|done|lia|].
  destruct (split_byte size b flags (Z.min value (mask size))) as [H1 H2]; [done|done|lia|done|].
  unfold decode. cbn [app].
  erewrite dbind_ok by (apply map_err_ok; reflexivity).
  cbv zeta. rewrite H1, H2.
  destruct (Z.ltb_spec value (mask size)).
  - by rewrite Z.min_l, (proj2 (Z.ltb_lt _ _)) by lia.
  - rewrite Z.min_r, Z.ltb_irrefl by lia.
    erewrite dbind_ok; [|apply decode_loop_encode with (power := 0); [done|by exists 0|..]];
      rewrite ?Z.mul_1_r; try (simpl; lia).
    unfold dret. do 3 f_equal. simpl. lia.
Qed.

(** A prefixed integer is read back, with its flags, from the bytes
    written for it, exactly when it is below [2^63] plus the prefix; the
    64-bit integers above, which the encoder writes with a tenth group, are
    refused as an overflow. *)
Theorem prefix_int_roundtrip (size flags value : Z) (rest : bytes)
    (Hsize : 1 <= size <= 8) (Hflags : 0 <= flags < 2 ^ (8 - size)) (Hvalue : uint 64 value) :
  if value <? 2 ^ 63 + mask size
  then decode size (encode size flags value ++ rest) = (RetOk (flags, value), rest)
  else exists rest', decode size (encode size flags value ++ rest) = (RetErr Overflow, rest').
Proof.
  pose proof (mask_range size Hsize). destruct (Z.ltb_spec value (2 ^ 63 + mask size)).
  { apply decodes_int; [done|done|]. destruct Hvalue. lia. }
  destruct (encode_first_ok size flags value) as (b & t & -> & Hb & ->); [done..|].
  rewrite Z.min_r in Hb by lia.
  destruct (split_byte size b flags (mask size)) as [H1 H2]; [done|done|lia|done|].
  rewrite (proj2 (Z.ltb_ge _ _)) by lia.
  destruct (decode_loop_overflow 10 (value - mask size) (mask size) 0 rest) as [r' Hr];
    [done|by exists 0|simpl; lia|destruct Hvalue; simpl; lia|].
  exists r'. unfold decode. cbn [app]. erewrite dbind_ok by (apply map_err_ok; reflexivity).
  cbv zeta. rewrite H1, H2, Z.ltb_irrefl. by erewrite dbind_err by exact Hr.
Qed.

Lemma prefix_int_roundtrip_witness :
  encode 5 2 1337 = [Byte.x5f; Byte.x9a; Byte.x0a] /\
  decode 5 (encode 5 2 1337 ++ [Byte.x07]) = (RetOk (2, 1337), [Byte.x07]).
Proof.
  split; [reflexivity|].
  refine (prefix_int_roundtrip 5 2 1337 [Byte.x07] _ _ _); [lia|simpl; lia|split; [lia|reflexivity]].
Defined.

(** What is read fits: no addition of the loop overflows. *)
Lemma decode_int_bound size buf flags value rest :
  1 <= size <= 8 -> decode size buf = (RetOk (flags, value), rest) ->
  0 <= value < 2 ^ 63 + mask size.
Proof.
  intros Hs. pose proof (mask_range size Hs) as Hm. unfold decode.
  intros (b & buf1 & _ & Hd)%dbind_ok_inv. cbv zeta in Hd.
  pose proof (bz_range b). assert (0 <= Z.land (bz b) (mask size)) by (apply Z.land_nonneg; lia).
  destruct (Z.ltb_spec (Z.land (bz b) (mask size)) (mask size)).
  { unfold dret in Hd. simplify_eq. lia. }
  apply dbind_ok_inv in Hd as (v & buf2 & Hl & [= _ <- _]).
  apply decode_loop_bound in Hl; [simpl in Hl; lia|done|by exists 0|lia|simpl; lia].
Qed.

End QpackInt.
