(* ===== verification/Huffman.v ===== *)
(** * Huffman coding of header strings

    [vendor/h3/src/qpack/prefix_string/bitwin.rs], [encode.rs] and
    [decode.rs]: the static code of HPACK over a buffer of bytes, with a
    window of bits that moves through it.  The arithmetic on positions is that
    of [u32].  The encoder's buffer grows ahead of what is written and is
    padded with ones; the decoder walks a tree of lookup tables and takes
    padding for the end. *)

From Stdlib Require Import ZArith Lia.
From stdpp Require Import base gmap list strings.
From S2P Require Import Prelude Error VarInt H3Coding.

#[local] Open Scope Z_scope.

Module Huffman.
Import H3Coding.

(** ** The window *)

Record BitWindow := { wbyte : Z; wbit : Z; wcount : Z }.

#[global] Instance BitWindow_eq_dec : EqDecision BitWindow.
Proof. solve_decision. Defined.

Definition new_window : BitWindow := {| wbyte := 0; wbit := 0; wcount := 0 |}.

Definition forwards (step : Z) (w : BitWindow) : BitWindow :=
  let bit := wrap 32 (wbit w + wcount w) in
  {| wbyte := wrap 32 (wbyte w + bit / 8); wbit := bit mod 8; wcount := step |}.

Definition opposite_bit_window (w : BitWindow) : BitWindow :=
  {| wbyte := wbyte w; wbit := wbit w; wcount := 8 - wbit w mod 8 |}.

(** ** Encoder *)

Definition PAD_RIGHT : list Z := [0; 1; 3; 7; 15; 31; 63; 127; 255].
Definition PAD_LEFT : list Z := [0; 128; 192; 224; 240; 248; 252; 254; 255].

(** Indexing of a pad table; the indices are between 0 and 8. *)
Definition pad (table : list Z) (i : Z) : Z := nth (Z.to_nat i) table 0.

(** The code of each byte: the number of its bits and the bits, eight at a
    time, the last group in the low bits of its byte. *)
Definition HPACK_STRING : list (Z * list Z) := [
  (13, [255; 24]); (23, [255; 255; 88]); (28, [255; 255; 254; 2]);
  (28, [255; 255; 254; 3]); (28, [255; 255; 254; 4]); (28, [255; 255; 254; 5]);
  (28, [255; 255; 254; 6]); (28, [255; 255; 254; 7]); (28, [255; 255; 254; 8]);
  (24, [255; 255; 234]); (30, [255; 255; 255; 60]); (28, [255; 255; 254; 9]);
  (28, [255; 255; 254; 10]); (30, [255; 255; 255; 61]); (28, [255; 255; 254; 11]);
  (28, [255; 255; 254; 12]); (28, [255; 255; 254; 13]); (28, [255; 255; 254; 14]);
  (28, [255; 255; 254; 15]); (28, [255; 255; 255; 0]); (28, [255; 255; 255; 1]);
  (28, [255; 255; 255; 2]); (30, [255; 255; 255; 62]); (28, [255; 255; 255; 3]);
  (28, [255; 255; 255; 4]); (28, [255; 255; 255; 5]); (28, [255; 255; 255; 6]);
  (28, [255; 255; 255; 7]); (28, [255; 255; 255; 8]); (28, [255; 255; 255; 9]);
  (28, [255; 255; 255; 10]); (28, [255; 255; 255; 11]); (6, [20]); (10, [254; 0]);
  (10, [254; 1]); (12, [255; 10]); (13, [255; 25]); (6, [21]); (8, [248]); (11, [255; 2]);
  (10, [254; 2]); (10, [254; 3]); (8, [249]); (11, [255; 3]); (8, [250]); (6, [22]);
  (6, [23]); (6, [24]); (5, [0]); (5, [1]); (5, [2]); (6, [25]); (6, [26]); (6, [27]);
  (6, [28]); (6, [29]); (6, [30]); (6, [31]); (7, [92]); (8, [251]); (15, [255; 124]);
  (6, [32]); (12, [255; 11]); (10, [255; 0]); (13, [255; 26]); (6, [33]); (7, [93]);
  (7, [94]); (7, [95]); (7, [96]); (7, [97]); (7, [98]); (7, [99]); (7, [100]); (7, [101]);
  (7, [102]); (7, [103]); (7, [104]); (7, [105]); (7, [106]); (7, [107]); (7, [108]);
  (7, [109]); (7, [110]); (7, [111]); (7, [112]); (7, [113]); (7, [114]); (8, [252]);
  (7, [115]); (8, [253]); (13, [255; 27]); (19, [255; 254; 0]); (13, [255; 28]);
  (14, [255; 60]); (6, [34]); (15, [255; 125]); (5, [3]); (6, [35]); (5, [4]); (6, [36]);
  (5, [5]); (6, [37]); (6, [38]); (6, [39]); (5, [6]); (7, [116]); (7, [117]); (6, [40]);
  (6, [41]); (6, [42]); (5, [7]); (6, [43]); (7, [118]); (6, [44]); (5, [8]); (5, [9]);
  (6, [45]); (7, [119]); (7, [120]); (7, [121]); (7, [122]); (7, [123]); (15, [255; 126]);
  (11, [255; 4]); (14, [255; 61]); (13, [255; 29]); (28, [255; 255; 255; 12]);
  (20, [255; 254; 6]); (22, [255; 255; 18]); (20, [255; 254; 7]); (20, [255; 254; 8]);
  (22, [255; 255; 19]); (22, [255; 255; 20]); (22, [255; 255; 21]); (23, [255; 255; 89]);
  (22, [255; 255; 22]); (23, [255; 255; 90]); (23, [255; 255; 91]); (23, [255; 255; 92]);
  (23, [255; 255; 93]); (23, [255; 255; 94]); (24, [255; 255; 235]); (23, [255; 255; 95]);
  (24, [255; 255; 236]); (24, [255; 255; 237]); (22, [255; 255; 23]); (23, [255; 255; 96]);
  (24, [255; 255; 238]); (23, [255; 255; 97]); (23, [255; 255; 98]); (23, [255; 255; 99]);
  (23, [255; 255; 100]); (21, [255; 254; 28]); (22, [255; 255; 24]); (23, [255; 255; 101]);
  (22, [255; 255; 25]); (23, [255; 255; 102]); (23, [255; 255; 103]);
  (24, [255; 255; 239]); (22, [255; 255; 26]); (21, [255; 254; 29]); (20, [255; 254; 9]);
  (22, [255; 255; 27]); (22, [255; 255; 28]); (23, [255; 255; 104]); (23, [255; 255; 105]);
  (21, [255; 254; 30]); (23, [255; 255; 106]); (22, [255; 255; 29]); (22, [255; 255; 30]);
  (24, [255; 255; 240]); (21, [255; 254; 31]); (22, [255; 255; 31]); (23, [255; 255; 107]);
  (23, [255; 255; 108]); (21, [255; 255; 0]); (21, [255; 255; 1]); (22, [255; 255; 32]);
  (21, [255; 255; 2]); (23, [255; 255; 109]); (22, [255; 255; 33]); (23, [255; 255; 110]);
  (23, [255; 255; 111]); (20, [255; 254; 10]); (22, [255; 255; 34]); (22, [255; 255; 35]);
  (22, [255; 255; 36]); (23, [255; 255; 112]); (22, [255; 255; 37]); (22, [255; 255; 38]);
  (23, [255; 255; 113]); (26, [255; 255; 248; 0]); (26, [255; 255; 248; 1]);
  (20, [255; 254; 11]); (19, [255; 254; 1]); (22, [255; 255; 39]); (23, [255; 255; 114]);
  (22, [255; 255; 40]); (25, [255; 255; 246; 0]); (26, [255; 255; 248; 2]);
  (26, [255; 255; 248; 3]); (26, [255; 255; 249; 0]); (27, [255; 255; 251; 6]);
  (27, [255; 255; 251; 7]); (26, [255; 255; 249; 1]); (24, [255; 255; 241]);
  (25, [255; 255; 246; 1]); (19, [255; 254; 2]); (21, [255; 255; 3]);
  (26, [255; 255; 249; 2]); (27, [255; 255; 252; 0]); (27, [255; 255; 252; 1]);
  (26, [255; 255; 249; 3]); (27, [255; 255; 252; 2]); (24, [255; 255; 242]);
  (21, [255; 255; 4]); (21, [255; 255; 5]); (26, [255; 255; 250; 0]);
  (26, [255; 255; 250; 1]); (28, [255; 255; 255; 13]); (27, [255; 255; 252; 3]);
  (27, [255; 255; 252; 4]); (27, [255; 255; 252; 5]); (20, [255; 254; 12]);
  (24, [255; 255; 243]); (20, [255; 254; 13]); (21, [255; 255; 6]); (22, [255; 255; 41]);
  (21, [255; 255; 7]); (21, [255; 255; 8]); (23, [255; 255; 115]); (22, [255; 255; 42]);
  (22, [255; 255; 43]); (25, [255; 255; 247; 0]); (25, [255; 255; 247; 1]);
  (24, [255; 255; 244]); (24, [255; 255; 245]); (26, [255; 255; 250; 2]);
  (23, [255; 255; 116]); (26, [255; 255; 250; 3]); (27, [255; 255; 252; 6]);
  (26, [255; 255; 251; 0]); (26, [255; 255; 251; 1]); (27, [255; 255; 252; 7]);
  (27, [255; 255; 253; 0]); (27, [255; 255; 253; 1]); (27, [255; 255; 253; 2]);
  (27, [255; 255; 253; 3]); (28, [255; 255; 255; 14]); (27, [255; 255; 253; 4]);
  (27, [255; 255; 253; 5]); (27, [255; 255; 253; 6]); (27, [255; 255; 253; 7]);
  (27, [255; 255; 254; 0]); (26, [255; 255; 251; 2])].

(** [write_bits]: indexing outside the slice panics. *)
Definition write_bits (out : bytes) (pos : BitWindow) (value : Z) : Outcome bytes :=
  let i := Z.to_nat (wbyte pos) in
  if wbit pos + wcount pos <=? 8 then
    match out !! i with
    | None => Panics
    | Some b =>
        let pad_left := Z.lor (bz b) (pad PAD_RIGHT (8 - wbit pos)) in
        let shifted := Z.lor (wrap 8 (Z.shiftl value (8 - wbit pos - wcount pos)))
                             (pad PAD_LEFT (wbit pos)) in
        let pad_right := pad PAD_RIGHT (8 - wcount pos - wbit pos) in
        Returns (<[i := zb (Z.lor (Z.land pad_left shifted) pad_right)]> out)
    end
  else
    let split := 8 - wbit pos in
    match out !! i, out !! S i with
    | Some b, Some _ =>
        let pad_left := Z.lor (bz b) (pad PAD_RIGHT split) in
        let shifted := Z.lor (Z.shiftr value (wcount pos - split)) (pad PAD_LEFT (wbit pos)) in
        let rem := 8 - (wcount pos - split) in
        Returns (<[S i := zb (Z.lor (wrap 8 (Z.shiftl value rem)) (pad PAD_RIGHT rem))]>
                (<[i := zb (Z.land pad_left shifted)]> out))
    | _, _ => Panics
    end.

Record HuffmanEncoder := { buffer_pos : BitWindow; buffer : bytes }.

Definition new_encoder : HuffmanEncoder := {| buffer_pos := new_window; buffer := [] |}.

(** The filler is pushed at the end; the growth of the capacity before it is
    not observable. *)
Definition ensure_free_space (bit_count : Z) (e : HuffmanEncoder) : HuffmanEncoder :=
  let end_range := forwards 0 (forwards bit_count (buffer_pos e)) in
  if len (buffer e) >? wbyte end_range then e
  else
    let forward := wbyte end_range - len (buffer e) + (if wbit end_range >? 0 then 1 else 0) in
    {| buffer_pos := buffer_pos e;
       buffer := buffer e ++ replicate (Z.to_nat forward) Byte.xff |}.

(** The loop of [put] over the groups of a code. *)
Fixpoint put_parts (rest : Z) (parts : list Z) (e : HuffmanEncoder) : Outcome HuffmanEncoder :=
  match parts with
  | [] => Returns e
  | part :: parts =>
      let pos := forwards (if rest <? 8 then rest else 8) (buffer_pos e) in
      match write_bits (buffer e) pos part with
      | Panics => Panics
      | Returns out =>
          put_parts (rest - wcount pos) parts {| buffer_pos := pos; buffer := out |}
      end
  end.

Definition encode_value (code : byte) : Z * list Z :=
  nth (Z.to_nat (bz code)) HPACK_STRING (0, []).

Definition put (code : byte) (e : HuffmanEncoder) : Outcome HuffmanEncoder :=
  let (bit_count, parts) := encode_value code in
  put_parts bit_count parts (ensure_free_space bit_count e).

Fixpoint put_all (value : bytes) (e : HuffmanEncoder) : Outcome HuffmanEncoder :=
  match value with
  | [] => Returns e
  | code :: value =>
      match put code e with
      | Panics => Panics
      | Returns e => put_all value e
      end
  end.

(** [hpack_encode]; no path of it constructs its error. *)
Definition hpack_encode (value : bytes) : Outcome bytes :=
  match put_all value new_encoder with
  | Panics => Panics
  | Returns e => Returns (buffer e)
  end.

(** ** Decoder *)

Inductive Error :=
| MissingBits (w : BitWindow)
| Unhandled (w : BitWindow) (value : Z).

#[global] Instance Error_eq_dec : EqDecision Error.
Proof. solve_decision. Defined.

Inductive DecodeValue :=
| Partial (d : HuffmanDecoder)
| Sym (x : Z)
with HuffmanDecoder :=
| Lookup (lookup : Z) (table : list DecodeValue).

Definition END0_01010 : HuffmanDecoder := Lookup 1 [Sym 32; Sym 37].
Definition END0_01011 : HuffmanDecoder := Lookup 1 [Sym 45; Sym 46].
Definition END0_01100 : HuffmanDecoder := Lookup 1 [Sym 47; Sym 51].
Definition END0_01101 : HuffmanDecoder := Lookup 1 [Sym 52; Sym 53].
Definition END0_01110 : HuffmanDecoder := Lookup 1 [Sym 54; Sym 55].
Definition END0_01111 : HuffmanDecoder := Lookup 1 [Sym 56; Sym 57].
Definition END0_10000 : HuffmanDecoder := Lookup 1 [Sym 61; Sym 65].
Definition END0_10001 : HuffmanDecoder := Lookup 1 [Sym 95; Sym 98].
Definition END0_10010 : HuffmanDecoder := Lookup 1 [Sym 100; Sym 102].
Definition END0_10011 : HuffmanDecoder := Lookup 1 [Sym 103; Sym 104].
Definition END0_10100 : HuffmanDecoder := Lookup 1 [Sym 108; Sym 109].
Definition END0_10101 : HuffmanDecoder := Lookup 1 [Sym 110; Sym 112].
Definition END0_10110 : HuffmanDecoder := Lookup 1 [Sym 114; Sym 117].
Definition END0_10111 : HuffmanDecoder := Lookup 2 [Sym 58; Sym 66; Sym 67; Sym 68].
Definition END0_11000 : HuffmanDecoder := Lookup 2 [Sym 69; Sym 70; Sym 71; Sym 72].
Definition END0_11001 : HuffmanDecoder := Lookup 2 [Sym 73; Sym 74; Sym 75; Sym 76].
Definition END0_11010 : HuffmanDecoder := Lookup 2 [Sym 77; Sym 78; Sym 79; Sym 80].
Definition END0_11011 : HuffmanDecoder := Lookup 2 [Sym 81; Sym 82; Sym 83; Sym 84].
Definition END0_11100 : HuffmanDecoder := Lookup 2 [Sym 85; Sym 86; Sym 87; Sym 89].
Definition END0_11101 : HuffmanDecoder := Lookup 2 [Sym 106; Sym 107; Sym 113; Sym 118].
Definition END0_11110 : HuffmanDecoder := Lookup 2 [Sym 119; Sym 120; Sym 121; Sym 122].
Definition END5_00 : HuffmanDecoder := Lookup 1 [Sym 38; Sym 42].
Definition END5_01 : HuffmanDecoder := Lookup 1 [Sym 44; Sym 59].
Definition END5_10 : HuffmanDecoder := Lookup 1 [Sym 88; Sym 90].
Definition END7_0 : HuffmanDecoder := Lookup 2 [Sym 33; Sym 34; Sym 40; Sym 41].
Definition END9A_1 : HuffmanDecoder := Lookup 1 [Sym 39; Sym 43].
Definition END8_0 : HuffmanDecoder := Lookup 1 [Sym 63; Partial END9A_1].
Definition END9B_01 : HuffmanDecoder := Lookup 1 [Sym 35; Sym 62].
Definition END9B_10 : HuffmanDecoder := Lookup 2 [Sym 0; Sym 36; Sym 64; Sym 91].
Definition END13_10 : HuffmanDecoder := Lookup 1 [Sym 94; Sym 125].
Definition END14_0 : HuffmanDecoder := Lookup 1 [Sym 60; Sym 96].
Definition END19_0011 : HuffmanDecoder := Lookup 1 [Sym 128; Sym 130].
Definition END19_0100 : HuffmanDecoder := Lookup 1 [Sym 131; Sym 162].
Definition END19_0101 : HuffmanDecoder := Lookup 1 [Sym 184; Sym 194].
Definition END19_0110 : HuffmanDecoder := Lookup 1 [Sym 224; Sym 226].
Definition END19_0111 : HuffmanDecoder := Lookup 2 [Sym 153; Sym 161; Sym 167; Sym 172].
Definition END19_1000 : HuffmanDecoder := Lookup 2 [Sym 176; Sym 177; Sym 179; Sym 209].
Definition END19_1001 : HuffmanDecoder := Lookup 2 [Sym 216; Sym 217; Sym 227; Sym 229].
Definition END19_1010_01 : HuffmanDecoder := Lookup 1 [Sym 129; Sym 132].
Definition END19_1010_10 : HuffmanDecoder := Lookup 1 [Sym 133; Sym 134].
Definition END19_1010_11 : HuffmanDecoder := Lookup 1 [Sym 136; Sym 146].
Definition END19_1010 : HuffmanDecoder := Lookup 2 [
  Sym 230; Partial END19_1010_01; Partial END19_1010_10; Partial END19_1010_11].
Definition END19_1011 : HuffmanDecoder := Lookup 3 [
  Sym 154; Sym 156; Sym 160; Sym 163; Sym 164; Sym 169; Sym 170; Sym 173].
Definition END19_1100 : HuffmanDecoder := Lookup 3 [
  Sym 178; Sym 181; Sym 185; Sym 186; Sym 187; Sym 189; Sym 190; Sym 196].
Definition END23A_100 : HuffmanDecoder := Lookup 1 [Sym 1; Sym 135].
Definition END23A_101 : HuffmanDecoder := Lookup 1 [Sym 137; Sym 138].
Definition END23A_110 : HuffmanDecoder := Lookup 1 [Sym 139; Sym 140].
Definition END23A_111 : HuffmanDecoder := Lookup 1 [Sym 141; Sym 143].
Definition END19_1101 : HuffmanDecoder := Lookup 3 [
  Sym 198; Sym 228; Sym 232; Sym 233; Partial END23A_100; Partial END23A_101;
  Partial END23A_110; Partial END23A_111].
Definition END19_1110 : HuffmanDecoder := Lookup 4 [
  Sym 147; Sym 149; Sym 150; Sym 151; Sym 152; Sym 155; Sym 157; Sym 158; Sym 165; Sym 166;
  Sym 168; Sym 174; Sym 175; Sym 180; Sym 182; Sym 183].
Definition END23B_0101 : HuffmanDecoder := Lookup 1 [Sym 9; Sym 142].
Definition END23B_0110 : HuffmanDecoder := Lookup 1 [Sym 144; Sym 145].
Definition END23B_0111 : HuffmanDecoder := Lookup 1 [Sym 148; Sym 159].
Definition END23B_1000 : HuffmanDecoder := Lookup 1 [Sym 171; Sym 206].
Definition END23B_1001 : HuffmanDecoder := Lookup 1 [Sym 215; Sym 225].
Definition END23B_1010 : HuffmanDecoder := Lookup 1 [Sym 236; Sym 237].
Definition END23B_1011 : HuffmanDecoder := Lookup 2 [Sym 199; Sym 207; Sym 234; Sym 235].
Definition END23B_1100 : HuffmanDecoder := Lookup 3 [
  Sym 192; Sym 193; Sym 200; Sym 201; Sym 202; Sym 205; Sym 210; Sym 213].
Definition END27A_111 : HuffmanDecoder := Lookup 1 [Sym 203; Sym 204].
Definition END23B_1101 : HuffmanDecoder := Lookup 3 [
  Sym 218; Sym 219; Sym 238; Sym 240; Sym 242; Sym 243; Sym 255; Partial END27A_111].
Definition END23B_1110 : HuffmanDecoder := Lookup 4 [
  Sym 211; Sym 212; Sym 214; Sym 221; Sym 222; Sym 223; Sym 241; Sym 244; Sym 245; Sym 246;
  Sym 247; Sym 248; Sym 250; Sym 251; Sym 252; Sym 253].
Definition END27B_0001 : HuffmanDecoder := Lookup 1 [Sym 2; Sym 3].
Definition END27B_0010 : HuffmanDecoder := Lookup 1 [Sym 4; Sym 5].
Definition END27B_0011 : HuffmanDecoder := Lookup 1 [Sym 6; Sym 7].
Definition END27B_0100 : HuffmanDecoder := Lookup 1 [Sym 8; Sym 11].
Definition END27B_0101 : HuffmanDecoder := Lookup 1 [Sym 12; Sym 14].
Definition END27B_0110 : HuffmanDecoder := Lookup 1 [Sym 15; Sym 16].
Definition END27B_0111 : HuffmanDecoder := Lookup 1 [Sym 17; Sym 18].
Definition END27B_1000 : HuffmanDecoder := Lookup 1 [Sym 19; Sym 20].
Definition END27B_1001 : HuffmanDecoder := Lookup 1 [Sym 21; Sym 23].
Definition END27B_1010 : HuffmanDecoder := Lookup 1 [Sym 24; Sym 25].
Definition END27B_1011 : HuffmanDecoder := Lookup 1 [Sym 26; Sym 27].
Definition END27B_1100 : HuffmanDecoder := Lookup 1 [Sym 28; Sym 29].
Definition END27B_1101 : HuffmanDecoder := Lookup 1 [Sym 30; Sym 31].
Definition END27B_1110 : HuffmanDecoder := Lookup 1 [Sym 127; Sym 220].
Definition EOF : HuffmanDecoder := Lookup 8 [].
Definition END31_1 : HuffmanDecoder := Lookup 2 [Sym 10; Sym 13; Sym 22; Partial EOF].
Definition END27B_1111 : HuffmanDecoder := Lookup 1 [Sym 249; Partial END31_1].
Definition END23B_1111 : HuffmanDecoder := Lookup 4 [
  Sym 254; Partial END27B_0001; Partial END27B_0010; Partial END27B_0011;
  Partial END27B_0100; Partial END27B_0101; Partial END27B_0110; Partial END27B_0111;
  Partial END27B_1000; Partial END27B_1001; Partial END27B_1010; Partial END27B_1011;
  Partial END27B_1100; Partial END27B_1101; Partial END27B_1110; Partial END27B_1111].
Definition END19_1111 : HuffmanDecoder := Lookup 4 [
  Sym 188; Sym 191; Sym 197; Sym 231; Sym 239; Partial END23B_0101; Partial END23B_0110;
  Partial END23B_0111; Partial END23B_1000; Partial END23B_1001; Partial END23B_1010;
  Partial END23B_1011; Partial END23B_1100; Partial END23B_1101; Partial END23B_1110;
  Partial END23B_1111].
Definition END15_1 : HuffmanDecoder := Lookup 4 [
  Sym 92; Sym 195; Sym 208; Partial END19_0011; Partial END19_0100; Partial END19_0101;
  Partial END19_0110; Partial END19_0111; Partial END19_1000; Partial END19_1001;
  Partial END19_1010; Partial END19_1011; Partial END19_1100; Partial END19_1101;
  Partial END19_1110; Partial END19_1111].
Definition END14_1 : HuffmanDecoder := Lookup 1 [Sym 123; Partial END15_1].
Definition END13_11 : HuffmanDecoder := Lookup 1 [Partial END14_0; Partial END14_1].
Definition END9B_11 : HuffmanDecoder := Lookup 2 [
  Sym 93; Sym 126; Partial END13_10; Partial END13_11].
Definition END8_1 : HuffmanDecoder := Lookup 2 [
  Sym 124; Partial END9B_01; Partial END9B_10; Partial END9B_11].
Definition END7_1 : HuffmanDecoder := Lookup 1 [Partial END8_0; Partial END8_1].
Definition END5_11 : HuffmanDecoder := Lookup 1 [Partial END7_0; Partial END7_1].
Definition END0_11111 : HuffmanDecoder := Lookup 2 [
  Partial END5_00; Partial END5_01; Partial END5_10; Partial END5_11].
Definition HPACK_DECODE : HuffmanDecoder := Lookup 5 [
  Sym 48; Sym 49; Sym 50; Sym 97; Sym 99; Sym 101; Sym 105; Sym 111; Sym 115; Sym 116;
  Partial END0_01010; Partial END0_01011; Partial END0_01100; Partial END0_01101;
  Partial END0_01110; Partial END0_01111; Partial END0_10000; Partial END0_10001;
  Partial END0_10010; Partial END0_10011; Partial END0_10100; Partial END0_10101;
  Partial END0_10110; Partial END0_10111; Partial END0_11000; Partial END0_11001;
  Partial END0_11010; Partial END0_11011; Partial END0_11100; Partial END0_11101;
  Partial END0_11110; Partial END0_11111].

(** [read_bits]; [None] is its [Err(())].  The guard keeps the indices
    within the slice. *)
Definition read_bits (src : bytes) (byte_offset bit_offset n : Z) : option Z :=
  if (n =? 0) || (n >? 8)
     || (wrap 32 (wrap 32 (len src) * 8) <? wrap 32 (wrap 32 (byte_offset * 8) + bit_offset + n))
  then None
  else
    let byte_offset := wrap 32 (byte_offset + bit_offset / 8) in
    let bit_offset := bit_offset - bit_offset / 8 * 8 in
    let at_ i := bz (nth (Z.to_nat i) src Byte.x00) in
    Some (if bit_offset + n <=? 8
          then Z.shiftr (wrap 8 (Z.shiftl (at_ byte_offset) bit_offset)) (8 - n)
          else
            let result := Z.lor (Z.shiftl (at_ byte_offset) 8) (at_ (byte_offset + 1)) in
            wrap 8 (Z.shiftr (wrap 16 (Z.shiftl result bit_offset)) (16 - n))).

Definition check_eof (bit_pos : BitWindow) (input : bytes) : Res Error (option Z) :=
  match Z.compare (wrap 32 (wbyte bit_pos + 1)) (len input) with
  | Gt => RetOk None
  | Lt => RetErr (MissingBits bit_pos)
  | Eq =>
      let side := opposite_bit_window bit_pos in
      match read_bits input (wbyte side) (wbit side) (wcount side) with
      | None => RetErr (MissingBits side)
      | Some rest =>
          let eof_filler := wrap 8 (Z.shiftl 2 (wcount side - 1) - 1) in
          if Z.land rest eof_filler =? eof_filler then RetOk None
          else RetErr (MissingBits bit_pos)
      end
  end.

Definition fetch_value (bit_pos : BitWindow) (input : bytes) : Res Error (option Z) :=
  match read_bits input (wbyte bit_pos) (wbit bit_pos) (wcount bit_pos) with
  | Some value => RetOk (Some value)
  | None => check_eof bit_pos input
  end.

(** [decode_next]: the result and the window it moved. *)
Fixpoint decode_next (d : HuffmanDecoder) (bit_pos : BitWindow) (input : bytes)
    : Res Error (option Z) * BitWindow :=
  match d with
  | Lookup lookup table =>
      let bit_pos := forwards lookup bit_pos in
      match fetch_value bit_pos input with
      | RetOk None => (RetOk None, bit_pos)
      | RetErr err => (RetErr err, bit_pos)
      | RetOk (Some value) =>
          (fix get (table : list DecodeValue) (i : nat) :=
             match table, i with
             | [], _ => (RetErr (Unhandled bit_pos value), bit_pos)
             | Sym x :: _, O => (RetOk (Some x), bit_pos)
             | Partial d :: _, O => decode_next d bit_pos input
             | _ :: table, S i => get table i
             end) table (Z.to_nat value)
      end
  end.

(** Collecting [hpack_decode] up to the end or the first error.  [None] is
    the lack of fuel: a symbol takes at least one bit. *)
Fixpoint decode_all (fuel : nat) (bit_pos : BitWindow) (content : bytes)
    : option (Res Error bytes) :=
  match fuel with
  | O => None
  | S fuel =>
      match decode_next HPACK_DECODE bit_pos content with
      | (RetOk None, _) => Some (RetOk [])
      | (RetErr err, _) => Some (RetErr err)
      | (RetOk (Some x), bit_pos) =>
          match decode_all fuel bit_pos content with
          | Some (RetOk decoded) => Some (RetOk (zb x :: decoded))
          | other => other
          end
      end
  end.

Definition hpack_decode (content : bytes) : option (Res Error bytes) :=
  decode_all (8 * length content + 1) new_window content.

(** ** Bits of a buffer *)

(** The low [n] bits of a number, the most significant one first. *)
Fixpoint bits_of (n : nat) (v : Z) : list bool :=
  match n with
  | O => []
  | S n => Z.testbit v (Z.of_nat n) :: bits_of n v
  end.

Definition from_bits (l : list bool) : Z := foldl (fun acc b => 2 * acc + Z.b2z b) 0 l.

Definition bit_at (l : bytes) (i : nat) : bool :=
  Z.testbit (bz (nth (i / 8) l Byte.x00)) (7 - Z.of_nat (i mod 8)).

(** The buffer holds the bits [bs], and ones behind them. *)
Definition holds (l : bytes) (bs : list bool) : Prop :=
  forall i, (i < 8 * length l)%nat -> bit_at l i = nth i bs true.

Lemma length_bits_of n v : length (bits_of n v) = n.
Proof. induction n; simpl; congruence. Qed.

Lemma nth_bits_of n v i d :
  (i < n)%nat -> nth i (bits_of n v) d = Z.testbit v (Z.of_nat (n - 1 - i)).
Proof.
  revert i. induction n as [|n IH]; intros i Hi; [lia|]. destruct i as [|i]; simpl.
  - f_equal. lia.
  - rewrite IH by lia. f_equal. lia.
Qed.

Lemma testbit_wrap w x j : 0 <= j < w -> Z.testbit (wrap w x) j = Z.testbit x j.
Proof. intros. unfold wrap. apply Z.mod_pow2_bits_low. lia. Qed.

Lemma testbit_zb x j : 0 <= j < 8 -> Z.testbit (bz (zb x)) j = Z.testbit x j.
Proof. intros. rewrite bz_zb. by apply (testbit_wrap 8). Qed.

Lemma cases_0_8 n : 0 <= n <= 8 ->
  n = 0 \/ n = 1 \/ n = 2 \/ n = 3 \/ n = 4 \/ n = 5 \/ n = 6 \/ n = 7 \/ n = 8.
Proof. lia. Qed.

Lemma pad_right_ones n : 0 <= n <= 8 -> pad PAD_RIGHT n = Z.ones n.
Proof. by intros [-> | [-> | [-> | [-> | [-> | [-> | [-> | [-> | ->]]]]]]]]%cases_0_8. Qed.

Lemma pad_left_ones n : 0 <= n <= 8 -> pad PAD_LEFT n = Z.shiftl (Z.ones n) (8 - n).
Proof. by intros [-> | [-> | [-> | [-> | [-> | [-> | [-> | [-> | ->]]]]]]]]%cases_0_8. Qed.

Lemma testbit_pad_right n j : 0 <= n <= 8 -> 0 <= j < 8 ->
  Z.testbit (pad PAD_RIGHT n) j = (j <? n).
Proof. intros. rewrite pad_right_ones, Z.testbit_ones_nonneg by lia. done. Qed.

Lemma testbit_pad_left n j : 0 <= n <= 8 -> 0 <= j < 8 ->
  Z.testbit (pad PAD_LEFT n) j = (8 - n <=? j).
Proof.
  intros. rewrite pad_left_ones, Z.shiftl_spec by lia. destruct (Z.leb_spec (8 - n) j).
  - rewrite Z.testbit_ones_nonneg by lia. apply Z.ltb_lt. lia.
  - apply Z.testbit_neg_r. lia.
Qed.

Ltac bits :=
  repeat first
    [ rewrite testbit_zb by lia | rewrite Z.lor_spec | rewrite Z.land_spec
    | rewrite testbit_wrap by lia | rewrite testbit_pad_right by lia
    | rewrite testbit_pad_left by lia | rewrite Z.shiftl_spec by lia
    | rewrite Z.shiftr_spec by lia ].

(** The byte that [write_bits] stores when the bits fit into one. *)
Lemma single_byte b v o c j :
  0 <= o -> 1 <= c -> o + c <= 8 -> 0 <= j < 8 ->
  Z.testbit (bz (zb (Z.lor (Z.land (Z.lor (bz b) (pad PAD_RIGHT (8 - o)))
      (Z.lor (wrap 8 (Z.shiftl v (8 - o - c))) (pad PAD_LEFT o)))
      (pad PAD_RIGHT (8 - c - o))))) j
  = if 8 - o <=? j then Z.testbit (bz b) j
    else if 8 - o - c <=? j then Z.testbit v (j - (8 - o - c)) else true.
Proof.
  intros. bits. destruct (Z.leb_spec (8 - o) j), (Z.ltb_spec j (8 - o)),
    (Z.ltb_spec j (8 - c - o)), (Z.leb_spec (8 - o - c) j); try lia;
    rewrite ?orb_true_r, ?orb_false_r, ?andb_true_r; done.
Qed.

(** The two bytes that it stores otherwise. *)
Lemma first_byte b v o c j :
  0 <= o < 8 -> c <= 8 -> 8 < o + c -> 0 <= j < 8 ->
  Z.testbit (bz (zb (Z.land (Z.lor (bz b) (pad PAD_RIGHT (8 - o)))
      (Z.lor (Z.shiftr v (c - (8 - o))) (pad PAD_LEFT o))))) j
  = if 8 - o <=? j then Z.testbit (bz b) j else Z.testbit v (j + (c - (8 - o))).
Proof.
  intros. bits. destruct (Z.leb_spec (8 - o) j), (Z.ltb_spec j (8 - o)); try lia;
    rewrite ?orb_true_r, ?orb_false_r, ?andb_true_r; done.
Qed.

Lemma second_byte v o c j :
  0 <= o < 8 -> c <= 8 -> 8 < o + c -> 0 <= j < 8 ->
  let rem := 8 - (c - (8 - o)) in
  Z.testbit (bz (zb (Z.lor (wrap 8 (Z.shiftl v rem)) (pad PAD_RIGHT rem)))) j
  = if rem <=? j then Z.testbit v (j - rem) else true.
Proof.
  intros. subst rem. bits. destruct (Z.leb_spec (8 - (c - (8 - o))) j),
    (Z.ltb_spec j (8 - (c - (8 - o)))); try lia; rewrite ?orb_true_r, ?orb_false_r; done.
Qed.

Lemma bit_at_insert l k b i :
  (k < length l)%nat ->
  bit_at (<[k := b]> l) i
  = if decide (i / 8 = k)%nat then Z.testbit (bz b) (7 - Z.of_nat (i mod 8)) else bit_at l i.
Proof.
  intros Hk. unfold bit_at. rewrite !nth_lookup. case_decide as Hi.
  - by rewrite Hi, list_lookup_insert_eq.
  - by rewrite list_lookup_insert_ne.
Qed.

Lemma bit_at_lookup l k b i :
  l !! k = Some b -> (i / 8 = k)%nat -> bit_at l i = Z.testbit (bz b) (7 - Z.of_nat (i mod 8)).
Proof. intros Hb Hi. unfold bit_at. by rewrite nth_lookup, Hi, Hb. Qed.

Lemma nth_app_bits bs n v i :
  nth i (bs ++ bits_of n v) true
  = if decide (i < length bs)%nat then nth i bs true
    else if decide (i < length bs + n)%nat
    then Z.testbit v (Z.of_nat (length bs + n) - 1 - Z.of_nat i) else true.
Proof.
  case_decide; [by rewrite app_nth1|]. rewrite app_nth2 by lia. case_decide.
  - rewrite nth_bits_of by lia. f_equal. lia.
  - apply nth_overflow. rewrite length_bits_of. lia.
Qed.

Ltac bit_cases :=
  repeat case_decide; repeat case_match; try lia; try done; try (f_equal; lia).

Lemma write_bits_spec out bs pos v :
  0 <= wbyte pos -> 0 <= wbit pos < 8 -> 1 <= wcount pos <= 8 ->
  8 * wbyte pos + wbit pos = Z.of_nat (length bs) ->
  Z.of_nat (length bs) + wcount pos <= 8 * len out ->
  holds out bs ->
  exists out', write_bits out pos v = Returns out' /\ length out' = length out /\
    holds out' (bs ++ bits_of (Z.to_nat (wcount pos)) v).
Proof.
  destruct pos as [k o c]. cbn [wbyte wbit wcount]. intros Hk Ho Hc Hlen Hfit Hold.
  unfold write_bits. cbn [wbyte wbit wcount]. unfold len in Hfit.
  destruct (lookup_lt_is_Some_2 out (Z.to_nat k)) as [b Hb]; [lia|]. rewrite Hb.
  destruct (Z.leb_spec (o + c) 8).
  - eexists. split; [done|]. rewrite length_insert. split; [done|]. intros i Hi.
    rewrite length_insert in Hi. rewrite bit_at_insert by lia. rewrite nth_app_bits.
    specialize (Hold i Hi). pose proof (Nat.div_mod_eq i 8). pose proof (Nat.mod_upper_bound i 8).
    case_decide as Hik.
    + rewrite single_byte by lia. rewrite <-(bit_at_lookup _ _ _ _ Hb Hik), Hold. bit_cases.
    + rewrite Hold. bit_cases. apply nth_overflow. lia.
  - destruct (lookup_lt_is_Some_2 out (S (Z.to_nat k))) as [b2 Hb2]; [lia|]. rewrite Hb2.
    eexists. split; [done|]. rewrite !length_insert. split; [done|]. intros i Hi.
    rewrite !length_insert in Hi. rewrite !bit_at_insert by (rewrite ?length_insert; lia).
    rewrite nth_app_bits. specialize (Hold i Hi).
    pose proof (Nat.div_mod_eq i 8). pose proof (Nat.mod_upper_bound i 8).
    case_decide as Hik2; [|case_decide as Hik].
    + rewrite second_byte by lia. bit_cases.
    + rewrite first_byte by lia. rewrite <-(bit_at_lookup _ _ _ _ Hb Hik), Hold. bit_cases.
    + rewrite Hold. bit_cases. apply nth_overflow. lia.
Qed.

(** ** The encoder *)

(** The bits that the groups of a code stand for. *)
Fixpoint parts_bits (rest : Z) (parts : list Z) : list bool :=
  match parts with
  | [] => []
  | part :: parts =>
      bits_of (Z.to_nat (Z.min rest 8)) part ++ parts_bits (rest - Z.min rest 8) parts
  end.

Definition code_bits (code : byte) : list bool :=
  let (bit_count, parts) := encode_value code in parts_bits bit_count parts.

Definition string_bits (value : bytes) : list bool := flat_map code_bits value.

(** Every group of a code has a bit, and the groups make up its length. *)
Fixpoint parts_ok (rest : Z) (parts : list Z) : bool :=
  match parts with
  | [] => rest =? 0
  | _ :: parts => (1 <=? rest) && parts_ok (rest - Z.min rest 8) parts
  end.

Lemma table_ok :
  forallb (fun v => (5 <=? v.1) && (v.1 <=? 30) && parts_ok v.1 v.2) HPACK_STRING = true.
Proof. vm_compute. reflexivity. Qed.

Lemma encode_value_ok code :
  let (bit_count, parts) := encode_value code in
  5 <= bit_count <= 30 /\ parts_ok bit_count parts = true.
Proof.
  pose proof (bz_range code) as Hc.
  assert (In (encode_value code) HPACK_STRING) as Hin.
  { apply nth_In. change (length HPACK_STRING) with 256%nat. lia. }
  pose proof (proj1 (forallb_forall _ _) table_ok _ Hin) as Hok. cbv beta in Hok.
  destruct (encode_value code) as [n parts]. simpl in Hok.
  apply andb_true_iff in Hok as [[?%Z.leb_le ?%Z.leb_le]%andb_true_iff ?]. done.
Qed.

Lemma length_parts_bits parts : forall rest,
  parts_ok rest parts = true -> Z.of_nat (length (parts_bits rest parts)) = rest.
Proof.
  induction parts as [|part parts IH]; intros rest; cbn [parts_ok parts_bits].
  - intros ->%Z.eqb_eq. done.
  - intros [?%Z.leb_le ?%IH]%andb_true_iff. rewrite length_app, length_bits_of. lia.
Qed.

Lemma length_code_bits code : (5 <= length (code_bits code) <= 30)%nat.
Proof.
  pose proof (encode_value_ok code) as H. unfold code_bits.
  destruct (encode_value code) as [n parts]. destruct H as [? ?%length_parts_bits]. lia.
Qed.

(** A window within the first [2^32] bits, that ends behind [p] bits. *)
Definition window_at (p : nat) (w : BitWindow) : Prop :=
  0 <= wbyte w /\ 0 <= wbit w < 8 /\ 0 <= wcount w <= 64 /\
  8 * wbyte w + wbit w + wcount w = Z.of_nat p.

Lemma forwards_spec p step w :
  window_at p w -> Z.of_nat p < 2 ^ 32 ->
  forwards step w
  = {| wbyte := Z.of_nat p / 8; wbit := Z.of_nat p mod 8; wcount := step |}.
Proof.
  intros (? & ? & ? & Hp) Hs. unfold forwards.
  pose proof (Z.div_mod (Z.of_nat p) 8 ltac:(lia)).
  pose proof (Z.mod_pos_bound (Z.of_nat p) 8 ltac:(lia)).
  pose proof (Z.div_mod (wbit w + wcount w) 8 ltac:(lia)).
  pose proof (Z.mod_pos_bound (wbit w + wcount w) 8 ltac:(lia)).
  rewrite (wrap_small 32 (wbit w + wcount w)) by (unfold uint; lia).
  rewrite wrap_small by (unfold uint; lia). f_equal; lia.
Qed.

Lemma window_at_forwards p step :
  0 <= step <= 64 ->
  window_at (p + Z.to_nat step)
    {| wbyte := Z.of_nat p / 8; wbit := Z.of_nat p mod 8; wcount := step |}.
Proof.
  intros Hs. unfold window_at. cbn [wbyte wbit wcount].
  pose proof (Z.div_mod (Z.of_nat p) 8 ltac:(lia)).
  pose proof (Z.mod_pos_bound (Z.of_nat p) 8 ltac:(lia)). lia.
Qed.

(** The buffer has room for [n] bits and no byte more. *)
Definition fits (l : bytes) (n : nat) : Prop := (n <= 8 * length l < n + 8)%nat.

Lemma holds_extend l bs n : holds l bs -> (length bs <= 8 * length l)%nat ->
  holds (l ++ replicate n Byte.xff) bs.
Proof.
  intros H Hl i Hi. rewrite length_app, length_replicate in Hi.
  pose proof (Nat.div_mod_eq i 8). pose proof (Nat.mod_upper_bound i 8).
  destruct (decide (i < 8 * length l)%nat) as [Hlt|Hge].
  - rewrite <-H by done. unfold bit_at. rewrite app_nth1 by lia. done.
  - rewrite nth_overflow by lia. unfold bit_at. rewrite nth_lookup, lookup_app_r by lia.
    rewrite lookup_replicate_2 by lia. apply (Z.ones_spec_low 8). lia.
Qed.

Lemma ensure_free_space_spec bit_count e bs :
  0 <= bit_count <= 30 -> window_at (length bs) (buffer_pos e) ->
  Z.of_nat (length bs) + 30 < 2 ^ 32 ->
  fits (buffer e) (length bs) -> holds (buffer e) bs ->
  let e' := ensure_free_space bit_count e in
  buffer_pos e' = buffer_pos e /\ fits (buffer e') (length bs + Z.to_nat bit_count) /\
  holds (buffer e') bs.
Proof.
  intros Hn Hw Hs Hf Hh. unfold ensure_free_space.
  rewrite (forwards_spec _ _ _ Hw) by lia.
  rewrite (forwards_spec (length bs + Z.to_nat bit_count))
    by (lia || by apply window_at_forwards; lia).
  cbn [wbyte wbit]. unfold len, fits in *. rewrite !Z.gtb_ltb.
  set (p := (length bs + Z.to_nat bit_count)%nat) in *.
  pose proof (Z.div_mod (Z.of_nat p) 8 ltac:(lia)).
  pose proof (Z.mod_pos_bound (Z.of_nat p) 8 ltac:(lia)).
  destruct (Z.ltb_spec (Z.of_nat p / 8) (Z.of_nat (length (buffer e)))).
  { split_and!; [done|lia|lia|done]. }
  cbn [buffer buffer_pos]. rewrite length_app, length_replicate.
  destruct (Z.ltb_spec 0 (Z.of_nat p mod 8)); split_and!; try lia; try done;
    apply holds_extend; done || lia.
Qed.

Lemma put_parts_spec parts : forall rest e bs,
  parts_ok rest parts = true -> window_at (length bs) (buffer_pos e) ->
  Z.of_nat (length bs) + rest <= 8 * len (buffer e) < 2 ^ 32 -> holds (buffer e) bs ->
  exists e', put_parts rest parts e = Returns e' /\
    length (buffer e') = length (buffer e) /\
    holds (buffer e') (bs ++ parts_bits rest parts) /\
    window_at (length (bs ++ parts_bits rest parts)) (buffer_pos e').
Proof.
  induction parts as [|part parts IH]; intros rest e bs; cbn [parts_ok parts_bits put_parts].
  { intros ->%Z.eqb_eq ???. exists e. rewrite app_nil_r. done. }
  intros [Hr%Z.leb_le Hok]%andb_true_iff Hw Hl Hh.
  replace (if rest <? 8 then rest else 8) with (Z.min rest 8)
    by (destruct (Z.ltb_spec rest 8); lia).
  rewrite (forwards_spec _ _ _ Hw) by lia. set (pos := Build_BitWindow _ _ _).
  pose proof (window_at_forwards (length bs) (Z.min rest 8) ltac:(lia)) as Hw'.
  fold pos in Hw'. destruct Hw' as (H1 & H2 & H3 & H4).
  destruct (write_bits_spec (buffer e) bs pos part) as (out & -> & Hlen & Hout); try done.
  { unfold pos in *. cbn [wbyte wbit wcount] in *. lia. }
  { unfold pos in *. cbn [wbyte wbit wcount] in *. lia. }
  { unfold pos in *. cbn [wbyte wbit wcount] in *. lia. }
  destruct (IH (rest - wcount pos) {| buffer_pos := pos; buffer := out |}
    (bs ++ bits_of (Z.to_nat (wcount pos)) part)) as (e' & He & Hle & Hhe & Hwe).
  - done.
  - rewrite length_app, length_bits_of.
    split_and!; cbn [buffer_pos]; try done; unfold pos in *; cbn [wbyte wbit wcount] in *; lia.
  - cbn [buffer]. unfold len in *. rewrite Hlen, length_app, length_bits_of.
    unfold pos. simpl. lia.
  - done.
  - exists e'. rewrite app_assoc. split_and!; try done. by rewrite Hle.
Qed.

(** What [put] keeps: the bits written so far, padded, in as few bytes as
    they need. *)
Definition encoder_holds (e : HuffmanEncoder) (bs : list bool) : Prop :=
  window_at (length bs) (buffer_pos e) /\ fits (buffer e) (length bs) /\ holds (buffer e) bs.

Lemma put_spec code e bs :
  encoder_holds e bs -> Z.of_nat (length bs) + 38 < 2 ^ 32 ->
  exists e', put code e = Returns e' /\ encoder_holds e' (bs ++ code_bits code).
Proof.
  intros (Hw & Hf & Hh) Hs. unfold put, code_bits. pose proof (encode_value_ok code) as Hv.
  destruct (encode_value code) as [n parts]. destruct Hv as [Hn Hok].
  pose proof (length_parts_bits _ _ Hok) as Hlp.
  destruct (ensure_free_space_spec n e bs) as (Hp & Hf' & Hh'); [lia|done|lia|done|done|].
  destruct (put_parts_spec parts n (ensure_free_space n e) bs) as (e' & -> & Hl & Hh2 & Hw2);
    [done|by rewrite Hp|unfold fits, len in *; lia|done|].
  exists e'. split; [done|]. split; [done|]. split; [|done].
  unfold fits in *. rewrite Hl, length_app. lia.
Qed.

Lemma put_all_spec value : forall e bs,
  encoder_holds e bs -> Z.of_nat (length bs) + 30 * len value + 38 < 2 ^ 32 ->
  exists e', put_all value e = Returns e' /\ encoder_holds e' (bs ++ string_bits value).
Proof.
  induction value as [|c value IH]; intros e bs He Hs; cbn [put_all].
  { exists e. unfold string_bits. simpl. by rewrite app_nil_r. }
  rewrite len_cons in Hs. pose proof (len_nonneg value).
  destruct (put_spec c e bs) as (e1 & -> & H1); [done|lia|].
  pose proof (length_code_bits c).
  destruct (IH e1 (bs ++ code_bits c)) as (e2 & -> & H2); [done|rewrite length_app; lia|].
  exists e2. split; [done|]. unfold string_bits in *. cbn [flat_map].
  by rewrite app_assoc.
Qed.

(** The longest string whose positions stay within 32 bits. *)
Definition MAX_STRING : Z := 2 ^ 27.

Lemma hpack_encode_spec value :
  len value < MAX_STRING ->
  exists out, hpack_encode value = Returns out /\
    fits out (length (string_bits value)) /\ holds out (string_bits value).
Proof.
  unfold MAX_STRING. intros Hs. unfold hpack_encode.
  destruct (put_all_spec value new_encoder []) as (e & -> & _ & Hf & Hh).
  - split; [done|]. split; [unfold fits; simpl; lia|]. intros i Hi. simpl in Hi. lia.
  - simpl. lia.
  - by exists (buffer e).
Qed.

(** ** The decoder *)

Lemma foldl_bits l : forall acc,
  foldl (fun acc b => 2 * acc + Z.b2z b) acc l = acc * 2 ^ Z.of_nat (length l) + from_bits l.
Proof.
  unfold from_bits. induction l as [|b l IH]; intros acc; [simpl; lia|].
  cbn [foldl length]. rewrite (IH (2 * acc + _)), (IH (2 * 0 + _)).
  rewrite Nat2Z.inj_succ, Z.pow_succ_r by lia. lia.
Qed.

Lemma from_bits_bits_of n v : from_bits (bits_of n v) = v mod 2 ^ Z.of_nat n.
Proof.
  induction n as [|n IH]; [by rewrite Z.mod_1_r|].
  unfold from_bits. cbn [bits_of foldl]. rewrite foldl_bits, length_bits_of, IH.
  rewrite Z.testbit_spec' by lia. rewrite Nat2Z.inj_succ, Z.pow_succ_r by lia.
  rewrite (Z.mul_comm 2 (2 ^ _)), Z.rem_mul_r by lia. lia.
Qed.

(** The bits of a buffer from a position on. *)
Definition bits_from (src : bytes) (p : nat) : list bool :=
  map (bit_at src) (seq p (8 * length src - p)).

Lemma length_bits_from src p : length (bits_from src p) = (8 * length src - p)%nat.
Proof. unfold bits_from. by rewrite length_map, length_seq. Qed.

Lemma bits_from_drop src p n : bits_from src (p + n) = drop n (bits_from src p).
Proof.
  unfold bits_from. rewrite skipn_map, skipn_seq.
  by replace (8 * length src - (p + n))%nat with (8 * length src - p - n)%nat by lia.
Qed.

Lemma nth_bits_from src p i :
  (p + i < 8 * length src)%nat -> nth i (bits_from src p) true = bit_at src (p + i).
Proof.
  intros Hi. unfold bits_from. rewrite (nth_indep _ true (bit_at src 0))
    by (rewrite length_map, length_seq; lia).
  by rewrite map_nth, seq_nth by lia.
Qed.

Lemma holds_bits_from src bs :
  holds src bs -> (length bs <= 8 * length src)%nat ->
  bits_from src 0 = bs ++ replicate (8 * length src - length bs) true.
Proof.
  intros Hh Hl. apply (nth_ext _ _ true true).
  { rewrite length_bits_from, length_app, length_replicate. lia. }
  rewrite length_bits_from. intros i Hi. rewrite nth_bits_from by lia. simpl.
  rewrite Hh by lia. destruct (decide (i < length bs)%nat).
  - by rewrite app_nth1.
  - rewrite app_nth2, nth_overflow, nth_lookup, lookup_replicate_2 by lia. done.
Qed.

(** The value of [n] bits read at a position. *)
Lemma bits_of_single b o n i :
  0 <= o -> 1 <= n -> o + n <= 8 -> 0 <= i < n ->
  Z.testbit (Z.shiftr (wrap 8 (Z.shiftl (bz b) o)) (8 - n)) (n - 1 - i)
  = Z.testbit (bz b) (7 - o - i).
Proof. intros. bits. f_equal. lia. Qed.

Lemma testbit_byte_high b j : 8 <= j -> Z.testbit (bz b) j = false.
Proof.
  intros Hj. pose proof (bz_range b). rewrite <-(Z.mod_small (bz b) (2 ^ 8)) by lia.
  by apply Z.mod_pow2_bits_high.
Qed.

Lemma bits_of_double b0 b1 o n i :
  0 <= o < 8 -> n <= 8 -> 8 < o + n -> 0 <= i < n ->
  Z.testbit (wrap 8 (Z.shiftr (wrap 16 (Z.shiftl (Z.lor (Z.shiftl (bz b0) 8) (bz b1)) o))
    (16 - n))) (n - 1 - i)
  = if i + o <? 8 then Z.testbit (bz b0) (7 - o - i) else Z.testbit (bz b1) (15 - o - i).
Proof.
  intros. bits. destruct (Z.ltb_spec (i + o) 8).
  - rewrite (testbit_byte_high b1) by lia. rewrite orb_false_r. f_equal. lia.
  - rewrite (Z.testbit_neg_r (bz b0)) by lia. simpl. f_equal. lia.
Qed.

Lemma shiftr_range x w n : 0 <= n <= w -> 0 <= x < 2 ^ w -> 0 <= Z.shiftr x (w - n) < 2 ^ n.
Proof.
  intros Hn Hx. rewrite Z.shiftr_div_pow2 by lia. split; [apply Z.div_pos; lia|].
  apply Z.div_lt_upper_bound; [lia|]. rewrite <-Z.pow_add_r by lia.
  replace (w - n + n) with w by lia. lia.
Qed.

Lemma read_bits_spec src p n :
  1 <= n <= 8 -> 8 * len src + 64 < 2 ^ 32 -> (p <= 8 * length src)%nat ->
  read_bits src (Z.of_nat p / 8) (Z.of_nat p mod 8) n
  = if decide (Z.to_nat n <= length (bits_from src p))%nat
    then Some (from_bits (take (Z.to_nat n) (bits_from src p))) else None.
Proof.
  intros Hn Hs Hp. pose proof (Z.div_mod (Z.of_nat p) 8 ltac:(lia)).
  pose proof (Z.mod_pos_bound (Z.of_nat p) 8 ltac:(lia)).
  set (k := Z.of_nat p / 8) in *. set (o := Z.of_nat p mod 8) in *.
  unfold read_bits. rewrite (proj2 (Z.eqb_neq n 0)), Z.gtb_ltb, (proj2 (Z.ltb_ge 8 n)) by lia.
  unfold len in *. rewrite (wrap_small 32 (Z.of_nat _)) by (unfold uint; lia).
  rewrite (wrap_small 32 (_ * 8)) by (unfold uint; lia).
  rewrite (wrap_small 32 (k * 8)) by (unfold uint; lia).
  rewrite (wrap_small 32 (k * 8 + _ + _)) by (unfold uint; lia).
  rewrite length_bits_from. cbn [orb].
  case_decide as Hfit; [|by rewrite (proj2 (Z.ltb_lt _ _)) by lia].
  rewrite (proj2 (Z.ltb_ge _ _)) by lia. rewrite Z.div_small by lia.
  rewrite Z.add_0_r, (wrap_small 32 k), Z.mul_0_l, Z.sub_0_r by (unfold uint; lia).
  f_equal. set (v := if o + n <=? 8 then _ else _).
  assert (0 <= v < 2 ^ n) as Hv.
  { subst v. destruct (Z.leb_spec (o + n) 8).
    - apply (shiftr_range _ 8); [lia|]. by apply wrap_uint.
    - assert (0 <= Z.shiftr (wrap 16 (Z.shiftl (Z.lor
        (Z.shiftl (bz (nth (Z.to_nat k) src Byte.x00)) 8)
        (bz (nth (Z.to_nat (k + 1)) src Byte.x00))) o)) (16 - n) < 2 ^ n) as Hr.
      { apply (shiftr_range _ 16); [lia|]. by apply wrap_uint. }
      assert (2 ^ n <= 2 ^ 8) by (apply Z.pow_le_mono_r; lia).
      rewrite wrap_small by (unfold uint; lia). done. }
  rewrite <-(Z.mod_small v (2 ^ n)) by done. replace n with (Z.of_nat (Z.to_nat n)) at 1 by lia.
  rewrite <-from_bits_bits_of. f_equal. apply (nth_ext _ _ true true).
  { rewrite length_bits_of, length_take, length_bits_from. lia. }
  rewrite length_bits_of. intros i Hi. rewrite nth_bits_of by done.
  rewrite (nth_lookup (take _ _)), lookup_take_lt, <-nth_lookup, nth_bits_from by lia.
  unfold bit_at. pose proof (Nat.div_mod_eq (p + i) 8).
  pose proof (Nat.mod_upper_bound (p + i) 8).
  replace (Z.of_nat (Z.to_nat n - 1 - i)) with (n - 1 - Z.of_nat i) by lia.
  subst v. destruct (Z.leb_spec (o + n) 8).
  - rewrite bits_of_single by lia. replace ((p + i) / 8)%nat with (Z.to_nat k) by lia.
    f_equal. lia.
  - rewrite bits_of_double by lia. destruct (Z.ltb_spec (Z.of_nat i + o) 8).
    + replace ((p + i) / 8)%nat with (Z.to_nat k) by lia. f_equal. lia.
    + replace ((p + i) / 8)%nat with (Z.to_nat (k + 1)) by lia. f_equal. lia.
Qed.

(** The walk through the tables on a list of bits: a symbol, a table that
    needs more bits than there are, or a value that the table lacks. *)
Inductive Walk :=
| Found (x : Z) (rest : list bool)
| Short (lookup : Z) (rest : list bool)
| Lacking.

#[global] Instance Walk_eq_dec : EqDecision Walk.
Proof. solve_decision. Defined.

Fixpoint run (d : HuffmanDecoder) (bs : list bool) : Walk :=
  match d with
  | Lookup lookup table =>
      let n := Z.to_nat lookup in
      if decide (n <= length bs)%nat then
        (fix get (table : list DecodeValue) (i : nat) :=
           match table, i with
           | [], _ => Lacking
           | Sym x :: _, O => Found x (drop n bs)
           | Partial d :: _, O => run d (drop n bs)
           | _ :: table, S i => get table i
           end) table (Z.to_nat (from_bits (take n bs)))
      else Short lookup bs
  end.

(** Every table looks at one to eight bits. *)
Fixpoint tables_ok (d : HuffmanDecoder) : bool :=
  match d with
  | Lookup lookup table =>
      (1 <=? lookup) && (lookup <=? 8) &&
      forallb (fun v => match v with Partial d => tables_ok d | Sym _ => true end) table
  end.

Definition entry_holds (P : HuffmanDecoder -> Prop) (v : DecodeValue) : Prop :=
  match v with Partial d => P d | Sym _ => True end.

Lemma decoder_ind (P : HuffmanDecoder -> Prop) :
  (forall lookup table, Forall (entry_holds P) table -> P (Lookup lookup table)) ->
  forall d, P d.
Proof.
  intros H. fix IH 1. intros [lookup table]. apply H.
  induction table as [|[d|x] table IHt]; constructor; [apply IH|exact IHt|exact I|exact IHt].
Qed.

(** What [decode_next] does is the walk on the bits ahead. *)
Definition walks (input : bytes) (p : nat) (w : Walk)
    (result : Res Error (option Z) * BitWindow) : Prop :=
  match w with
  | Found x rest => exists p' pos, result = (RetOk (Some x), pos) /\ window_at p' pos /\
      (p < p' <= 8 * length input)%nat /\ rest = bits_from input p'
  | Short lookup rest => exists p', (p <= p' <= 8 * length input)%nat /\
      rest = bits_from input p' /\ Z.of_nat (length rest) < lookup <= 8 /\
      let pos := {| wbyte := Z.of_nat p' / 8; wbit := Z.of_nat p' mod 8; wcount := lookup |} in
      result = (check_eof pos input, pos)
  | Lacking => exists e pos, result = (RetErr e, pos)
  end.

Lemma walks_mono input p p' w result :
  (p <= p')%nat -> walks input p' w result -> walks input p w result.
Proof.
  intros Hp. destruct w; simpl; [|intros (q & ? & ? & ? & ?); exists q; auto with lia|done].
  intros (q & pos & ? & ? & ? & ?). exists q, pos. auto with lia.
Qed.

Lemma check_eof_never_some pos input v : check_eof pos input <> RetOk (Some v).
Proof. unfold check_eof. repeat case_match; congruence. Qed.

Lemma decode_next_walks input d : 8 * len input + 64 < 2 ^ 32 ->
  forall p pos, tables_ok d = true -> window_at p pos -> (p <= 8 * length input)%nat ->
  walks input p (run d (bits_from input p)) (decode_next d pos input).
Proof.
  intros Hs. induction d as [lookup table IH] using decoder_ind. intros p pos Hok Hw Hp.
  cbn [tables_ok] in Hok. apply andb_true_iff in Hok as [[H1%Z.leb_le H8%Z.leb_le]%andb_true_iff Ht].
  cbn [decode_next run]. rewrite (forwards_spec _ _ _ Hw) by (unfold len in *; lia).
  unfold fetch_value. cbn [wbyte wbit wcount]. rewrite read_bits_spec by done || lia.
  pose proof (length_bits_from input p) as Hlen.
  case_decide as Hfit; cbn iota.
  2: { exists p. split; [lia|]. split; [done|]. split; [lia|]. cbv zeta.
       destruct (check_eof _ input) as [[v|]|e] eqn:He; [|done..].
       by apply check_eof_never_some in He. }
  set (n := Z.to_nat lookup) in *. rewrite <-bits_from_drop.
  set (value := from_bits _). generalize (Z.to_nat value) as i.
  pose proof (window_at_forwards p lookup ltac:(lia)) as Hw'. fold n in Hw'.
  induction IH as [|v table Hv _ IHt]; intros i; [destruct i; by eexists _, _|].
  cbn [forallb] in Ht. apply andb_true_iff in Ht as [Hvok Ht]. specialize (IHt Ht).
  destruct v as [d|x], i as [|i]; try apply IHt.
  - apply (walks_mono _ _ (p + n)); [lia|]. apply Hv; [done|done|lia].
  - exists (p + n)%nat. eexists. split_and!; done || lia.
Qed.

(** Ones that do not fill a byte are padding. *)
Lemma check_eof_padding input p lookup :
  8 * len input + 64 < 2 ^ 32 -> (p <= 8 * length input)%nat ->
  (length (bits_from input p) < 8)%nat -> Forall (eq true) (bits_from input p) ->
  check_eof {| wbyte := Z.of_nat p / 8; wbit := Z.of_nat p mod 8; wcount := lookup |} input
  = RetOk None.
Proof.
  intros Hs Hp Hl Hones. pose proof (Z.div_mod (Z.of_nat p) 8 ltac:(lia)).
  pose proof (Z.mod_pos_bound (Z.of_nat p) 8 ltac:(lia)). rewrite length_bits_from in Hl.
  unfold check_eof, opposite_bit_window. cbn [wbyte wbit wcount]. unfold len in *.
  rewrite wrap_small by (unfold uint; lia).
  destruct (Z.compare_spec (Z.of_nat p / 8 + 1) (Z.of_nat (length input))); [|lia|done].
  rewrite Z.mod_mod by lia.
  rewrite read_bits_spec by (unfold len; lia). rewrite length_bits_from.
  rewrite decide_True by lia. rewrite take_ge by (rewrite length_bits_from; lia).
  set (r := (8 * length input - p)%nat) in *.
  assert (bits_from input p = replicate r true) as ->.
  { symmetry. apply replicate_as_Forall. by rewrite length_bits_from. }
  replace (8 - Z.of_nat p mod 8) with (Z.of_nat r) by lia.
  assert (1 <= r < 8)%nat as Hr by lia. clear -Hr.
  destruct r as [|[|[|[|[|[|[|[|r]]]]]]]]; [lia|reflexivity..|lia].
Qed.

Lemma walk_app d : forall bs x rest t,
  run d bs = Found x rest -> run d (bs ++ t) = Found x (rest ++ t).
Proof.
  induction d as [lookup table IH] using decoder_ind. intros bs x rest t. cbn [run].
  case_decide as Hfit; [|done]. rewrite decide_True by (rewrite length_app; lia).
  rewrite take_app_le, drop_app_le by done. set (n := Z.to_nat lookup).
  generalize (Z.to_nat (from_bits (take n bs))) as i.
  induction IH as [|v table Hv _ IHt]; intros i; [by destruct i|].
  destruct v as [d|y], i as [|i]; try apply IHt.
  - apply Hv.
  - by intros [= <- <-].
Qed.

(** ** The two tables agree *)

Lemma hpack_tables_ok : tables_ok HPACK_DECODE = true.
Proof. vm_compute. reflexivity. Qed.

Definition all_bytes : bytes := map (fun n => zb (Z.of_nat n)) (seq 0 256).

Lemma all_bytes_in b : In b all_bytes.
Proof.
  apply in_map_iff. exists (Z.to_nat (bz b)). pose proof (bz_range b). split.
  - rewrite Z2Nat.id by lia. apply zb_bz.
  - apply in_seq. lia.
Qed.

Lemma tables_agree :
  forallb (fun b => bool_decide (run HPACK_DECODE (code_bits b) = Found (bz b) [])) all_bytes
  = true.
Proof. vm_compute. reflexivity. Qed.

Lemma run_code b t : run HPACK_DECODE (code_bits b ++ t) = Found (bz b) t.
Proof.
  pose proof (proj1 (forallb_forall _ _) tables_agree b (all_bytes_in b)) as H.
  apply bool_decide_eq_true in H. by apply walk_app with (t := t) in H.
Qed.

Lemma run_padding k :
  (k < 8)%nat -> exists lookup rest, (length rest < 8)%nat /\ Forall (eq true) rest /\
    run HPACK_DECODE (replicate k true) = Short lookup rest.
Proof.
  intros Hk.
  do 8 (destruct k as [|k];
    [eexists _, _; split_and!; [..|vm_compute; reflexivity]; [simpl; lia|by repeat constructor]|]).
  lia.
Qed.

(** ** Round trip *)

Lemma decode_all_spec value : forall fuel input p pos k,
  8 * len input + 64 < 2 ^ 32 -> window_at p pos -> (p <= 8 * length input)%nat ->
  bits_from input p = string_bits value ++ replicate k true -> (k < 8)%nat ->
  (length (bits_from input p) < fuel)%nat ->
  decode_all fuel pos input = Some (RetOk value).
Proof.
  induction value as [|c value IH]; intros fuel input p pos k Hs Hw Hp Hb Hk Hf;
    (destruct fuel as [|fuel]; [lia|]); cbn [decode_all];
    pose proof (decode_next_walks input HPACK_DECODE Hs p pos hpack_tables_ok Hw Hp) as Hd.
  - rewrite Hb in Hd. cbn [string_bits flat_map app] in Hd.
    destruct (run_padding k Hk) as (lookup & rest & Hl & Hones & Hrun).
    rewrite Hrun in Hd. destruct Hd as (p' & Hp' & -> & Hlook & ->).
    by rewrite check_eof_padding by (done || lia).
  - rewrite Hb in Hd. unfold string_bits in Hd. cbn [flat_map] in Hd.
    rewrite <-app_assoc, run_code in Hd. destruct Hd as (p' & w & -> & Hw' & Hp' & Hr).
    erewrite (IH fuel input p' w k); [|done|done|lia|by symmetry|done|].
    + by rewrite zb_bz.
    + rewrite !length_bits_from in *. lia.
Qed.

(** Decoding ends: the fuel is never exhausted, whatever the bytes. *)
Lemma decode_all_total fuel : forall input p pos,
  8 * len input + 64 < 2 ^ 32 -> window_at p pos -> (p <= 8 * length input)%nat ->
  (length (bits_from input p) < fuel)%nat -> is_Some (decode_all fuel pos input).
Proof.
  induction fuel as [|fuel IH]; intros input p pos Hs Hw Hp Hf; [lia|]. cbn [decode_all].
  pose proof (decode_next_walks input HPACK_DECODE Hs p pos hpack_tables_ok Hw Hp) as Hd.
  rewrite length_bits_from in Hf.
  destruct (run _ _) as [x rest|lookup rest|]; cbn [walks] in Hd.
  - destruct Hd as (p' & w & -> & Hw' & Hp' & _).
    destruct (IH input p' w) as [r ->]; [done|done|lia|rewrite length_bits_from; lia|].
    destruct r; by eexists.
  - destruct Hd as (p' & _ & _ & _ & ->).
    destruct (check_eof _ _) as [[v|]|e] eqn:He; [by apply check_eof_never_some in He|by eexists..].
  - destruct Hd as (e & w & ->). by eexists.
Qed.

Lemma string_bits_bound value : (length (string_bits value) <= 30 * length value)%nat.
Proof.
  induction value as [|c value IH]; [done|]. unfold string_bits in *. cbn [flat_map length].
  rewrite length_app. pose proof (length_code_bits c). lia.
Qed.

(** The Huffman code round-trips.  For every string below 2^27 bytes the
    encoder returns without a panic, in as few bytes as its bits need, and
    the decoder reads the string back; and whatever bytes a peer sends, the
    decoder ends with a string or an error. *)
Theorem huffman_roundtrip (value content : bytes)
    (Hvalue : len value < MAX_STRING) (Hcontent : len content < 2 ^ 28) :
  (exists out, hpack_encode value = Returns out /\
     fits out (length (string_bits value)) /\ hpack_decode out = Some (RetOk value)) /\
  is_Some (hpack_decode content).
Proof.
  assert (window_at 0 new_window) as Hw by done. split.
  - destruct (hpack_encode_spec value Hvalue) as (out & He & Hf & Hh). exists out.
    split; [done|]. split; [done|]. unfold fits, MAX_STRING, len in *.
    pose proof (string_bits_bound value).
    apply (decode_all_spec _ _ _ 0 _ (8 * length out - length (string_bits value)));
      [unfold len; lia|done|lia| |lia|rewrite length_bits_from; lia].
    apply holds_bits_from; [done|lia].
  - apply (decode_all_total _ _ 0); [lia|done|lia|rewrite length_bits_from; lia].
Qed.

Lemma huffman_roundtrip_witness :
  exists out, hpack_encode (str "name with ref") = Returns out /\
    fits out (length (string_bits (str "name with ref"))) /\
    hpack_decode out = Some (RetOk (str "name with ref")).
Proof.
  refine (proj1 (huffman_roundtrip (str "name with ref") (str "junk") _ _)); reflexivity.
Defined.

End Huffman.
