(* ===== verification/QpackString.v ===== *)
(** * Prefixed strings of QPACK

    [vendor/h3/src/qpack/prefix_string/mod.rs]: a length behind flags, the
    lowest of which says whether the string is Huffman-coded, and the
    string.  The encoder always uses the code. *)

From Stdlib Require Import ZArith Lia.
From stdpp Require Import base gmap list strings.
From S2P Require Import Prelude Error VarInt H3Coding QpackInt Huffman.

#[local] Open Scope Z_scope.

Module QpackString.
Import H3Coding.
#[local] Open Scope buf_scope.

Inductive Error :=
| UnexpectedEnd
| Integer (e : QpackInt.Error)
| HuffmanDecoding (e : Huffman.Error)
| HuffmanEncoding (buffer_pos : Huffman.BitWindow) (len capacity : Z) (text : bytes)
| BufSize.

#[global] Instance Error_eq_dec : EqDecision Error.
Proof. solve_decision. Defined.

(** [impl From<IntegerError> for Error]. *)
Definition from_integer (e : QpackInt.Error) : Error :=
  match e with
  | QpackInt.UnexpectedEnd => UnexpectedEnd
  | e => Integer e
  end.

(** The loop over [hpack_decode()].  Decoding ends for every payload below
    2^28 bytes ([huffman_total]), so the last case is not reached for them. *)
Definition collect (payload : bytes) : Res Error bytes :=
  match Huffman.hpack_decode payload with
  | Some (RetOk decoded) => RetOk decoded
  | Some (RetErr e) => RetErr (HuffmanDecoding e)
  | None => RetErr (HuffmanDecoding (Huffman.MissingBits Huffman.new_window))
  end.

(** [decode]; the conversion of the length to [usize] does not fail on 64
    bits. *)
Definition decode (size : Z) : Dec Error bytes :=
  let% (flags, n) := map_err from_integer (QpackInt.decode (size - 1)) in
  fun buf =>
    if len buf <? n then (RetErr UnexpectedEnd, buf)
    else
      let payload := take (Z.to_nat n) buf in
      let value := if Z.land flags 1 =? 0 then RetOk payload else collect payload in
      (value, drop (Z.to_nat n) buf).

Definition encode (size flags : Z) (value : bytes) : Outcome bytes :=
  match Huffman.hpack_encode value with
  | Panics => Panics
  | Returns encoded =>
      Returns (QpackInt.encode (size - 1) (Z.lor (wrap 8 (Z.shiftl flags 1)) 1) (len encoded)
               ++ encoded)
  end.

(** ** Lemmas *)

Lemma huffman_total payload :
  len payload < 2 ^ 28 -> is_Some (Huffman.hpack_decode payload).
Proof.
  intros Hp. apply (Huffman.decode_all_total _ _ 0); [lia|done|lia|].
  rewrite Huffman.length_bits_from. lia.
Qed.

Lemma huffman_codes value :
  len value < Huffman.MAX_STRING ->
  exists out, Huffman.hpack_encode value = Returns out /\ len out <= 4 * len value /\
    Huffman.hpack_decode out = Some (RetOk value).
Proof.
  intros Hv. destruct (Huffman.hpack_encode_spec value Hv) as (out & He & Hf & Hh).
  exists out. split; [done|]. pose proof (Huffman.string_bits_bound value).
  unfold Huffman.fits, Huffman.MAX_STRING, len in *. split; [lia|].
  apply (Huffman.decode_all_spec _ _ _ 0 _
    (8 * length out - length (Huffman.string_bits value)));
    [unfold len; lia|done|lia| |lia|rewrite Huffman.length_bits_from; lia].
  apply Huffman.holds_bits_from; [done|lia].
Qed.

(** The flags with the Huffman bit. *)
Lemma huffman_flag flags : 0 <= flags < 64 ->
  Z.lor (wrap 8 (Z.shiftl flags 1)) 1 = 2 * flags + 1.
Proof.
  intros Hf. rewrite Z.shiftl_mul_pow2, wrap_small by (unfold uint; lia).
  change (2 ^ 1) with 2.
  assert (Z.land (flags * 2) 1 = 0) as Hl.
  { change 1 with (Z.ones 1). rewrite Z.land_ones by lia. change (2 ^ 1) with 2.
    by rewrite Z.mod_mul. }
  rewrite <-Z.lxor_lor, <-Z.add_nocarry_lxor by done. lia.
Qed.

Lemma advances_decode_string size : advances (decode size).
Proof.
  apply advances_bind; [apply advances_map_err, QpackInt.advances_decode_int|].
  intros [flags n] buf r buf'. case_match; intros [= <- <-]; [done|apply suffix_drop].
Qed.

(** A string that is written is read back, and it begins with the flags. *)
Lemma decodes_string size flags value :
  2 <= size <= 8 -> 0 <= flags < 64 -> 2 * flags + 1 < 2 ^ (8 - (size - 1)) ->
  len value < Huffman.MAX_STRING ->
  exists l, encode size flags value = Returns l /\ decodes (decode size) l value /\
    exists b t, l = b :: t /\
      (2 * flags + 1) * 2 ^ (size - 1) <= bz b < (2 * flags + 2) * 2 ^ (size - 1).
Proof.
  intros Hs Hf Hf2 Hv. destruct (huffman_codes value Hv) as (out & He & Hl & Hd).
  unfold encode. rewrite He. eexists. split; [done|].
  rewrite huffman_flag by done. unfold Huffman.MAX_STRING in Hv.
  pose proof (QpackInt.mask_range (size - 1) ltac:(lia)).
  pose proof (len_nonneg value). pose proof (len_nonneg out). split.
  - intros rest. rewrite <-app_assoc. unfold decode.
    erewrite dbind_ok by (apply map_err_ok, QpackInt.decodes_int; lia).
    cbv beta iota. rewrite len_app. pose proof (len_nonneg rest).
    rewrite (proj2 (Z.ltb_ge _ _)) by lia.
    rewrite to_nat_len, take_app_exact, drop_app_exact by done.
    replace (Z.land (2 * flags + 1) 1) with 1.
    2: { change 1 with (Z.ones 1) at 3. rewrite Z.land_ones by lia. change (2 ^ 1) with 2.
         rewrite Z.add_comm, Z.mul_comm, Z.mod_add by lia. done. }
    simpl Z.eqb. cbn iota. unfold collect. by rewrite Hd.
  - destruct (QpackInt.encode_first_ok (size - 1) (2 * flags + 1) (len out))
      as (b & t & -> & Hb & _); [lia|lia|lia|].
    exists b, (t ++ out). split; [done|]. rewrite Hb, QpackInt.mask_pow by lia.
    assert (0 < 2 ^ (size - 1)) by lia. lia.
Qed.

End QpackString.
