(* ===== verification/QpackBlock.v ===== *)
(** * Field lines of QPACK

    [vendor/h3/src/qpack/field.rs] (a header field), [static_.rs] (the static
    table) and [block.rs] (the prefix of a header block and the five
    representations of a field line).  [usize] has 64 bits. *)

From Stdlib Require Import ZArith Lia.
From stdpp Require Import base gmap list strings.
From S2P Require Import Prelude Error VarInt H3Coding QpackInt Huffman QpackString.

#[local] Open Scope Z_scope.

Module QpackBlock.
Import H3Coding.
#[local] Open Scope buf_scope.

(** ** Fields *)

Definition ESTIMATED_OVERHEAD_BYTES : Z := 32.

Record HeaderField := { name : bytes; value : bytes }.

#[global] Instance HeaderField_eq_dec : EqDecision HeaderField.
Proof. solve_decision. Defined.

Definition mem_size (f : HeaderField) : Z :=
  len (name f) + len (value f) + ESTIMATED_OVERHEAD_BYTES.

Definition with_value (f : HeaderField) (v : bytes) : HeaderField :=
  {| name := name f; value := v |}.

(** ** The static table *)

Definition PREDEFINED_HEADERS : list HeaderField := [
  {| name := str ":authority"; value := str "" |};
  {| name := str ":path"; value := str "/" |};
  {| name := str "age"; value := str "0" |};
  {| name := str "content-disposition"; value := str "" |};
  {| name := str "content-length"; value := str "0" |};
  {| name := str "cookie"; value := str "" |};
  {| name := str "date"; value := str "" |};
  {| name := str "etag"; value := str "" |};
  {| name := str "if-modified-since"; value := str "" |};
  {| name := str "if-none-match"; value := str "" |};
  {| name := str "last-modified"; value := str "" |};
  {| name := str "link"; value := str "" |};
  {| name := str "location"; value := str "" |};
  {| name := str "referer"; value := str "" |};
  {| name := str "set-cookie"; value := str "" |};
  {| name := str ":method"; value := str "CONNECT" |};
  {| name := str ":method"; value := str "DELETE" |};
  {| name := str ":method"; value := str "GET" |};
  {| name := str ":method"; value := str "HEAD" |};
  {| name := str ":method"; value := str "OPTIONS" |};
  {| name := str ":method"; value := str "POST" |};
  {| name := str ":method"; value := str "PUT" |};
  {| name := str ":scheme"; value := str "http" |};
  {| name := str ":scheme"; value := str "https" |};
  {| name := str ":status"; value := str "103" |};
  {| name := str ":status"; value := str "200" |};
  {| name := str ":status"; value := str "304" |};
  {| name := str ":status"; value := str "404" |};
  {| name := str ":status"; value := str "503" |};
  {| name := str "accept"; value := str "*/*" |};
  {| name := str "accept"; value := str "application/dns-message" |};
  {| name := str "accept-encoding"; value := str "gzip, deflate, br" |};
  {| name := str "accept-ranges"; value := str "bytes" |};
  {| name := str "access-control-allow-headers"; value := str "cache-control" |};
  {| name := str "access-control-allow-headers"; value := str "content-type" |};
  {| name := str "access-control-allow-origin"; value := str "*" |};
  {| name := str "cache-control"; value := str "max-age=0" |};
  {| name := str "cache-control"; value := str "max-age=2592000" |};
  {| name := str "cache-control"; value := str "max-age=604800" |};
  {| name := str "cache-control"; value := str "no-cache" |};
  {| name := str "cache-control"; value := str "no-store" |};
  {| name := str "cache-control"; value := str "public, max-age=31536000" |};
  {| name := str "content-encoding"; value := str "br" |};
  {| name := str "content-encoding"; value := str "gzip" |};
  {| name := str "content-type"; value := str "application/dns-message" |};
  {| name := str "content-type"; value := str "application/javascript" |};
  {| name := str "content-type"; value := str "application/json" |};
  {| name := str "content-type"; value := str "application/x-www-form-urlencoded" |};
  {| name := str "content-type"; value := str "image/gif" |};
  {| name := str "content-type"; value := str "image/jpeg" |};
  {| name := str "content-type"; value := str "image/png" |};
  {| name := str "content-type"; value := str "text/css" |};
  {| name := str "content-type"; value := str "text/html; charset=utf-8" |};
  {| name := str "content-type"; value := str "text/plain" |};
  {| name := str "content-type"; value := str "text/plain;charset=utf-8" |};
  {| name := str "range"; value := str "bytes=0-" |};
  {| name := str "strict-transport-security"; value := str "max-age=31536000" |};
  {| name := str "strict-transport-security"; value := str "max-age=31536000; includesubdomains" |};
  {| name := str "strict-transport-security"; value := str "max-age=31536000; includesubdomains; preload" |};
  {| name := str "vary"; value := str "accept-encoding" |};
  {| name := str "vary"; value := str "origin" |};
  {| name := str "x-content-type-options"; value := str "nosniff" |};
  {| name := str "x-xss-protection"; value := str "1; mode=block" |};
  {| name := str ":status"; value := str "100" |};
  {| name := str ":status"; value := str "204" |};
  {| name := str ":status"; value := str "206" |};
  {| name := str ":status"; value := str "302" |};
  {| name := str ":status"; value := str "400" |};
  {| name := str ":status"; value := str "403" |};
  {| name := str ":status"; value := str "421" |};
  {| name := str ":status"; value := str "425" |};
  {| name := str ":status"; value := str "500" |};
  {| name := str "accept-language"; value := str "" |};
  {| name := str "access-control-allow-credentials"; value := str "FALSE" |};
  {| name := str "access-control-allow-credentials"; value := str "TRUE" |};
  {| name := str "access-control-allow-headers"; value := str "*" |};
  {| name := str "access-control-allow-methods"; value := str "get" |};
  {| name := str "access-control-allow-methods"; value := str "get, post, options" |};
  {| name := str "access-control-allow-methods"; value := str "options" |};
  {| name := str "access-control-expose-headers"; value := str "content-length" |};
  {| name := str "access-control-request-headers"; value := str "content-type" |};
  {| name := str "access-control-request-method"; value := str "get" |};
  {| name := str "access-control-request-method"; value := str "post" |};
  {| name := str "alt-svc"; value := str "clear" |};
  {| name := str "authorization"; value := str "" |};
  {| name := str "content-security-policy"; value := str "script-src 'none'; object-src 'none'; base-uri 'none'" |};
  {| name := str "early-data"; value := str "1" |};
  {| name := str "expect-ct"; value := str "" |};
  {| name := str "forwarded"; value := str "" |};
  {| name := str "if-range"; value := str "" |};
  {| name := str "origin"; value := str "" |};
  {| name := str "purpose"; value := str "prefetch" |};
  {| name := str "server"; value := str "" |};
  {| name := str "timing-allow-origin"; value := str "*" |};
  {| name := str "upgrade-insecure-requests"; value := str "1" |};
  {| name := str "user-agent"; value := str "" |};
  {| name := str "x-forwarded-for"; value := str "" |};
  {| name := str "x-frame-options"; value := str "deny" |};
  {| name := str "x-frame-options"; value := str "sameorigin" |}].

(** The arms of [StaticTable::find] and of [StaticTable::find_name]. *)
Definition find_arms : list ((bytes * bytes) * Z) := [
  ((str ":authority", str ""), 0);
  ((str ":path", str "/"), 1);
  ((str "age", str "0"), 2);
  ((str "content-disposition", str ""), 3);
  ((str "content-length", str "0"), 4);
  ((str "cookie", str ""), 5);
  ((str "date", str ""), 6);
  ((str "etag", str ""), 7);
  ((str "if-modified-since", str ""), 8);
  ((str "if-none-match", str ""), 9);
  ((str "last-modified", str ""), 10);
  ((str "link", str ""), 11);
  ((str "location", str ""), 12);
  ((str "referer", str ""), 13);
  ((str "set-cookie", str ""), 14);
  ((str ":method", str "CONNECT"), 15);
  ((str ":method", str "DELETE"), 16);
  ((str ":method", str "GET"), 17);
  ((str ":method", str "HEAD"), 18);
  ((str ":method", str "OPTIONS"), 19);
  ((str ":method", str "POST"), 20);
  ((str ":method", str "PUT"), 21);
  ((str ":scheme", str "http"), 22);
  ((str ":scheme", str "https"), 23);
  ((str ":status", str "103"), 24);
  ((str ":status", str "200"), 25);
  ((str ":status", str "304"), 26);
  ((str ":status", str "404"), 27);
  ((str ":status", str "503"), 28);
  ((str "accept", str "*/*"), 29);
  ((str "accept", str "application/dns-message"), 30);
  ((str "accept-encoding", str "gzip, deflate, br"), 31);
  ((str "accept-ranges", str "bytes"), 32);
  ((str "access-control-allow-headers", str "cache-control"), 33);
  ((str "access-control-allow-headers", str "content-type"), 34);
  ((str "access-control-allow-origin", str "*"), 35);
  ((str "cache-control", str "max-age=0"), 36);
  ((str "cache-control", str "max-age=2592000"), 37);
  ((str "cache-control", str "max-age=604800"), 38);
  ((str "cache-control", str "no-cache"), 39);
  ((str "cache-control", str "no-store"), 40);
  ((str "cache-control", str "public, max-age=31536000"), 41);
  ((str "content-encoding", str "br"), 42);
  ((str "content-encoding", str "gzip"), 43);
  ((str "content-type", str "application/dns-message"), 44);
  ((str "content-type", str "application/javascript"), 45);
  ((str "content-type", str "application/json"), 46);
  ((str "content-type", str "application/x-www-form-urlencoded"), 47);
  ((str "content-type", str "image/gif"), 48);
  ((str "content-type", str "image/jpeg"), 49);
  ((str "content-type", str "image/png"), 50);
  ((str "content-type", str "text/css"), 51);
  ((str "content-type", str "text/html; charset=utf-8"), 52);
  ((str "content-type", str "text/plain"), 53);
  ((str "content-type", str "text/plain;charset=utf-8"), 54);
  ((str "range", str "bytes=0-"), 55);
  ((str "strict-transport-security", str "max-age=31536000"), 56);
  ((str "strict-transport-security", str "max-age=31536000; includesubdomains"), 57);
  ((str "strict-transport-security", str "max-age=31536000; includesubdomains; preload"), 58);
  ((str "vary", str "accept-encoding"), 59);
  ((str "vary", str "origin"), 60);
  ((str "x-content-type-options", str "nosniff"), 61);
  ((str "x-xss-protection", str "1; mode=block"), 62);
  ((str ":status", str "100"), 63);
  ((str ":status", str "204"), 64);
  ((str ":status", str "206"), 65);
  ((str ":status", str "302"), 66);
  ((str ":status", str "400"), 67);
  ((str ":status", str "403"), 68);
  ((str ":status", str "421"), 69);
  ((str ":status", str "425"), 70);
  ((str ":status", str "500"), 71);
  ((str "accept-language", str ""), 72);
  ((str "access-control-allow-credentials", str "FALSE"), 73);
  ((str "access-control-allow-credentials", str "TRUE"), 74);
  ((str "access-control-allow-headers", str "*"), 75);
  ((str "access-control-allow-methods", str "get"), 76);
  ((str "access-control-allow-methods", str "get, post, options"), 77);
  ((str "access-control-allow-methods", str "options"), 78);
  ((str "access-control-expose-headers", str "content-length"), 79);
  ((str "access-control-request-headers", str "content-type"), 80);
  ((str "access-control-request-method", str "get"), 81);
  ((str "access-control-request-method", str "post"), 82);
  ((str "alt-svc", str "clear"), 83);
  ((str "authorization", str ""), 84);
  ((str "content-security-policy", str "script-src 'none'; object-src 'none'; base-uri 'none'"), 85);
  ((str "early-data", str "1"), 86);
  ((str "expect-ct", str ""), 87);
  ((str "forwarded", str ""), 88);
  ((str "if-range", str ""), 89);
  ((str "origin", str ""), 90);
  ((str "purpose", str "prefetch"), 91);
  ((str "server", str ""), 92);
  ((str "timing-allow-origin", str "*"), 93);
  ((str "upgrade-insecure-requests", str "1"), 94);
  ((str "user-agent", str ""), 95);
  ((str "x-forwarded-for", str ""), 96);
  ((str "x-frame-options", str "deny"), 97);
  ((str "x-frame-options", str "sameorigin"), 98)].

Definition find_name_arms : list (bytes * Z) := [
  (str ":authority", 0);
  (str ":path", 1);
  (str "age", 2);
  (str "content-disposition", 3);
  (str "content-length", 4);
  (str "cookie", 5);
  (str "date", 6);
  (str "etag", 7);
  (str "if-modified-since", 8);
  (str "if-none-match", 9);
  (str "last-modified", 10);
  (str "link", 11);
  (str "location", 12);
  (str "referer", 13);
  (str "set-cookie", 14);
  (str ":method", 15);
  (str ":scheme", 22);
  (str ":status", 24);
  (str "accept", 29);
  (str "accept-encoding", 31);
  (str "accept-ranges", 32);
  (str "access-control-allow-headers", 33);
  (str "access-control-allow-origin", 35);
  (str "cache-control", 36);
  (str "content-encoding", 42);
  (str "content-type", 44);
  (str "range", 55);
  (str "strict-transport-security", 56);
  (str "vary", 59);
  (str "x-content-type-options", 61);
  (str "x-xss-protection", 62);
  (str "accept-language", 72);
  (str "access-control-allow-credentials", 73);
  (str "access-control-allow-methods", 76);
  (str "access-control-expose-headers", 79);
  (str "access-control-request-headers", 80);
  (str "access-control-request-method", 81);
  (str "alt-svc", 83);
  (str "authorization", 84);
  (str "content-security-policy", 85);
  (str "early-data", 86);
  (str "expect-ct", 87);
  (str "forwarded", 88);
  (str "if-range", 89);
  (str "origin", 90);
  (str "purpose", 91);
  (str "server", 92);
  (str "timing-allow-origin", 93);
  (str "upgrade-insecure-requests", 94);
  (str "user-agent", 95);
  (str "x-forwarded-for", 96);
  (str "x-frame-options", 97)].

(** The first arm that matches. *)
Fixpoint first_arm {K} `{EqDecision K} (k : K) (arms : list (K * Z)) : option Z :=
  match arms with
  | [] => None
  | (k', i) :: arms => if decide (k = k') then Some i else first_arm k arms
  end.

(** [StaticTable::get]; [None] is [Error::Unknown(index)]. *)
Definition get (index : Z) : option HeaderField := PREDEFINED_HEADERS !! Z.to_nat index.

Definition find (f : HeaderField) : option Z := first_arm (name f, value f) find_arms.

Definition find_name (n : bytes) : option Z := first_arm n find_name_arms.

(** ** Errors *)

Inductive ParseError :=
| Integer (e : QpackInt.Error)
| String (e : QpackString.Error)
| InvalidPrefix (p : Z)
| InvalidBase (b : Z).

#[global] Instance ParseError_eq_dec : EqDecision ParseError.
Proof. solve_decision. Defined.

(** ** How a field line is represented *)

Inductive HeaderBlockField :=
| FieldIndexed
| FieldIndexedWithPostBase
| FieldLiteralWithNameRef
| FieldLiteralWithPostBaseNameRef
| FieldLiteral
| FieldUnknown.

#[global] Instance HeaderBlockField_eq_dec : EqDecision HeaderBlockField.
Proof. solve_decision. Defined.

Definition HeaderBlockField_decode (first : byte) : HeaderBlockField :=
  let first := bz first in
  if negb (Z.land first 0x80 =? 0) then FieldIndexed
  else if Z.land first 0xf0 =? 0x10 then FieldIndexedWithPostBase
  else if Z.land first 0xc0 =? 0x40 then FieldLiteralWithNameRef
  else if Z.land first 0xf0 =? 0 then FieldLiteralWithPostBaseNameRef
  else if Z.land first 0xe0 =? 0x20 then FieldLiteral
  else FieldUnknown.

(** ** The prefix of a header block *)

Record HeaderPrefix := {
  encoded_insert_count : Z;
  sign_negative : bool;
  delta_base : Z;
}.

#[global] Instance HeaderPrefix_eq_dec : EqDecision HeaderPrefix.
Proof. solve_decision. Defined.

(** [HeaderPrefix::new]: the assertion and the remainder by zero panic. *)
Definition HeaderPrefix_new (required base total_inserted max_table_size : Z)
    : Outcome HeaderPrefix :=
  if max_table_size =? 0 then
    Returns {| encoded_insert_count := 0; sign_negative := false; delta_base := 0 |}
  else if required =? 0 then
    Returns {| encoded_insert_count := 0; sign_negative := false; delta_base := 0 |}
  else if negb (required <=? total_inserted) then Panics
  else
    let (negative, delta) := if required >? base then (true, required - base - 1)
                             else (false, base - required) in
    let max_entries := max_table_size / 32 in
    if max_entries =? 0 then Panics
    else Returns {| encoded_insert_count := required mod (2 * max_entries) + 1;
                    sign_negative := negative; delta_base := delta |}.

(** The required insert count of [HeaderPrefix::get]; a negative difference
    of [usize] values panics. *)
Definition required_of (count total_inserted max_entries : Z) : Outcome Z :=
  if count =? 0 then Returns 0
  else if max_entries =? 0 then Panics
  else
    let insert_count := count - 1 in
    let wrapped := total_inserted mod (2 * max_entries) in
    let (insert_count, wrapped) :=
      if wrapped >=? insert_count + max_entries then (insert_count + 2 * max_entries, wrapped)
      else if wrapped + max_entries <? insert_count then (insert_count, wrapped + 2 * max_entries)
      else (insert_count, wrapped) in
    if insert_count + total_inserted <? wrapped then Panics
    else Returns (insert_count + total_inserted - wrapped).

Definition HeaderPrefix_get (self : HeaderPrefix) (total_inserted max_table_size : Z)
    : Outcome (Res ParseError (Z * Z)) :=
  if max_table_size =? 0 then Returns (RetOk (0, 0))
  else
    match required_of (encoded_insert_count self) total_inserted (max_table_size / 32) with
    | Panics => Panics
    | Returns required =>
        Returns
          (if required =? 0 then RetOk (required, 0)
           else if negb (sign_negative self) then RetOk (required, required + delta_base self)
           else if delta_base self + 1 >? required
           then RetErr (InvalidBase (required - delta_base self - 1))
           else RetOk (required, required - delta_base self - 1))
    end.

(** The check [i > usize::MAX as u64] that follows the integers. *)
Definition usize_checked {A} (i : Z) (k : Dec ParseError A) : Dec ParseError A :=
  if i >? u64_max then dfail (Integer QpackInt.Overflow) else k.

Definition HeaderPrefix_decode : Dec ParseError HeaderPrefix :=
  let% (_, count) := map_err Integer (QpackInt.decode 8) in
  let% (sign, delta) := map_err Integer (QpackInt.decode 7) in
  usize_checked count (usize_checked delta
    (dret {| encoded_insert_count := count; sign_negative := sign =? 1; delta_base := delta |})).

Definition HeaderPrefix_encode (self : HeaderPrefix) : bytes :=
  let sign_bit := if sign_negative self then 1 else 0 in
  QpackInt.encode 8 0 (encoded_insert_count self) ++ QpackInt.encode 7 sign_bit (delta_base self).

(** ** Representations *)

Inductive Indexed := IndexedStatic (i : Z) | IndexedDynamic (i : Z).

Definition Indexed_decode : Dec ParseError Indexed :=
  let% (f, i) := map_err Integer (QpackInt.decode 6) in
  if f =? 3 then usize_checked i (dret (IndexedStatic i))
  else if f =? 2 then usize_checked i (dret (IndexedDynamic i))
  else dfail (InvalidPrefix f).

Definition Indexed_encode (self : Indexed) : bytes :=
  match self with
  | IndexedStatic i => QpackInt.encode 6 3 i
  | IndexedDynamic i => QpackInt.encode 6 2 i
  end.

Definition IndexedWithPostBase_decode : Dec ParseError Z :=
  let% (f, i) := map_err Integer (QpackInt.decode 4) in
  if f =? 1 then usize_checked i (dret i) else dfail (InvalidPrefix f).

Definition IndexedWithPostBase_encode (i : Z) : bytes := QpackInt.encode 4 1 i.

Inductive LiteralWithNameRef :=
| NameRefStatic (index : Z) (value : bytes)
| NameRefDynamic (index : Z) (value : bytes).

Definition LiteralWithNameRef_decode : Dec ParseError LiteralWithNameRef :=
  let% (f, i) := map_err Integer (QpackInt.decode 4) in
  if Z.land f 5 =? 5 then usize_checked i
    (let% v := map_err String (QpackString.decode 8) in dret (NameRefStatic i v))
  else if Z.land f 5 =? 4 then usize_checked i
    (let% v := map_err String (QpackString.decode 8) in dret (NameRefDynamic i v))
  else dfail (InvalidPrefix f).

(** Appends what the second writer puts, unless one of them panics. *)
Definition and_put (a b : Outcome bytes) : Outcome bytes :=
  match a, b with
  | Returns x, Returns y => Returns (x ++ y)
  | _, _ => Panics
  end.

Definition LiteralWithNameRef_encode (self : LiteralWithNameRef) : Outcome bytes :=
  match self with
  | NameRefStatic i v => and_put (Returns (QpackInt.encode 4 5 i)) (QpackString.encode 8 0 v)
  | NameRefDynamic i v => and_put (Returns (QpackInt.encode 4 4 i)) (QpackString.encode 8 0 v)
  end.

Definition LiteralWithPostBaseNameRef_decode : Dec ParseError (Z * bytes) :=
  let% (f, i) := map_err Integer (QpackInt.decode 3) in
  if Z.land f 0xf0 =? 0 then usize_checked i
    (let% v := map_err String (QpackString.decode 8) in dret (i, v))
  else dfail (InvalidPrefix f).

Definition LiteralWithPostBaseNameRef_encode (i : Z) (v : bytes) : Outcome bytes :=
  and_put (Returns (QpackInt.encode 3 0 i)) (QpackString.encode 8 0 v).

(** [Literal]: a name and a value. *)
Definition Literal_decode : Dec ParseError (bytes * bytes) := fun buf =>
  match buf with
  | [] => (RetErr (Integer QpackInt.UnexpectedEnd), buf)
  | first :: _ =>
      if negb (Z.land (bz first) 0xe0 =? 0x20)
      then (RetErr (InvalidPrefix (bz first)), buf)
      else
        (let% n := map_err String (QpackString.decode 4) in
         let% v := map_err String (QpackString.decode 8) in
         dret (n, v)) buf
  end.

Definition Literal_encode (n v : bytes) : Outcome bytes :=
  and_put (QpackString.encode 4 2 n) (QpackString.encode 8 0 v).

(** ** The static table is consistent *)

Lemma first_arm_in {K} `{EqDecision K} (k : K) arms i :
  first_arm k arms = Some i -> In (k, i) arms.
Proof.
  induction arms as [|[k' j] arms IH]; [done|]. cbn [first_arm]. case_decide; [|by right; apply IH].
  intros [= ->]. subst. by left.
Qed.

Lemma find_arms_ok :
  forallb (fun '((n, v), i) => (0 <=? i) && (i <? 99) &&
    bool_decide (get i = Some {| name := n; value := v |})) find_arms = true.
Proof. vm_compute. reflexivity. Qed.

Lemma find_name_arms_ok :
  forallb (fun '(n, i) => (0 <=? i) && (i <? 99) &&
    match get i with Some f => bool_decide (name f = n) | None => false end &&
    forallb (fun f => negb (bool_decide (name f = n))) (take (Z.to_nat i) PREDEFINED_HEADERS))
    find_name_arms = true.
Proof. vm_compute. reflexivity. Qed.

Lemma predefined_found :
  forallb (fun i => match get (Z.of_nat i) with
                    | Some f => bool_decide (find f = Some (Z.of_nat i) /\ is_Some (find_name (name f)))
                    | None => false end) (seq 0 99) = true.
Proof. vm_compute. reflexivity. Qed.

Lemma find_get f i : find f = Some i -> 0 <= i < 99 /\ get i = Some f.
Proof.
  intros H%first_arm_in. pose proof (proj1 (forallb_forall _ _) find_arms_ok _ H) as Hok.
  cbv beta iota in Hok. apply andb_true_iff in Hok as [[?%Z.leb_le ?%Z.ltb_lt]%andb_true_iff Hg].
  apply bool_decide_eq_true in Hg. split; [lia|]. rewrite Hg. by destruct f.
Qed.

Lemma find_name_get n i : find_name n = Some i ->
  0 <= i < 99 /\ (exists f, get i = Some f /\ name f = n) /\
  forall j f, 0 <= j < i -> get j = Some f -> name f <> n.
Proof.
  intros H%first_arm_in. pose proof (proj1 (forallb_forall _ _) find_name_arms_ok _ H) as Hok.
  cbv beta iota in Hok.
  apply andb_true_iff in Hok as [[[?%Z.leb_le ?%Z.ltb_lt]%andb_true_iff Hg]%andb_true_iff Hm].
  split; [lia|]. split.
  - destruct (get i) as [f|]; [|done]. apply bool_decide_eq_true in Hg. by exists f.
  - intros j f Hj Hf Hn. unfold get in Hf.
    assert (In f (take (Z.to_nat i) PREDEFINED_HEADERS)) as Hin.
    { apply list_elem_of_In, list_elem_of_lookup. exists (Z.to_nat j).
      by rewrite lookup_take_lt by lia. }
    apply (proj1 (forallb_forall _ _) Hm) in Hin.
    by apply negb_true_iff, bool_decide_eq_false in Hin.
Qed.

(** The two lookups of the static table and the table agree: [find]
    gives the one index of a field, exactly when the field is in the table,
    and [find_name] the first index with that name, exactly when a field of
    the table has the name. *)
Theorem static_table_consistent (f : HeaderField) (i : Z) (Hi : 0 <= i) :
  (find f = Some i <-> get i = Some f) /\
  (find_name (name f) = Some i <->
     (exists g, get i = Some g /\ name g = name f) /\
     forall j g, 0 <= j < i -> get j = Some g -> name g <> name f).
Proof.
  assert (forall j g, 0 <= j -> get j = Some g ->
            find g = Some j /\ is_Some (find_name (name g))) as Hall.
  { intros j g Hj Hg.
    assert (In (Z.to_nat j) (seq 0 99)) as Hin.
    { apply in_seq. apply lookup_lt_Some in Hg.
      change (length PREDEFINED_HEADERS) with 99%nat in Hg. lia. }
    pose proof (proj1 (forallb_forall _ _) predefined_found _ Hin) as H. cbv beta in H.
    rewrite Z2Nat.id, Hg in H by done. by apply bool_decide_eq_true in H. }
  split; split.
  - intros H. by apply find_get in H as [_ ?].
  - intros H. by apply Hall in H as [? _].
  - intros H%find_name_get. naive_solver.
  - intros [(g & Hg & Hn) Hmin]. destruct (Hall i g Hi Hg) as [_ [j Hj]]. rewrite Hn in Hj.
    rewrite Hj. f_equal. apply find_name_get in Hj as (Hj0 & (g' & Hg' & Hn') & Hm).
    destruct (Z.lt_total i j) as [Hlt|[->|Hlt]]; [|done|].
    + by destruct (Hm i g); [lia|..].
    + by destruct (Hmin j g'); [lia|..].
Qed.

Lemma static_table_consistent_witness :
  find {| name := str ":method"; value := str "POST" |} = Some 20 /\
  find_name (str ":status") = Some 24.
Proof.
  split.
  - refine (proj2 (proj1 (static_table_consistent
      {| name := str ":method"; value := str "POST" |} 20 _)) _); [lia|reflexivity].
  - refine (proj2 (proj2 (static_table_consistent
      {| name := str ":status"; value := str "233" |} 24 _)) _); [lia|].
    split; [eexists; split; reflexivity|].
    apply (find_name_get (str ":status") 24). reflexivity.
Defined.

(** ** Field lines are read back *)

Lemma usize_checked_ok {A} i (k : Dec ParseError A) : i < 2 ^ 64 -> usize_checked i k = k.
Proof.
  intros Hi. unfold usize_checked, u64_max. rewrite Z.gtb_ltb.
  by rewrite (proj2 (Z.ltb_ge _ _)) by lia.
Qed.

Lemma decodes_prefix self :
  0 <= encoded_insert_count self < 2 ^ 63 -> 0 <= delta_base self < 2 ^ 63 ->
  decodes HeaderPrefix_decode (HeaderPrefix_encode self) self.
Proof.
  intros Hc Hd rest. unfold HeaderPrefix_decode, HeaderPrefix_encode. rewrite <-app_assoc.
  pose proof (QpackInt.mask_range 8 ltac:(lia)). pose proof (QpackInt.mask_range 7 ltac:(lia)).
  erewrite dbind_ok by (apply map_err_ok, QpackInt.decodes_int; simpl; lia). cbv beta iota.
  erewrite dbind_ok
    by (apply map_err_ok, QpackInt.decodes_int; [lia|by destruct (sign_negative self)|lia]).
  cbv beta iota. rewrite !usize_checked_ok by lia. unfold dret. do 2 f_equal.
  destruct self as [c [] d]; reflexivity.
Qed.

Lemma indexed_line i :
  0 <= i < 99 -> decodes Indexed_decode (Indexed_encode (IndexedStatic i)) (IndexedStatic i) /\
  exists b t, Indexed_encode (IndexedStatic i) = b :: t /\
    HeaderBlockField_decode b = FieldIndexed.
Proof.
  intros Hi. pose proof (QpackInt.mask_range 6 ltac:(lia)). split.
  - intros rest. unfold Indexed_decode, Indexed_encode.
    erewrite dbind_ok by (apply map_err_ok, QpackInt.decodes_int; simpl; lia). cbv beta iota.
    simpl Z.eqb. cbn iota. by rewrite usize_checked_ok by lia.
  - unfold Indexed_encode. destruct (QpackInt.encode_first_ok 6 3 i) as (b & t & -> & Hb & _); [lia|simpl; lia|lia|].
    exists b, t. split; [done|]. change (QpackInt.mask 6) with 63 in Hb.
    change (2 ^ 6) with 64 in Hb. clear -Hb Hi. unfold HeaderBlockField_decode.
    assert (192 <= bz b) as Hbb by lia. clear Hb Hi.
    destruct b; vm_compute in Hbb; try reflexivity; congruence.
Qed.

(** The string of a value: no flags, a prefix of seven bits. *)
Lemma decodes_value v : len v < Huffman.MAX_STRING ->
  exists l, QpackString.encode 8 0 v = Returns l /\ decodes (QpackString.decode 8) l v.
Proof.
  intros Hv. destruct (QpackString.decodes_string 8 0 v) as (l & ? & ? & _);
    [lia|lia|simpl; lia|done|eauto].
Qed.

Lemma name_ref_line i v :
  0 <= i < 99 -> len v < Huffman.MAX_STRING ->
  exists l, LiteralWithNameRef_encode (NameRefStatic i v) = Returns l /\
    decodes LiteralWithNameRef_decode l (NameRefStatic i v) /\
    exists b t, l = b :: t /\ HeaderBlockField_decode b = FieldLiteralWithNameRef.
Proof.
  intros Hi Hv. destruct (decodes_value v Hv) as (l & He & Hd).
  pose proof (QpackInt.mask_range 4 ltac:(lia)).
  unfold LiteralWithNameRef_encode. rewrite He. eexists. split; [done|]. split.
  - intros rest. rewrite <-app_assoc. unfold LiteralWithNameRef_decode.
    erewrite dbind_ok by (apply map_err_ok, QpackInt.decodes_int; simpl; lia). cbv beta iota.
    change (Z.land 5 5 =? 5) with true. cbn iota. rewrite usize_checked_ok by lia.
    by erewrite dbind_ok by (apply map_err_ok, Hd).
  - destruct (QpackInt.encode_first_ok 4 5 i) as (b & t & -> & Hb & _); [lia|simpl; lia|lia|].
    exists b, (t ++ l). split; [done|]. change (QpackInt.mask 4) with 15 in Hb.
    change (2 ^ 4) with 16 in Hb. unfold HeaderBlockField_decode.
    assert (80 <= bz b < 96) as Hbb by lia. clear -Hbb.
    destruct b; vm_compute in Hbb; try reflexivity; intuition congruence.
Qed.

Lemma literal_line n v :
  len n < Huffman.MAX_STRING -> len v < Huffman.MAX_STRING ->
  exists l, Literal_encode n v = Returns l /\ decodes Literal_decode l (n, v) /\
    exists b t, l = b :: t /\ HeaderBlockField_decode b = FieldLiteral.
Proof.
  intros Hn Hv. destruct (decodes_value v Hv) as (lv & He & Hd).
  destruct (QpackString.decodes_string 4 2 n) as (ln & Hen & Hdn & b & t & Hl & Hb);
    [lia|lia|simpl; lia|done|].
  change (2 ^ (4 - 1)) with 8 in Hb.
  unfold Literal_encode. rewrite Hen, He. eexists. split; [done|].
  assert (Z.land (bz b) 0xe0 = 0x20 /\ HeaderBlockField_decode b = FieldLiteral) as [Hm Hf].
  { assert (40 <= bz b < 48) as Hbb by lia. clear -Hbb.
    destruct b; vm_compute in Hbb; try (split; reflexivity); intuition congruence. }
  split.
  - intros rest. unfold Literal_decode. rewrite Hl at 1. cbn [app]. rewrite Hm. cbn [negb].
    simpl Z.eqb. cbn iota. cbn [negb]. rewrite <-app_assoc.
    erewrite dbind_ok by (apply map_err_ok, Hdn).
    by erewrite dbind_ok by (apply map_err_ok, Hd).
  - exists b, (t ++ lv). by rewrite Hl.
Qed.

(** ** The insert count of the prefix *)

(** The decoder finds the one count of its window that is congruent to the
    encoded one. *)
Lemma required_of_window required total entries :
  0 < required -> 0 <= total -> 0 < entries ->
  total - entries < required <= total + entries ->
  required_of (required mod (2 * entries) + 1) total entries = Returns required.
Proof.
  intros Hr Ht He Hw. unfold required_of.
  pose proof (Z.div_mod required (2 * entries) ltac:(lia)) as H1.
  pose proof (Z.mod_pos_bound required (2 * entries) ltac:(lia)) as H2.
  pose proof (Z.div_mod total (2 * entries) ltac:(lia)) as H3.
  pose proof (Z.mod_pos_bound total (2 * entries) ltac:(lia)) as H4.
  set (ic := required mod (2 * entries)) in *. set (wr := total mod (2 * entries)) in *.
  set (q1 := required / (2 * entries)) in *. set (q2 := total / (2 * entries)) in *.
  rewrite (proj2 (Z.eqb_neq _ 0)), (proj2 (Z.eqb_neq _ 0)), Z.add_simpl_r by lia.
  assert (q1 - q2 = -1 \/ q1 - q2 = 0 \/ q1 - q2 = 1) as Hq by nia.
  rewrite Z.geb_leb.
  destruct (Z.leb_spec (ic + entries) wr); [|destruct (Z.ltb_spec (wr + entries) ic)];
    cbv beta iota zeta; rewrite (proj2 (Z.ltb_ge _ _)) by nia; f_equal; nia.
Qed.

(** The prefix of a header block carries the required insert count and
    the base.  What the encoder writes is read back, and gives the same
    count and base to a decoder whose own count is within the window of the
    table's entries around it. *)
Theorem header_prefix_roundtrip (required base total_encoder total max_table_size : Z) (rest : bytes)
    (Hreq : 0 < required <= total_encoder) (Hbase : 0 <= base < 2 ^ 62)
    (Hmax : 32 <= max_table_size < 2 ^ 61) (Henc : total_encoder < 2 ^ 62) (Htotal : 0 <= total)
    (Hwindow : total - max_table_size / 32 < required <= total + max_table_size / 32) :
  exists p, HeaderPrefix_new required base total_encoder max_table_size = Returns p /\
    HeaderPrefix_decode (HeaderPrefix_encode p ++ rest) = (RetOk p, rest) /\
    HeaderPrefix_get p total max_table_size = Returns (RetOk (required, base)).
Proof.
  assert (1 <= max_table_size / 32 <= max_table_size) as Hm.
  { split; [apply Z.div_le_lower_bound; lia|apply Z.div_le_upper_bound; lia]. }
  pose proof (Z.mod_pos_bound required (2 * (max_table_size / 32)) ltac:(lia)).
  unfold HeaderPrefix_new.
  rewrite (proj2 (Z.eqb_neq max_table_size 0)), (proj2 (Z.eqb_neq required 0)) by lia.
  rewrite (proj2 (Z.leb_le _ _)) by lia. cbn [negb].
  rewrite Z.gtb_ltb. destruct (Z.ltb_spec base required); cbv beta iota zeta;
    rewrite (proj2 (Z.eqb_neq _ 0)) by lia; (eexists; split; [done|]); split;
    try (apply decodes_prefix; cbn [encoded_insert_count delta_base]; lia);
    unfold HeaderPrefix_get; rewrite (proj2 (Z.eqb_neq max_table_size 0)) by lia;
    cbn [encoded_insert_count delta_base sign_negative];
    rewrite required_of_window, (proj2 (Z.eqb_neq required 0)) by lia; cbn [negb].
  - rewrite Z.gtb_ltb, (proj2 (Z.ltb_ge _ _)) by lia. do 3 f_equal. lia.
  - do 3 f_equal. lia.
Qed.

Lemma header_prefix_roundtrip_witness :
  exists p, HeaderPrefix_new 130 127 140 4096 = Returns p /\
    HeaderPrefix_decode (HeaderPrefix_encode p ++ [Byte.x2a]) = (RetOk p, [Byte.x2a]) /\
    HeaderPrefix_get p 200 4096 = Returns (RetOk (130, 127)).
Proof.
  refine (header_prefix_roundtrip 130 127 140 200 4096 [Byte.x2a] _ _ _ _ _ _);
    vm_compute; intuition congruence.
Defined.


End QpackBlock.
