(* ===== verification/Qpack.v ===== *)
(** * Header blocks without a dynamic table

    [encode_stateless] of [vendor/h3/src/qpack/encoder.rs] and
    [decode_stateless] of [vendor/h3/src/qpack/decoder.rs], through which
    every header section of the authentication exchange passes. *)

From Stdlib Require Import ZArith Lia.
From stdpp Require Import base gmap list strings.
From S2P Require Import Prelude Error VarInt H3Coding QpackInt Huffman QpackString QpackBlock.

#[local] Open Scope Z_scope.

Module Qpack.
Import H3Coding QpackBlock.
#[local] Open Scope buf_scope.

(** [DecoderError], without the two variants of the dynamic table that
    stateless decoding cannot raise. *)
Inductive DecoderError :=
| InvalidInteger (e : QpackInt.Error)
| InvalidString (e : QpackString.Error)
| InvalidStaticIndex (i : Z)
| UnknownPrefix (p : Z)
| MissingRefs (n : Z)
| BadBaseIndex (i : Z)
| UnexpectedEnd
| HeaderTooLong (n : Z)
| BufSize.

#[global] Instance DecoderError_eq_dec : EqDecision DecoderError.
Proof. solve_decision. Defined.

(** [impl From<ParseError> for DecoderError]. *)
Definition from_parse (e : ParseError) : DecoderError :=
  match e with
  | Integer x => InvalidInteger x
  | String x => InvalidString x
  | InvalidPrefix p => UnknownPrefix p
  | InvalidBase b => BadBaseIndex b
  end.

Record Decoded := { fields : list HeaderField; size : Z; dyn_ref : bool }.

(** [StaticTable::get(index)?]. *)
Definition static_field (index : Z) : Dec DecoderError HeaderField :=
  match get index with
  | Some f => dret f
  | None => dfail (InvalidStaticIndex index)
  end.

(** One turn of the loop of [decode_stateless] up to the field it reads. *)
Definition decode_line (first : byte) : Dec DecoderError HeaderField :=
  match HeaderBlockField_decode first with
  | FieldIndexedWithPostBase => dfail (MissingRefs 0)
  | FieldLiteralWithPostBaseNameRef => dfail (MissingRefs 0)
  | FieldIndexed =>
      let% i := map_err from_parse Indexed_decode in
      match i with
      | IndexedStatic index => static_field index
      | IndexedDynamic _ => dfail (MissingRefs 0)
      end
  | FieldLiteralWithNameRef =>
      let% l := map_err from_parse LiteralWithNameRef_decode in
      match l with
      | NameRefDynamic _ _ => dfail (MissingRefs 0)
      | NameRefStatic index v => let% f := static_field index in dret (with_value f v)
      end
  | FieldLiteral =>
      let% (n, v) := map_err from_parse Literal_decode in
      dret {| name := n; value := v |}
  | FieldUnknown => dfail (UnknownPrefix (bz first))
  end.

(** The loop; [None] is the lack of fuel. *)
Fixpoint decode_lines (fuel : nat) (max_size : Z) (acc : list HeaderField) (mem : Z) (buf : bytes)
    : option (Res DecoderError Decoded) :=
  match buf with
  | [] => Some (RetOk {| fields := acc; size := mem; dyn_ref := false |})
  | first :: _ =>
      match fuel with
      | O => None
      | S fuel =>
          match decode_line first buf with
          | (RetErr e, _) => Some (RetErr e)
          | (RetOk field, buf) =>
              let mem := wrap 64 (mem + mem_size field) in
              if mem >? max_size then Some (RetErr (HeaderTooLong mem))
              else decode_lines fuel max_size (acc ++ [field]) mem buf
          end
      end
  end.

(** [decode_stateless]; every turn of the loop takes a byte, so their number
    is enough fuel.  [None] also stands for a panic of [HeaderPrefix::get]. *)
Definition decode_stateless (buf : bytes) (max_size : Z) : option (Res DecoderError Decoded) :=
  match HeaderPrefix_decode buf with
  | (RetErr e, _) => Some (RetErr (from_parse e))
  | (RetOk p, buf) =>
      match HeaderPrefix_get p 0 0 with
      | Panics => None
      | Returns (RetErr e) => Some (RetErr (from_parse e))
      | Returns (RetOk (required_ref, _)) =>
          if required_ref >? 0 then Some (RetErr (MissingRefs required_ref))
          else decode_lines (length buf) max_size [] 0 buf
      end
  end.

(** The body of the loop of [encode_stateless]. *)
Definition encode_line (field : HeaderField) : Outcome bytes :=
  match find field with
  | Some index => Returns (Indexed_encode (IndexedStatic index))
  | None =>
      match find_name (name field) with
      | Some index => LiteralWithNameRef_encode (NameRefStatic index (value field))
      | None => Literal_encode (name field) (value field)
      end
  end.

Fixpoint encode_lines (fs : list HeaderField) (total : Z) : Outcome (bytes * Z) :=
  match fs with
  | [] => Returns ([], total)
  | field :: fs =>
      match encode_line field with
      | Panics => Panics
      | Returns line =>
          match encode_lines fs (wrap 64 (total + mem_size field)) with
          | Panics => Panics
          | Returns (block, total) => Returns (line ++ block, total)
          end
      end
  end.

(** [encode_stateless]: the block and the size of the fields. *)
Definition encode_stateless (fs : list HeaderField) : Outcome (bytes * Z) :=
  match HeaderPrefix_new 0 0 0 0 with
  | Panics => Panics
  | Returns p =>
      match encode_lines fs 0 with
      | Panics => Panics
      | Returns (block, total) => Returns (HeaderPrefix_encode p ++ block, total)
      end
  end.

(** ** One field line *)

(** A field whose strings the Huffman coder takes. *)
Definition field_ok (f : HeaderField) : Prop :=
  len (name f) < Huffman.MAX_STRING /\ len (value f) < Huffman.MAX_STRING.

#[global] Instance field_ok_dec f : Decision (field_ok f).
Proof. unfold field_ok. apply _. Defined.

Definition total_size (fs : list HeaderField) : Z := foldr (fun f acc => mem_size f + acc) 0 fs.

Lemma mem_size_pos f : 32 <= mem_size f.
Proof.
  unfold mem_size, ESTIMATED_OVERHEAD_BYTES.
  pose proof (len_nonneg (name f)). pose proof (len_nonneg (value f)). lia.
Qed.

Lemma total_size_nonneg fs : 0 <= total_size fs.
Proof. induction fs as [|f fs IH]; simpl; [lia|]. pose proof (mem_size_pos f). lia. Qed.

Lemma encode_line_decodes f :
  field_ok f -> exists b t, encode_line f = Returns (b :: t) /\ decodes (decode_line b) (b :: t) f.
Proof.
  intros [Hn Hv]. unfold encode_line. destruct (find f) as [i|] eqn:Hf.
  { apply find_get in Hf as [Hi Hg]. destruct (indexed_line i Hi) as [Hd (b & t & He & Hb)].
    exists b, t. rewrite He. split; [done|]. intros rest. unfold decode_line. rewrite Hb.
    erewrite dbind_ok by (apply map_err_ok; rewrite <-He; apply Hd).
    unfold static_field. by rewrite Hg. }
  destruct (find_name (name f)) as [i|] eqn:Hfn.
  - apply find_name_get in Hfn as (Hi & (g & Hg & Hname) & _).
    destruct (name_ref_line i (value f) Hi Hv) as (l & He & Hd & b & t & -> & Hb).
    exists b, t. split; [done|]. intros rest. unfold decode_line. rewrite Hb.
    erewrite dbind_ok by (apply map_err_ok, Hd).
    unfold static_field. rewrite Hg. unfold dbind, dret, with_value. rewrite Hname.
    by destruct f.
  - destruct (literal_line (name f) (value f) Hn Hv) as (l & He & Hd & b & t & -> & Hb).
    exists b, t. split; [done|]. intros rest. unfold decode_line. rewrite Hb.
    erewrite dbind_ok by (apply map_err_ok, Hd). by destruct f.
Qed.

(** ** Round trip *)

Lemma encode_lines_spec fs : forall total,
  Forall field_ok fs -> 0 <= total -> total + total_size fs < 2 ^ 64 ->
  exists block, encode_lines fs total = Returns (block, total + total_size fs) /\
    forall fuel max_size acc mem, (length block <= fuel)%nat ->
      0 <= mem -> mem + total_size fs < 2 ^ 64 ->
      if mem + total_size fs <=? Z.max mem max_size
      then decode_lines fuel max_size acc mem block
           = Some (RetOk {| fields := acc ++ fs; size := mem + total_size fs; dyn_ref := false |})
      else exists n, max_size < n /\
           decode_lines fuel max_size acc mem block = Some (RetErr (HeaderTooLong n)).
Proof.
  induction fs as [|f fs IH]; intros total Hok Ht Hs; cbn [encode_lines total_size foldr] in *.
  { exists []. rewrite Z.add_0_r. split; [done|]. intros fuel max acc mem _ Hm _.
    rewrite Z.add_0_r, (proj2 (Z.leb_le _ _)) by lia. destruct fuel; by rewrite app_nil_r. }
  inversion_clear Hok as [|?? Hf Hfs]. fold (total_size fs) in *.
  pose proof (mem_size_pos f). pose proof (total_size_nonneg fs).
  destruct (encode_line_decodes f Hf) as (b & t & -> & Hd).
  rewrite wrap_small by (unfold uint; lia).
  destruct (IH (total + mem_size f)) as (block & -> & Hdec); [done|lia|lia|].
  exists ((b :: t) ++ block). split; [by rewrite Z.add_assoc|].
  intros fuel max acc mem Hfuel Hm Hms. rewrite length_app in Hfuel.
  destruct fuel as [|fuel]; [simpl in Hfuel; lia|]. cbn [app decode_lines].
  change (b :: t ++ block) with ((b :: t) ++ block). rewrite Hd.
  rewrite wrap_small by (unfold uint; lia). rewrite Z.gtb_ltb.
  destruct (Z.ltb_spec max (mem + mem_size f)) as [Hbig|Hfits].
  - rewrite (proj2 (Z.leb_gt _ _)) by lia. by eexists.
  - specialize (Hdec fuel max (acc ++ [f]) (mem + mem_size f)).
    rewrite <-app_assoc, <-Z.add_assoc in Hdec. cbn [app] in Hdec.
    replace (Z.max mem max) with (Z.max (mem + mem_size f) max) by lia.
    apply Hdec; [simpl in Hfuel; lia|lia|lia].
Qed.

Lemma prefix_decodes rest :
  HeaderPrefix_decode (HeaderPrefix_encode
    {| encoded_insert_count := 0; sign_negative := false; delta_base := 0 |} ++ rest)
  = (RetOk {| encoded_insert_count := 0; sign_negative := false; delta_base := 0 |}, rest).
Proof. apply decodes_prefix; cbn; lia. Qed.

(** C40: header blocks round-trip.  Any list of fields with strings below
    2^27 bytes is encoded, without a panic, to a block from which exactly
    these fields are decoded, in order, when their size is within the
    limit; beyond the limit decoding stops as too long. *)
Theorem qpack_roundtrip (fs : list HeaderField) (max_size : Z)
    (Hfields : Forall field_ok fs) (Hsize : total_size fs < 2 ^ 64) (Hmax : 0 <= max_size) :
  exists block, encode_stateless fs = Returns (block, total_size fs) /\
    if total_size fs <=? max_size
    then decode_stateless block max_size
         = Some (RetOk {| fields := fs; size := total_size fs; dyn_ref := false |})
    else exists n, max_size < n /\
         decode_stateless block max_size = Some (RetErr (HeaderTooLong n)).
Proof.
  destruct (encode_lines_spec fs 0) as (block & He & Hd); [done|lia|lia|].
  unfold encode_stateless. cbn [HeaderPrefix_new Z.eqb]. rewrite He. eexists. split; [done|].
  unfold decode_stateless. rewrite prefix_decodes. cbn [HeaderPrefix_get Z.eqb].
  specialize (Hd (length block) max_size [] 0). rewrite Z.max_r, !Z.add_0_l in Hd by lia.
  apply Hd; lia.
Qed.

Definition example_fields : list HeaderField :=
  [{| name := str ":method"; value := str "POST" |}; {| name := str ":path"; value := str "/auth" |};
   {| name := str "hysteria-auth"; value := str "secret" |}].

Lemma qpack_roundtrip_witness :
  exists block, encode_stateless example_fields = Returns (block, total_size example_fields) /\
    decode_stateless block 1000
    = Some (RetOk {| fields := example_fields; size := 136; dyn_ref := false |}).
Proof.
  refine (qpack_roundtrip example_fields 1000 _ _ _); [|reflexivity|lia].
  repeat constructor.
Defined.

(** ** Whatever a peer sends *)

(** A read that takes at least a byte when it succeeds. *)
Definition eats {E A} (c : Dec E A) : Prop :=
  forall buf r buf', c buf = (RetOk r, buf') -> (length buf' < length buf)%nat.

Lemma eats_bind {E A B} (c : Dec E A) (k : A -> Dec E B) :
  eats c -> (forall a, advances (k a)) -> eats (dbind c k).
Proof.
  intros Hc Hk buf r buf' (a & b1 & H1 & H2)%dbind_ok_inv.
  apply Hc in H1. apply Hk, suffix_length in H2. lia.
Qed.

Lemma eats_map_err {E F A} (f : E -> F) (c : Dec E A) : eats c -> eats (map_err f c).
Proof. intros Hc buf r buf' H%map_err_ok. by apply Hc in H. Qed.

Lemma advances_ret {E A} (a : A) : advances (@dret E A a).
Proof. by intros buf r buf' [= <- <-]. Qed.

Lemma advances_fail {E A} (e : E) : advances (@dfail E A e).
Proof. by intros buf r buf' [= <- <-]. Qed.

Lemma advances_usize {A} i (k : Dec ParseError A) : advances k -> advances (usize_checked i k).
Proof. intros Hk. unfold usize_checked. case_match; [apply advances_fail|done]. Qed.

#[local] Hint Resolve advances_ret advances_fail advances_usize advances_bind
  advances_map_err QpackString.advances_decode_string : core.

Lemma eats_int n : eats (QpackInt.decode n).
Proof.
  intros buf [flags v] buf' (b & b1 & H1 & H2)%dbind_ok_inv.
  apply map_err_ok in H1. destruct buf as [|b0 buf]; [done|]. injection H1 as -> ->.
  cbv beta zeta in H2.
  assert (buf' `suffix_of` b1) as Hs.
  { destruct (_ <? _); [by injection H2 as _ _ <-|].
    apply dbind_ok_inv in H2 as (w & b2 & H3 & [= _ _ <-]).
    by apply QpackInt.advances_decode_loop in H3. }
  apply suffix_length in Hs. simpl. lia.
Qed.

Lemma eats_string n : eats (QpackString.decode n).
Proof.
  apply eats_bind; [apply eats_map_err, eats_int|]. intros [flags m] buf r buf'.
  case_match; intros [= <- <-]; [done|apply suffix_drop].
Qed.

Lemma eats_line first : eats (decode_line first).
Proof.
  assert (forall i, advances (static_field i)) as Hst.
  { intros i. unfold static_field. case_match; auto. }
  unfold decode_line. destruct (HeaderBlockField_decode first); try (by intros ??? [=]).
  - apply eats_bind; [apply eats_map_err, eats_bind; [apply eats_map_err, eats_int|]|].
    + intros [f i]. repeat case_match; auto.
    + intros []; auto.
  - apply eats_bind; [apply eats_map_err, eats_bind; [apply eats_map_err, eats_int|]|].
    + intros [f i]. repeat case_match; auto 6.
    + intros []; auto.
  - apply eats_bind; [apply eats_map_err|intros []; auto].
    intros [|b buf] r buf'; [done|]. unfold Literal_decode. case_match; [done|].
    apply eats_bind; [apply eats_map_err, eats_string|]. intros n. auto.
Qed.

(** ** How large a decoded field can be *)

Lemma decode_all_length fuel : forall pos content v,
  Huffman.decode_all fuel pos content = Some (RetOk v) -> (length v < fuel)%nat.
Proof.
  induction fuel as [|fuel IH]; intros pos content v; cbn [Huffman.decode_all]; [done|].
  destruct (Huffman.decode_next _ _ _) as [[[x|]|e] pos']; [|by intros [= <-]; simpl; lia|done].
  destruct (Huffman.decode_all fuel pos' content) as [[w|e]|] eqn:Hw; try done.
  apply IH in Hw. intros [= <-]. simpl. lia.
Qed.

Lemma string_bound n buf v buf' :
  QpackString.decode n buf = (RetOk v, buf') -> len v + len buf' <= 8 * len buf.
Proof.
  unfold QpackString.decode. intros ([flags m] & b1 & H1%map_err_ok%eats_int & H2)%dbind_ok_inv.
  cbv beta iota in H2. destruct (Z.ltb_spec (len b1) m); [done|].
  injection H2 as Hv <-. unfold len in *. rewrite length_drop.
  destruct (Z.land flags 1 =? 0).
  - injection Hv as <-. rewrite length_take. lia.
  - unfold QpackString.collect, Huffman.hpack_decode in Hv.
    destruct (Huffman.decode_all _ _ _) as [[w|e]|] eqn:Hw; try done. injection Hv as ->.
    apply decode_all_length in Hw. rewrite length_take in Hw. lia.
Qed.

Lemma static_sizes : forallb (fun f => mem_size f <=? 128) PREDEFINED_HEADERS = true.
Proof. vm_compute. reflexivity. Qed.

Lemma static_field_bound i buf f buf' :
  static_field i buf = (RetOk f, buf') -> mem_size f <= 128.
Proof.
  unfold static_field. destruct (get i) as [g|] eqn:Hg; [|done]. intros [= <- _].
  apply Z.leb_le, (proj1 (forallb_forall _ _) static_sizes).
  by apply list_elem_of_In, list_elem_of_lookup_2 with (Z.to_nat i).
Qed.

Lemma usize_checked_inv {A} i (k : Dec ParseError A) buf r :
  usize_checked i k buf = r -> r = (RetErr (Integer QpackInt.Overflow), buf) \/ k buf = r.
Proof. unfold usize_checked. case_match; intros <-; auto. Qed.

Lemma name_ref_bound buf i v buf' :
  LiteralWithNameRef_decode buf = (RetOk (NameRefStatic i v), buf') -> len v <= 8 * len buf.
Proof.
  intros ([f j] & b1 & H1%map_err_ok%eats_int & H2)%dbind_ok_inv. cbv beta iota in H2.
  assert (len b1 <= len buf) as Hb by (unfold len; lia).
  destruct (_ =? 5).
  - apply usize_checked_inv in H2 as [?|H2]; [done|].
    apply dbind_ok_inv in H2 as (w & b2 & Hs%map_err_ok%string_bound & [= -> -> _]).
    pose proof (len_nonneg b2). lia.
  - destruct (_ =? 4); [|done]. apply usize_checked_inv in H2 as [?|H2]; [done|].
    by apply dbind_ok_inv in H2 as (w & b2 & _ & [=]).
Qed.

Lemma literal_bound buf n v buf' :
  Literal_decode buf = (RetOk (n, v), buf') -> len n + len v <= 72 * len buf.
Proof.
  unfold Literal_decode. destruct buf as [|b buf]; [done|]. case_match; [done|].
  intros (n' & b1 & Hn%map_err_ok%string_bound & H2)%dbind_ok_inv.
  apply dbind_ok_inv in H2 as (v' & b2 & Hv%map_err_ok%string_bound & [= -> -> _]).
  pose proof (len_nonneg b2). pose proof (len_nonneg n). pose proof (len_nonneg (b :: buf)). lia.
Qed.

Lemma line_bound first buf f buf' :
  decode_line first buf = (RetOk f, buf') -> mem_size f <= 72 * len buf + 256.
Proof.
  pose proof (len_nonneg buf). unfold decode_line.
  destruct (HeaderBlockField_decode first); try done.
  - intros ([i|i] & b1 & _ & H2)%dbind_ok_inv; [|done]. apply static_field_bound in H2. lia.
  - intros ([i v|i v] & b1 & H1%map_err_ok & H2)%dbind_ok_inv; [|done].
    apply name_ref_bound in H1.
    apply dbind_ok_inv in H2 as (g & b2 & Hg%static_field_bound & [= <- _]).
    unfold mem_size in *. cbn [name value with_value]. pose proof (len_nonneg (value g)). lia.
  - intros ([n v] & b1 & H1%map_err_ok%literal_bound & [= <- _])%dbind_ok_inv.
    unfold mem_size, ESTIMATED_OVERHEAD_BYTES. cbn [name value]. lia.
Qed.

Lemma total_size_app fs gs : total_size (fs ++ gs) = total_size fs + total_size gs.
Proof. induction fs as [|f fs IH]; simpl; [done|]. unfold total_size in *. lia. Qed.

Lemma total_size_count fs : 32 * len fs <= total_size fs.
Proof.
  induction fs as [|f fs IH]; [done|]. rewrite len_cons. simpl.
  pose proof (mem_size_pos f). unfold total_size in *. lia.
Qed.

Lemma decode_lines_spec fuel : forall max_size acc buf,
  (length buf <= fuel)%nat -> len buf < 2 ^ 48 -> 0 <= max_size < 2 ^ 62 ->
  total_size acc <= max_size ->
  match decode_lines fuel max_size acc (total_size acc) buf with
  | None => False
  | Some (RetErr _) => True
  | Some (RetOk d) => size d = total_size (fields d) /\ size d <= max_size /\ dyn_ref d = false
  end.
Proof.
  induction fuel as [|fuel IH]; intros max acc [|first buf] Hf Hl Hm Ha; cbn [decode_lines];
    try done; [simpl in Hf; lia|].
  destruct (decode_line first (first :: buf)) as [[f|e] buf'] eqn:Hd.
  2: done.
  pose proof (line_bound _ _ _ _ Hd). apply eats_line in Hd.
  pose proof (mem_size_pos f). pose proof (total_size_nonneg acc).
  rewrite wrap_small by (unfold uint; lia). rewrite Z.gtb_ltb.
  destruct (Z.ltb_spec max (total_size acc + mem_size f)); [done|].
  replace (total_size acc + mem_size f) with (total_size (acc ++ [f]))
    by (rewrite total_size_app; simpl; lia).
  apply IH; [lia|unfold len in *; lia|done|rewrite total_size_app; simpl; lia].
Qed.

(** Decoding a header block ends whatever a peer sends, and what it
    accepts is bounded: the reported size is the size of the fields and
    within the limit, so there are at most [max_size / 32] of them, and none
    of them refers to a dynamic table. *)
Theorem qpack_decode_bounded (buf : bytes) (max_size : Z)
    (Hbuf : len buf < 2 ^ 48) (Hmax : 0 <= max_size < 2 ^ 62) :
  match decode_stateless buf max_size with
  | None => False
  | Some (RetErr _) => True
  | Some (RetOk d) =>
      size d = total_size (fields d) /\ size d <= max_size /\
      32 * len (fields d) <= max_size /\ dyn_ref d = false
  end.
Proof.
  unfold decode_stateless. destruct (HeaderPrefix_decode buf) as [[p|e] buf1] eqn:Hp; [|done].
  assert (length buf1 <= length buf)%nat as Hlen.
  { apply dbind_ok_inv in Hp as ([? c] & b1 & H1%map_err_ok%eats_int & H2).
    cbv beta iota in H2.
    apply dbind_ok_inv in H2 as ([? d] & b2 & H3%map_err_ok%eats_int & H4).
    cbv beta iota in H4. repeat (apply usize_checked_inv in H4 as [?|H4]; [done|]).
    injection H4 as _ <-. lia. }
  cbn [HeaderPrefix_get Z.eqb]. change (0 >? 0) with false. cbn iota.
  pose proof (decode_lines_spec (length buf1) max_size [] buf1) as H.
  destruct (decode_lines _ _ _ _ _) as [[d|e]|]; [|done|].
  - destruct H as (H1 & H2 & H3); [lia|unfold len in *; lia|lia|simpl; lia|].
    pose proof (total_size_count (fields d)). split_and!; [done|done|lia|done].
  - apply H; [lia|unfold len in *; lia|lia|simpl; lia].
Qed.

Lemma qpack_decode_bounded_witness :
  match decode_stateless (zb <$> [0; 0; 0xd4; 0xff; 0x24]) 100 with
  | None => False
  | Some (RetErr _) => True
  | Some (RetOk d) =>
      size d = total_size (fields d) /\ size d <= 100 /\
      32 * len (fields d) <= 100 /\ dyn_ref d = false
  end.
Proof. refine (qpack_decode_bounded (zb <$> [0; 0; 0xd4; 0xff; 0x24]) 100 _ _); [reflexivity|lia]. Defined.


End Qpack.
